(* ===== verification/_CoqProject ===== *)
-Q . S2P
Prelude.v
RStr.v
Mpsc.v
Protocol.v
Room.v
RoomFacts.v
RoomSpec.v
RoomConc.v
Testing.v
RoomTests.v
ProtocolTests.v
Validate.v
RateLimit.v
IpAddr.v
ClientIp.v
Server.v
ServerExamples.v
ServerFacts.v
ClientView.v
ServerProps.v
Ops.v
Interleave.v
InterleaveProps.v
ViewRaces.v
Slots.v
Serve.v
Delivery.v
ServerTests.v
Config.v
CMem.v
Lines.v
SignalingFfi.v
SignalingFacts.v
IpcFfi.v
DaemonFfi.v
DaemonFacts.v
Format.v
Cli.v
CliCommands.v
CliFacts.v
Gtk.v
NativeTests.v
