(* ===== verification/Prelude.v ===== *)
(** * LocalBolt native: verification library

    LocalBolt moves files between devices on a network.  The repository's Rust
    code has three parts, and this library models each of them:

    - a rendezvous server (signal/) through which devices find each other and
      exchange connection signals: a crate of message types
      (signal/protocol/src/lib.rs), a room manager (signal/src/room.rs), a
      connection handler (signal/src/server.rs), an embeddable server with a
      connection limit (signal/src/lib.rs) and its binary (signal/src/main.rs);
    - a C interface for the native shells (native/shared/): the signaling
      client (signaling.rs), the supervision of the transfer daemon (daemon.rs),
      the bridge to the daemon's events (ipc.rs), and strings (lib.rs);
    - two Linux clients of that daemon (native/linux/): a command line
      (cli/src/main.rs) and a GTK window (gtk/src/main.rs).

    ** How the parts meet

    A device registers with the server under a peer code.  The handler validates
    the code ([Validate]), finds the room from the client's address ([ClientIp])
    and adds the peer to it ([Room]); the room manager pushes to the channels of
    the members ([Mpsc]), whose write tasks send the messages ([Protocol]).  On
    the device, the signaling client's callback keeps the list of peers and the
    queue of signals ([SignalingFfi]) that the shell reads through C pointers
    ([CMem]); the shell starts the daemon ([DaemonFfi]), drains its events and
    answers its questions ([IpcFfi]).  The Linux clients do the same without the
    C boundary ([Cli], [CliCommands], [Gtk]).

    ** The files

    Shared: this prelude ([Result] and its [let?], machine widths, enumeration
    over a range, the tactics and hints); [RStr], Rust's [str], [char] and
    integer parsing; [Mpsc], the store of channels and the write task; [Lines],
    what a reader of lines gets of a stream of bytes and timeouts; [Testing], a
    monad for the repository's unit tests.

    - [Protocol]: signal/protocol/src/lib.rs, over the interface [Json] (with
      its laws [JsonLaws]) that states what is used of [serde_json::Value]; the
      instance [JsonTree] shows that the interface has a model.
    - [Room]: signal/src/room.rs.  The state [world] is the room table, the
      session counter and the channels.  [RoomFacts] has the invariant and each
      operation on every branch, [RoomSpec] the refinement of a finite map from
      (room, code) to peers, [RoomConc] the methods cut at their accesses to the
      shared table, with the steps of any number of calls interleaved.
    - [Validate], [RateLimit], [IpAddr] (with the standard library's parser and
      [Display]), [ClientIp], [Server]: signal/src/server.rs, from the bytes
      peeked on a socket to the cleanup of a connection.  [handle] is one event
      of a connection, [server_step] the system of all connections.
      [ServerFacts], [ClientView] and [ServerProps] have its theorems,
      [ServerExamples] the runs on which their witnesses are evaluated.
    - [Ops], [Interleave], [InterleaveProps], [ViewRaces]: the handler of
      signal/src/server.rs again, as programs over the single accesses to shared
      state, and the system in which the accesses of all handlers interleave.
      Its invariant carries a ghost state per connection, and a rule per access;
      [ViewRaces] follows what is queued for one client.
    - [Slots], [Serve]: signal/src/lib.rs.  [Slots] is the connection counter;
      [Serve] the whole server: the accept loop of [run], the stages of
      [handle_connection] for every stream and the interleaved handlers in one
      step relation, its steps labelled with the client they come from.
      [Delivery] follows one channel through the executions of [Serve].
      [Config]: signal/src/main.rs.
    - [RoomTests], [ProtocolTests], [ServerTests], [NativeTests]: the unit tests
      of the repository, translated one by one and run on the models.
    - [CMem], [SignalingFfi], [SignalingFacts], [IpcFfi], [DaemonFfi],
      [DaemonFacts]: native/shared/src.  A handle is its state, null is [None];
      what is handed to the shell lives in a heap where freeing twice, or
      freeing what is not there, is undefined.
    - [Format] (binary floating point and sizes), [Cli], [CliCommands],
      [CliFacts]: native/linux/cli/src/main.rs; [Gtk]: native/linux/gtk/src/main.rs.
      A command is the list of its effects; an event that panics is [None], and
      a run of the event loop says whether it ended in a panic.

    ** What the theorems show

    - Rooms: the manager is a registry (room_manager_refines), under every
      interleaving rooms keep unique codes and their capacity
      (interleaving_safe); a reconnection takes the code over and the teardown
      of the replaced connection changes nothing (reconnect_takes_over); the
      cross-room lookup answers only when one room has the code.  Two windows
      between a read and a write are open, and are exhibited
      (registration_lost, room_limit_overshoot).
    - Server: no peer outlives its connection (no_ghost_peers,
      closing_cleans_up); what a client is told adds up to the membership of its
      room (views_track_rooms); a signal reaches at most the one client it is
      addressed to, in the sender's room, under the sender's registered code
      (signal_stays_in_room); before it registers a connection disturbs nobody;
      what is registered was validated; two behaviours of the teardown are
      exhibited (refusal_may_be_lost, replaced_connection_still_relays).
    - Concurrency: the programs of [Ops], run alone, are the handler (the lemma
      handler_alone); interleaved at every access they keep the table well
      formed and leave no ghosts (no_ghosts_interleaved), with no more rooms or
      peers than connections at work (table_within_connections).  A client's
      view of a code changes only when the code changes hands
      (view_follows_holder); but the list a newcomer is sent can be overtaken by
      news of its room, and what it then sees wrong stays wrong
      (first_view_races).
    - The whole server: the slots bound connections, rooms and peers
      (served_within_limits); no increment or decrement of a machine integer
      wraps (machine_integers_in_range); in fair executions the accept loop always
      gets back to accepting (accept_loop_returns) and what is queued for a live
      client is written in order (queue_is_delivered); silent clients keep their
      slots for ever (silent_clients_starve).
    - Limits: the rate of a connection (rate_limit_bound, closes_at_third_refusal),
      the number of connections (slots_bounded, acquire_decides).
    - Conformance: as examples, the models pass the unit tests of the code they
      model (room_tests_pass, protocol_tests_pass, server_tests_pass,
      native_tests_pass).  The tests of the client address check a copy of its
      logic; where it differs from the handler is extracted_raw_ip_differs.
    - Trust: who can choose a room by headers (client_ip_authority), which
      addresses are private (is_private_ipv4_nets and its IPv6 companion), what
      the configuration means (configure_ipv4, trusted_proxies_exact), and that
      both code validators agree (codes_normal_form).
    - C interface: pointers handed out are freed exactly once and read back as
      what they were (peer_handover, string_handover); the peer list is the
      history's (peer_list_tracks); no signal is lost on its way to the shell
      (signals_delivered), of the daemon's events the first thousand are kept
      (ipc_events_delivered); which daemon is started and how
      (daemon_lookup_order, daemon_start_args), what is kept of its output and
      when that ends (recent_stderr_exact), what may be written for it (allow_quic_exact).
    - Linux clients: consent fails closed (decisions_fail_closed,
      dialogs_decide), which lines of the daemon are handled and which end the
      loop (event_lines_all), whom stop kills (stop_kills_only), that start ends
      (start_terminates), that a file is handed over once and under which name
      (send_once), what the window shows
      (window_tracks_events), how far off a size can be (format_bytes_accurate).

    ** Choices and bounds

    Integers are [Z] within their width, and an operation that wraps says so.
    Strings are UTF-8 bytes.  A path that the operating system gives is bytes, and
    where the code takes its text ([to_string_lossy], [Display]) so does the
    model; a path the code builds from a [String] is text already.  The clock is an argument.  One event of a
    connection is one atomic step of [server_step]; in [sys_act] and [serve_step]
    a step is one access: an operation under one entry lock of the room table, an
    atomic operation on a counter, one use of a channel or of a task handle.  The
    broadcast of a room operation happens under the entry's lock and is part of
    its step.  Counting the rooms and listing them are one access each, though
    the concurrent map does both shard by shard: what served_within_limits says
    of the room limit is about the number of rooms of a moment.  The theorems on the server assume that fewer than 2^64 - 2 steps
    happened ([young]), so that the session counter has not wrapped; a witness
    meets the bound.  Executions are infinite sequences of states; fairness is a
    hypothesis of the theorem that needs it.  Fuel: [acquire_alone] 2 (a load and a compare-exchange, which
    acquire_decides shows to be enough undisturbed), [wait_ready] 42 (ten
    seconds of quarter-second turns, which start_terminates shows to be enough),
    [scale] 4 (the loop's own bound, one less than the units), [ancestors] the
    number of components of the path.  [poll] counts the turns the source counts.

    ** What is not modelled

    Sockets, TLS and the WebSocket handshake, process creation, the file system
    beyond which paths exist and are written, the toolkit of the GTK client, and
    argument parsing by clap: their answers are inputs.  serde_json, bolt_core
    and bolt_app_core are other crates: what is used of them is a parameter or
    an interface with its laws; tests of what they compute are left out.  A
    handler that panics is not modelled: the server's code has no panic the
    models reach.  Logging is left out of the server and kept in the
    clients, where it is what the user sees.  The Swift and Windows shells are
    not Rust. *)

From Stdlib Require Export Ascii ZArith Lia.
From Stdlib Require Import DecimalString.
From stdpp Require Export gmap strings list fin_maps.

#[export] Set Default Goal Selector "!".
#[export] Set Warnings "-clear-no-such-hyp,-register-all".

Declare Scope bolt_scope.
Delimit Scope bolt_scope with bolt.

(** ** Rust's [Result] *)

(** [Result<T, E>] of the Rust standard library. *)
Inductive Result (T E : Type) : Type :=
| Ok (t : T)
| Err (e : E).
Arguments Ok {T E} _.
Arguments Err {T E} _.

(** The [?] operator: return early on an error. *)
Notation "'let?' p ':=' e 'in' k" :=
  (match e with Ok p => k | Err err => Err err end)
  (at level 10, p pattern, e at level 100, k at level 200) : bolt_scope.

(** [Result::is_err] *)
Definition is_err {T E} (r : Result T E) : bool :=
  match r with Ok _ => false | Err _ => true end.

(** [Result::ok] *)
Definition result_ok {T E} (r : Result T E) : option T :=
  match r with Ok t => Some t | Err _ => None end.

(** ** Machine-width integers *)

(** Unsigned integers of a fixed width are elements of [Z] in range; an
    operation that wraps says so with [wrap_u64]. *)
Definition u64_modulus : Z := 18446744073709551616%Z.
Definition wrap_u64 (z : Z) : Z := (z mod u64_modulus)%Z.

Lemma wrap_u64_small z : (0 <= z < u64_modulus)%Z -> wrap_u64 z = z.
Proof. intros ?. by apply Z.mod_small. Qed.

Lemma wrap_u64_range z : (0 <= wrap_u64 z < u64_modulus)%Z.
Proof. by apply Z.mod_pos_bound. Qed.

(** The length of a [String], [&str] or [Vec] as a [usize]. *)
Definition usize_len (s : string) : Z := Z.of_nat (String.length s).
Definition vec_len {A} (l : list A) : Z := Z.of_nat (length l).

(** Decimal rendering of an unsigned integer by [format!]. *)
Definition show_Z (z : Z) : string :=
  NilZero.string_of_uint (N.to_uint (Z.to_N z)).

(** A decidable fact about the first [n] naturals, by evaluation. *)
Lemma forall_below (P : Z -> Prop) (n : nat) `{Hdec : forall z, Decision (P z)} :
  forallb (fun k => bool_decide (P (Z.of_nat k))) (seq 0 n) = true ->
  forall z, (0 <= z < Z.of_nat n)%Z -> P z.
Proof.
  intros Hall z Hz. rewrite forallb_forall in Hall.
  specialize (Hall (Z.to_nat z)). rewrite Z2Nat.id in Hall by lia.
  eapply bool_decide_eq_true_1, Hall, in_seq. lia.
Qed.

(** The same over [2^k] numbers, by halves. *)
Fixpoint all_pow2 (P : Z -> bool) (lo : Z) (k : nat) : bool :=
  match k with
  | O => P lo
  | S k => all_pow2 P lo k && all_pow2 P (lo + 2 ^ Z.of_nat k)%Z k
  end.

Lemma forall_pow2 (P : Z -> Prop) (k : nat) `{Hdec : forall z, Decision (P z)} :
  all_pow2 (fun z => bool_decide (P z)) 0 k = true ->
  forall z, (0 <= z < 2 ^ Z.of_nat k)%Z -> P z.
Proof.
  assert (Hgen : forall lo, all_pow2 (fun z => bool_decide (P z)) lo k = true ->
    forall z, (lo <= z < lo + 2 ^ Z.of_nat k)%Z -> P z).
  { induction k as [|k IH]; intros lo; cbn [all_pow2].
    - intros Hp%bool_decide_eq_true_1 z Hz. cbn in Hz. by replace z with lo by lia.
    - intros [H1 H2]%andb_prop z Hz.
      rewrite Nat2Z.inj_succ, Z.pow_succ_r in Hz by lia.
      destruct (Z.lt_ge_cases z (lo + 2 ^ Z.of_nat k)).
      + apply (IH lo H1). lia.
      + apply (IH _ H2). lia. }
  intros Hall z Hz. by apply (Hgen 0%Z).
Qed.

(** ** Tactics *)

(** Case analysis on every [match] or [if] of the goal, keeping equations. *)
Ltac split_match :=
  repeat (case_match; simplify_eq/=).

(** Boolean comparisons on [Z] in the context become propositions. *)
Ltac z_bool :=
  repeat match goal with
  | H : (_ <? _)%Z = true |- _ => apply Z.ltb_lt in H
  | H : (_ <? _)%Z = false |- _ => apply Z.ltb_ge in H
  | H : (_ <=? _)%Z = true |- _ => apply Z.leb_le in H
  | H : (_ <=? _)%Z = false |- _ => apply Z.leb_gt in H
  | H : (_ =? _)%Z = true |- _ => apply Z.eqb_eq in H
  | H : (_ =? _)%Z = false |- _ => apply Z.eqb_neq in H
  | H : (_ >? _)%Z = _ |- _ => rewrite Z.gtb_ltb in H
  | H : (_ >=? _)%Z = _ |- _ => rewrite Z.geb_leb in H
  | H : (_ && _) = true |- _ => apply andb_prop in H as [? ?]
  | H : (_ && _) = false |- _ => apply andb_false_iff in H
  | H : (_ || _) = false |- _ => apply orb_false_elim in H as [? ?]
  | H : (_ || _) = true |- _ => apply orb_prop in H
  | H : negb _ = true |- _ => apply negb_true_iff in H
  | H : negb _ = false |- _ => apply negb_false_iff in H
  end.

Create HintDb bolt.
#[export] Hint Constructors NoDup Forall : bolt.

(** ** Lists *)

(** [Vec::retain] and the other filters of the sources use boolean closures. *)
Definition retain {A} (f : A -> bool) (l : list A) : list A :=
  filter (fun x => f x = true) l.

#[global] Arguments retain : simpl never.

Lemma elem_of_retain {A} (f : A -> bool) l x :
  x ∈ retain f l <-> x ∈ l /\ f x = true.
Proof. unfold retain. rewrite list_elem_of_filter. tauto. Qed.

Lemma retain_length_le {A} (f : A -> bool) l : length (retain f l) <= length l.
Proof. apply length_filter. Qed.

Lemma retain_id {A} (f : A -> bool) l :
  (forall x, x ∈ l -> f x = true) -> retain f l = l.
Proof.
  intros Hf. unfold retain. induction l as [|a l IH]; [done|].
  rewrite filter_cons_True; [|apply Hf; set_solver].
  f_equal. apply IH. set_solver.
Qed.

Lemma retain_length_lt {A} (f : A -> bool) l :
  length (retain f l) < length l <-> exists x, x ∈ l /\ f x = false.
Proof.
  unfold retain. induction l as [|a l IH].
  - split; [cbn; lia|]. intros (x & Hx & _). by apply elem_of_nil in Hx.
  - destruct (f a) eqn:Ea.
    + rewrite filter_cons_True by done. rewrite !length_cons, <-Nat.succ_lt_mono, IH.
      split; intros (x & Hx & Ex); exists x; [split; [by right|]; tauto|].
      apply elem_of_cons in Hx as [->|Hx]; [congruence|done].
    + rewrite filter_cons_False, length_cons by congruence.
      pose proof (retain_length_le f l) as Hle. unfold retain in Hle.
      split; [|lia]. intros _. exists a. by split; [left|].
Qed.

Lemma retain_nodup_fmap {A B} (g : A -> B) (f : A -> bool) l :
  NoDup (g <$> l) -> NoDup (g <$> retain f l).
Proof.
  unfold retain. induction l as [|a l IH]; [done|]. rewrite fmap_cons.
  intros [Ha Hl]%NoDup_cons. destruct (f a) eqn:Ea.
  - rewrite filter_cons_True, fmap_cons by done. constructor; [|auto].
    intros (x & Hax & Hx)%list_elem_of_fmap. apply list_elem_of_filter in Hx as [_ Hx].
    apply Ha. rewrite Hax. by apply list_elem_of_fmap_2.
  - rewrite filter_cons_False by congruence. auto.
Qed.

(** [iter().position(pred)] *)
Fixpoint position {A} (f : A -> bool) (l : list A) : option nat :=
  match l with
  | [] => None
  | x :: l => if f x then Some 0 else S <$> position f l
  end.

(** [Vec::remove(i)] for an index in range. *)
Definition vec_remove {A} (i : nat) (l : list A) : list A := delete i l.

Lemma position_Some {A} (f : A -> bool) l i :
  position f l = Some i ->
  exists l1 x l2, l = l1 ++ x :: l2 /\ length l1 = i /\ f x = true /\
    Forall (fun y => f y = false) l1.
Proof.
  revert i. induction l as [|a l IH]; intros i; cbn; [done|].
  destruct (f a) eqn:Ea.
  - intros [= <-]. exists [], a, l. auto with bolt.
  - intros (j & Hj & ->)%fmap_Some. destruct (IH j Hj) as (l1 & x & l2 & -> & <- & Hx & Hl1).
    exists (a :: l1), x, l2. auto with bolt.
Qed.

Lemma position_None {A} (f : A -> bool) l :
  position f l = None <-> Forall (fun y => f y = false) l.
Proof.
  induction l as [|a l IH]; cbn; [by split; auto with bolt|].
  destruct (f a) eqn:Ea.
  - split; [done|]. intros H. apply Forall_cons_1 in H as [? _]. congruence.
  - rewrite fmap_None, Forall_cons, IH. tauto.
Qed.

(** Removing the first hit is removing all hits when hits are unique. *)
Lemma position_remove_retain {A B} `{EqDecision B} (g : A -> B) (b : B) l :
  NoDup (g <$> l) ->
  match position (fun x => bool_decide (g x = b)) l with
  | Some i => vec_remove i l
  | None => l
  end = retain (fun x => negb (bool_decide (g x = b))) l.
Proof.
  intros Hnd. destruct (position _ l) as [i|] eqn:Hp.
  - apply position_Some in Hp as (l1 & x & l2 & -> & <- & Hx & Hl1).
    apply bool_decide_eq_true in Hx. subst b.
    unfold vec_remove. rewrite delete_middle. unfold retain.
    rewrite filter_app, filter_cons_False; [|by rewrite bool_decide_eq_true_2].
    rewrite fmap_app, fmap_cons in Hnd.
    apply NoDup_app in Hnd as (_ & _ & [Hx2 _]%NoDup_cons).
    f_equal; symmetry; apply retain_id; intros y Hy; apply negb_true_iff.
    + rewrite Forall_forall in Hl1. by apply Hl1.
    + apply bool_decide_eq_false. intros Heq. apply Hx2.
      apply list_elem_of_fmap. by exists y.
  - apply position_None in Hp. symmetry. apply retain_id. intros y Hy.
    rewrite Forall_forall in Hp. by rewrite (Hp y Hy).
Qed.

(** Counting along an injective relation into a finite set. *)
Lemma length_injects {A} (R : A -> nat -> Prop) (l : list A) (X : gset nat) :
  NoDup l -> (forall x, x ∈ l -> exists y, y ∈ X /\ R x y) ->
  (forall x x' y, R x y -> R x' y -> x = x') -> (length l <= size X)%nat.
Proof.
  intros Hnd Hin Hinj. revert X Hin. induction Hnd as [|x l Hx Hnd IH]; intros X Hin; [cbn; lia|].
  destruct (Hin x) as (y & Hy & Hxy); [by left|].
  assert (Hl : (length l <= size (X ∖ {[y]}))%nat).
  { apply IH. intros x' Hx'. destruct (Hin x') as (y' & Hy' & Hxy'); [by right|]. exists y'.
    split; [|done]. apply elem_of_difference. split; [done|]. intros ->%elem_of_singleton.
    apply Hx. by rewrite (Hinj x x' y). }
  rewrite size_difference in Hl by set_solver. rewrite size_singleton in Hl. cbn.
  assert (size X <> 0)%nat; [|lia]. intros E%size_empty_inv. set_solver.
Qed.
