(* ===== verification/RStr.v ===== *)
(** * Rust strings

    The operations of [str], [char] and integer parsing the sources call.  A
    Rust [String] is its sequence of UTF-8 bytes.  Every character the sources
    compare with is ASCII and no byte of a multi-byte character is, so the
    per-character closures of the sources act byte by byte. *)

From S2P Require Import Prelude.

Open Scope Z_scope.

#[global] Arguments Ascii.eqb : simpl never.
#[global] Arguments nat_of_ascii : simpl never.

(** ** Characters *)

Definition byte_Z (c : ascii) : Z := Z.of_nat (nat_of_ascii c).

Definition in_range (lo hi : Z) (c : ascii) : bool :=
  (lo <=? byte_Z c) && (byte_Z c <=? hi).

Definition newline : ascii := "010"%char.
Definition carriage_return : ascii := "013"%char.

(** [char::is_ascii_digit], [is_ascii_alphanumeric], [is_ascii_hexdigit] *)
Definition is_ascii_digit (c : ascii) : bool := in_range 48 57 c.
Definition is_ascii_alphanumeric (c : ascii) : bool :=
  is_ascii_digit c || in_range 65 90 c || in_range 97 122 c.
Definition is_ascii_hexdigit (c : ascii) : bool :=
  is_ascii_digit c || in_range 65 70 c || in_range 97 102 c.

(** [u8::to_ascii_lowercase] *)
Definition ascii_lower (c : ascii) : ascii :=
  if in_range 65 90 c then ascii_of_nat (nat_of_ascii c + 32) else c.

(** [char::to_digit(radix)] for radix 10 and 16 *)
Definition to_digit (radix : Z) (c : ascii) : option Z :=
  let d :=
    if is_ascii_digit c then Some (byte_Z c - 48)
    else if in_range 97 122 c then Some (byte_Z c - 87)
    else if in_range 65 90 c then Some (byte_Z c - 55)
    else None in
  match d with
  | Some d => if d <? radix then Some d else None
  | None => None
  end.

(** ** Whole strings *)

(** [s.chars().filter(f).collect()] *)
Fixpoint str_filter (f : ascii -> bool) (s : string) : string :=
  match s with
  | EmptyString => EmptyString
  | String c s => if f c then String c (str_filter f s) else str_filter f s
  end.

(** [s.chars().all(f)] *)
Fixpoint str_all (f : ascii -> bool) (s : string) : bool :=
  match s with
  | EmptyString => true
  | String c s => f c && str_all f s
  end.

(** [s.is_empty()] *)
Definition str_is_empty (s : string) : bool :=
  match s with EmptyString => true | _ => false end.

(** [str::to_ascii_lowercase] *)
Fixpoint to_ascii_lowercase (s : string) : string :=
  match s with
  | EmptyString => EmptyString
  | String c s => String (ascii_lower c) (to_ascii_lowercase s)
  end.

(** [str::starts_with] *)
Definition starts_with (pre s : string) : bool := String.prefix pre s.

(** [str::contains] *)
Fixpoint str_contains (needle s : string) : bool :=
  String.prefix needle s ||
  match s with
  | EmptyString => false
  | String _ s => str_contains needle s
  end.

(** [str::split(c)]: never empty, one piece more than there are separators. *)
Fixpoint str_split (sep : ascii) (s : string) : list string :=
  match s with
  | EmptyString => [EmptyString]
  | String c s =>
    if Ascii.eqb c sep then EmptyString :: str_split sep s
    else match str_split sep s with
         | [] => [String c EmptyString]
         | w :: ws => String c w :: ws
         end
  end.

(** [[String]::join(sep)] *)
Fixpoint str_join (sep : string) (l : list string) : string :=
  match l with
  | [] => EmptyString
  | [w] => w
  | w :: ws => w +:+ sep +:+ str_join sep ws
  end.

(** ** [str::trim] *)

(** One [char::is_whitespace] character, in UTF-8, at the front of a byte
    sequence: the rest after it, or [None].  With [fwd = false] the sequence is
    reversed, for [trim_end]. *)
Definition ws1 (c : ascii) : bool := in_range 9 13 c || (byte_Z c =? 32).
Definition ws2 (c1 c2 : ascii) : bool :=
  (byte_Z c1 =? 194) && ((byte_Z c2 =? 133) || (byte_Z c2 =? 160)).
Definition ws3 (c1 c2 c3 : ascii) : bool :=
  ((byte_Z c1 =? 225) && (byte_Z c2 =? 154) && (byte_Z c3 =? 128)) ||
  ((byte_Z c1 =? 226) && (byte_Z c2 =? 128) &&
     (in_range 128 138 c3 || in_range 168 169 c3 || (byte_Z c3 =? 175))) ||
  ((byte_Z c1 =? 226) && (byte_Z c2 =? 129) && (byte_Z c3 =? 159)) ||
  ((byte_Z c1 =? 227) && (byte_Z c2 =? 128) && (byte_Z c3 =? 128)).

Fixpoint trim_bytes (fwd : bool) (l : list ascii) : list ascii :=
  match l with
  | c1 :: l1 =>
    if ws1 c1 then trim_bytes fwd l1
    else match l1 with
    | c2 :: l2 =>
      if (if fwd then ws2 c1 c2 else ws2 c2 c1) then trim_bytes fwd l2
      else match l2 with
      | c3 :: l3 =>
        if (if fwd then ws3 c1 c2 c3 else ws3 c3 c2 c1) then trim_bytes fwd l3
        else l
      | [] => l
      end
    | [] => l
    end
  | [] => []
  end.

Definition str_trim (s : string) : string :=
  String.string_of_list_ascii
    (rev (trim_bytes false (rev (trim_bytes true (String.list_ascii_of_string s))))).

(** ** Unsigned integers: [str::parse::<uN>()] *)

Fixpoint parse_digits (max acc : Z) (s : string) : option Z :=
  match s with
  | EmptyString => Some acc
  | String c s =>
    match to_digit 10 c with
    | Some d =>
      let acc' := acc * 10 + d in
      if acc' <=? max then parse_digits max acc' s else None
    | None => None
    end
  end.

(** A single leading [+] is accepted, an empty digit sequence is not. *)
Definition parse_uint (max : Z) (s : string) : option Z :=
  match s with
  | EmptyString => None
  | String c rest =>
    if Ascii.eqb c "+"%char then
      match rest with EmptyString => None | _ => parse_digits max 0 rest end
    else parse_digits max 0 s
  end.

Definition parse_u8 : string -> option Z := parse_uint 255.
Definition parse_u16 : string -> option Z := parse_uint 65535.
Definition parse_usize : string -> option Z := parse_uint (u64_modulus - 1).

(** ** Lemmas *)

Lemma str_app_assoc (s1 s2 s3 : string) : (s1 +:+ s2) +:+ s3 = s1 +:+ (s2 +:+ s3).
Proof.
  induction s1 as [|c s1 IH]; [done|].
  change ((String c s1 +:+ s2) +:+ s3) with (String c ((s1 +:+ s2) +:+ s3)). by rewrite IH.
Qed.

Lemma str_app_empty (s : string) : s +:+ EmptyString = s.
Proof.
  induction s as [|c s IH]; [done|].
  change (String c s +:+ EmptyString) with (String c (s +:+ EmptyString)). by rewrite IH.
Qed.

Lemma str_filter_length f s :
  (String.length (str_filter f s) <= String.length s)%nat.
Proof. induction s as [|c s IH]; cbn; [done|]. destruct (f c); cbn; lia. Qed.

Lemma str_filter_all f s : str_all f (str_filter f s) = true.
Proof.
  induction s as [|c s IH]; cbn; [done|].
  destruct (f c) eqn:E; cbn; [by rewrite E|done].
Qed.

Lemma str_filter_id f s : str_all f s = true -> str_filter f s = s.
Proof.
  induction s as [|c s IH]; cbn; [done|]. intros [Hc Hs]%andb_prop.
  rewrite Hc. by rewrite IH.
Qed.

Lemma str_filter_idemp f s : str_filter f (str_filter f s) = str_filter f s.
Proof. apply str_filter_id, str_filter_all. Qed.

Lemma str_all_impl (f g : ascii -> bool) s :
  (forall c, f c = true -> g c = true) -> str_all f s = true -> str_all g s = true.
Proof.
  intros Hfg. induction s as [|c s IH]; cbn; [done|].
  intros [Hc Hs]%andb_prop. by rewrite Hfg, IH.
Qed.

Lemma str_is_empty_spec s : str_is_empty s = true <-> s = EmptyString.
Proof. by destruct s. Qed.

Lemma parse_digits_range max acc s n :
  0 <= acc <= max -> parse_digits max acc s = Some n -> 0 <= n <= max.
Proof.
  revert acc. induction s as [|c s IH]; cbn; intros acc Hacc; [intros [= <-]; lia|].
  destruct (to_digit 10 c) as [d|] eqn:Ed; [|done].
  destruct (acc * 10 + d <=? max) eqn:El; [|done].
  apply IH. apply Z.leb_le in El. split; [|done].
  assert (0 <= d); [|lia].
  unfold to_digit, is_ascii_digit, in_range in Ed.
  repeat case_match; simplify_eq; z_bool; lia.
Qed.

Lemma parse_uint_range max s n :
  0 <= max -> parse_uint max s = Some n -> 0 <= n <= max.
Proof.
  intros Hm. unfold parse_uint. repeat case_match; try done;
    by apply parse_digits_range.
Qed.

Lemma str_split_nonempty sep s : str_split sep s <> [].
Proof. destruct s; cbn; [done|]. by repeat case_match. Qed.

Definition lacks (sep : ascii) (s : string) : bool :=
  str_all (fun c => negb (Ascii.eqb c sep)) s.

Lemma str_split_lacks sep s : lacks sep s = true -> str_split sep s = [s].
Proof.
  unfold lacks. induction s as [|c s IH]; cbn; [done|].
  intros [Hc%negb_true_iff Hs]%andb_prop. by rewrite Hc, IH.
Qed.

Lemma str_split_app sep w s :
  lacks sep w = true ->
  str_split sep (w +:+ String sep s) = w :: str_split sep s.
Proof.
  unfold lacks. induction w as [|c w IH].
  - intros _. change (EmptyString +:+ String sep s) with (String sep s).
    cbn. by rewrite Ascii.eqb_refl.
  - change (String c w +:+ String sep s) with (String c (w +:+ String sep s)).
    cbn. intros [Hc%negb_true_iff Hs]%andb_prop. by rewrite Hc, IH.
Qed.

(** Joining lines and splitting them again gives the lines back. *)
Lemma str_split_join sep l :
  l <> [] -> Forall (fun w => lacks sep w = true) l ->
  str_split sep (str_join (String sep EmptyString) l) = l.
Proof.
  intros Hne Hl. induction Hl as [|w l Hw Hl IH]; [done|].
  destruct l as [|w' l]; [by apply str_split_lacks|].
  change (str_join _ (w :: w' :: l))
    with (w +:+ String sep (str_join (String sep EmptyString) (w' :: l))).
  rewrite str_split_app by done. by rewrite IH.
Qed.

Lemma lacks_app c s t : lacks c (s +:+ t) = lacks c s && lacks c t.
Proof.
  unfold lacks. induction s as [|x s IH]; [done|].
  change (String x s +:+ t) with (String x (s +:+ t)). cbn [str_all].
  by rewrite IH, andb_assoc.
Qed.

Lemma lacks_join c sep l :
  lacks c sep = true -> Forall (fun w => lacks c w = true) l -> lacks c (str_join sep l) = true.
Proof.
  intros Hsep Hl. induction Hl as [|w l Hw Hl IH]; [done|].
  destruct l as [|w' l]; [done|].
  change (str_join sep (w :: w' :: l)) with (w +:+ (sep +:+ str_join sep (w' :: l))).
  by rewrite !lacks_app, Hw, Hsep, IH.
Qed.

#[export] Hint Resolve str_filter_all str_filter_idemp : bolt.
