(* ===== verification/Mpsc.v ===== *)
(** * Unbounded channels and the per-connection write task

    The store of [tokio::sync::mpsc::unbounded_channel]s the server allocates,
    one per connection.  A sender clone is the channel's index in the store, so
    that every clone of a sender (the one in a room's [PeerInfo], the one the
    connection handler keeps) pushes to the same queue.  The receiving end is
    owned by the write task of [handle_connection], which forwards the queue to
    the WebSocket sink. *)

From S2P Require Import Prelude RStr.

(** [UnboundedSender]: a clone names its channel. *)
Abbreviation sender := nat (only parsing).

Section Mpsc.
Context {M : Type}.

(** One channel: the messages not yet received, whether the receiver (the write
    task) is still there, whether the task has been asked to abort, and what
    the task has written to the socket. *)
Record chan := Chan {
  ch_queue : list M;
  ch_rx : bool;
  ch_abort : bool;
  ch_wire : list string;
}.

Definition new_chan : chan := Chan [] true false [].

Definition push (ms : list M) (ch : chan) : chan :=
  if ch_rx ch then Chan (ch_queue ch ++ ms) true (ch_abort ch) (ch_wire ch) else ch.

Arguments push : simpl never.

(** [UnboundedSender::send]: an error when the receiver has been dropped. *)
Definition send (tx : sender) (m : M) (cs : gmap nat chan) :
    Result unit unit * gmap nat chan :=
  match cs !! tx with
  | Some ch => if ch_rx ch then (Ok tt, <[tx := push [m] ch]> cs) else (Err tt, cs)
  | None => (Err tt, cs)
  end.

(** [let _ = tx.send(m)] *)
Definition send_ (tx : sender) (m : M) (cs : gmap nat chan) : gmap nat chan :=
  (send tx m cs).2.

(** [for tx in txs { let _ = tx.send(m.clone()) }] *)
Fixpoint send_all (txs : list sender) (m : M) (cs : gmap nat chan) : gmap nat chan :=
  match txs with
  | [] => cs
  | tx :: txs => send_all txs m (send_ tx m cs)
  end.

(** ** The write task *)

Context (to_string : M -> option string).

(** One turn of the write task's loop when a message is queued and the sink
    accepts it; a message that does not serialise is logged and skipped. *)
Definition task_forward (ch : chan) : option chan :=
  if ch_rx ch then
    match ch_queue ch with
    | [] => None
    | m :: q =>
      Some (Chan q true (ch_abort ch)
              (match to_string m with
               | Some json => ch_wire ch ++ [json]
               | None => ch_wire ch
               end))
    end
  else None.

(** The task ends, dropping the receiver and what is still queued: after a send
    error of the sink, or because of an abort. *)
Definition task_end (ch : chan) : chan := Chan [] false (ch_abort ch) (ch_wire ch).

(** [write_task.abort()]: takes effect when the task next yields. *)
Definition abort (tx : sender) (cs : gmap nat chan) : gmap nat chan :=
  alter (fun ch => Chan (ch_queue ch) (ch_rx ch) true (ch_wire ch)) tx cs.

(** What the scheduler can do with a write task. *)
Inductive task_step : chan -> chan -> Prop :=
| task_step_forward ch ch' : task_forward ch = Some ch' -> task_step ch ch'
| task_step_sink_error ch m q :
    ch_rx ch = true -> ch_queue ch = m :: q -> task_step ch (task_end ch)
| task_step_aborted ch :
    ch_rx ch = true -> ch_abort ch = true -> task_step ch (task_end ch).

(** ** Lemmas *)

Definition occurrences (c : nat) (txs : list sender) : nat :=
  length (filter (fun tx => tx = c) txs).

Lemma push_nil ch : push [] ch = ch.
Proof. destruct ch as [q [] a w]; unfold push; cbn; [by rewrite app_nil_r|done]. Qed.

Lemma push_push ms ms' ch : push ms' (push ms ch) = push (ms ++ ms') ch.
Proof. destruct ch as [q [] a w]; unfold push; cbn; [by rewrite app_assoc|done]. Qed.

Lemma send__lookup tx m cs c :
  send_ tx m cs !! c = (if decide (tx = c) then push [m] <$> cs !! c else cs !! c).
Proof.
  unfold send_, send. destruct (cs !! tx) as [ch|] eqn:Htx.
  - destruct (ch_rx ch) eqn:Hrx; cbn; case_decide; subst.
    + by rewrite lookup_insert_eq, Htx.
    + by rewrite lookup_insert_ne.
    + rewrite Htx. unfold push. cbn. by rewrite Hrx.
    + done.
  - case_decide; subst; cbn; [by rewrite Htx|done].
Qed.

(** A broadcast appends to a channel one copy per occurrence of its sender, and
    leaves every other channel alone. *)
Lemma send_all_lookup txs m cs c :
  send_all txs m cs !! c = push (replicate (occurrences c txs) m) <$> cs !! c.
Proof.
  revert cs. induction txs as [|tx txs IH]; intros cs; cbn [send_all].
  - cbn. destruct (cs !! c) as [ch|]; [cbn; by rewrite push_nil|done].
  - rewrite IH, send__lookup. unfold occurrences.
    destruct (decide (tx = c)) as [->|Hne].
    + rewrite filter_cons_True, length_cons, replicate_S by done.
      destruct (cs !! c); cbn; [by rewrite push_push|done].
    + by rewrite filter_cons_False.
Qed.

Lemma occurrences_notin c txs : c ∉ txs -> occurrences c txs = 0%nat.
Proof.
  intros Hc. unfold occurrences. induction txs as [|tx txs IH]; [done|].
  rewrite not_elem_of_cons in Hc. rewrite filter_cons_False; [|naive_solver].
  apply IH. naive_solver.
Qed.

Lemma occurrences_nodup c txs : NoDup txs -> c ∈ txs -> occurrences c txs = 1%nat.
Proof.
  unfold occurrences. induction 1 as [|tx txs Htx Hnd IH]; [by intros ?%elem_of_nil|].
  intros [->|Hc]%elem_of_cons.
  - rewrite filter_cons_True, length_cons by done.
    pose proof (occurrences_notin tx txs Htx) as H0. unfold occurrences in H0. lia.
  - rewrite filter_cons_False; [auto|]. by intros ->.
Qed.

Lemma send_all_other txs m cs c : c ∉ txs -> send_all txs m cs !! c = cs !! c.
Proof.
  intros Hc. rewrite send_all_lookup, (occurrences_notin _ _ Hc). cbn.
  destruct (cs !! c); cbn; [by rewrite push_nil|done].
Qed.

Lemma send_all_once txs m cs c :
  NoDup txs -> c ∈ txs -> send_all txs m cs !! c = push [m] <$> cs !! c.
Proof. intros Hnd Hc. by rewrite send_all_lookup, (occurrences_nodup _ _ Hnd Hc). Qed.

Lemma send__dom tx m cs : dom (send_ tx m cs) = dom cs.
Proof.
  apply set_eq. intros c. rewrite !elem_of_dom, send__lookup.
  case_decide; [|done]. by rewrite fmap_is_Some.
Qed.

Lemma send_all_dom txs m cs : dom (send_all txs m cs) = dom cs.
Proof. revert cs. induction txs; intros cs; cbn; [done|]. by rewrite IHtxs, send__dom. Qed.

Lemma send_state tx m cs : (send tx m cs).2 = send_ tx m cs.
Proof. done. Qed.

Lemma send_ok_iff tx m cs :
  (send tx m cs).1 = Ok tt <-> exists ch, cs !! tx = Some ch /\ ch_rx ch = true.
Proof.
  unfold send. destruct (cs !! tx) as [ch|]; [destruct (ch_rx ch) eqn:E|]; cbn.
  - split; [|done]. intros _. by exists ch.
  - split; [done|]. intros (ch' & [= <-] & ?). congruence.
  - split; [done|]. by intros (ch' & ? & ?).
Qed.
End Mpsc.

Arguments push : simpl never.
Arguments chan M : clear implicits.
