(* ===== verification/Protocol.v ===== *)
(** * Signaling protocol messages (signal/protocol/src/lib.rs)

    The message types clients and the rendezvous server exchange, and their
    JSON encoding as the derive attributes of the types prescribe it
    (internally tagged enums with snake_case tags, optional fields left out
    when absent).  JSON values are the [serde_json::Value]s of a third-party
    crate: the interface [Json] states what is used of them. *)

From S2P Require Import Prelude RStr.

#[local] Arguments Ascii.eqb : simpl nomatch.

(** ** The JSON interface *)

(** [serde_json::Value]: constructors, [as_str], [as_array], [is_null] and
    [get], with the crate's documented behaviour. *)
Class Json (V : Type) := {
  j_null : V;
  j_str : string -> V;
  j_arr : list V -> V;
  j_obj : list (string * V) -> V;
  j_is_null : V -> bool;
  j_as_str : V -> option string;
  j_as_arr : V -> option (list V);
  j_get : V -> string -> option V;
}.

(** First binding of a key in an association list. *)
Fixpoint assoc {V} (k : string) (l : list (string * V)) : option V :=
  match l with
  | [] => None
  | (k', v) :: l => if String.eqb k k' then Some v else assoc k l
  end.

Class JsonLaws (V : Type) `{Json V} : Prop := {
  j_as_str_str s : j_as_str (j_str s) = Some s;
  j_is_null_str s : j_is_null (j_str s) = false;
  j_as_arr_arr l : j_as_arr (j_arr l) = Some l;
  j_get_obj l k : NoDup l.*1 -> j_get (j_obj l) k = assoc k l;
}.

(** ** The types *)

(** [DeviceType] *)
Inductive DeviceType := Phone | Tablet | Laptop | Desktop.

#[export] Instance DeviceType_eq_dec : EqDecision DeviceType.
Proof. solve_decision. Defined.

(** [PeerData] *)
Record PeerData := mkPeerData {
  pd_peer_code : string;
  pd_device_name : string;
  pd_device_type : DeviceType;
  pd_wt_url : option string;
  pd_wt_cert_hash : option string;
}.

#[export] Instance PeerData_eq_dec : EqDecision PeerData.
Proof. solve_decision. Defined.

Section Messages.
Context {V : Type}.

(** [ClientMessage] *)
Inductive ClientMessage :=
| Register (peer_code device_name : string) (device_type : DeviceType)
    (wt_url wt_cert_hash : option string)
| ClientSignal (to : string) (payload : V)
| ManualSignal (to : string) (payload : V)
| Ping.

(** [ServerMessage] *)
Inductive ServerMessage :=
| Peers (peers : list PeerData)
| PeerJoined (peer : PeerData)
| PeerLeft (peer_code : string)
| Signal (from : string) (payload : V)
| Error (message : string).

(** ** The wire format *)

Context `{Json V}.
Local Open Scope stdpp_scope.

Definition device_type_name (d : DeviceType) : string :=
  match d with
  | Phone => "phone"
  | Tablet => "tablet"
  | Laptop => "laptop"
  | Desktop => "desktop"
  end.

Definition device_type_of_name (s : string) : option DeviceType :=
  if String.eqb s "phone" then Some Phone
  else if String.eqb s "tablet" then Some Tablet
  else if String.eqb s "laptop" then Some Laptop
  else if String.eqb s "desktop" then Some Desktop
  else None.

(** [skip_serializing_if = "Option::is_none"] *)
Definition opt_field (k : string) (o : option string) : list (string * V) :=
  match o with Some s => [(k, j_str s)] | None => [] end.

Definition peer_data_to_value (p : PeerData) : V :=
  j_obj ([("peer_code", j_str (pd_peer_code p));
          ("device_name", j_str (pd_device_name p));
          ("device_type", j_str (device_type_name (pd_device_type p)))]
         ++ opt_field "wt_url" (pd_wt_url p)
         ++ opt_field "wt_cert_hash" (pd_wt_cert_hash p)).

Definition client_to_value (m : ClientMessage) : V :=
  match m with
  | Register code name ty url hash =>
    j_obj ([("type", j_str "register");
            ("peer_code", j_str code); ("device_name", j_str name);
            ("device_type", j_str (device_type_name ty))]
           ++ opt_field "wt_url" url ++ opt_field "wt_cert_hash" hash)
  | ClientSignal to payload =>
    j_obj [("type", j_str "signal"); ("to", j_str to); ("payload", payload)]
  | ManualSignal to payload =>
    j_obj [("type", j_str "manual_signal"); ("to", j_str to); ("payload", payload)]
  | Ping => j_obj [("type", j_str "ping")]
  end.

Definition server_to_value (m : ServerMessage) : V :=
  match m with
  | Peers ps => j_obj [("type", j_str "peers"); ("peers", j_arr (peer_data_to_value <$> ps))]
  | PeerJoined p => j_obj [("type", j_str "peer_joined"); ("peer", peer_data_to_value p)]
  | PeerLeft code => j_obj [("type", j_str "peer_left"); ("peer_code", j_str code)]
  | Signal from payload =>
    j_obj [("type", j_str "signal"); ("from", j_str from); ("payload", payload)]
  | Error msg => j_obj [("type", j_str "error"); ("message", j_str msg)]
  end.

(** A required string field, and an optional one ([default]; [null] is absent). *)
Definition get_str (v : V) (k : string) : option string := j_get v k ≫= j_as_str.
Definition get_opt_str (v : V) (k : string) : option (option string) :=
  match j_get v k with
  | None => Some None
  | Some x => if j_is_null x then Some None else Some <$> j_as_str x
  end.

Definition peer_data_of_value (v : V) : option PeerData :=
  code ← get_str v "peer_code";
  name ← get_str v "device_name";
  ty ← get_str v "device_type" ≫= device_type_of_name;
  url ← get_opt_str v "wt_url";
  hash ← get_opt_str v "wt_cert_hash";
  Some (mkPeerData code name ty url hash).

(** Decoding of a JSON object; fields the type does not have are ignored. *)
Definition client_of_value (v : V) : option ClientMessage :=
  tag ← get_str v "type";
  if String.eqb tag "register" then
    code ← get_str v "peer_code";
    name ← get_str v "device_name";
    ty ← get_str v "device_type" ≫= device_type_of_name;
    url ← get_opt_str v "wt_url";
    hash ← get_opt_str v "wt_cert_hash";
    Some (Register code name ty url hash)
  else if String.eqb tag "signal" then
    to ← get_str v "to"; payload ← j_get v "payload"; Some (ClientSignal to payload)
  else if String.eqb tag "manual_signal" then
    to ← get_str v "to"; payload ← j_get v "payload"; Some (ManualSignal to payload)
  else if String.eqb tag "ping" then Some Ping
  else None.

Definition server_of_value (v : V) : option ServerMessage :=
  tag ← get_str v "type";
  if String.eqb tag "peers" then
    vs ← j_get v "peers" ≫= j_as_arr; ps ← mapM peer_data_of_value vs; Some (Peers ps)
  else if String.eqb tag "peer_joined" then
    p ← j_get v "peer" ≫= peer_data_of_value; Some (PeerJoined p)
  else if String.eqb tag "peer_left" then
    code ← get_str v "peer_code"; Some (PeerLeft code)
  else if String.eqb tag "signal" then
    from ← get_str v "from"; payload ← j_get v "payload"; Some (Signal from payload)
  else if String.eqb tag "error" then
    msg ← get_str v "message"; Some (Error msg)
  else None.

(** ** Round trips *)

Context `{!JsonLaws V}.

Lemma device_type_roundtrip d : device_type_of_name (device_type_name d) = Some d.
Proof. by destruct d. Qed.

(** Reading a field of an object whose keys are visibly distinct. *)
Ltac get_field :=
  unfold get_str, get_opt_str;
  repeat first
    [ rewrite j_get_obj by (cbn; apply (bool_decide_unpack _); vm_compute; exact I); cbn
    | rewrite j_as_str_str; cbn
    | rewrite j_is_null_str; cbn
    | rewrite device_type_roundtrip; cbn ].

Lemma peer_data_roundtrip p : peer_data_of_value (peer_data_to_value p) = Some p.
Proof.
  destruct p as [code name ty [url|] [hash|]];
    unfold peer_data_of_value, peer_data_to_value; cbn; get_field; done.
Qed.

(** C40: decoding the wire form of a client message gives the message back,
    optional fields present or absent. *)
Theorem client_wire_roundtrip m : client_of_value (client_to_value m) = Some m.
Proof.
  destruct m as [code name ty [url|] [hash|]| | |];
    unfold client_of_value, client_to_value; cbn; get_field; done.
Qed.

(** Decoding the wire form of a server message gives the message back. *)
Theorem server_wire_roundtrip m : server_of_value (server_to_value m) = Some m.
Proof.
  destruct m as [ps|p|code|from payload|msg];
    unfold server_of_value, server_to_value; cbn; get_field; [|by rewrite ?peer_data_roundtrip..].
  rewrite j_as_arr_arr. cbn.
  replace (mapM peer_data_of_value (peer_data_to_value <$> ps)) with (Some ps); [done|].
  symmetry. apply mapM_Some. induction ps; constructor; auto using peer_data_roundtrip.
Qed.
End Messages.

Arguments ClientMessage V : clear implicits.
Arguments ServerMessage V : clear implicits.

(** ** A concrete JSON tree

    An instance of the interface, in which the wire properties are evaluated. *)

Module JsonTree.

Inductive json :=
| JNull
| JBool (b : bool)
| JNum (z : Z)
| JStr (s : string)
| JArr (l : list json)
| JObj (l : list (string * json)).

#[export] Instance json_Json : Json json := {
  j_null := JNull;
  j_str := JStr;
  j_arr := JArr;
  j_obj := JObj;
  j_is_null v := match v with JNull => true | _ => false end;
  j_as_str v := match v with JStr s => Some s | _ => None end;
  j_as_arr v := match v with JArr l => Some l | _ => None end;
  j_get v k := match v with JObj l => assoc k l | _ => None end;
}.

#[export] Instance json_laws : JsonLaws json.
Proof. by constructor. Qed.

End JsonTree.

Section Witnesses.
Import JsonTree.
Local Open Scope stdpp_scope.

Example wire_client_register :
  client_to_value (V := json) (Register "ABC123" "iPhone 15" Phone None None) =
  JObj [("type", JStr "register"); ("peer_code", JStr "ABC123");
        ("device_name", JStr "iPhone 15"); ("device_type", JStr "phone")].
Proof. reflexivity. Qed.

Lemma client_wire_roundtrip_witness :
  client_of_value (client_to_value (V := json)
    (Register "ABC123" "iPhone 15" Phone (Some "https://10.0.0.1:9871") None)) =
  Some (Register "ABC123" "iPhone 15" Phone (Some "https://10.0.0.1:9871") None).
Proof. apply (client_wire_roundtrip (V := json)). Defined.

Lemma server_wire_roundtrip_witness :
  server_of_value (server_to_value (V := json)
    (Peers [mkPeerData "ABC123" "MacBook" Laptop None (Some "deadbeef")])) =
  Some (Peers [mkPeerData "ABC123" "MacBook" Laptop None (Some "deadbeef")]).
Proof. apply (server_wire_roundtrip (V := json)). Defined.
End Witnesses.
