(* ===== verification/Room.v ===== *)
(** * The room manager (signal/src/room.rs)

    Peers grouped by client IP.  The state threaded through the operations is
    the room table together with what the operations reach outside it: the
    session counter [NEXT_SESSION_ID] and the channels of the connections.  An
    operation that the sources run under one lock of the table is one function,
    so that [RoomConc] can interleave them. *)

From S2P Require Import Prelude RStr Mpsc Protocol.

Open Scope Z_scope.

(** ** State *)

(** [PeerInfo] *)
Record PeerInfo := mkPeerInfo {
  peer_code : string;
  device_name : string;
  device_type : DeviceType;
  peer_sender : sender;
  session_id : Z;
  wt_url : option string;
  wt_cert_hash : option string;
}.

#[export] Instance PeerInfo_eq_dec : EqDecision PeerInfo.
Proof. solve_decision. Defined.

(** [PeerInfo::to_peer_data] *)
Definition to_peer_data (p : PeerInfo) : PeerData :=
  mkPeerData (peer_code p) (device_name p) (device_type p) (wt_url p) (wt_cert_hash p).

(** [peer.session_id = session_id] *)
Definition with_session (p : PeerInfo) (sid : Z) : PeerInfo :=
  mkPeerInfo (peer_code p) (device_name p) (device_type p) (peer_sender p) sid
    (wt_url p) (wt_cert_hash p).

Definition MAX_PEERS_PER_ROOM : Z := 256.
Definition MAX_ROOMS : Z := 65536.

(** [ManualPeerLookup] *)
Inductive ManualPeerLookup :=
| Found (s : sender)
| NotFound
| Ambiguous.

#[export] Instance ManualPeerLookup_eq_dec : EqDecision ManualPeerLookup.
Proof. solve_decision. Defined.

Section Room.
Context {V : Type}.

(** [RoomManager] with [NEXT_SESSION_ID] and the channel store. *)
Record world := World {
  w_rooms : gmap string (list PeerInfo);
  w_next : Z;
  w_chans : gmap nat (chan (ServerMessage V));
}.

Definition set_rooms rooms (w : world) : world := World rooms (w_next w) (w_chans w).
Definition set_chans chans (w : world) : world := World (w_rooms w) (w_next w) chans.

(** [RoomManager::new] *)
Definition new : world := World ∅ 1 ∅.

(** ** [add_peer] *)

(** [NEXT_SESSION_ID.fetch_add(1)] *)
Definition fetch_session_id (w : world) : Z * world :=
  (w_next w, World (w_rooms w) (wrap_u64 (w_next w + 1)) (w_chans w)).

(** [!self.rooms.contains_key(ip) && self.rooms.len() >= MAX_ROOMS] *)
Definition room_limit_reached (ip : string) (rooms : gmap string (list PeerInfo)) : bool :=
  negb (bool_decide (is_Some (rooms !! ip))) && (MAX_ROOMS <=? Z.of_nat (size rooms)).

Definition room_limit_error : string :=
  ("room limit reached (" +:+ show_Z MAX_ROOMS +:+ ")")%stdpp.
Definition room_full_error : string :=
  ("room full (" +:+ show_Z MAX_PEERS_PER_ROOM +:+ " peers)")%stdpp.

Definition same_code (code : string) (p : PeerInfo) : bool :=
  bool_decide (peer_code p = code).

(** The replacement of a stale peer with the same code. *)
Definition replace_stale (code : string) (room : list PeerInfo) : list PeerInfo :=
  match position (same_code code) room with
  | Some pos => vec_remove pos room
  | None => room
  end.

(** The part of [add_peer] that holds the room's entry: from
    [self.rooms.entry(ip)] to the end.  On the error path the entry stays, with
    the stale peer already taken out. *)
Definition add_peer_entry (ip : string) (peer : PeerInfo) (w : world) :
    Result (list PeerData) string * world :=
  let room := replace_stale (peer_code peer) (default [] (w_rooms w !! ip)) in
  if MAX_PEERS_PER_ROOM <=? vec_len room then
    (Err room_full_error, set_rooms (<[ip := room]> (w_rooms w)) w)
  else
    (Ok (to_peer_data <$> room),
     World (<[ip := room ++ [peer]]> (w_rooms w)) (w_next w)
       (send_all (peer_sender <$> room) (PeerJoined (to_peer_data peer)) (w_chans w))).

(** [RoomManager::add_peer] *)
Definition add_peer (ip : string) (peer : PeerInfo) (w : world) :
    Result (list PeerData * Z) string * world :=
  let '(sid, w) := fetch_session_id w in
  let peer := with_session peer sid in
  if room_limit_reached ip (w_rooms w) then (Err room_limit_error, w)
  else match add_peer_entry ip peer w with
       | (Ok existing, w) => (Ok (existing, sid), w)
       | (Err e, w) => (Err e, w)
       end.

(** ** [remove_peer] *)

(** [p.peer_code == peer_code && p.session_id == session_id] *)
Definition is_session (code : string) (sid : Z) (p : PeerInfo) : bool :=
  same_code code p && (session_id p =? sid).

(** The part of [remove_peer] that holds the room's entry, returning
    [should_remove_room]. *)
Definition remove_peer_entry (ip code : string) (sid : Z) (w : world) : bool * world :=
  match w_rooms w !! ip with
  | Some room =>
    let room' := retain (fun p => negb (is_session code sid p)) room in
    if vec_len room' <? vec_len room then
      (match room' with [] => true | _ => false end,
       World (<[ip := room']> (w_rooms w)) (w_next w)
         (send_all (peer_sender <$> room') (PeerLeft code) (w_chans w)))
    else (false, w)
  | None => (false, w)
  end.

(** [self.rooms.remove(ip)] *)
Definition remove_room (ip : string) (w : world) : world :=
  set_rooms (delete ip (w_rooms w)) w.

(** [RoomManager::remove_peer] *)
Definition remove_peer (ip code : string) (sid : Z) (w : world) : world :=
  let '(should_remove_room, w) := remove_peer_entry ip code sid w in
  if should_remove_room then remove_room ip w else w.

(** ** Lookups *)

(** [RoomManager::get_room_peers] *)
Definition get_room_peers (ip : string) (w : world) : list PeerData :=
  match w_rooms w !! ip with
  | Some room => to_peer_data <$> room
  | None => []
  end.

Fixpoint find_code (code : string) (room : list PeerInfo) : option PeerInfo :=
  match room with
  | [] => None
  | p :: room => if same_code code p then Some p else find_code code room
  end.

(** [RoomManager::find_peer] *)
Definition find_peer (caller_room code : string) (w : world) : option sender :=
  room ← w_rooms w !! caller_room; peer_sender <$> find_code code room.

(** The inner loop of [find_peer_manual] over one room: [None] is the early
    return of [Ambiguous]. *)
Fixpoint manual_scan_room (code : string) (found : option sender)
    (room : list PeerInfo) : option (option sender) :=
  match room with
  | [] => Some found
  | p :: room =>
    if same_code code p then
      match found with
      | Some _ => None
      | None => manual_scan_room code (Some (peer_sender p)) room
      end
    else manual_scan_room code found room
  end.

(** The outer loop, over the rooms in the order the table yields them. *)
Fixpoint manual_scan (code : string) (found : option sender)
    (rooms : list (list PeerInfo)) : ManualPeerLookup :=
  match rooms with
  | [] => match found with Some s => Found s | None => NotFound end
  | room :: rooms =>
    match manual_scan_room code found room with
    | None => Ambiguous
    | Some found => manual_scan code found rooms
    end
  end.

(** [RoomManager::find_peer_manual] *)
Definition find_peer_manual (code : string) (w : world) : ManualPeerLookup :=
  manual_scan code None (map_to_list (w_rooms w)).*2.

(** [RoomManager::room_count], [RoomManager::peer_count] *)
Definition room_count (w : world) : nat := size (w_rooms w).
Definition peer_count (w : world) : nat :=
  sum_list (length <$> (map_to_list (w_rooms w)).*2).
End Room.

Arguments world V : clear implicits.
