(* ===== verification/RoomFacts.v ===== *)
(** * Correctness of the room manager

    The room-table invariant, the behaviour of each operation on every branch,
    what each operation announces, and what a reconnection does. *)

From S2P Require Import Prelude RStr Mpsc Protocol Room.

Open Scope Z_scope.

(** ** The invariant *)

(** A room's list of peers: codes are unique, the room is neither empty nor over
    the limit, and its sessions are older than the counter. *)
Record room_ok (next : Z) (room : list PeerInfo) : Prop := {
  ro_codes : NoDup (peer_code <$> room);
  ro_size : vec_len room <= MAX_PEERS_PER_ROOM;
  ro_sessions : forall p, p ∈ room -> 0 < session_id p < next;
}.

Definition rooms_ok (next : Z) (rooms : gmap string (list PeerInfo)) : Prop :=
  forall ip room, rooms !! ip = Some room -> room_ok next room.

(** Sessions are unique over the whole table. *)
Definition sessions_unique (rooms : gmap string (list PeerInfo)) : Prop :=
  forall ip ip' room room' p p',
    rooms !! ip = Some room -> rooms !! ip' = Some room' ->
    p ∈ room -> p' ∈ room' -> session_id p = session_id p' -> ip = ip' /\ p = p'.

(** Every room is inhabited. *)
Definition rooms_inhabited (rooms : gmap string (list PeerInfo)) : Prop :=
  forall ip, rooms !! ip <> Some [].

Record rm_inv {V} (w : world V) : Prop := {
  inv_rooms : rooms_ok (w_next w) (w_rooms w);
  inv_unique : sessions_unique (w_rooms w);
  inv_inhabited : rooms_inhabited (w_rooms w);
  inv_count : Z.of_nat (size (w_rooms w)) <= MAX_ROOMS;
  inv_next : 0 < w_next w;
}.

(** The counter has not come round yet. *)
Definition counter_ok {V} (w : world V) : Prop := w_next w + 1 < u64_modulus.

(** ** List lemmas *)

#[global] Arguments same_code : simpl never.

Lemma elem_of_same_code code p : same_code code p = true <-> peer_code p = code.
Proof. apply bool_decide_eq_true. Qed.

Lemma replace_stale_retain code room :
  NoDup (peer_code <$> room) ->
  replace_stale code room = retain (fun p => negb (same_code code p)) room.
Proof. apply position_remove_retain. Qed.

Lemma elem_of_replace_stale code room p :
  NoDup (peer_code <$> room) ->
  p ∈ replace_stale code room <-> p ∈ room /\ peer_code p <> code.
Proof.
  intros Hnd. rewrite replace_stale_retain, elem_of_retain by done.
  unfold same_code. by rewrite negb_true_iff, bool_decide_eq_false.
Qed.

Lemma replace_stale_length_lt code room :
  code ∈ peer_code <$> room ->
  S (length (replace_stale code room)) = length room.
Proof.
  intros Hc. unfold replace_stale. destruct (position _ _) as [i|] eqn:Hp.
  - apply position_Some in Hp as (l1 & x & l2 & -> & <- & _ & _).
    unfold vec_remove. rewrite delete_middle, !length_app. cbn. lia.
  - apply list_elem_of_fmap in Hc as (p & -> & Hp').
    apply position_None in Hp. rewrite Forall_forall in Hp.
    specialize (Hp p Hp'). unfold same_code in Hp.
    by apply bool_decide_eq_false in Hp.
Qed.

Lemma find_code_Some code room p :
  find_code code room = Some p -> p ∈ room /\ peer_code p = code.
Proof.
  induction room as [|q room IH]; cbn; [done|].
  destruct (same_code code q) eqn:E.
  - intros [= <-]. apply elem_of_same_code in E. split; [by left|done].
  - intros [??]%IH. split; [by right|done].
Qed.

Lemma find_code_iff code room p :
  NoDup (peer_code <$> room) ->
  find_code code room = Some p <-> p ∈ room /\ peer_code p = code.
Proof.
  intros Hnd. split; [apply find_code_Some|]. intros [Hp Hc].
  induction room as [|q room IH]; [by apply elem_of_nil in Hp|].
  cbn in *. apply NoDup_cons in Hnd as [Hq Hnd].
  destruct (same_code code q) eqn:E.
  - apply elem_of_cons in Hp as [->|Hp]; [done|]. exfalso. apply Hq.
    apply elem_of_same_code in E. rewrite E, <-Hc. by apply list_elem_of_fmap_2.
  - apply elem_of_cons in Hp as [->|Hp]; [|by apply IH].
    apply elem_of_same_code in Hc. congruence.
Qed.

Lemma find_code_None code room :
  find_code code room = None <-> code ∉ peer_code <$> room.
Proof.
  induction room as [|q room IH]; cbn.
  - split; [intros _ ?%elem_of_nil|]; done.
  - rewrite not_elem_of_cons. destruct (same_code code q) eqn:E.
    + apply elem_of_same_code in E. split; [done|]. intros [? _]. congruence.
    + rewrite IH. split; [|tauto]. intros ?. split; [|done].
      intros ->. unfold same_code in E. by apply bool_decide_eq_false in E.
Qed.

Lemma codes_injective room p q :
  NoDup (peer_code <$> room) -> p ∈ room -> q ∈ room ->
  peer_code p = peer_code q -> p = q.
Proof.
  intros Hnd Hp Hq Heq.
  assert (find_code (peer_code p) room = Some p) by (apply find_code_iff; done).
  assert (find_code (peer_code p) room = Some q) by (apply find_code_iff; done).
  congruence.
Qed.

(** ** Single operations *)

Definition peers_at {V} (ip : string) (w : world V) : list PeerInfo :=
  default [] (w_rooms w !! ip).

(** The members of a room other than the one with a code. *)
Definition others (code : string) (room : list PeerInfo) : list PeerInfo :=
  retain (fun p => negb (same_code code p)) room.

#[global] Arguments others : simpl never.

Lemma elem_of_others code room p :
  p ∈ others code room <-> p ∈ room /\ peer_code p <> code.
Proof.
  unfold others, same_code.
  by rewrite elem_of_retain, negb_true_iff, bool_decide_eq_false.
Qed.

Lemma others_notin code room : code ∉ peer_code <$> room -> others code room = room.
Proof.
  intros Hc. apply retain_id. intros p Hp. apply negb_true_iff, bool_decide_eq_false.
  intros <-. by apply Hc, list_elem_of_fmap_2.
Qed.

Lemma others_length code room : vec_len (others code room) <= vec_len room.
Proof. unfold vec_len, others. pose proof (retain_length_le (fun p => negb (same_code code p)) room). lia. Qed.

(** Two filters that agree on the members of a list. *)
Lemma list_filter_iff' {A} (f g : A -> bool) (l : list A) :
  (forall x, x ∈ l -> f x = g x) ->
  filter (fun x => f x = true) l = filter (fun x => g x = true) l.
Proof.
  induction l as [|a l IH]; intros Hfg; [done|].
  assert (f a = g a) as Ha by (apply Hfg; by left).
  assert (filter (fun x => f x = true) l = filter (fun x => g x = true) l) as Hl.
  { apply IH. intros x Hx. apply Hfg. by right. }
  rewrite !filter_cons, Hl. do 2 case_decide; congruence.
Qed.

Section Facts.
Context {V : Type}.
Implicit Types w : world V.

Lemma peers_at_ok ip w :
  rm_inv w -> room_ok (w_next w) (peers_at ip w).
Proof.
  intros Hw. unfold peers_at. destruct (w_rooms w !! ip) as [room|] eqn:E; cbn.
  - by apply (inv_rooms w Hw ip).
  - split; [constructor|done|]. by intros p ?%elem_of_nil.
Qed.

Lemma peers_at_lookup ip w room : w_rooms w !! ip = Some room -> peers_at ip w = room.
Proof. unfold peers_at. by intros ->. Qed.

Lemma no_rooms_inv (cs : gmap nat (chan (ServerMessage V))) : rm_inv (World ∅ 1 cs).
Proof. by split; cbn. Qed.

(** The state after the session counter moved on. *)
Definition bump w : world V := World (w_rooms w) (wrap_u64 (w_next w + 1)) (w_chans w).

(** What [add_peer] does, on each of its branches: it refuses a new room
    over the room limit and a new peer in a full room, leaving every room and
    channel as it was; otherwise it returns the other members of the room,
    takes the stale peer with the same code out, appends the new peer with a
    fresh session, and announces it to the other members and nobody else. *)
Lemma add_peer_eq ip peer w :
  rm_inv w ->
  let room := others (peer_code peer) (peers_at ip w) in
  add_peer ip peer w =
    if room_limit_reached ip (w_rooms w) then (Err room_limit_error, bump w)
    else if MAX_PEERS_PER_ROOM <=? vec_len room then (Err room_full_error, bump w)
    else (Ok (to_peer_data <$> room, w_next w),
          World (<[ip := room ++ [with_session peer (w_next w)]]> (w_rooms w))
            (wrap_u64 (w_next w + 1))
            (send_all (peer_sender <$> room) (PeerJoined (to_peer_data peer)) (w_chans w))).
Proof.
  intros Hw. destruct (peers_at_ok ip w Hw) as [Hnd Hsz _]. cbn zeta.
  unfold add_peer, fetch_session_id, add_peer_entry. cbn.
  destruct (room_limit_reached _ _); [done|].
  fold (peers_at ip w). rewrite replace_stale_retain by done. fold (others (peer_code peer) (peers_at ip w)).
  destruct (Z.leb_spec MAX_PEERS_PER_ROOM (vec_len (others (peer_code peer) (peers_at ip w))))
    as [Hfull|Hfull]; [|done].
  f_equal. unfold set_rooms, bump. cbn. f_equal.
  destruct (decide (peer_code peer ∈ peer_code <$> peers_at ip w)) as [Hin|Hout].
  - pose proof (replace_stale_length_lt _ _ Hin) as Hlt.
    rewrite replace_stale_retain in Hlt by done. unfold vec_len, others in *. lia.
  - rewrite others_notin in * by done. apply insert_id.
    unfold peers_at, vec_len, MAX_PEERS_PER_ROOM in *.
    destruct (w_rooms w !! ip); cbn in *; [done|lia].
Qed.

(** What [retain] in [remove_peer] does to a room with unique codes. *)
Lemma retain_session code sid room :
  NoDup (peer_code <$> room) ->
  retain (fun p => negb (is_session code sid p)) room =
    match find_code code room with
    | Some p => if session_id p =? sid then others code room else room
    | None => room
    end.
Proof.
  intros Hnd. unfold others.
  destruct (find_code code room) as [p|] eqn:Hf.
  - apply find_code_Some in Hf as [Hp Hc].
    assert (Hq : forall q, q ∈ room -> same_code code q = true -> q = p).
    { intros q Hq Eq%elem_of_same_code. apply (codes_injective room); try done. congruence. }
    destruct (session_id p =? sid) eqn:Es.
    + unfold retain. apply list_filter_iff'. intros q Hqr. unfold is_session.
      destruct (same_code code q) eqn:Eq; [|done]. cbn. by rewrite (Hq q Hqr Eq), Es.
    + apply retain_id. intros q Hqr. unfold is_session.
      destruct (same_code code q) eqn:Eq; [|done]. cbn. by rewrite (Hq q Hqr Eq), Es.
  - apply retain_id. intros q Hqr. unfold is_session.
    destruct (same_code code q) eqn:Eq; [|done]. apply elem_of_same_code in Eq.
    apply find_code_None in Hf. destruct Hf. rewrite <-Eq. by apply list_elem_of_fmap_2.
Qed.

Lemma others_length_lt code room p :
  find_code code room = Some p -> vec_len (others code room) < vec_len room.
Proof.
  intros [Hp Hc]%find_code_Some. unfold vec_len, others. apply Nat2Z.inj_lt.
  apply retain_length_lt. exists p. split; [done|].
  apply negb_false_iff. by apply elem_of_same_code.
Qed.

(** What [remove_peer] does: nothing at all when the session it is given is
    not the one registered under that code (a stale connection that was
    replaced); otherwise the peer is taken out, the remaining members of the
    room are told, and the room's entry is deleted when it was the last. *)
Lemma remove_peer_eq ip code sid w :
  rm_inv w ->
  remove_peer ip code sid w =
    match find_code code (peers_at ip w) with
    | Some p =>
      if session_id p =? sid then
        let room := others code (peers_at ip w) in
        World (match room with
               | [] => delete ip (w_rooms w)
               | _ => <[ip := room]> (w_rooms w)
               end)
          (w_next w) (send_all (peer_sender <$> room) (PeerLeft code) (w_chans w))
      else w
    | None => w
    end.
Proof.
  intros Hw. destruct (peers_at_ok ip w Hw) as [Hnd _ _].
  unfold remove_peer, remove_peer_entry, peers_at in *.
  destruct (w_rooms w !! ip) as [room|] eqn:Hr; cbn in *; [|done].
  rewrite retain_session by done.
  destruct (find_code code room) as [p|] eqn:Hf; [|by rewrite Z.ltb_irrefl].
  destruct (session_id p =? sid) eqn:Es; [|by rewrite Z.ltb_irrefl].
  pose proof (others_length_lt _ _ _ Hf) as Hlt. apply Z.ltb_lt in Hlt. rewrite Hlt.
  destruct (others code room) as [|q room'] eqn:Eo; [|done].
  unfold remove_room, set_rooms. cbn. by rewrite delete_insert_eq.
Qed.
(** ** Preservation of the invariant *)

Lemma room_ok_mono n n' room : n <= n' -> room_ok n room -> room_ok n' room.
Proof. intros Hn [? ? Hs]. split; [done..|]. intros p Hp. specialize (Hs p Hp). lia. Qed.

Lemma room_ok_others n code room : room_ok n room -> room_ok n (others code room).
Proof.
  intros [Hnd Hsz Hs]. split.
  - by apply retain_nodup_fmap.
  - pose proof (others_length code room). lia.
  - intros p [Hp _]%elem_of_others. auto.
Qed.

Lemma room_ok_snoc n p room :
  0 < session_id p < n -> room_ok n room ->
  vec_len (others (peer_code p) room) < MAX_PEERS_PER_ROOM ->
  room_ok n (others (peer_code p) room ++ [p]).
Proof.
  intros Hn Hr Hlt. destruct (room_ok_others n (peer_code p) room Hr) as [Hnd _ Hs].
  split.
  - rewrite fmap_app. apply NoDup_app. split; [done|]. split; [|apply NoDup_singleton].
    intros c Hc Hc'%list_elem_of_singleton. subst c.
    apply list_elem_of_fmap in Hc as (q & Hq & [_ Hne]%elem_of_others). by apply Hne.
  - unfold vec_len in *. rewrite length_app. cbn. lia.
  - intros q [Hq| ->%list_elem_of_singleton]%elem_of_app; [|done]. by apply Hs.
Qed.

(** Replacing one room by members it had and at most one newcomer with a fresh
    session keeps sessions unique. *)
Lemma sessions_unique_update (rooms : gmap string (list PeerInfo)) ip room p0 :
  sessions_unique rooms ->
  (forall ip' room' p, rooms !! ip' = Some room' -> p ∈ room' ->
     session_id p <> session_id p0) ->
  (forall p, p ∈ room -> p ∈ default [] (rooms !! ip) \/ p = p0) ->
  sessions_unique (<[ip := room]> rooms).
Proof.
  intros Hu Hfresh Hroom.
  assert (Hcase : forall i r p, <[ip := room]> rooms !! i = Some r -> p ∈ r ->
    (exists r', rooms !! i = Some r' /\ p ∈ r') \/ (i = ip /\ p = p0)).
  { intros i r p Hi Hp. destruct (decide (ip = i)) as [->|Hne].
    - rewrite lookup_insert_eq in Hi. injection Hi as <-.
      destruct (Hroom p Hp) as [Hold|Hnew]; [left|by right].
      destruct (rooms !! i) as [r'|]; [by exists r'|by apply elem_of_nil in Hold].
    - rewrite lookup_insert_ne in Hi by done. left. by exists r. }
  intros i i' r r' p p' Hi Hi' Hp Hp' Heq.
  destruct (Hcase i r p Hi Hp) as [(r1 & Hr1 & Hp1)|[-> ->]],
    (Hcase i' r' p' Hi' Hp') as [(r2 & Hr2 & Hp2)|[-> ->]]; [eauto|..|done].
  - by destruct (Hfresh i r1 p Hr1 Hp1).
  - by destruct (Hfresh i' r2 p' Hr2 Hp2).
Qed.

Lemma sessions_unique_insert_sub (rooms : gmap string (list PeerInfo)) ip room :
  sessions_unique rooms ->
  (forall p, p ∈ room -> p ∈ default [] (rooms !! ip)) ->
  sessions_unique (<[ip := room]> rooms).
Proof.
  intros Hu Hsub.
  assert (Hcase : forall i r p, <[ip := room]> rooms !! i = Some r -> p ∈ r ->
    exists r', rooms !! i = Some r' /\ p ∈ r').
  { intros i r p [[<- <-]|[Hne Hr]]%lookup_insert_Some Hp; [|by exists r].
    specialize (Hsub p Hp). destruct (rooms !! ip) as [r'|]; [by exists r'|].
    by apply elem_of_nil in Hsub. }
  intros i i' r r' p p' Hi Hi' Hp Hp'.
  destruct (Hcase i r p Hi Hp) as (r1 & ? & ?), (Hcase i' r' p' Hi' Hp') as (r2 & ? & ?).
  eauto.
Qed.

Lemma sessions_unique_delete (rooms : gmap string (list PeerInfo)) ip :
  sessions_unique rooms -> sessions_unique (delete ip rooms).
Proof. intros Hu i i' r r' p p' [_ Hi]%lookup_delete_Some [_ Hi']%lookup_delete_Some. eauto. Qed.

Lemma rm_inv_sessions w ip room p :
  rm_inv w -> w_rooms w !! ip = Some room -> p ∈ room -> session_id p < w_next w.
Proof. intros Hw Hr Hp. by apply (ro_sessions _ _ (inv_rooms w Hw ip room Hr)). Qed.

Lemma bump_inv w : rm_inv w -> counter_ok w -> rm_inv (bump w).
Proof.
  intros [Hr Hu Hi Hc Hn] Hok. unfold counter_ok, bump in *.
  split; cbn; try done; rewrite wrap_u64_small by lia; [|lia].
  intros ip room Hroom. apply (room_ok_mono (w_next w)); [lia|eauto].
Qed.

Lemma join_inv w ip peer (cs : gmap nat (chan (ServerMessage V))) :
  rm_inv w -> counter_ok w ->
  room_limit_reached ip (w_rooms w) = false ->
  vec_len (others (peer_code peer) (peers_at ip w)) < MAX_PEERS_PER_ROOM ->
  rm_inv (World (<[ip := others (peer_code peer) (peers_at ip w)
                        ++ [with_session peer (w_next w)]]> (w_rooms w))
            (wrap_u64 (w_next w + 1)) cs).
Proof.
  intros Hw Hok Hlim Hlt. pose proof (inv_next w Hw) as Hn.
  unfold counter_ok in Hok. rewrite wrap_u64_small by lia. split; cbn.
  - intros i room [[<- <-]|[Hne Hr]]%lookup_insert_Some.
    + apply (room_ok_snoc _ (with_session peer (w_next w))); [cbn; lia| |done].
      apply (room_ok_mono (w_next w)); [lia|by apply peers_at_ok].
    + apply (room_ok_mono (w_next w)); [lia|by apply (inv_rooms w Hw i)].
  - eapply sessions_unique_update with (p0 := with_session peer (w_next w));
      [apply (inv_unique w Hw)| |].
    + intros i r p Hi Hp. pose proof (rm_inv_sessions w i r p Hw Hi Hp). cbn. lia.
    + intros p [[Hp _]%elem_of_others| ->%list_elem_of_singleton]%elem_of_app; auto.
  - intros i [[<- Hbad]|[Hne Hr]]%lookup_insert_Some; [|by apply (inv_inhabited w Hw i)].
    by apply app_nil in Hbad as [_ ?].
  - rewrite map_size_insert. unfold room_limit_reached in Hlim.
    pose proof (inv_count w Hw) as Hc.
    destruct (w_rooms w !! ip) as [r|] eqn:Er; [done|].
    rewrite bool_decide_eq_false_2 in Hlim by (by intros [? ?]). cbn in Hlim. z_bool.
    unfold MAX_ROOMS in *. lia.
  - lia.
Qed.

(** [add_peer] keeps the room table well formed, whatever it answers:
    unique codes in a room, at most 256 peers a room, at most 65536 rooms, no
    empty room, and every session id handed out once. *)
Lemma add_peer_inv ip peer w :
  rm_inv w -> counter_ok w -> rm_inv (add_peer ip peer w).2.
Proof.
  intros Hw Hok. rewrite add_peer_eq by done. cbn zeta.
  destruct (room_limit_reached ip (w_rooms w)) eqn:Hlim; [by apply bump_inv|].
  destruct (Z.leb_spec MAX_PEERS_PER_ROOM
    (vec_len (others (peer_code peer) (peers_at ip w)))) as [Hfull|Hlt]; [by apply bump_inv|].
  by apply join_inv.
Qed.

Lemma leave_inv w ip code (cs : gmap nat (chan (ServerMessage V))) :
  rm_inv w -> is_Some (find_code code (peers_at ip w)) ->
  let room := others code (peers_at ip w) in
  rm_inv (World (match room with
                 | [] => delete ip (w_rooms w)
                 | _ => <[ip := room]> (w_rooms w)
                 end) (w_next w) cs).
Proof.
  intros Hw [p Hf]. cbn zeta. pose proof (inv_next w Hw) as Hn.
  assert (is_Some (w_rooms w !! ip)) as [room0 Hr0].
  { unfold peers_at in Hf. destruct (w_rooms w !! ip); [done|by cbn in Hf]. }
  rewrite (peers_at_lookup _ _ _ Hr0) in *.
  pose proof (room_ok_others _ code _ (inv_rooms w Hw ip room0 Hr0)) as Hroom.
  assert (Hsub : forall q, q ∈ others code room0 -> q ∈ room0) by (intros q ?%elem_of_others; tauto).
  destruct Hw as [Hr Hu Hi Hc _].
  destruct (others code room0) as [|q room'] eqn:Eo; (split; cbn; [..|done]).
  - intros i room [_ Hroom']%lookup_delete_Some. eauto.
  - by apply sessions_unique_delete.
  - intros i [_ Hbad]%lookup_delete_Some. by eapply Hi.
  - rewrite map_size_delete, Hr0. lia.
  - intros i room [[<- <-]|[_ Hroom']]%lookup_insert_Some; eauto.
  - apply sessions_unique_insert_sub; [done|]. by rewrite Hr0.
  - intros i [[_ Hbad]|[_ Hbad]]%lookup_insert_Some; [done|by eapply Hi].
  - by rewrite map_size_insert, Hr0.
Qed.

(** [remove_peer] keeps the room table well formed: in particular a room
    whose last peer leaves is deleted, never left empty. *)
Lemma remove_peer_inv ip code sid w :
  rm_inv w -> rm_inv (remove_peer ip code sid w).
Proof.
  intros Hw. rewrite remove_peer_eq by done.
  destruct (find_code code (peers_at ip w)) as [p|] eqn:Hf; [|done].
  destruct (session_id p =? sid); [|done]. by apply leave_inv.
Qed.
(** ** Reconnection *)

Lemma find_code_app code room room' :
  code ∉ peer_code <$> room -> find_code code (room ++ room') = find_code code room'.
Proof.
  intros Hc. induction room as [|q room IH]; [done|]. cbn.
  rewrite fmap_cons, not_elem_of_cons in Hc. destruct Hc as [Hq Hc].
  destruct (same_code code q) eqn:E; [|auto]. apply elem_of_same_code in E. congruence.
Qed.

Lemma others_no_code code room : code ∉ peer_code <$> others code room.
Proof. intros (q & Hq & [_ Hne]%elem_of_others)%list_elem_of_fmap. by apply Hne. Qed.

Lemma find_code_join peer sid room :
  find_code (peer_code peer) (others (peer_code peer) room ++ [with_session peer sid]) =
  Some (with_session peer sid).
Proof.
  rewrite find_code_app by apply others_no_code. cbn.
  by rewrite (proj2 (elem_of_same_code _ (with_session peer sid))).
Qed.

(** C17: A client that reconnects under its own code is never refused, even in a
    full room: the new connection takes over the code under a new session, the
    teardown of the old connection then changes nothing, and the teardown of the
    new one takes the peer out. *)
Theorem reconnect_takes_over ip peer old w :
  rm_inv w -> counter_ok w ->
  old ∈ peers_at ip w -> peer_code old = peer_code peer ->
  exists existing sid w',
    add_peer ip peer w = (Ok (existing, sid), w') /\
    sid <> session_id old /\
    find_code (peer_code peer) (peers_at ip w') = Some (with_session peer sid) /\
    remove_peer ip (peer_code peer) (session_id old) w' = w' /\
    find_code (peer_code peer)
      (peers_at ip (remove_peer ip (peer_code peer) sid w')) = None.
Proof.
  intros Hw Hok Hold Hcode.
  pose proof (add_peer_inv ip peer w Hw Hok) as Hw'.
  pose proof (peers_at_ok ip w Hw) as [Hnd Hsz Hs].
  assert (Hlim : room_limit_reached ip (w_rooms w) = false).
  { unfold room_limit_reached, peers_at in *.
    destruct (w_rooms w !! ip); [|by apply elem_of_nil in Hold].
    by rewrite bool_decide_eq_true_2. }
  assert (Hf : find_code (peer_code peer) (peers_at ip w) = Some old) by (apply find_code_iff; done).
  pose proof (others_length_lt _ _ _ Hf) as Hlt.
  rewrite add_peer_eq, Hlim in * by done. cbn zeta in *.
  destruct (Z.leb_spec MAX_PEERS_PER_ROOM (vec_len (others (peer_code peer) (peers_at ip w))))
    as [Hfull|_]; [lia|].
  set (w' := World _ _ _) in *. cbn [snd] in Hw'.
  assert (Hat : peers_at ip w' = others (peer_code peer) (peers_at ip w)
                                 ++ [with_session peer (w_next w)]).
  { unfold peers_at at 1. cbn. by rewrite lookup_insert_eq. }
  eexists _, _, w'. split; [done|]. specialize (Hs old Hold).
  split; [lia|]. rewrite !remove_peer_eq, Hat, find_code_join by done.
  split; [done|]. cbn. rewrite Z.eqb_refl.
  destruct (Z.eqb_spec (w_next w) (session_id old)) as [|_]; [lia|]. split; [done|].
  apply find_code_None. unfold peers_at at 1. cbn. intros Hin.
  pose proof (others_no_code (peer_code peer)
    (others (peer_code peer) (peers_at ip w) ++ [with_session peer (w_next w)])) as Hgone.
  revert Hin. destruct (others _ (_ ++ _)) eqn:Eo.
  - rewrite lookup_delete_eq. by intros ?%elem_of_nil.
  - by rewrite lookup_insert_eq.
Qed.

(** ** Who hears what *)

Lemma broadcast_lookup code room (m : ServerMessage V) cs c :
  NoDup (peer_sender <$> room) ->
  send_all (peer_sender <$> others code room) m cs !! c =
    if decide (c ∈ peer_sender <$> others code room)
    then push [m] <$> cs !! c else cs !! c.
Proof.
  intros Hnd. case_decide as Hc; [|by apply send_all_other].
  apply send_all_once; [|done]. by apply retain_nodup_fmap.
Qed.

(** A successful [add_peer] sends exactly one [peer_joined], with the public
    data of the newcomer, to every other member of that room, and nothing to any
    other channel of the server; no other room changes. *)
Theorem add_peer_announces ip peer w existing sid w' :
  rm_inv w -> NoDup (peer_sender <$> peers_at ip w) ->
  add_peer ip peer w = (Ok (existing, sid), w') ->
  (forall c, w_chans w' !! c =
    if decide (c ∈ peer_sender <$> others (peer_code peer) (peers_at ip w))
    then push [PeerJoined (to_peer_data peer)] <$> w_chans w !! c
    else w_chans w !! c) /\
  (forall ip', ip' <> ip -> w_rooms w' !! ip' = w_rooms w !! ip').
Proof.
  intros Hw Hnd. rewrite add_peer_eq by done. cbn zeta.
  destruct (room_limit_reached _ _); [done|]. destruct (_ <=? _); [done|].
  intros [= <- <- <-]. cbn. split.
  - intros c. by apply broadcast_lookup.
  - intros ip' Hne. by rewrite lookup_insert_ne.
Qed.

(** [remove_peer] touches only its own room, and sends [peer_left] at most
    once, to the members that remain in it. *)
Theorem remove_peer_announces ip code sid w :
  rm_inv w -> NoDup (peer_sender <$> peers_at ip w) ->
  let w' := remove_peer ip code sid w in
  (forall c, w_chans w' !! c = w_chans w !! c \/
     (c ∈ peer_sender <$> others code (peers_at ip w) /\
      w_chans w' !! c = push [PeerLeft code] <$> w_chans w !! c)) /\
  (forall ip', ip' <> ip -> w_rooms w' !! ip' = w_rooms w !! ip') /\
  w_next w' = w_next w.
Proof.
  intros Hw Hnd. cbn zeta. rewrite remove_peer_eq by done.
  destruct (find_code _ _) as [p|]; [destruct (_ =? _)|]; [|by auto..].
  cbn. split; [|split; [|done]].
  - intros c. rewrite broadcast_lookup by done. case_decide; auto.
  - intros ip' Hne. destruct (others _ _).
    + by rewrite lookup_delete_ne.
    + by rewrite lookup_insert_ne.
Qed.

(** ** The properties of single operations *)

(** What [add_peer] does, on each of its branches: it refuses a new room
    over the room limit and a new peer in a full room, leaving every room and
    channel as it was; otherwise it returns the other members of the room,
    takes the stale peer with the same code out, appends the new peer with a
    fresh session, and announces it to the other members and nobody else. *)
Theorem add_peer_behaviour ip peer w :
  rm_inv w ->
  let room := others (peer_code peer) (peers_at ip w) in
  add_peer ip peer w =
    if room_limit_reached ip (w_rooms w) then (Err room_limit_error, bump w)
    else if MAX_PEERS_PER_ROOM <=? vec_len room then (Err room_full_error, bump w)
    else (Ok (to_peer_data <$> room, w_next w),
          World (<[ip := room ++ [with_session peer (w_next w)]]> (w_rooms w))
            (wrap_u64 (w_next w + 1))
            (send_all (peer_sender <$> room) (PeerJoined (to_peer_data peer)) (w_chans w))).
Proof. apply add_peer_eq. Qed.

(** What [remove_peer] does: nothing at all when the session it is given is
    not the one registered under that code (a stale connection that was
    replaced); otherwise the peer is taken out, the remaining members of the
    room are told, and the room's entry is deleted when it was the last. *)
Theorem remove_peer_behaviour ip code sid w :
  rm_inv w ->
  remove_peer ip code sid w =
    match find_code code (peers_at ip w) with
    | Some p =>
      if session_id p =? sid then
        let room := others code (peers_at ip w) in
        World (match room with
               | [] => delete ip (w_rooms w)
               | _ => <[ip := room]> (w_rooms w)
               end)
          (w_next w) (send_all (peer_sender <$> room) (PeerLeft code) (w_chans w))
      else w
    | None => w
    end.
Proof. apply remove_peer_eq. Qed.

(** [add_peer], whatever it answers, and [remove_peer] keep the room table
    well formed: unique codes in a room, at most 256 peers a room, at most 65536
    rooms, no empty room, and every session id handed out once. *)
Theorem room_operations_preserve w :
  rm_inv w ->
  (forall ip peer, counter_ok w -> rm_inv (add_peer ip peer w).2) /\
  (forall ip code sid, rm_inv (remove_peer ip code sid w)).
Proof. intros Hw. split; intros; [by apply add_peer_inv|by apply remove_peer_inv]. Qed.
End Facts.

(** ** Witnesses *)

Module RoomExamples.
Local Open Scope stdpp_scope.

Definition peer_on (code : string) (tx : sender) : PeerInfo :=
  mkPeerInfo code "Desktop" Desktop tx 0 None None.
Definition ip : string := "203.0.113.7".

(** Two connections; the first has registered. *)
Definition w0 : world unit := World ∅ 1 (<[0%nat := new_chan]> (<[1%nat := new_chan]> ∅)).
Definition w1 : world unit := (add_peer ip (peer_on "ALPHA" 0) w0).2.

Lemma w1_inv : rm_inv w1.
Proof. apply add_peer_inv; [apply no_rooms_inv|done]. Defined.

Lemma w1_senders : NoDup (peer_sender <$> peers_at ip w1).
Proof. apply (bool_decide_unpack _). by vm_compute. Defined.
End RoomExamples.

Section Witnesses.
Import RoomExamples.
Local Open Scope stdpp_scope.

Lemma add_peer_behaviour_witness :
  (add_peer ip (peer_on "BETA" 1) w1).1 = Ok ([to_peer_data (peer_on "ALPHA" 0)], 2).
Proof. rewrite (add_peer_behaviour ip (peer_on "BETA" 1) w1 w1_inv). by vm_compute. Defined.

Lemma remove_peer_behaviour_witness :
  w_rooms (remove_peer ip "ALPHA" 1 w1) = ∅ /\ remove_peer ip "ALPHA" 2 w1 = w1.
Proof.
  rewrite !(remove_peer_behaviour ip "ALPHA" _ w1 w1_inv). split; by vm_compute.
Defined.

Lemma room_operations_preserve_witness :
  rm_inv (remove_peer ip "ALPHA" 1 w1) /\ rm_inv (add_peer ip (peer_on "BETA" 1) w1).2.
Proof. split; apply (room_operations_preserve w1 w1_inv). done. Defined.

Lemma reconnect_takes_over_witness :
  exists existing sid w', add_peer ip (peer_on "ALPHA" 1) w1 = (Ok (existing, sid), w') /\
    sid <> 1.
Proof.
  destruct (reconnect_takes_over ip (peer_on "ALPHA" 1) (with_session (peer_on "ALPHA" 0) 1) w1)
    as (ex & sid & w' & Hadd & Hsid & _); [apply w1_inv|done| |done|by exists ex, sid, w'].
  vm_compute. left.
Defined.

Lemma add_peer_announces_witness :
  ch_queue <$> w_chans (add_peer ip (peer_on "BETA" 1) w1).2 !! 0%nat =
    Some [PeerJoined (to_peer_data (peer_on "BETA" 1))].
Proof.
  destruct (add_peer ip (peer_on "BETA" 1) w1) as [[[ex sid]|e] w'] eqn:E; [|by vm_compute in E].
  destruct (add_peer_announces ip _ w1 ex sid w' w1_inv w1_senders E) as [Hc _].
  cbn [snd]. rewrite Hc. by vm_compute.
Defined.

Lemma remove_peer_announces_witness :
  w_next (remove_peer ip "ALPHA" 1 w1) = 2.
Proof.
  destruct (remove_peer_announces ip "ALPHA" 1 w1 w1_inv w1_senders) as (_ & _ & ->).
  by vm_compute.
Defined.
End Witnesses.
