(* ===== verification/RoomSpec.v ===== *)
(** * The room manager against a peer registry

    The abstract specification of the room manager: a finite map from (room,
    peer code) to the registered peer.  Each operation refines an operation on
    the registry, and the cross-room manual lookup is characterised by the
    room-scoped one, whatever order the table is iterated in. *)

From S2P Require Import Prelude RStr Mpsc Protocol Room RoomFacts.

Open Scope Z_scope.

(** ** The specification *)

Module Spec.
Abbreviation registry := (gmap (string * string) PeerInfo).

Definition register (ip : string) (p : PeerInfo) (reg : registry) : registry :=
  <[(ip, peer_code p) := p]> reg.

(** Only the session that holds the code may take it out. *)
Definition unregister (ip code : string) (sid : Z) (reg : registry) : registry :=
  match reg !! (ip, code) with
  | Some p => if session_id p =? sid then delete (ip, code) reg else reg
  | None => reg
  end.

(** The bindings of one room. *)
Definition in_room (ip : string) (reg : registry) : registry :=
  filter (fun kp => kp.1.1 = ip) reg.
End Spec.

(** ** Abstraction *)

Definition room_entries (kr : string * list PeerInfo) : list ((string * string) * PeerInfo) :=
  (fun p => ((kr.1, peer_code p), p)) <$> kr.2.

Definition entries (rooms : gmap string (list PeerInfo)) :
    list ((string * string) * PeerInfo) :=
  map_to_list rooms ≫= room_entries.

Definition abs {V} (w : world V) : Spec.registry := list_to_map (entries (w_rooms w)).

Section Abs.
Context {V : Type}.
Implicit Types w : world V.

Lemma elem_of_entries rooms ip code p :
  ((ip, code), p) ∈ entries rooms <->
  exists room, rooms !! ip = Some room /\ p ∈ room /\ peer_code p = code.
Proof.
  unfold entries. rewrite list_elem_of_bind. split.
  - intros ([ip' room] & Hp & Hr). apply elem_of_map_to_list in Hr.
    apply list_elem_of_fmap in Hp as (q & [= -> -> ->] & Hq). by exists room.
  - intros (room & Hr & Hp & <-). exists (ip, room). split.
    + apply list_elem_of_fmap. by exists p.
    + by apply elem_of_map_to_list.
Qed.

Lemma room_entries_nodup ip room :
  NoDup (peer_code <$> room) -> NoDup (room_entries (ip, room)).*1.
Proof.
  intros Hnd. unfold room_entries. cbn. rewrite <-list_fmap_compose. cbn.
  replace (((fun p => (ip, peer_code p)) : PeerInfo -> string * string) <$> room)
    with (pair ip <$> (peer_code <$> room)) by (by rewrite <-list_fmap_compose).
  by apply NoDup_fmap_2; [intros ? ? [=]|].
Qed.

Lemma entries_nodup n rooms : rooms_ok n rooms -> NoDup (entries rooms).*1.
Proof.
  intros Hok. unfold entries.
  assert (Hall : forall kr, kr ∈ map_to_list rooms -> NoDup (peer_code <$> kr.2)).
  { intros [ip room] Hr%elem_of_map_to_list. apply (ro_codes _ _ (Hok ip room Hr)). }
  pose proof (NoDup_fst_map_to_list rooms) as Hnd.
  induction (map_to_list rooms) as [|[ip room] l IH]; [constructor|].
  rewrite bind_cons, fmap_app. cbn in Hnd. apply NoDup_cons in Hnd as [Hip Hnd].
  apply NoDup_app. split; [|split].
  - apply room_entries_nodup. by apply (Hall (ip, room)); left.
  - intros [ip1 c] (e & -> & He)%list_elem_of_fmap (e' & Heq & He')%list_elem_of_fmap.
    apply list_elem_of_fmap in He as (q & -> & Hq).
    apply list_elem_of_bind in He' as ([ip2 room2] & He' & Hin).
    apply list_elem_of_fmap in He' as (q2 & -> & Hq2). cbn in Heq. injection Heq as -> _.
    apply Hip. apply list_elem_of_fmap. by exists (ip2, room2).
  - apply IH; [|done]. intros kr Hkr. apply Hall. by right.
Qed.

Lemma abs_lookup_Some w ip code p :
  rm_inv w ->
  abs w !! (ip, code) = Some p <->
  exists room, w_rooms w !! ip = Some room /\ p ∈ room /\ peer_code p = code.
Proof.
  intros Hw. unfold abs. rewrite <-elem_of_entries.
  symmetry. apply elem_of_list_to_map. by eapply entries_nodup, inv_rooms.
Qed.

(** The registry binds what [find_code] finds in the room. *)
Lemma abs_lookup w ip code :
  rm_inv w -> abs w !! (ip, code) = find_code code (peers_at ip w).
Proof.
  intros Hw. apply option_eq. intros p. rewrite abs_lookup_Some by done.
  rewrite find_code_iff by apply (ro_codes _ _ (peers_at_ok ip w Hw)).
  unfold peers_at. split.
  - intros (room & -> & Hp). done.
  - destruct (w_rooms w !! ip) as [room|]; cbn; [by exists room|].
    by intros [?%elem_of_nil _].
Qed.

Lemma find_code_others code code' room :
  find_code code (others code' room) =
    if decide (code = code') then None else find_code code room.
Proof.
  case_decide as Hc.
  - subst. apply find_code_None, others_no_code.
  - induction room as [|q room IH]; [done|]. unfold others, retain in *.
    rewrite filter_cons. cbn [find_code]. case_decide as Hq; cbn [find_code].
    + by rewrite IH.
    + rewrite IH. destruct (same_code code q) eqn:E; [|done].
      exfalso. apply Hq, negb_true_iff. unfold same_code in *.
      apply bool_decide_eq_true in E. apply bool_decide_eq_false. congruence.
Qed.

Lemma find_code_snoc code room p :
  find_code code (room ++ [p]) =
    match find_code code room with
    | Some q => Some q
    | None => if same_code code p then Some p else None
    end.
Proof. induction room as [|q room IH]; cbn; [done|]. by destruct (same_code code q). Qed.

(** ** Refinement *)

Lemma peers_at_insert ip ip' room rooms n (cs : gmap nat (chan (ServerMessage V))) :
  peers_at ip' (World (<[ip := room]> rooms) n cs) =
    if decide (ip = ip') then room else default [] (rooms !! ip').
Proof.
  unfold peers_at. cbn. case_decide as Hip; [subst; by rewrite lookup_insert_eq|].
  by rewrite lookup_insert_ne.
Qed.

Lemma abs_join ip peer w (rest : world V) :
  w_rooms rest = <[ip := others (peer_code peer) (peers_at ip w) ++ [peer]]> (w_rooms w) ->
  rm_inv w -> rm_inv rest ->
  abs rest = Spec.register ip peer (abs w).
Proof.
  intros Hrest Hw Hw'. apply map_eq. intros [ip' code]. unfold Spec.register.
  rewrite abs_lookup by done. unfold peers_at at 1. rewrite Hrest.
  destruct (decide (ip = ip')) as [<-|Hne].
  - rewrite lookup_insert_eq. cbn. rewrite find_code_snoc, find_code_others.
    case_decide as Hc.
    + subst code. rewrite lookup_insert_eq. by rewrite (proj2 (elem_of_same_code _ peer)).
    + rewrite lookup_insert_ne, abs_lookup by (done || congruence).
      destruct (find_code code (peers_at ip w)); [done|].
      unfold same_code. by rewrite bool_decide_eq_false_2.
  - rewrite lookup_insert_ne by done. rewrite lookup_insert_ne, abs_lookup by (done || congruence).
    done.
Qed.

Lemma abs_rooms w (w' : world V) : w_rooms w' = w_rooms w -> abs w' = abs w.
Proof. unfold abs. by intros ->. Qed.

(** [add_peer] refines registration: on success the registry gains exactly
    the binding of the new peer, under its fresh session, replacing whatever was
    bound to that code in that room; on an error the registry is unchanged. *)
Lemma add_peer_abs ip peer w :
  rm_inv w -> counter_ok w ->
  match add_peer ip peer w with
  | (Ok (existing, sid), w') => abs w' = Spec.register ip (with_session peer sid) (abs w)
  | (Err _, w') => abs w' = abs w
  end.
Proof.
  intros Hw Hok. pose proof (add_peer_inv ip peer w Hw Hok) as Hw'.
  rewrite add_peer_eq in * by done. cbn zeta in *.
  destruct (room_limit_reached _ _); [by apply abs_rooms|].
  destruct (_ <=? _); [by apply abs_rooms|].
  by apply abs_join.
Qed.

(** [remove_peer] refines unregistration: the binding goes only if it is
    held by the session given. *)
Lemma remove_peer_abs ip code sid w :
  rm_inv w -> abs (remove_peer ip code sid w) = Spec.unregister ip code sid (abs w).
Proof.
  intros Hw. pose proof (remove_peer_inv ip code sid w Hw) as Hw'.
  unfold Spec.unregister. rewrite abs_lookup by done.
  rewrite remove_peer_eq in * by done.
  destruct (find_code code (peers_at ip w)) as [p|] eqn:Hf; [|done].
  destruct (session_id p =? sid); [|done]. cbn zeta in *.
  apply map_eq. intros [ip' code']. rewrite abs_lookup by done.
  replace (peers_at ip' _) with
    (if decide (ip = ip') then others code (peers_at ip w) else peers_at ip' w).
  - destruct (decide (ip = ip')) as [<-|Hne].
    + rewrite find_code_others. case_decide as Hc.
      * subst. by rewrite lookup_delete_eq.
      * rewrite lookup_delete_ne, abs_lookup by (done || congruence). done.
    + rewrite lookup_delete_ne, abs_lookup by (done || congruence). done.
  - unfold peers_at at 3. cbn. destruct (others code (peers_at ip w)) as [|q room'] eqn:Eo.
    + case_decide as Hip; [subst; by rewrite lookup_delete_eq|].
      by rewrite lookup_delete_ne.
    + case_decide as Hip; [subst; by rewrite lookup_insert_eq|].
      by rewrite lookup_insert_ne.
Qed.

(** The bindings of a room are its members. *)
Lemma room_bindings ip w :
  rm_inv w ->
  map_to_list (Spec.in_room ip (abs w)) ≡ₚ room_entries (ip, peers_at ip w).
Proof.
  intros Hw. pose proof (ro_codes _ _ (peers_at_ok ip w Hw)) as Hnd.
  apply NoDup_Permutation.
  - apply NoDup_map_to_list.
  - by eapply NoDup_fmap_1, room_entries_nodup.
  - intros [[i c] p]. rewrite elem_of_map_to_list. unfold Spec.in_room.
    rewrite map_lookup_filter_Some. cbn. rewrite abs_lookup, find_code_iff; [|by apply peers_at_ok|done].
    unfold room_entries. rewrite list_elem_of_fmap. split.
    + intros [[Hp <-] ->]. by exists p.
    + intros (q & [= -> -> ->] & Hq). done.
Qed.

(** The read operations answer from the registry: [find_peer] is a lookup
    under the caller's own room, [get_room_peers] lists the public data of that
    room's bindings, and [peer_count] counts the bindings. *)
Lemma lookups_abs w :
  rm_inv w ->
  (forall ip code, find_peer ip code w = peer_sender <$> abs w !! (ip, code)) /\
  (forall ip, get_room_peers ip w ≡ₚ
     to_peer_data <$> (map_to_list (Spec.in_room ip (abs w))).*2) /\
  peer_count w = size (abs w).
Proof.
  intros Hw. split; [|split].
  - intros ip code. rewrite abs_lookup by done. unfold find_peer, peers_at.
    by destruct (w_rooms w !! ip).
  - intros ip. rewrite room_bindings by done. unfold room_entries. cbn.
    rewrite <-list_fmap_compose. unfold get_room_peers, peers_at.
    destruct (w_rooms w !! ip) as [room|]; cbn; [|done].
    by rewrite <-list_fmap_compose.
  - unfold abs. rewrite map_size_list_to_map by (by eapply entries_nodup, inv_rooms).
    unfold peer_count, entries. induction (map_to_list (w_rooms w)) as [|[ip room] l IH]; [done|].
    rewrite bind_cons, length_app, <-IH. cbn. unfold room_entries. by rewrite length_fmap.
Qed.
(** C1: the room manager implements the registry.  It starts empty; [add_peer]
    on success binds the new peer under its fresh session, replacing whatever
    that code was bound to in that room, and on an error changes no binding;
    [remove_peer] takes a binding out only if the session given holds it;
    [find_peer] looks up under the caller's own room, [get_room_peers] lists the
    public data of a room's bindings and [peer_count] counts all bindings. *)
Theorem room_manager_refines w :
  rm_inv w ->
  abs (new (V := V)) = ∅ /\
  (forall ip peer, counter_ok w ->
     match add_peer ip peer w with
     | (Ok (existing, sid), w') => abs w' = Spec.register ip (with_session peer sid) (abs w)
     | (Err _, w') => abs w' = abs w
     end) /\
  (forall ip code sid, abs (remove_peer ip code sid w) = Spec.unregister ip code sid (abs w)) /\
  (forall ip code, find_peer ip code w = peer_sender <$> abs w !! (ip, code)) /\
  (forall ip, get_room_peers ip w ≡ₚ
     to_peer_data <$> (map_to_list (Spec.in_room ip (abs w))).*2) /\
  peer_count w = size (abs w).
Proof.
  intros Hw. split; [done|]. split; [intros; by apply add_peer_abs|].
  split; [intros; by apply remove_peer_abs|]. by apply lookups_abs.
Qed.
End Abs.

(** ** The manual lookup *)

Section Manual.
Context {V : Type}.
Implicit Types w : world V.

(** The senders registered under a code, in scan order. *)
Definition hits (code : string) (room : list PeerInfo) : list sender :=
  peer_sender <$> retain (same_code code) room.

Definition classify (l : list sender) : ManualPeerLookup :=
  match l with [] => NotFound | [s] => Found s | _ => Ambiguous end.

Lemma hits_cons code p room :
  hits code (p :: room) =
    (if same_code code p then [peer_sender p] else []) ++ hits code room.
Proof. unfold hits, retain. rewrite filter_cons. by destruct (same_code code p). Qed.

Lemma manual_scan_room_spec code found room :
  manual_scan_room code found room =
    match option_list found ++ hits code room with
    | [] => Some None
    | [s] => Some (Some s)
    | _ => None
    end.
Proof.
  revert found. induction room as [|p room IH]; intros found; cbn [manual_scan_room].
  - by destruct found.
  - rewrite hits_cons. destruct (same_code code p); [|apply IH].
    destruct found as [s|]; [done|]. by rewrite IH.
Qed.

Lemma manual_scan_spec code found rooms :
  manual_scan code found rooms = classify (option_list found ++ (rooms ≫= hits code)).
Proof.
  revert found. induction rooms as [|room rooms IH]; intros found; cbn [manual_scan].
  - by destruct found.
  - rewrite manual_scan_room_spec, bind_cons, app_assoc.
    destruct (option_list found ++ hits code room) as [|s [|s' l]]; cbn; rewrite ?IH; done.
Qed.

Lemma classify_perm l l' : l ≡ₚ l' -> classify l = classify l'.
Proof.
  intros Hp. pose proof (Permutation_length Hp).
  destruct l as [|a [|b l]], l' as [|a' [|b' l']]; try done.
  by apply Permutation_singleton_inj in Hp as ->.
Qed.

(** The manual lookup does not depend on the order in which the concurrent
    table enumerates its rooms. *)
Theorem find_peer_manual_order code w order :
  order ≡ₚ map_to_list (w_rooms w) ->
  manual_scan code None order.*2 = find_peer_manual code w.
Proof.
  intros Hp. unfold find_peer_manual. rewrite !manual_scan_spec. apply classify_perm.
  cbn. by rewrite Hp.
Qed.

Lemma hits_find code room :
  NoDup (peer_code <$> room) ->
  hits code room = option_list (peer_sender <$> find_code code room).
Proof.
  intros Hnd. induction room as [|p room IH]; [done|]. rewrite hits_cons. cbn [find_code].
  rewrite fmap_cons in Hnd. apply NoDup_cons in Hnd as [Hp Hnd].
  destruct (same_code code p) eqn:E; [|by apply IH]. rewrite IH by done.
  apply elem_of_same_code in E. subst code.
  by rewrite (proj2 (find_code_None (peer_code p) room)).
Qed.

(** The hits over rooms with one candidate each. *)
Definition candidate (code : string) (kr : string * list PeerInfo) : list sender :=
  option_list (peer_sender <$> find_code code kr.2).

Lemma classify_candidates code (l : list (string * list PeerInfo)) :
  NoDup l.*1 ->
  match classify (l ≫= candidate code) with
  | NotFound => forall kr, kr ∈ l -> candidate code kr = []
  | Found s => exists kr, kr ∈ l /\ candidate code kr = [s] /\
      forall kr', kr' ∈ l -> kr'.1 <> kr.1 -> candidate code kr' = []
  | Ambiguous => exists kr kr', kr ∈ l /\ kr' ∈ l /\ kr.1 <> kr'.1 /\
      candidate code kr <> [] /\ candidate code kr' <> []
  end.
Proof.
  induction l as [|kr l IH]; intros Hnd; [by intros kr ?%elem_of_nil|].
  rewrite fmap_cons in Hnd. apply NoDup_cons in Hnd as [Hkr Hnd]. specialize (IH Hnd).
  assert (Hne : forall kr', kr' ∈ l -> kr'.1 <> kr.1).
  { intros kr' Hkr' Heq. apply Hkr. rewrite <-Heq. by apply list_elem_of_fmap_2. }
  rewrite bind_cons. unfold candidate at 1.
  destruct (peer_sender <$> find_code code kr.2) as [s|] eqn:Ek; cbn.
  - assert (Hc : candidate code kr = [s]) by (unfold candidate; by rewrite Ek).
    destruct (l ≫= candidate code) as [|s' [|s'' rest]]; cbn in IH.
    + exists kr. split; [by left|]. split; [done|].
      intros kr' [->|Hkr']%elem_of_cons Hd; [done|auto].
    + destruct IH as (kr' & Hin & Hc' & _). exists kr, kr'. rewrite Hc, Hc'.
      split_and!; try done; [by left|by right|]. intros Heq. by apply (Hne kr').
    + destruct IH as (kr' & _ & Hin & _ & _ & Hc' & _). exists kr, kr'. rewrite Hc.
      split_and!; try done; [by left|by right|]. intros Heq. by apply (Hne kr').
  - assert (Hc : candidate code kr = []) by (unfold candidate; by rewrite Ek).
    destruct (classify (l ≫= candidate code)).
    + destruct IH as (kr' & Hin & Hc' & Hother). exists kr'.
      split; [by right|]. split; [done|].
      intros kr'' [->|Hkr'']%elem_of_cons Hd; auto.
    + intros kr' [->|Hkr']%elem_of_cons; auto.
    + destruct IH as (kr1 & kr2 & ? & ? & ?). exists kr1, kr2.
      split_and!; try tauto; by right.
Qed.

Lemma manual_hits code (l : list (string * list PeerInfo)) :
  (forall kr, kr ∈ l -> NoDup (peer_code <$> kr.2)) ->
  l.*2 ≫= hits code = l ≫= candidate code.
Proof.
  induction l as [|kr l IH]; intros Hl; [done|].
  rewrite fmap_cons, !bind_cons, IH by (intros; apply Hl; by right).
  f_equal. apply hits_find, Hl. by left.
Qed.

Lemma find_peer_candidate w ip code s :
  find_peer ip code w = Some s <->
  exists room, (ip, room) ∈ map_to_list (w_rooms w) /\ candidate code (ip, room) = [s].
Proof.
  unfold find_peer, candidate. split.
  - destruct (w_rooms w !! ip) as [room|] eqn:Hr; [|done]. cbn. intros Hs.
    exists room. rewrite elem_of_map_to_list. by rewrite Hs.
  - intros (room & Hr%elem_of_map_to_list & Hs). rewrite Hr. cbn in *.
    by destruct (find_code code room); cbn in *; simplify_eq.
Qed.

(** C32: manual lookup resolves a code exactly when one room of the server has
    it: it finds the peer that the room-scoped lookup finds in that room, it
    reports ambiguity exactly when two rooms have the code, and it fails
    otherwise.  It never guesses. *)
Theorem find_peer_manual_correct code w :
  rm_inv w ->
  match find_peer_manual code w with
  | NotFound => forall ip, find_peer ip code w = None
  | Found s => exists ip, find_peer ip code w = Some s /\
      forall ip', ip' <> ip -> find_peer ip' code w = None
  | Ambiguous => exists ip ip' s s', ip <> ip' /\
      find_peer ip code w = Some s /\ find_peer ip' code w = Some s'
  end.
Proof.
  intros Hw. unfold find_peer_manual. rewrite manual_scan_spec. cbn.
  rewrite manual_hits.
  2:{ intros [ip room] Hr%elem_of_map_to_list. apply (ro_codes _ _ (inv_rooms w Hw ip room Hr)). }
  pose proof (classify_candidates code (map_to_list (w_rooms w))
    (NoDup_fst_map_to_list _)) as Hc.
  assert (Hone : forall kr, candidate code kr <> [] -> exists s, candidate code kr = [s]).
  { intros kr. unfold candidate. destruct (_ <$> _) as [s|]; [by exists s|done]. }
  destruct (classify _).
  - destruct Hc as ([ip room] & Hin & Hs & Hother). exists ip. split.
    + apply find_peer_candidate. by exists room.
    + intros ip' Hne. apply eq_None_not_Some. intros [s' (room' & Hin' & Hs')%find_peer_candidate].
      by rewrite (Hother _ Hin' Hne) in Hs'.
  - intros ip. apply eq_None_not_Some. intros [s' (room' & Hin' & Hs')%find_peer_candidate].
    by rewrite (Hc _ Hin') in Hs'.
  - destruct Hc as ([ip room] & [ip' room'] & Hin & Hin' & Hne & [s Hs]%Hone & [s' Hs']%Hone).
    exists ip, ip', s, s'. split; [done|].
    split; apply find_peer_candidate; [by exists room|by exists room'].
Qed.
End Manual.

(** ** Witnesses *)

Section Witnesses.
Import RoomExamples.
Local Open Scope stdpp_scope.

Lemma room_manager_refines_witness :
  peer_count w1 = 1%nat /\ abs (remove_peer ip "ALPHA" 1 w1) = ∅.
Proof.
  destruct (room_manager_refines w1 w1_inv) as (_ & _ & Hrem & _ & _ & ->).
  rewrite Hrem. split; by vm_compute.
Defined.

Lemma find_peer_manual_order_witness :
  manual_scan "ALPHA" None (map_to_list (w_rooms w1)).*2 = Found 0.
Proof. rewrite (find_peer_manual_order "ALPHA" w1 _ (Permutation_refl _)). by vm_compute. Defined.

Lemma find_peer_manual_correct_witness :
  exists ip', find_peer ip' "ALPHA" w1 = Some 0%nat.
Proof.
  pose proof (find_peer_manual_correct "ALPHA" w1 w1_inv) as H.
  assert (E : find_peer_manual "ALPHA" w1 = Found 0) by (by vm_compute).
  rewrite E in H. destruct H as (ip' & Hip & _). by exists ip'.
Defined.
End Witnesses.
