(* ===== verification/RoomConc.v ===== *)
(** * Interleaved room operations

    [RoomManager] is shared by every connection task, and the concurrent table
    locks one entry at a time.  Here each method is a sequence of atomic steps,
    one per access to shared state, and the tasks' steps interleave freely.
    Run alone, the steps are the methods of [Room]; interleaved, they keep every
    room well formed, but two read-then-write windows are open: the room limit
    is checked before the entry is taken, and an emptied room is deleted after
    its entry was released. *)

From stdpp Require Import pretty.
From S2P Require Import Prelude RStr Mpsc Protocol Room RoomFacts RoomSpec.

Open Scope Z_scope.

Section Conc.
Context {V : Type}.
Implicit Types w : world V.

(** A call in flight: what it will do next. *)
Inductive call :=
| AddStart (ip : string) (peer : PeerInfo)   (* next: [fetch_add] *)
| AddCheck (ip : string) (peer : PeerInfo)   (* next: [contains_key(ip)] *)
| AddLen (ip : string) (peer : PeerInfo)     (* next: [rooms.len()] *)
| AddEntry (ip : string) (peer : PeerInfo)   (* next: the entry's critical section *)
| AddDone (r : Result (list PeerData * Z) string)
| RemStart (ip code : string) (sid : Z)      (* next: the entry's critical section *)
| RemDelete (ip : string)                    (* next: [rooms.remove(ip)] *)
| RemDone.

(** One atomic step of a call; [None] when it has returned. *)
Definition call_step (c : call) (w : world V) : option (call * world V) :=
  match c with
  | AddStart ip peer =>
    let '(sid, w) := fetch_session_id w in Some (AddCheck ip (with_session peer sid), w)
  | AddCheck ip peer =>
    Some (if bool_decide (is_Some (w_rooms w !! ip)) then AddEntry ip peer else AddLen ip peer, w)
  | AddLen ip peer =>
    Some (if MAX_ROOMS <=? Z.of_nat (size (w_rooms w)) then AddDone (Err room_limit_error)
          else AddEntry ip peer, w)
  | AddEntry ip peer =>
    let '(r, w) := add_peer_entry ip peer w in
    Some (AddDone (match r with
                   | Ok existing => Ok (existing, session_id peer)
                   | Err e => Err e
                   end), w)
  | RemStart ip code sid =>
    let '(should_remove_room, w) := remove_peer_entry ip code sid w in
    Some (if should_remove_room then RemDelete ip else RemDone, w)
  | RemDelete ip => Some (RemDone, remove_room ip w)
  | AddDone _ | RemDone => None
  end.

(** The calls in flight, one per task, and the shared state. *)
Record conc := Conc { c_calls : list call; c_world : world V }.

(** Task [i] takes a step. *)
Definition run_task (i : nat) (s : conc) : option conc :=
  c ← c_calls s !! i;
  '(c', w') ← call_step c (c_world s);
  Some (Conc (<[i := c']> (c_calls s)) w').

(** A schedule: the tasks in the order in which they take their steps. *)
Fixpoint run_schedule (sched : list nat) (s : conc) : option conc :=
  match sched with
  | [] => Some s
  | i :: sched => s' ← run_task i s; run_schedule sched s'
  end.

(** Any task may take its next step, and calls may come in at any time. *)
Definition fresh_call (c : call) : Prop :=
  match c with AddStart _ _ | RemStart _ _ _ => True | _ => False end.

Inductive conc_step : conc -> conc -> Prop :=
| conc_run i s s' : run_task i s = Some s' -> conc_step s s'
| conc_call c s : fresh_call c -> conc_step s (Conc (c_calls s ++ [c]) (c_world s)).

(** Runs, for as long as the 64-bit session counter has not come round. *)
Inductive conc_reach : conc -> conc -> Prop :=
| conc_refl s : conc_reach s s
| conc_trans s1 s2 s3 :
    conc_reach s1 s2 -> counter_ok (c_world s2) -> conc_step s2 s3 -> conc_reach s1 s3.

(** ** A call that runs alone is the method *)

Fixpoint run_alone (fuel : nat) (c : call) (w : world V) : call * world V :=
  match fuel with
  | O => (c, w)
  | S fuel =>
    match call_step c w with
    | Some (c', w') => run_alone fuel c' w'
    | None => (c, w)
    end
  end.

(** When no other task interferes, the atomic steps of a call compose to
    the method: [add_peer] in at most four steps and [remove_peer] in at most
    two, with the same answer and the same final state. *)
Theorem run_alone_method w :
  (forall ip peer, run_alone 4 (AddStart ip peer) w =
     let '(r, w') := add_peer ip peer w in (AddDone r, w')) /\
  (forall ip code sid, run_alone 2 (RemStart ip code sid) w =
     (RemDone, remove_peer ip code sid w)).
Proof.
  split.
  - intros ip peer. unfold add_peer, room_limit_reached. cbn.
    destruct (bool_decide (is_Some (w_rooms w !! ip))) eqn:Hc; cbn.
    + by destruct (add_peer_entry _ _ _) as [[?|?] ?].
    + destruct (MAX_ROOMS <=? Z.of_nat (size (w_rooms w))) eqn:Hl; cbn; [done|].
      by destruct (add_peer_entry _ _ _) as [[?|?] ?].
  - intros ip code sid. unfold remove_peer. cbn.
    by destruct (remove_peer_entry ip code sid w) as [[] ?].
Qed.

(** ** What every interleaving keeps *)

(** The peer a call is about to register, once it has its session. *)
Definition pending (c : call) : option PeerInfo :=
  match c with
  | AddCheck _ p | AddLen _ p | AddEntry _ p => Some p
  | _ => None
  end.

Record conc_inv (s : conc) : Prop := {
  ci_next : 0 < w_next (c_world s);
  ci_rooms : rooms_ok (w_next (c_world s)) (w_rooms (c_world s));
  ci_unique : sessions_unique (w_rooms (c_world s));
  ci_pending : forall i c p, c_calls s !! i = Some c -> pending c = Some p ->
    0 < session_id p < w_next (c_world s) /\
    forall ip room q, w_rooms (c_world s) !! ip = Some room -> q ∈ room ->
      session_id q <> session_id p;
  ci_distinct : forall i j c c' p q,
    c_calls s !! i = Some c -> c_calls s !! j = Some c' ->
    pending c = Some p -> pending c' = Some q -> session_id p = session_id q -> i = j;
}.

(** The sessions in the table after a step are among those before and those of
    the peer the step registered. *)
Definition rooms_from (rooms rooms' : gmap string (list PeerInfo)) (new : option PeerInfo) : Prop :=
  forall ip room q, rooms' !! ip = Some room -> q ∈ room ->
    new = Some q \/ exists room', rooms !! ip = Some room' /\ q ∈ room'.

Lemma rooms_from_refl rooms : rooms_from rooms rooms None.
Proof. intros ip room q Hr Hq. right. by exists room. Qed.

Lemma rooms_from_insert rooms ip room new :
  (forall q, q ∈ room -> new = Some q \/ q ∈ default [] (rooms !! ip)) ->
  rooms_from rooms (<[ip := room]> rooms) new.
Proof.
  intros Hroom i r q [[<- <-]|[Hne Hr]]%lookup_insert_Some Hq; [|right; by exists r].
  destruct (Hroom q Hq) as [?|Hold]; [by left|right].
  destruct (rooms !! ip) as [r'|]; [by exists r'|by apply elem_of_nil in Hold].
Qed.

(** A call that registers or drops nothing, or registers what it was pending on,
    keeps the invariant. *)
Lemma conc_inv_update s i c c' w' :
  conc_inv s -> c_calls s !! i = Some c ->
  w_next w' = w_next (c_world s) -> 
  rooms_ok (w_next w') (w_rooms w') -> sessions_unique (w_rooms w') ->
  (pending c' = pending c /\ rooms_from (w_rooms (c_world s)) (w_rooms w') None \/
   pending c' = None /\ rooms_from (w_rooms (c_world s)) (w_rooms w') (pending c)) ->
  conc_inv (Conc (<[i := c']> (c_calls s)) w').
Proof.
  intros [Hn Hr Hu Hp Hd] Hi Hnext Hr' Hu' Hcase.
  assert (Hpend : forall j d p, <[i := c']> (c_calls s) !! j = Some d -> pending d = Some p ->
    exists d', c_calls s !! j = Some d' /\ pending d' = Some p /\ (j = i -> pending c' = pending c)).
  { intros j d p Hj Hpd. destruct (decide (i = j)) as [<-|Hne].
    - apply list_lookup_insert_Some in Hj as [(_ & <- & _)|[? _]]; [|done].
      exists c. destruct Hcase as [[Heq _]|[Heq _]]; [|congruence]. by rewrite <-Heq.
    - rewrite list_lookup_insert_ne in Hj by done. exists d. naive_solver. }
  split; cbn; try done; [lia|..].
  - intros j d p Hj Hpd. destruct (Hpend j d p Hj Hpd) as (d' & Hj' & Hpd' & Hsame).
    destruct (Hp j d' p Hj' Hpd') as [Hrange Hfresh]. rewrite Hnext. split; [done|].
    intros ip room q Hroom Hq. destruct Hcase as [[_ Hfrom]|[Hnone Hfrom]];
      destruct (Hfrom ip room q Hroom Hq) as [Hnew|(room' & Hroom' & Hq')]; try done.
    + by eapply Hfresh.
    + intros Heq. assert (i = j) as -> by (by eapply (Hd i j c d' q p)).
      rewrite Hsame in Hnone by done. congruence.
    + by eapply Hfresh.
  - intros j k d d' p q Hj Hk Hpd Hpd' Heq.
    destruct (Hpend j d p Hj Hpd) as (e & ? & ? & _), (Hpend k d' q Hk Hpd') as (e' & ? & ? & _).
    eauto.
Qed.

Lemma fetch_inv s i ip p :
  conc_inv s -> counter_ok (c_world s) -> c_calls s !! i = Some (AddStart ip p) ->
  conc_inv (Conc (<[i := AddCheck ip (with_session p (w_next (c_world s)))]> (c_calls s))
              (fetch_session_id (c_world s)).2).
Proof.
  intros [Hn Hr Hu Hp Hd] Hok Hi. unfold counter_ok in Hok.
  assert (Hcase : forall j d q,
    <[i := AddCheck ip (with_session p (w_next (c_world s)))]> (c_calls s) !! j = Some d ->
    pending d = Some q ->
    (j = i /\ session_id q = w_next (c_world s)) \/
    (c_calls s !! j = Some d /\ 0 < session_id q < w_next (c_world s))).
  { intros j d q Hj Hpd. destruct (decide (i = j)) as [<-|Hne].
    - apply list_lookup_insert_Some in Hj as [(_ & <- & _)|[? _]]; [left|done].
      by injection Hpd as <-.
    - rewrite list_lookup_insert_ne in Hj by done. right. split; [done|]. by eapply Hp. }
  split; cbn; rewrite ?wrap_u64_small by lia; [lia| |done|..].
  - intros ip' room Hroom. apply (room_ok_mono (w_next (c_world s))); [lia|by apply (Hr ip')].
  - intros j d q Hj Hpd. destruct (Hcase j d q Hj Hpd) as [[-> Hq]|[Hj' Hq]].
    + split; [lia|]. intros ip' room r Hroom Hr'.
      pose proof (ro_sessions _ _ (Hr ip' room Hroom) r Hr'). lia.
    + split; [lia|]. by apply (Hp j d q).
  - intros j k d d' q q' Hj Hk Hpd Hpd' Heq.
    destruct (Hcase j d q Hj Hpd) as [[-> Hq]|[Hj' Hq]],
      (Hcase k d' q' Hk Hpd') as [[-> Hq']|[Hk' Hq']]; [done|lia..|].
    by eapply (Hd j k d d' q q').
Qed.

Lemma default_room_ok n (rooms : gmap string (list PeerInfo)) ip :
  rooms_ok n rooms -> room_ok n (default [] (rooms !! ip)).
Proof.
  intros Hok. destruct (rooms !! ip) as [room|] eqn:E; cbn; [by apply (Hok ip)|].
  split; [constructor|done|by intros p ?%elem_of_nil].
Qed.

Lemma rooms_ok_insert n (rooms : gmap string (list PeerInfo)) ip room :
  rooms_ok n rooms -> room_ok n room -> rooms_ok n (<[ip := room]> rooms).
Proof. intros Hok Hr i r [[<- <-]|[_ Hi]]%lookup_insert_Some; [done|by apply (Hok i)]. Qed.

Lemma add_entry_facts ip p w :
  rooms_ok (w_next w) (w_rooms w) -> sessions_unique (w_rooms w) ->
  0 < session_id p < w_next w ->
  (forall ip' room q, w_rooms w !! ip' = Some room -> q ∈ room -> session_id q <> session_id p) ->
  let w' := (add_peer_entry ip p w).2 in
  w_next w' = w_next w /\ rooms_ok (w_next w) (w_rooms w') /\
  sessions_unique (w_rooms w') /\ rooms_from (w_rooms w) (w_rooms w') (Some p).
Proof.
  intros Hr Hu Hp Hfresh. cbn zeta. unfold add_peer_entry.
  pose proof (default_room_ok _ _ ip Hr) as Hroom.
  rewrite replace_stale_retain by apply (ro_codes _ _ Hroom).
  fold (others (peer_code p) (default [] (w_rooms w !! ip))).
  destruct (Z.leb_spec MAX_PEERS_PER_ROOM
    (vec_len (others (peer_code p) (default [] (w_rooms w !! ip))))) as [_|Hlt]; cbn.
  - split; [done|]. split; [by apply rooms_ok_insert, room_ok_others|]. split.
    + apply sessions_unique_insert_sub; [done|]. by intros q [? _]%elem_of_others.
    + apply rooms_from_insert. intros q [? _]%elem_of_others. by right.
  - split; [done|]. split; [by apply rooms_ok_insert, room_ok_snoc|]. split.
    + apply sessions_unique_update with (p0 := p); [done..|].
      intros q [[Hq _]%elem_of_others| ->%list_elem_of_singleton]%elem_of_app; auto.
    + apply rooms_from_insert.
      intros q [[Hq _]%elem_of_others| ->%list_elem_of_singleton]%elem_of_app; auto.
Qed.

Lemma remove_entry_facts ip code sid w :
  rooms_ok (w_next w) (w_rooms w) -> sessions_unique (w_rooms w) ->
  let w' := (remove_peer_entry ip code sid w).2 in
  w_next w' = w_next w /\ rooms_ok (w_next w) (w_rooms w') /\
  sessions_unique (w_rooms w') /\ rooms_from (w_rooms w) (w_rooms w') None.
Proof.
  intros Hr Hu. cbn zeta. unfold remove_peer_entry.
  destruct (w_rooms w !! ip) as [room|] eqn:E; [|by split_and!; [..|apply rooms_from_refl]].
  destruct (_ <? _); [|by split_and!; [..|apply rooms_from_refl]]. cbn.
  pose proof (Hr ip room E) as Hroom.
  rewrite retain_session by apply (ro_codes _ _ Hroom).
  assert (Hsub : forall q,
    q ∈ match find_code code room with
        | Some p => if session_id p =? sid then others code room else room
        | None => room
        end -> q ∈ default [] (w_rooms w !! ip)).
  { rewrite E. cbn. intros q. destruct (find_code code room) as [p|]; [|done].
    destruct (_ =? _); [|done]. by intros [? _]%elem_of_others. }
  split; [done|]. split; [|split].
  - apply rooms_ok_insert; [done|]. destruct (find_code code room) as [p|]; [|done].
    destruct (_ =? _); [by apply room_ok_others|done].
  - by apply sessions_unique_insert_sub.
  - apply rooms_from_insert. intros q Hq. right. by apply Hsub.
Qed.

Lemma run_task_inv i s s' :
  conc_inv s -> counter_ok (c_world s) -> run_task i s = Some s' -> conc_inv s'.
Proof.
  intros Hs Hok Hrun. pose proof Hs as [Hn Hr Hu Hp Hd]. unfold run_task in Hrun.
  destruct (c_calls s !! i) as [c|] eqn:Hi; [|done]. cbn in Hrun.
  destruct c as [ip p|ip p|ip p|ip p| |ip code sid|ip|]; cbn in Hrun; try done.
  - injection Hrun as <-. by apply fetch_inv with (p := p) (ip := ip).
  - injection Hrun as <-. eapply conc_inv_update; try done. left.
    split; [by case_bool_decide|apply rooms_from_refl].
  - injection Hrun as <-. eapply conc_inv_update; try done.
    destruct (_ <=? _); [right|left]; split; try done.
    + intros ip' room q Hroom Hq. right. by exists room.
    + apply rooms_from_refl.
  - destruct (Hp i _ p Hi eq_refl) as [Hrange Hfresh].
    pose proof (add_entry_facts ip p (c_world s) Hr Hu Hrange Hfresh) as (Hnx & Hr' & Hu' & Hf).
    destruct (add_peer_entry ip p (c_world s)) as [r w']. cbn in *. injection Hrun as <-.
    rewrite <-Hnx in Hr'. eapply conc_inv_update; try done. by right.
  - pose proof (remove_entry_facts ip code sid (c_world s) Hr Hu) as (Hnx & Hr' & Hu' & Hf).
    destruct (remove_peer_entry ip code sid (c_world s)) as [b w']. cbn in *.
    injection Hrun as <-. rewrite <-Hnx in Hr'.
    eapply conc_inv_update; try done. left. by destruct b.
  - injection Hrun as <-. eapply conc_inv_update; try done; cbn.
    + intros ip' room [_ Hroom]%lookup_delete_Some. by apply (Hr ip').
    + by apply sessions_unique_delete.
    + left. split; [done|]. intros ip' room q [_ Hroom]%lookup_delete_Some Hq. right. by exists room.
Qed.

Lemma conc_step_inv s s' :
  conc_inv s -> counter_ok (c_world s) -> conc_step s s' -> conc_inv s'.
Proof.
  intros Hs Hok Hstep. revert Hs Hok.
  destruct Hstep as [i s1 s2 Hrun|c s1 Hc]; intros Hs Hok; [by eapply run_task_inv|].
  destruct Hs as [Hn Hr Hu Hp Hd].
  assert (Hold : forall j d q, (c_calls s1 ++ [c]) !! j = Some d -> pending d = Some q ->
    c_calls s1 !! j = Some d).
  { intros j d q [Hj|[_ Hj]]%lookup_app_Some Hpd; [done|].
    apply list_lookup_singleton_Some in Hj as [_ <-]. by destruct c. }
  split; cbn; [done|done|done| |].
  - intros i d p Hi Hpd. by apply (Hp i d p (Hold _ _ _ Hi Hpd)).
  - intros i j d d' p q Hi Hj Hpd Hpd'. by apply (Hd i j d d' p q (Hold _ _ _ Hi Hpd) (Hold _ _ _ Hj Hpd')).
Qed.

Lemma initial_inv : conc_inv (Conc [] (new (V := V))).
Proof.
  split; cbn; [done|..].
  - by intros ip room.
  - by intros ip ip' room room' p p'.
  - by intros i c p.
  - by intros i j c c' p q.
Qed.

(** However the steps of concurrent [add_peer] and [remove_peer] calls
    interleave, no room ever holds two peers under one code or more than 256
    peers, and no two registered peers ever share a session id. *)
Theorem interleaving_safe s :
  conc_reach (Conc [] (new (V := V))) s ->
  rooms_ok (w_next (c_world s)) (w_rooms (c_world s)) /\
  sessions_unique (w_rooms (c_world s)).
Proof.
  intros Hreach. enough (conc_inv s) by (split; by apply H).
  remember (Conc [] new) as s0 eqn:E. induction Hreach as [|s1 s2 s3 _ IH Hok Hstep]; subst.
  - apply initial_inv.
  - by eapply conc_step_inv; [apply IH| |].
Qed.

(** ** The two open windows *)

(** C33: A lost registration.  While the last peer of a room is being removed,
    a newcomer that registers between the release of the emptied entry and
    [rooms.remove(ip)] is told it has joined, and is then deleted with the
    room: both calls have returned, nothing unregistered the newcomer, and
    neither the room nor any lookup knows it. *)
Theorem registration_lost ip peer old w :
  w_rooms w !! ip = Some [old] ->
  let calls := [RemStart ip (peer_code old) (session_id old); AddStart ip peer] in
  exists w',
    run_schedule [0; 1; 1; 1; 0]%nat (Conc calls w) =
      Some (Conc [RemDone; AddDone (Ok ([], w_next w))] w') /\
    w_rooms w' !! ip = None /\
    find_peer ip (peer_code peer) w' = None.
Proof.
  intros Hroom calls.
  assert (Hrem : remove_peer_entry ip (peer_code old) (session_id old) w =
    (true, World (<[ip := []]> (w_rooms w)) (w_next w) (w_chans w))).
  { unfold remove_peer_entry. rewrite Hroom, retain_session.
    - cbn. rewrite (proj2 (elem_of_same_code _ old)) by done. rewrite Z.eqb_refl.
      unfold others, retain. rewrite filter_cons_False; [done|].
      by rewrite (proj2 (elem_of_same_code _ old)).
    - apply NoDup_singleton. }
  unfold run_schedule, run_task, calls. cbn -[remove_peer_entry add_peer_entry].
  rewrite Hrem. cbn -[add_peer_entry].
  rewrite lookup_insert_eq. rewrite bool_decide_eq_true_2 by done.
  cbn -[add_peer_entry]. unfold add_peer_entry. cbn. rewrite lookup_insert_eq. cbn.
  change (MAX_PEERS_PER_ROOM <=? vec_len []) with false. cbn.
  eexists. split; [done|]. unfold find_peer. cbn. by rewrite !lookup_delete_eq.
Qed.

(** C34: the room limit is not a limit under concurrency: with one room short of
    it, two first registrations from different addresses that both pass the
    check before either takes its entry are both accepted, and the table is one
    room over [MAX_ROOMS]. *)
Theorem room_limit_overshoot ip1 ip2 p1 p2 w :
  Z.of_nat (size (w_rooms w)) = MAX_ROOMS - 1 ->
  w_rooms w !! ip1 = None -> w_rooms w !! ip2 = None -> ip1 <> ip2 ->
  exists w' r1 r2,
    run_schedule [0; 0; 0; 1; 1; 1; 0; 1]%nat (Conc [AddStart ip1 p1; AddStart ip2 p2] w) =
      Some (Conc [AddDone (Ok r1); AddDone (Ok r2)] w') /\
    Z.of_nat (size (w_rooms w')) = MAX_ROOMS + 1.
Proof.
  intros Hsize H1 H2 Hne.
  assert (Hlim : (MAX_ROOMS <=? Z.of_nat (size (w_rooms w))) = false) by (apply Z.leb_gt; lia).
  assert (Hentry : forall ip p (w0 : world V), w_rooms w0 !! ip = None ->
    add_peer_entry ip p w0 =
      (Ok [], World (<[ip := [p]]> (w_rooms w0)) (w_next w0) (w_chans w0))).
  { intros ip p w0 Hnone. unfold add_peer_entry. by rewrite Hnone. }
  unfold run_schedule, run_task. cbn -[add_peer_entry size].
  repeat (first [ rewrite H1 | rewrite H2 | rewrite Hlim
                | rewrite bool_decide_eq_false_2 by (by intros [? ?])
                | rewrite Hentry by (cbn; by rewrite ?lookup_insert_ne) ];
          cbn -[add_peer_entry size]).
  do 3 eexists. split; [done|]. cbn -[size].
  rewrite map_size_insert_None, map_size_insert_None by (by rewrite ?lookup_insert_ne). lia.
Qed.
End Conc.

(** ** Witnesses *)

Section Witnesses.
Import RoomExamples.
Local Open Scope stdpp_scope.

Lemma interleaving_safe_witness :
  exists s, conc_reach (Conc [] (new (V := unit))) s /\
    c_calls s = [AddCheck ip (with_session (peer_on "ALPHA" 0) 1)] /\
    sessions_unique (w_rooms (c_world s)).
Proof.
  set (s1 := Conc [AddStart ip (peer_on "ALPHA" 0)] (new (V := unit))).
  set (s2 := Conc [AddCheck ip (with_session (peer_on "ALPHA" 0) 1)]
               (fetch_session_id (new (V := unit))).2).
  assert (Hreach : conc_reach (Conc [] new) s2).
  { apply (conc_trans _ s1); [|done|by apply (conc_run 0)].
    apply (conc_trans _ (Conc [] new)); [constructor|done|].
    by apply (conc_call (AddStart ip (peer_on "ALPHA" 0)) (Conc [] new)). }
  exists s2. split; [done|]. split; [done|]. apply (interleaving_safe s2 Hreach).
Defined.

Lemma registration_lost_witness :
  exists w', run_schedule [0; 1; 1; 1; 0]%nat
    (Conc [RemStart ip "ALPHA" 1; AddStart ip (peer_on "BETA" 1)] w1) =
      Some (Conc [RemDone; AddDone (Ok ([], 2))] w') /\
    find_peer ip "BETA" w' = None.
Proof.
  destruct (registration_lost ip (peer_on "BETA" 1) (with_session (peer_on "ALPHA" 0) 1) w1)
    as (w' & Hrun & _ & Hfind); [by vm_compute|by exists w'].
Defined.

(** A table one room short of the limit. *)
Definition many_rooms : gmap string (list PeerInfo) :=
  list_to_map ((fun n : nat => ("r" +:+ pretty n, [peer_on "ALPHA" 0])) <$> seq 0 (Z.to_nat (MAX_ROOMS - 1))).

Lemma many_rooms_size : Z.of_nat (size many_rooms) = MAX_ROOMS - 1.
Proof.
  unfold many_rooms. rewrite map_size_list_to_map.
  - rewrite length_fmap, length_seq. by rewrite Z2Nat.id.
  - rewrite <-list_fmap_compose. apply NoDup_fmap_2; [|apply NoDup_seq].
    intros n m Heq. cbn in Heq. by apply (inj (String.app "r")), (inj pretty) in Heq.
Defined.

Lemma many_rooms_none k : (forall n : nat, "r" +:+ pretty n <> k) -> many_rooms !! k = None.
Proof.
  intros Hk. apply not_elem_of_list_to_map_1. rewrite <-list_fmap_compose.
  intros (n & Hn & _)%list_elem_of_fmap. by apply (Hk n).
Defined.

Lemma room_limit_overshoot_witness :
  exists w' r1 r2,
    run_schedule [0; 0; 0; 1; 1; 1; 0; 1]%nat
      (Conc [AddStart "x" (peer_on "BETA" 1); AddStart "y" (peer_on "GAMMA" 2)]
         (World (V := unit) many_rooms 1 ∅)) =
      Some (Conc [AddDone (Ok r1); AddDone (Ok r2)] w') /\
    Z.of_nat (size (w_rooms w')) = MAX_ROOMS + 1.
Proof.
  apply room_limit_overshoot; [apply many_rooms_size|by apply many_rooms_none..|done].
Defined.
End Witnesses.
