(* ===== verification/Testing.v ===== *)
(** * Unit tests as programs

    The repository's own tests are translated into the test monad of this file:
    a test threads the state of what it tests and stops at the first assertion
    that fails or unwrap that panics.  A test that runs to its end passes. *)

From S2P Require Import Prelude RStr.

Definition test (St A : Type) : Type := St -> option (A * St).

#[export] Instance test_ret St : MRet (test St) := fun A a s => Some (a, s).
#[export] Instance test_bind St : MBind (test St) := fun A B f m s =>
  match m s with Some (a, s) => f a s | None => None end.

Section Testing.
Context {St : Type}.

(** A call that reads the state, and one that changes it. *)
Definition query {A} (f : St -> A) : test St A := fun s => Some (f s, s).
Definition call {A} (f : St -> A * St) : test St A := fun s => Some (f s).
Definition update (f : St -> St) : test St unit := fun s => Some (tt, f s).

(** [assert!] *)
Definition assert_that (b : bool) : test St unit := fun s => if b then Some (tt, s) else None.

(** [assert_eq!] *)
Definition assert_eq {A} `{EqDecision A} (a b : A) : test St unit := assert_that (bool_decide (a = b)).

Definition is_ok {T E} (r : Result T E) : bool := negb (is_err r).
Definition is_some {T} (o : option T) : bool := match o with Some _ => true | None => false end.

(** [unwrap] and [expect], and the index of a vector, panic. *)
Definition unwrap {T E} (r : Result T E) : test St T := fun s =>
  match r with Ok a => Some (a, s) | Err _ => None end.
Definition unwrap_err {T E} (r : Result T E) : test St E := fun s =>
  match r with Ok _ => None | Err e => Some (e, s) end.
Definition expect {T} (o : option T) : test St T := fun s =>
  match o with Some a => Some (a, s) | None => None end.
Definition nth_of {T} (l : list T) (i : nat) : test St T := expect (l !! i).

(** [for i in range { body }] *)
Fixpoint for_each {A} (l : list A) (body : A -> test St unit) : test St unit :=
  match l with
  | [] => mret tt
  | a :: l => body a ≫= fun _ => for_each l body
  end.

Definition passes (t : test St unit) (s : St) : bool := is_some (t s).
End Testing.

(** [0..n] *)
Definition range (n : Z) : list Z := seqZ 0 n.

(** Decimal text padded with zeroes to a width, as [{i:04}]. *)
Definition padded (width : nat) (i : Z) : string :=
  let s := show_Z i in
  (String.concat EmptyString (repeat "0" (width - String.length s)) +:+ s)%stdpp.

(** A test without state: its assertions. *)
Definition all_hold (asserts : list bool) : bool := forallb (fun b => b) asserts.
