(* ===== verification/RoomTests.v ===== *)
(** * The unit tests of the room manager (signal/src/room.rs, [mod tests])

    Each test of the source, run on [Room].  The counter [NEXT_SESSION_ID] is a
    static that the tests of one process share; the tests here start from its
    initial value. *)

From S2P Require Import Prelude RStr Mpsc Protocol Room Testing.

Open Scope Z_scope.
Local Open Scope stdpp_scope.
Local Open Scope Z_scope.

Abbreviation room_test := (test (world unit)).

(** [make_peer]: a peer with a channel of its own; the receiver is the channel. *)
Definition make_peer (code name : string) : room_test (PeerInfo * sender) :=
  call (fun w =>
    let id := size (w_chans w) in
    ((mkPeerInfo code name Desktop id 0 None None, id), set_chans (<[id := new_chan]> (w_chans w)) w)).

(** A receiver goes out of scope. *)
Definition drop_rx (rx : sender) : room_test unit :=
  update (fun w => set_chans (alter task_end rx (w_chans w)) w).

(** [rx.try_recv()] *)
Definition try_recv (rx : sender) : room_test (Result (ServerMessage unit) unit) :=
  call (fun w =>
    match w_chans w !! rx with
    | Some (Chan (m :: q) open ab wire) => (Ok m, set_chans (<[rx := Chan q open ab wire]> (w_chans w)) w)
    | _ => (Err tt, w)
    end).

Definition add (ip : string) (p : PeerInfo) : room_test (Result (list PeerData * Z) string) :=
  call (add_peer ip p).
Definition remove (ip code : string) (sid : Z) : room_test unit := update (remove_peer ip code sid).
Definition peers_of (ip : string) : room_test (list PeerData) := query (get_room_peers ip).

Definition add_peer_inserts_into_correct_room : room_test unit :=
  '(peer, _) ← make_peer "ALPHA" "Desktop A";
  result ← add "192.168.1.10" peer;
  assert_that (is_ok result);;
  '(existing, _) ← unwrap result;
  assert_eq existing [];;
  rooms ← query room_count; assert_eq rooms 1%nat;;
  n ← query peer_count; assert_eq n 1%nat;;
  peers ← peers_of "192.168.1.10";
  assert_eq (length peers) 1%nat;;
  p ← nth_of peers 0; assert_eq (pd_peer_code p) "ALPHA".

Definition add_peer_returns_existing_peers_before_insert : room_test unit :=
  '(p1, _) ← make_peer "AAA" "First";
  '(p2, _) ← make_peer "BBB" "Second";
  r ← add "10.0.0.1" p1; unwrap r;;
  r ← add "10.0.0.1" p2; '(existing, _) ← unwrap r;
  assert_eq (length existing) 1%nat;;
  p ← nth_of existing 0; assert_eq (pd_peer_code p) "AAA".

Definition add_peer_replaces_duplicate_peer_code : room_test unit :=
  '(p1, rx1) ← make_peer "DUP" "First";
  '(p2, _) ← make_peer "DUP" "Second";
  r ← add "10.0.0.1" p1; '(_, session1) ← unwrap r;
  r ← add "10.0.0.1" p2; '(_, session2) ← unwrap r;
  assert_that (session1 <? session2);;
  n ← query peer_count; assert_eq n 1%nat;;
  peers ← peers_of "10.0.0.1";
  assert_eq (length peers) 1%nat;;
  p ← nth_of peers 0; assert_eq (pd_device_name p) "Second";;
  m ← try_recv rx1; assert_that (is_err m).

Definition add_peer_same_code_different_rooms_allowed : room_test unit :=
  '(p1, _) ← make_peer "SAME" "Room A";
  '(p2, _) ← make_peer "SAME" "Room B";
  r ← add "10.0.0.1" p1; assert_that (is_ok r);;
  r ← add "10.0.0.2" p2; assert_that (is_ok r);;
  rooms ← query room_count; assert_eq rooms 2%nat;;
  n ← query peer_count; assert_eq n 2%nat.

Definition remove_peer_skips_replaced_session_dp5 : room_test unit :=
  '(p1, _) ← make_peer "RECONNECT" "First";
  '(p2, _) ← make_peer "RECONNECT" "Second";
  r ← add "10.0.0.1" p1; '(_, session1) ← unwrap r;
  r ← add "10.0.0.1" p2; '(_, session2) ← unwrap r;
  n ← query peer_count; assert_eq n 1%nat;;
  remove "10.0.0.1" "RECONNECT" session1;;
  n ← query peer_count; assert_eq n 1%nat;;
  peers ← peers_of "10.0.0.1";
  p ← nth_of peers 0; assert_eq (pd_device_name p) "Second";;
  remove "10.0.0.1" "RECONNECT" session2;;
  n ← query peer_count; assert_eq n 0%nat.

Definition add_peer_broadcasts_peer_joined_to_existing : room_test unit :=
  '(p1, rx1) ← make_peer "FIRST" "Device 1";
  '(p2, _) ← make_peer "SECOND" "Device 2";
  r ← add "10.0.0.1" p1; unwrap r;;
  r ← add "10.0.0.1" p2; unwrap r;;
  r ← try_recv rx1; msg ← unwrap r;
  match msg with
  | PeerJoined peer => assert_eq (pd_peer_code peer) "SECOND"
  | _ => assert_that false
  end.

Definition remove_peer_removes_from_room : room_test unit :=
  '(p1, _) ← make_peer "RM1" "Device 1";
  '(p2, _) ← make_peer "RM2" "Device 2";
  r ← add "10.0.0.1" p1; '(_, s1) ← unwrap r;
  r ← add "10.0.0.1" p2; unwrap r;;
  n ← query peer_count; assert_eq n 2%nat;;
  remove "10.0.0.1" "RM1" s1;;
  n ← query peer_count; assert_eq n 1%nat;;
  peers ← peers_of "10.0.0.1";
  assert_eq (length peers) 1%nat;;
  p ← nth_of peers 0; assert_eq (pd_peer_code p) "RM2".

Definition remove_peer_cleans_up_empty_room : room_test unit :=
  '(p1, _) ← make_peer "SOLO" "Only One";
  r ← add "10.0.0.1" p1; '(_, s1) ← unwrap r;
  rooms ← query room_count; assert_eq rooms 1%nat;;
  remove "10.0.0.1" "SOLO" s1;;
  rooms ← query room_count; assert_eq rooms 0%nat;;
  n ← query peer_count; assert_eq n 0%nat.

Definition remove_peer_broadcasts_peer_left : room_test unit :=
  '(stay, stay_rx) ← make_peer "STAY" "Stayer";
  '(leave, _) ← make_peer "LEAVE" "Leaver";
  r ← add "10.0.0.1" stay; unwrap r;;
  r ← add "10.0.0.1" leave; '(_, s_leave) ← unwrap r;
  try_recv stay_rx;;
  remove "10.0.0.1" "LEAVE" s_leave;;
  r ← try_recv stay_rx; msg ← unwrap r;
  match msg with
  | PeerLeft peer_code => assert_eq peer_code "LEAVE"
  | _ => assert_that false
  end.

Definition remove_peer_nonexistent_does_not_panic : room_test unit :=
  '(p1, _) ← make_peer "EXISTS" "Real";
  r ← add "10.0.0.1" p1; unwrap r;;
  remove "10.0.0.1" "EXISTS" 999999;;
  n ← query peer_count; assert_eq n 1%nat;;
  remove "10.0.0.99" "GHOST" 0;;
  n ← query peer_count; assert_eq n 1%nat.

Definition find_peer_returns_sender_for_same_room_peer : room_test unit :=
  '(p1, _) ← make_peer "FINDME" "Device";
  r ← add "10.0.0.1" p1; unwrap r;;
  tx ← query (find_peer "10.0.0.1" "FINDME"); assert_that (is_some tx).

Definition find_peer_returns_none_for_absent_peer : room_test unit :=
  tx ← query (find_peer "10.0.0.1" "NOBODY"); assert_eq tx None.

Definition find_peer_rejects_cross_room_lookup : room_test unit :=
  '(p1, _) ← make_peer "ROOM1PEER" "Room 1";
  '(p2, _) ← make_peer "ROOM2PEER" "Room 2";
  r ← add "10.0.0.1" p1; unwrap r;;
  r ← add "10.0.0.2" p2; unwrap r;;
  tx ← query (find_peer "10.0.0.1" "ROOM1PEER"); assert_that (is_some tx);;
  tx ← query (find_peer "10.0.0.2" "ROOM2PEER"); assert_that (is_some tx);;
  tx ← query (find_peer "10.0.0.1" "ROOM2PEER"); assert_eq tx None;;
  tx ← query (find_peer "10.0.0.2" "ROOM1PEER"); assert_eq tx None;;
  tx ← query (find_peer "10.0.0.1" "MISSING"); assert_eq tx None.

Definition find_peer_cross_room_regression : room_test unit :=
  '(attacker, _) ← make_peer "ATTACKER" "Malicious";
  '(victim, _) ← make_peer "VICTIM" "Target";
  r ← add "10.0.0.1" attacker; unwrap r;;
  r ← add "10.0.0.2" victim; unwrap r;;
  tx ← query (find_peer "10.0.0.1" "VICTIM"); assert_eq tx None.

Definition find_peer_manual_finds_unique_cross_room_peer : room_test unit :=
  '(p1, _) ← make_peer "ROOM1" "Room 1";
  '(p2, _) ← make_peer "MANUAL" "Room 2";
  r ← add "10.0.0.1" p1; unwrap r;;
  r ← add "10.0.0.2" p2; unwrap r;;
  l ← query (find_peer_manual "MANUAL");
  assert_that (match l with Found _ => true | _ => false end).

Definition find_peer_manual_rejects_duplicate_codes_across_rooms : room_test unit :=
  '(p1, _) ← make_peer "DUPMAN" "Room 1";
  '(p2, _) ← make_peer "DUPMAN" "Room 2";
  r ← add "10.0.0.1" p1; unwrap r;;
  r ← add "10.0.0.2" p2; unwrap r;;
  l ← query (find_peer_manual "DUPMAN"); assert_eq l Ambiguous.

Definition find_peer_manual_returns_not_found_for_absent_code : room_test unit :=
  l ← query (find_peer_manual "MISSING"); assert_eq l NotFound.

Definition peer_a_disconnect_does_not_affect_peer_b : room_test unit :=
  '(pa, _) ← make_peer "PEERA" "Device A";
  '(pb, _) ← make_peer "PEERB" "Device B";
  r ← add "10.0.0.1" pa; '(_, sa) ← unwrap r;
  r ← add "10.0.0.1" pb; unwrap r;;
  n ← query peer_count; assert_eq n 2%nat;;
  remove "10.0.0.1" "PEERA" sa;;
  n ← query peer_count; assert_eq n 1%nat;;
  tx ← query (find_peer "10.0.0.1" "PEERB"); assert_that (is_some tx);;
  tx ← query (find_peer "10.0.0.1" "PEERA"); assert_eq tx None;;
  peers ← peers_of "10.0.0.1";
  assert_eq (length peers) 1%nat;;
  p ← nth_of peers 0; assert_eq (pd_peer_code p) "PEERB";;
  rooms ← query room_count; assert_eq rooms 1%nat.

Definition multi_room_isolation : room_test unit :=
  '(p1, _) ← make_peer "R1A" "Room1 A";
  '(p2, _) ← make_peer "R1B" "Room1 B";
  '(p3, _) ← make_peer "R2A" "Room2 A";
  r ← add "10.0.0.1" p1; '(_, s1a) ← unwrap r;
  r ← add "10.0.0.1" p2; '(_, s1b) ← unwrap r;
  r ← add "10.0.0.2" p3; unwrap r;;
  rooms ← query room_count; assert_eq rooms 2%nat;;
  n ← query peer_count; assert_eq n 3%nat;;
  remove "10.0.0.1" "R1A" s1a;;
  remove "10.0.0.1" "R1B" s1b;;
  rooms ← query room_count; assert_eq rooms 1%nat;;
  n ← query peer_count; assert_eq n 1%nat;;
  tx ← query (find_peer "10.0.0.2" "R2A"); assert_that (is_some tx);;
  peers ← peers_of "10.0.0.1"; assert_eq peers [].

Definition get_room_peers_nonexistent_returns_empty : room_test unit :=
  peers ← peers_of "172.16.0.99"; assert_eq peers [].

Definition empty_manager_counts_are_zero : room_test unit :=
  rooms ← query room_count; assert_eq rooms 0%nat;;
  n ← query peer_count; assert_eq n 0%nat.

Definition get_room_peers_returns_public_data : room_test unit :=
  '(p1, _) ← make_peer "PUB1" "Device 1";
  '(p2, _) ← make_peer "PUB2" "Device 2";
  r ← add "10.0.0.1" p1; unwrap r;;
  r ← add "10.0.0.1" p2; unwrap r;;
  peers ← peers_of "10.0.0.1";
  assert_eq (length peers) 2%nat;;
  let codes := pd_peer_code <$> peers in
  assert_that (bool_decide ("PUB1" ∈ codes));;
  assert_that (bool_decide ("PUB2" ∈ codes)).

(** A peer registers, and its receiver is dropped. *)
Definition fill (ip code name : string) : room_test unit :=
  '(peer, rx) ← make_peer code name;
  r ← add ip peer; assert_that (is_ok r);;
  drop_rx rx.

Definition max_peers_per_room_enforced : room_test unit :=
  let ip := "10.0.0.99" in
  for_each (range MAX_PEERS_PER_ROOM) (fun i => fill ip ("P" +:+ padded 4 i) "device");;
  '(peer, _) ← make_peer "OVERFLOW" "overflow device";
  result ← add ip peer;
  assert_that (is_err result);;
  e ← unwrap_err result; assert_that (str_contains "room full" e).

Definition peers_below_room_limit_accepted : room_test unit :=
  let ip := "10.0.0.100" in
  for_each (range 5) (fun i => fill ip ("OK" +:+ show_Z i) "device");;
  peers ← peers_of ip; assert_eq (length peers) 5%nat.

Definition reconnect_with_same_code_does_not_count_as_new_peer : room_test unit :=
  let ip := "10.0.0.101" in
  for_each (range MAX_PEERS_PER_ROOM) (fun i => fill ip ("P" +:+ padded 4 i) "device");;
  '(peer, _) ← make_peer "P0000" "reconnected device";
  r ← add ip peer; assert_that (is_ok r).

Definition max_rooms_enforced : room_test unit :=
  let test_limit := 100 in
  for_each (range test_limit) (fun i =>
    fill ("192.168." +:+ show_Z (i / 256) +:+ "." +:+ show_Z (i mod 256)) ("ROOM" +:+ show_Z i) "device");;
  rooms ← query room_count; assert_eq (Z.of_nat rooms) test_limit;;
  assert_that (1024 <=? MAX_ROOMS);;
  assert_that (MAX_ROOMS <=? 1000000).

Definition max_rooms_rejects_new_room_at_limit : room_test unit :=
  let batch := 50 in
  for_each (range batch) (fun i =>
    fill ("1.1." +:+ show_Z (i / 256) +:+ "." +:+ show_Z (i mod 256)) ("B" +:+ show_Z i) "device");;
  rooms ← query room_count; assert_eq (Z.of_nat rooms) batch;;
  assert_eq MAX_ROOMS 65536.

Definition room_tests : list (room_test unit) :=
  [ add_peer_inserts_into_correct_room; add_peer_returns_existing_peers_before_insert;
    add_peer_replaces_duplicate_peer_code; add_peer_same_code_different_rooms_allowed;
    remove_peer_skips_replaced_session_dp5; add_peer_broadcasts_peer_joined_to_existing;
    remove_peer_removes_from_room; remove_peer_cleans_up_empty_room;
    remove_peer_broadcasts_peer_left; remove_peer_nonexistent_does_not_panic;
    find_peer_returns_sender_for_same_room_peer; find_peer_returns_none_for_absent_peer;
    find_peer_rejects_cross_room_lookup; find_peer_cross_room_regression;
    find_peer_manual_finds_unique_cross_room_peer;
    find_peer_manual_rejects_duplicate_codes_across_rooms;
    find_peer_manual_returns_not_found_for_absent_code;
    peer_a_disconnect_does_not_affect_peer_b; multi_room_isolation;
    get_room_peers_nonexistent_returns_empty; empty_manager_counts_are_zero;
    get_room_peers_returns_public_data; max_peers_per_room_enforced;
    peers_below_room_limit_accepted; reconnect_with_same_code_does_not_count_as_new_peer;
    max_rooms_enforced; max_rooms_rejects_new_room_at_limit ].

(** The model of the room manager passes the repository's own unit tests of
    it, all twenty-seven, the ones that fill a room to its capacity included. *)
Example room_tests_pass : forallb (fun t => passes t new) room_tests = true.
Proof. by vm_compute. Qed.
