(* ===== verification/ProtocolTests.v ===== *)
(** * The unit tests of the protocol (signal/protocol/src/lib.rs and signal/src/protocol.rs)

    The golden fixtures of the wire format, and the messages its texts decode to.
    [signal/src/protocol.rs] re-exports the types of the protocol crate and
    tests them a second time.  A test that is written on a JSON text is run on
    the tree the text denotes; a test that looks for a field in the text it
    encoded looks for the field anywhere in the tree.  The tests that clone a
    message are left out: a clone is the value. *)

From S2P Require Import Prelude RStr Testing Protocol.

Import JsonTree.
Local Open Scope stdpp_scope.

(** Equality of JSON values, objects as the lists of their fields. *)
Fixpoint json_eqb (v w : json) : bool :=
  match v, w with
  | JNull, JNull => true
  | JBool a, JBool b => Bool.eqb a b
  | JNum a, JNum b => (a =? b)%Z
  | JStr s, JStr t => String.eqb s t
  | JArr l, JArr m =>
    (fix go l m := match l, m with
      | [], [] => true
      | v :: l, w :: m => json_eqb v w && go l m
      | _, _ => false
      end) l m
  | JObj l, JObj m =>
    (fix go l m := match l, m with
      | [], [] => true
      | (j, v) :: l, (k, w) :: m => String.eqb j k && json_eqb v w && go l m
      | _, _ => false
      end) l m
  | _, _ => false
  end.

(** The text of the tree holds the field [k] with the string [s]. *)
Fixpoint mentions (k s : string) (v : json) : bool :=
  match v with
  | JArr l => existsb (mentions k s) l
  | JObj l =>
    (fix go l := match l with
      | [] => false
      | (j, v) :: l =>
        (String.eqb j k && match v with JStr t => String.eqb t s | _ => false end) || mentions k s v || go l
      end) l
  | _ => false
  end.

(** [assert_wire_eq] *)
Definition client_wire_eq (m : ClientMessage json) (expected : json) : bool :=
  json_eqb (client_to_value m) expected.
Definition server_wire_eq (m : ServerMessage json) (expected : json) : bool :=
  json_eqb (server_to_value m) expected.

Definition offer : json := JObj [("sdp", JStr "offer-data")].
Definition dots : json := JObj [("sdp", JStr "...")].

(** ** The fixtures of the client's messages *)

Definition wire_client_register : bool :=
  client_wire_eq (Register "ABC123" "iPhone 15" Phone None None)
    (JObj [("type", JStr "register"); ("peer_code", JStr "ABC123");
           ("device_name", JStr "iPhone 15"); ("device_type", JStr "phone")]).

Definition wire_client_signal : bool :=
  client_wire_eq (ClientSignal "XYZ789" offer)
    (JObj [("type", JStr "signal"); ("to", JStr "XYZ789"); ("payload", offer)]).

Definition wire_client_manual_signal : bool :=
  client_wire_eq (ManualSignal "XYZ789" offer)
    (JObj [("type", JStr "manual_signal"); ("to", JStr "XYZ789"); ("payload", offer)]).

Definition wire_client_ping : bool := client_wire_eq Ping (JObj [("type", JStr "ping")]).

(** ** The fixtures of the server's messages *)

Definition macbook : PeerData := mkPeerData "ABC123" "MacBook" Laptop None None.
Definition ipad : PeerData := mkPeerData "DEF456" "iPad" Tablet None None.

Definition wire_server_peers : bool :=
  server_wire_eq (Peers [macbook])
    (JObj [("type", JStr "peers");
           ("peers", JArr [JObj [("peer_code", JStr "ABC123"); ("device_name", JStr "MacBook");
                                 ("device_type", JStr "laptop")]])]).

Definition wire_server_peer_joined : bool :=
  server_wire_eq (PeerJoined ipad)
    (JObj [("type", JStr "peer_joined");
           ("peer", JObj [("peer_code", JStr "DEF456"); ("device_name", JStr "iPad");
                          ("device_type", JStr "tablet")])]).

Definition wire_server_peer_left : bool :=
  server_wire_eq (PeerLeft "ABC123") (JObj [("type", JStr "peer_left"); ("peer_code", JStr "ABC123")]).

Definition wire_server_signal : bool :=
  server_wire_eq (Signal "ABC123" offer)
    (JObj [("type", JStr "signal"); ("from", JStr "ABC123"); ("payload", offer)]).

Definition wire_server_error : bool :=
  server_wire_eq (Error "bad request") (JObj [("type", JStr "error"); ("message", JStr "bad request")]).

(** ** Decoding *)

Definition register_json : json :=
  JObj [("type", JStr "register"); ("peer_code", JStr "ABC123"); ("device_name", JStr "iPhone 15");
        ("device_type", JStr "phone")].
Definition signal_json (tag : string) : json :=
  JObj [("type", JStr tag); ("to", JStr "XYZ789"); ("payload", dots)].

Definition deserialize_client_register : bool :=
  match client_of_value register_json with
  | Some (Register peer_code device_name device_type _ _) =>
    String.eqb peer_code "ABC123" && String.eqb device_name "iPhone 15" && bool_decide (device_type = Phone)
  | _ => false
  end.

Definition deserialize_client_signal : bool :=
  match client_of_value (signal_json "signal") with
  | Some (ClientSignal to payload) => String.eqb to "XYZ789" && is_some (j_get payload "sdp")
  | _ => false
  end.

Definition deserialize_client_manual_signal : bool :=
  match client_of_value (signal_json "manual_signal") with
  | Some (ManualSignal to payload) => String.eqb to "XYZ789" && is_some (j_get payload "sdp")
  | _ => false
  end.

Definition deserialize_server_peers : bool :=
  match server_of_value (JObj [("type", JStr "peers");
      ("peers", JArr [JObj [("peer_code", JStr "ABC123"); ("device_name", JStr "test");
                            ("device_type", JStr "desktop")]])]) with
  | Some (Peers peers) =>
    Nat.eqb (length peers) 1 && bool_decide (pd_peer_code <$> peers !! 0%nat = Some "ABC123")
  | _ => false
  end.

Definition deserialize_server_signal : bool :=
  match server_of_value (JObj [("type", JStr "signal"); ("from", JStr "alice"); ("payload", offer)]) with
  | Some (Signal from payload) => String.eqb from "alice" && json_eqb payload offer
  | _ => false
  end.

Definition deserialize_server_error : bool :=
  match server_of_value (JObj [("type", JStr "error"); ("message", JStr "peer not found")]) with
  | Some (Error message) => String.eqb message "peer not found"
  | _ => false
  end.

Definition device_types_roundtrip : bool :=
  forallb (fun '(variant, expected_str) =>
      String.eqb (device_type_name variant) expected_str &&
      bool_decide (device_type_of_name (device_type_name variant) = Some variant))
    [(Phone, "phone"); (Tablet, "tablet"); (Laptop, "laptop"); (Desktop, "desktop")].

(** ** The tests of the re-export *)

Definition deserialize_register : bool := deserialize_client_register.
Definition deserialize_signal : bool := deserialize_client_signal.
Definition deserialize_manual_signal : bool := deserialize_client_manual_signal.

Definition serialize_peers : bool :=
  let json := server_to_value (Peers [macbook]) in
  mentions "type" "peers" json && mentions "peer_code" "ABC123" json.

Definition serialize_peer_joined : bool :=
  mentions "type" "peer_joined" (server_to_value (PeerJoined ipad)).

Definition serialize_peer_left : bool :=
  let json := server_to_value (PeerLeft "ABC123") in
  mentions "type" "peer_left" json && mentions "peer_code" "ABC123" json.

Definition serialize_signal_relay : bool :=
  let json := server_to_value (Signal "ABC123" offer) in
  mentions "type" "signal" json && mentions "from" "ABC123" json.

Definition serialize_error : bool :=
  let json := server_to_value (Error "bad request") in
  mentions "type" "error" json && mentions "message" "bad request" json.

Definition protocol_tests : list bool :=
  [ wire_client_register; wire_client_signal; wire_client_manual_signal; wire_client_ping;
    wire_server_peers; wire_server_peer_joined; wire_server_peer_left; wire_server_signal;
    wire_server_error; deserialize_client_register; deserialize_client_signal;
    deserialize_client_manual_signal; deserialize_server_peers; deserialize_server_signal;
    deserialize_server_error; device_types_roundtrip; deserialize_register; deserialize_signal;
    deserialize_manual_signal; serialize_peers; serialize_peer_joined; serialize_peer_left;
    serialize_signal_relay; serialize_error ].

(** The model's encoding is the one the golden fixtures of the repository fix,
    and its decoding reads the texts of the tests as they do, in the protocol
    crate and in the server's re-export of it. *)
Example protocol_tests_pass : all_hold protocol_tests = true.
Proof. by vm_compute. Qed.
