(* ===== verification/Validate.v ===== *)
(** * Validation of what clients send (signal/src/server.rs)

    The trust-boundary limits and the pure validators: message size, device
    name, and the two peer-code validators, one for the code a client registers
    and one for the code a signal is addressed to. *)

From S2P Require Import Prelude RStr.

Open Scope Z_scope.

Definition MAX_MESSAGE_BYTES : Z := 1048576.
Definition MAX_DEVICE_NAME_BYTES : Z := 256.
Definition MAX_PEER_CODE_BYTES : Z := 16.

(** [IDLE_TIMEOUT], in nanoseconds. *)
Definition IDLE_TIMEOUT : Z := 300 * 1000000000.

Local Open Scope stdpp_scope.

Definition message_size_error (len : Z) : string :=
  "message too large (" +:+ show_Z len +:+ " bytes, max " +:+
  show_Z MAX_MESSAGE_BYTES +:+ ")".

(** [validate_message_size] *)
Definition validate_message_size (len : Z) : Result unit string :=
  if (MAX_MESSAGE_BYTES <? len)%Z then Err (message_size_error len) else Ok tt.

(** [validate_device_name] *)
Definition validate_device_name (name : string) : Result unit string :=
  if (MAX_DEVICE_NAME_BYTES <? usize_len name)%Z then
    Err ("device_name too long (" +:+ show_Z (usize_len name) +:+ " bytes, max " +:+
         show_Z MAX_DEVICE_NAME_BYTES +:+ ")")
  else Ok tt.

(** [|c| *c != '-'] *)
Definition not_hyphen (c : ascii) : bool := negb (Ascii.eqb c "-"%char).

(** [code.chars().filter(|c| *c != '-').collect()] *)
Definition normalize (s : string) : string := str_filter not_hyphen s.

(** [validate_signal_target] *)
Definition validate_signal_target (to : string) : Result string string :=
  let normalized := normalize to in
  if str_is_empty normalized then
    Err "invalid_peer_code: Target peer code cannot be empty"
  else if (MAX_PEER_CODE_BYTES <? usize_len normalized)%Z then
    Err ("invalid_peer_code: Target peer code too long (" +:+
         show_Z (usize_len normalized) +:+ " chars, max " +:+
         show_Z MAX_PEER_CODE_BYTES +:+ " after removing hyphens)")
  else if negb (str_all is_ascii_alphanumeric normalized) then
    Err "invalid_peer_code: Target peer code must contain only letters and digits (a-z, A-Z, 0-9). Hyphens are stripped automatically."
  else Ok normalized.

(** [validate_peer_code] *)
Definition validate_peer_code (code : string) : Result string string :=
  let normalized := normalize code in
  if str_is_empty normalized then
    Err "invalid_peer_code: Peer code cannot be empty"
  else if (MAX_PEER_CODE_BYTES <? usize_len normalized)%Z then
    Err ("invalid_peer_code: Peer code too long (max " +:+
         show_Z MAX_PEER_CODE_BYTES +:+ " characters after removing hyphens)")
  else if negb (str_all is_ascii_alphanumeric normalized) then
    Err "invalid_peer_code: Peer code must contain only letters and digits (a-z, A-Z, 0-9). Hyphens are stripped automatically."
  else Ok normalized.

Local Close Scope stdpp_scope.

(** ** The codes the server keeps *)

(** A peer code in normal form: one to sixteen ASCII letters and digits. *)
Definition code_ok (s : string) : Prop :=
  1 <= usize_len s <= MAX_PEER_CODE_BYTES /\ str_all is_ascii_alphanumeric s = true.

#[export] Instance code_ok_dec s : Decision (code_ok s).
Proof. unfold code_ok. apply _. Defined.

Lemma usize_len_empty s : str_is_empty s = false <-> 1 <= usize_len s.
Proof. unfold usize_len. destruct s; cbn [str_is_empty String.length]; split; lia || done. Qed.

Lemma alphanumeric_not_hyphen c : is_ascii_alphanumeric c = true -> not_hyphen c = true.
Proof.
  unfold not_hyphen. destruct (Ascii.eqb_spec c "-"%char) as [->|]; [|done].
  by vm_compute.
Qed.

Lemma normalize_code s : str_all is_ascii_alphanumeric s = true -> normalize s = s.
Proof.
  intros Hs. apply str_filter_id. revert Hs.
  apply str_all_impl, alphanumeric_not_hyphen.
Qed.

Lemma normalize_idemp s : normalize (normalize s) = normalize s.
Proof. apply str_filter_idemp. Qed.

(** Both validators accept what normalises to a well-formed code. *)
Lemma peer_code_ok s n :
  validate_peer_code s = Ok n <-> n = normalize s /\ code_ok n.
Proof.
  unfold validate_peer_code, code_ok. cbn zeta.
  destruct (str_is_empty (normalize s)) eqn:E0.
  { apply str_is_empty_spec in E0. rewrite E0. split; [done|].
    intros [-> [[? _] _]]. by vm_compute in H. }
  apply usize_len_empty in E0.
  destruct (Z.ltb_spec MAX_PEER_CODE_BYTES (usize_len (normalize s))).
  { split; [done|]. intros [-> [[_ ?] _]]. lia. }
  destruct (str_all is_ascii_alphanumeric (normalize s)) eqn:Ea; cbn.
  - split; [by intros [= <-]|by intros [-> _]].
  - split; [done|]. intros [-> [_ ?]]. congruence.
Qed.

Lemma signal_target_ok s n :
  validate_signal_target s = Ok n <-> validate_peer_code s = Ok n.
Proof.
  unfold validate_signal_target, validate_peer_code. cbn zeta.
  destruct (str_is_empty _); [done|]. destruct (_ <? _); [done|].
  by destruct (negb _).
Qed.

(** C25: the code a client registers and the code another client addresses are
    normalised and checked alike, so every spelling of a code that a
    registration accepts reaches the peer registered under it. A code is
    accepted exactly when, hyphens removed, it has one to sixteen ASCII letters
    or digits; what is stored is the code without hyphens, which both
    validators accept unchanged. *)
Theorem codes_normal_form s n :
  (validate_peer_code s = Ok n <-> n = normalize s /\ code_ok n) /\
  (validate_signal_target s = Ok n <-> validate_peer_code s = Ok n) /\
  (validate_peer_code s = Ok n ->
     validate_peer_code n = Ok n /\ validate_signal_target n = Ok n).
Proof.
  split; [apply peer_code_ok|]. split; [apply signal_target_ok|].
  intros Hn. rewrite signal_target_ok. apply peer_code_ok in Hn as [_ Hn].
  assert (validate_peer_code n = Ok n); [|done].
  apply peer_code_ok. split; [|done]. symmetry. by apply normalize_code, Hn.
Qed.

Lemma validate_message_size_ok len :
  validate_message_size len = Ok tt <-> len <= MAX_MESSAGE_BYTES.
Proof.
  unfold validate_message_size. destruct (Z.ltb_spec MAX_MESSAGE_BYTES len); split; (done || lia).
Qed.

Lemma validate_device_name_ok name :
  validate_device_name name = Ok tt <-> usize_len name <= MAX_DEVICE_NAME_BYTES.
Proof.
  unfold validate_device_name.
  destruct (Z.ltb_spec MAX_DEVICE_NAME_BYTES (usize_len name)); split; (done || lia).
Qed.

Local Open Scope stdpp_scope.

Lemma codes_normal_form_witness :
  validate_peer_code "K7X-2AB" = Ok "K7X2AB" /\ validate_signal_target "K7X2AB" = Ok "K7X2AB" /\
  validate_peer_code "---" <> Ok EmptyString.
Proof.
  split; [by vm_compute|]. split; [|by vm_compute].
  apply (codes_normal_form "K7X-2AB" "K7X2AB"). by vm_compute.
Defined.

#[export] Hint Resolve peer_code_ok signal_target_ok : bolt.
