(* ===== verification/RateLimit.v ===== *)
(** * The per-connection rate limiter (signal/src/server.rs, [RateLimit])

    The limiter's state and its [check], with the clock reading as an argument,
    and what a whole run of checks grants. *)

From Stdlib Require Import Sorted.
From S2P Require Import Prelude.

Open Scope Z_scope.

Definition RATE_LIMIT_PER_SECOND : Z := 50.
Definition RATE_LIMIT_CLOSE_THRESHOLD : Z := 3.

(** [Duration::from_secs(1)], in nanoseconds. *)
Definition one_second : Z := 1000000000.

Definition u32_modulus : Z := 4294967296.
Definition wrap_u32 (z : Z) : Z := z mod u32_modulus.

(** [RateLimit] *)
Record RateLimit := mkRateLimit {
  remaining : Z;
  window_start : Z;
  consecutive_violations : Z;
}.

(** [Instant::duration_since], which saturates at zero. *)
Definition duration_since (now start : Z) : Z := Z.max 0 (now - start).

(** [RateLimit::new], at the instant it reads. *)
Definition rl_new (now : Z) : RateLimit := mkRateLimit RATE_LIMIT_PER_SECOND now 0.

(** The window reset at the head of [check]. *)
Definition refill (now : Z) (rl : RateLimit) : RateLimit :=
  if one_second <=? duration_since now (window_start rl) then
    mkRateLimit RATE_LIMIT_PER_SECOND now (consecutive_violations rl)
  else rl.

(** [RateLimit::check]; [Err true] asks to close the socket. *)
Definition check (now : Z) (rl : RateLimit) : Result unit bool * RateLimit :=
  let rl := refill now rl in
  if 0 <? remaining rl then
    (Ok tt, mkRateLimit (remaining rl - 1) (window_start rl) 0)
  else
    let violations := wrap_u32 (consecutive_violations rl + 1) in
    (Err (RATE_LIMIT_CLOSE_THRESHOLD <=? violations),
     mkRateLimit (remaining rl) (window_start rl) violations).

(** The answers to a sequence of checks at the given instants. *)
Fixpoint check_all (ts : list Z) (rl : RateLimit) : list (Result unit bool) * RateLimit :=
  match ts with
  | [] => ([], rl)
  | t :: ts =>
    let '(r, rl) := check t rl in
    let '(rs, rl) := check_all ts rl in (r :: rs, rl)
  end.

Definition granted (rs : list (Result unit bool)) : Z :=
  vec_len (retain (fun r => negb (is_err r)) rs).

(** ** The invariant *)

Record rl_ok (rl : RateLimit) : Prop := {
  rl_remaining : 0 <= remaining rl <= RATE_LIMIT_PER_SECOND;
  rl_violations : 0 <= consecutive_violations rl < u32_modulus;
}.

Lemma rl_new_ok now : rl_ok (rl_new now).
Proof. by split. Qed.

Lemma refill_ok now rl : rl_ok rl -> rl_ok (refill now rl).
Proof. intros [Hr Hv]. unfold refill. case_match; split; cbn; try done. Qed.

Lemma refill_violations now rl :
  consecutive_violations (refill now rl) = consecutive_violations rl.
Proof. unfold refill. by destruct (_ <=? _). Qed.

Lemma check_ok now rl : rl_ok rl -> rl_ok (check now rl).2.
Proof.
  intros [Hr Hv]%(refill_ok now). unfold check. cbn zeta.
  destruct (Z.ltb_spec 0 (remaining (refill now rl))); split; cbn; try lia; try done.
  by apply Z.mod_pos_bound.
Qed.

Lemma check_all_app ts ts' rl :
  check_all (ts ++ ts') rl =
    ((check_all ts rl).1 ++ (check_all ts' (check_all ts rl).2).1,
     (check_all ts' (check_all ts rl).2).2).
Proof.
  revert rl. induction ts as [|t ts IH]; intros rl; cbn.
  - by destruct (check_all ts' rl).
  - destruct (check t rl) as [r rl']. rewrite IH. cbn.
    by destruct (check_all ts rl').
Qed.

Lemma check_all_ok ts rl : rl_ok rl -> rl_ok (check_all ts rl).2.
Proof.
  revert rl. induction ts as [|t ts IH]; intros rl Hrl; cbn; [done|].
  pose proof (check_ok t rl Hrl) as Hrl'. destruct (check t rl) as [r rl']. cbn in Hrl'.
  specialize (IH rl' Hrl'). by destruct (check_all ts rl').
Qed.

Lemma granted_cons r rs :
  granted (r :: rs) = (if is_err r then 0 else 1) + granted rs.
Proof.
  unfold granted, retain, vec_len. rewrite filter_cons.
  destruct r; cbn; [|done]. case_decide; [|done]. rewrite length_cons. lia.
Qed.

(** ** How much a window grants *)

(** The instants lie in the second that starts at [a]. *)
Definition within (a : Z) (ts : list Z) : Prop := Forall (fun t => a <= t < a + one_second) ts.

(** The clock does not run backwards. *)
Definition nondecreasing (ts : list Z) : Prop := StronglySorted Z.le ts.

Lemma refill_inside now rl :
  now < window_start rl + one_second -> refill now rl = rl.
Proof.
  intros Ht. unfold refill, duration_since.
  destruct (Z.leb_spec one_second (Z.max 0 (now - window_start rl))) as [Hle|]; [|done].
  unfold one_second in *. lia.
Qed.

(** Inside one window the budget only shrinks, one unit per message granted. *)
Lemma check_inside now rl :
  rl_ok rl -> now < window_start rl + one_second ->
  let '(r, rl') := check now rl in
  window_start rl' = window_start rl /\ 0 <= remaining rl' /\
  (if is_err r then 0 else 1) + remaining rl' = remaining rl.
Proof.
  intros [Hr Hv] Ht. unfold check. cbn zeta. rewrite refill_inside by done.
  destruct (Z.ltb_spec 0 (remaining rl)); cbn; lia.
Qed.

Lemma granted_inside ts rl :
  rl_ok rl -> Forall (fun t => t < window_start rl + one_second) ts ->
  granted (check_all ts rl).1 <= remaining rl.
Proof.
  revert rl. induction ts as [|t ts IH]; intros rl Hrl Hts; [apply Hrl|].
  apply Forall_cons in Hts as [Ht Hts].
  pose proof (check_inside t rl Hrl Ht) as Hin. pose proof (check_ok t rl Hrl) as Hok.
  cbn. destruct (check t rl) as [r rl']. cbn in Hok. destruct Hin as (Hws & Hr' & Hsum).
  specialize (IH rl' Hok). rewrite Hws in IH. specialize (IH Hts).
  destruct (check_all ts rl') as [rs rl'']. cbn in *. rewrite granted_cons. lia.
Qed.

(** A check that opens a window starts it afresh. *)
Lemma check_outside now rl :
  rl_ok rl -> window_start rl + one_second <= now ->
  check now rl = (Ok tt, mkRateLimit (RATE_LIMIT_PER_SECOND - 1) now 0).
Proof.
  intros Hrl Ht. unfold check, refill, duration_since.
  destruct (Z.leb_spec one_second (Z.max 0 (now - window_start rl))) as [|Hle]; [done|].
  unfold one_second in *. lia.
Qed.

(** Any second of the clock meets at most two windows. *)
Lemma granted_within a ts rl :
  rl_ok rl -> nondecreasing ts -> within a ts ->
  granted (check_all ts rl).1 <= remaining rl + RATE_LIMIT_PER_SECOND.
Proof.
  revert rl. induction ts as [|t ts IH]; intros rl Hrl Hs Hin.
  { destruct Hrl as [Hr _]. unfold RATE_LIMIT_PER_SECOND in *.
    change (granted _) with 0. lia. }
  apply StronglySorted_inv in Hs as [Hs Hle]. apply Forall_cons in Hin as [Ht Hin].
  pose proof (check_ok t rl Hrl) as Hok.
  destruct (Z.lt_ge_cases t (window_start rl + one_second)) as [Hlt|Hge].
  - pose proof (check_inside t rl Hrl Hlt) as Hc. cbn. destruct (check t rl) as [r rl'].
    cbn in Hok. specialize (IH rl' Hok Hs Hin).
    destruct (check_all ts rl') as [rs rl'']. cbn in *. rewrite granted_cons. lia.
  - cbn. rewrite check_outside in * by done. cbn in Hok.
    pose proof (granted_inside ts _ Hok) as Hg. cbn in Hg.
    destruct (check_all ts _) as [rs rl'']. cbn in *. rewrite granted_cons. cbn.
    destruct Hrl as [Hr _]. enough (granted rs <= RATE_LIMIT_PER_SECOND - 1) by lia.
    apply Hg. rewrite Forall_forall in Hin |- *. intros u Hu.
    specialize (Hin u Hu). cbn in *. lia.
Qed.

Lemma granted_total rs : granted rs <= vec_len rs.
Proof. unfold granted, vec_len. pose proof (retain_length_le (fun r => negb (is_err r)) rs). lia. Qed.

(** C12: however a client times its messages, in any second of the connection's
    life it gets at most 100 of them past the limiter (twice the nominal 50,
    since the window is fixed at its first message and a second can meet two
    windows); a second after its last window opened it is served again. *)
Theorem rate_limit_bound t0 before a burst :
  nondecreasing burst -> within a burst ->
  let rl := (check_all before (rl_new t0)).2 in
  granted (check_all burst rl).1 <= 2 * RATE_LIMIT_PER_SECOND /\
  (forall now, window_start rl + one_second <= now -> (check now rl).1 = Ok tt).
Proof.
  intros Hs Hin rl. assert (Hrl : rl_ok rl) by apply check_all_ok, rl_new_ok.
  split.
  - pose proof (granted_within a burst rl Hrl Hs Hin). destruct Hrl as [Hr _]. lia.
  - intros now Hnow. by rewrite check_outside.
Qed.

(** ** When the socket is closed *)

(** The length of the run of refusals an answer list ends with. *)
Fixpoint refusals (rs : list (Result unit bool)) : Z :=
  match rs with
  | [] => 0
  | r :: rs => if forallb is_err rs then (if is_err r then 1 else 0) + refusals rs
               else refusals rs
  end.

Lemma refusals_snoc rs r :
  refusals (rs ++ [r]) = if is_err r then refusals rs + 1 else 0.
Proof.
  induction rs as [|r0 rs IH]; [by destruct r|].
  cbn [app refusals]. rewrite forallb_app. cbn. rewrite IH, andb_true_r.
  destruct (is_err r); [|by rewrite andb_false_r].
  rewrite andb_true_r. case_match; lia.
Qed.

Lemma refusals_range rs : 0 <= refusals rs <= vec_len rs.
Proof.
  unfold vec_len. induction rs as [|r rs IH]; [done|]. cbn [refusals length].
  repeat case_match; lia.
Qed.

Lemma check_all_length ts rl : length (check_all ts rl).1 = length ts.
Proof.
  revert rl. induction ts as [|t ts IH]; intros rl; [done|]. cbn.
  destruct (check t rl) as [r rl']. specialize (IH rl').
  destruct (check_all ts rl'). cbn in *. lia.
Qed.

Lemma check_all_refusals ts rl : 0 <= refusals (check_all ts rl).1 <= vec_len ts.
Proof.
  pose proof (refusals_range (check_all ts rl).1) as H.
  unfold vec_len in *. by rewrite check_all_length in H.
Qed.

(** The violation counter is the current run of refusals. *)
Lemma violations_refusals ts t0 :
  vec_len ts < u32_modulus ->
  consecutive_violations (check_all ts (rl_new t0)).2 = refusals (check_all ts (rl_new t0)).1.
Proof.
  induction ts as [|t ts IH] using rev_ind; [done|].
  intros Hlen. unfold vec_len in Hlen. rewrite length_app in Hlen. cbn in Hlen.
  rewrite check_all_app. cbn. specialize (IH ltac:(unfold vec_len; lia)).
  pose proof (check_all_refusals ts (rl_new t0)) as Hrange.
  destruct (check t (check_all ts (rl_new t0)).2) as [r rl'] eqn:Ec. cbn.
  rewrite refusals_snoc. unfold check in Ec. cbn zeta in Ec.
  assert (Hv : consecutive_violations (refill t (check_all ts (rl_new t0)).2) =
               refusals (check_all ts (rl_new t0)).1).
  { by rewrite refill_violations. }
  rewrite Hv in Ec. unfold vec_len in *.
  destruct (0 <? _); injection Ec as <- <-; cbn; [done|].
  unfold wrap_u32. rewrite Z.mod_small; lia.
Qed.

(** C13: the limiter asks to close the socket exactly at the third refusal in a
    row (and again at every later one of the same run): two refusals, or
    refusals with a granted message between them, never close it. *)
Theorem closes_at_third_refusal ts t t0 :
  vec_len ts + 1 < u32_modulus ->
  let '(rs, rl) := check_all ts (rl_new t0) in
  (check t rl).1 =
    if 0 <? remaining (refill t rl) then Ok tt
    else Err (RATE_LIMIT_CLOSE_THRESHOLD - 1 <=? refusals rs).
Proof.
  intros Hlen. pose proof (violations_refusals ts t0 ltac:(lia)) as Hv.
  pose proof (check_all_refusals ts (rl_new t0)) as Hr.
  destruct (check_all ts (rl_new t0)) as [rs rl]. cbn in *.
  unfold check. cbn zeta. case_match; [done|]. cbn. f_equal.
  assert (consecutive_violations (refill t rl) = refusals rs) as ->.
  { by rewrite refill_violations. }
  unfold wrap_u32, RATE_LIMIT_CLOSE_THRESHOLD. rewrite Z.mod_small by lia.
  destruct (Z.leb_spec 3 (refusals rs + 1)), (Z.leb_spec (3 - 1) (refusals rs)); done || lia.
Qed.

(** ** Witnesses *)

(** Fifty messages at the end of one window and fifty at the start of the next
    are all granted, within five milliseconds. *)
Definition boundary_burst : list Z :=
  replicate 50 999000000 ++ replicate 50 1000000000.

Lemma rate_limit_bound_witness :
  granted (check_all boundary_burst (rl_new 0)).1 = 100 /\
  granted (check_all boundary_burst (rl_new 0)).1 <= 2 * RATE_LIMIT_PER_SECOND.
Proof.
  split; [by vm_compute|].
  apply (rate_limit_bound 0 [] 999000000 boundary_burst).
  - assert (H : forall n m, nondecreasing (replicate n 999000000 ++ replicate m 1000000000)).
    { intros n m. induction n as [|n IH].
      - induction m as [|m IHm]; [constructor|]. constructor; [done|].
        apply Forall_replicate. lia.
      - constructor; [done|]. apply Forall_app. split; apply Forall_replicate; lia. }
    apply H.
  - apply Forall_app. unfold one_second. split; apply Forall_replicate; lia.
Defined.

Lemma closes_at_third_refusal_witness :
  (check 2 (check_all (replicate 52 1) (rl_new 0)).2).1 = Err true /\
  (check 2 (check_all (replicate 51 1) (rl_new 0)).2).1 = Err false.
Proof.
  split; [pose proof (closes_at_third_refusal (replicate 52 1) 2 0 ltac:(done)) as H
         |pose proof (closes_at_third_refusal (replicate 51 1) 2 0 ltac:(done)) as H];
    destruct (check_all _ _) eqn:E; vm_compute in E; injection E as <- <-; exact H.
Defined.
