(* ===== verification/IpAddr.v ===== *)
(** * IP addresses

    [std::net::IpAddr]: its textual parser and its [Display], which the server
    and its configuration call on header values, on proxy lists and on the
    peer's socket address. *)

From S2P Require Import Prelude RStr.

Open Scope Z_scope.

(** [IpAddr]: an IPv6 address is its eight 16-bit segments. *)
Inductive IpAddr :=
| V4 (a b c d : Z)
| V6 (segments : list Z).

#[export] Instance IpAddr_eq_dec : EqDecision IpAddr.
Proof. solve_decision. Defined.

(** ** Parsing

    The readers of the library's parser: each consumes a prefix of the input or
    fails and consumes nothing. *)

(** The digits at the front of the input: their value, their number, the rest. *)
Fixpoint read_digits (radix max_digits acc count : Z) (s : string) :
    option (Z * Z * string) :=
  match s with
  | EmptyString => Some (acc, count, s)
  | String c s' =>
    match to_digit radix c with
    | Some d =>
      if max_digits <? count + 1 then None
      else read_digits radix max_digits (acc * radix + d) (count + 1) s'
    | None => Some (acc, count, s)
    end
  end.

Definition leading_zero (s : string) : bool :=
  match s with String c _ => Ascii.eqb c "0"%char | EmptyString => false end.

Definition read_number (radix max_digits : Z) (allow_zero_prefix : bool) (max : Z)
    (s : string) : option (Z * string) :=
  match read_digits radix max_digits 0 0 s with
  | Some (result, count, rest) =>
    if count =? 0 then None
    else if negb allow_zero_prefix && leading_zero s && (1 <? count) then None
    else if result <=? max then Some (result, rest) else None
  | None => None
  end.

Definition read_char (c : ascii) (s : string) : option string :=
  match s with
  | String c' s' => if Ascii.eqb c' c then Some s' else None
  | EmptyString => None
  end.

Definition read_separator {A} (sep : ascii) (i : nat)
    (inner : string -> option (A * string)) (s : string) : option (A * string) :=
  match i with
  | O => inner s
  | S _ => s' ← read_char sep s; inner s'
  end.

Definition read_octet (i : nat) : string -> option (Z * string) :=
  read_separator "."%char i (read_number 10 3 false 255).

Definition read_ipv4 (s : string) : option (Z * Z * Z * Z * string) :=
  '(a, s) ← read_octet 0 s;
  '(b, s) ← read_octet 1 s;
  '(c, s) ← read_octet 2 s;
  '(d, s) ← read_octet 3 s;
  Some (a, b, c, d, s).

(** Up to [k] groups of an IPv6 address, the [i]-th first; whether they end in
    an embedded IPv4 address; the rest of the input. *)
Fixpoint read_groups (k i : nat) (s : string) : list Z * bool * string :=
  match k with
  | O => ([], false, s)
  | S k' =>
    match (if Nat.leb 1 k' then read_separator ":"%char i read_ipv4 s else None) with
    | Some (a, b, c, d, s') => ([a * 256 + b; c * 256 + d], true, s')
    | None =>
      match read_separator ":"%char i (read_number 16 4 true 65535) s with
      | Some (g, s') => let '(gs, v4, rest) := read_groups k' (S i) s' in (g :: gs, v4, rest)
      | None => ([], false, s)
      end
    end
  end.

Definition read_ipv6 (s : string) : option (list Z * string) :=
  let '(head, head_ipv4, s) := read_groups 8 0 s in
  if Nat.eqb (length head) 8 then Some (head, s)
  else if head_ipv4 then None
  else
    s ← read_char ":"%char s;
    s ← read_char ":"%char s;
    let '(tail, _, s) := read_groups (8 - (length head + 1)) 0 s in
    Some (head ++ replicate (8 - length head - length tail) 0 ++ tail, s).

Definition read_ip (s : string) : option (IpAddr * string) :=
  match read_ipv4 s with
  | Some (a, b, c, d, s') => Some (V4 a b c d, s')
  | None => '(segs, s') ← read_ipv6 s; Some (V6 segs, s')
  end.

(** [str::parse::<IpAddr>()]: the whole input must be read. *)
Definition parse_ip (s : string) : option IpAddr :=
  match read_ip s with
  | Some (a, EmptyString) => Some a
  | _ => None
  end.

(** [SocketAddr]: the IP, the port, and the scope id of an IPv6 address. *)
Record SocketAddr := mkSocketAddr { sa_ip : IpAddr; sa_port : Z; sa_scope : Z }.

(** A decimal number of any length, leading zeros allowed. *)
Definition read_decimal (max : Z) (s : string) : option (Z * string) :=
  read_number 10 (usize_len s) true max s.

Definition read_port (s : string) : option (Z * string) :=
  s ← read_char ":"%char s; read_decimal 65535 s.

Definition read_scope_id (s : string) : option (Z * string) :=
  s ← read_char "%"%char s; read_decimal 4294967295 s.

Definition read_socket_v4 (s : string) : option (SocketAddr * string) :=
  '(a, b, c, d, s) ← read_ipv4 s;
  '(port, s) ← read_port s;
  Some (mkSocketAddr (V4 a b c d) port 0, s).

Definition read_socket_v6 (s : string) : option (SocketAddr * string) :=
  s ← read_char "["%char s;
  '(segs, s) ← read_ipv6 s;
  let '(scope, s) := match read_scope_id s with Some (n, s') => (n, s') | None => (0, s) end in
  s ← read_char "]"%char s;
  '(port, s) ← read_port s;
  Some (mkSocketAddr (V6 segs) port scope, s).

(** [str::parse::<SocketAddr>()] *)
Definition parse_socket_addr (s : string) : option SocketAddr :=
  match match read_socket_v4 s with Some r => Some r | None => read_socket_v6 s end with
  | Some (a, EmptyString) => Some a
  | _ => None
  end.

(** ** Display *)

Definition hex_digit (d : Z) : ascii :=
  ascii_of_nat (Z.to_nat (if d <? 10 then 48 + d else 87 + d)).

(** [{:x}] of a [u16] *)
Definition show_hex (n : Z) : string :=
  let d3 := n / 4096 in let d2 := n / 256 mod 16 in
  let d1 := n / 16 mod 16 in let d0 := n mod 16 in
  if negb (d3 =? 0) then
    String (hex_digit d3) (String (hex_digit d2)
      (String (hex_digit d1) (String (hex_digit d0) EmptyString)))
  else if negb (d2 =? 0) then
    String (hex_digit d2) (String (hex_digit d1) (String (hex_digit d0) EmptyString))
  else if negb (d1 =? 0) then String (hex_digit d1) (String (hex_digit d0) EmptyString)
  else String (hex_digit d0) EmptyString.

Definition show_v4 (a b c d : Z) : string :=
  (show_Z a +:+ "." +:+ show_Z b +:+ "." +:+ show_Z c +:+ "." +:+ show_Z d)%stdpp.

(** The longest run of zero segments, the first of the longest: start, length. *)
Fixpoint zero_span (i cur_start cur_len best_start best_len : nat) (segs : list Z) :
    nat * nat :=
  match segs with
  | [] => (best_start, best_len)
  | g :: segs =>
    if g =? 0 then
      let cur_start := if Nat.eqb cur_len 0 then i else cur_start in
      let cur_len := S cur_len in
      if Nat.ltb best_len cur_len then zero_span (S i) cur_start cur_len cur_start cur_len segs
      else zero_span (S i) cur_start cur_len best_start best_len segs
    else zero_span (S i) 0 0 best_start best_len segs
  end.

Definition fmt_segments (segs : list Z) : string := str_join ":" (show_hex <$> segs).

Definition show_v6 (segs : list Z) : string :=
  match segs with
  | [0; 0; 0; 0; 0; 65535; x; y] =>
    ("::ffff:" +:+ show_v4 (x / 256) (x mod 256) (y / 256) (y mod 256))%stdpp
  | _ =>
    let '(start, len) := zero_span 0 0 0 0 0 segs in
    if Nat.ltb 1 len then
      (fmt_segments (take start segs) +:+ "::" +:+ fmt_segments (drop (start + len) segs))%stdpp
    else fmt_segments segs
  end.

(** [IpAddr::to_string] *)
Definition show_ip (ip : IpAddr) : string :=
  match ip with
  | V4 a b c d => show_v4 a b c d
  | V6 segs => show_v6 segs
  end.

(** The values the type can hold. *)
Definition u8 (n : Z) : bool := (0 <=? n) && (n <? 256).
Definition u16 (n : Z) : bool := (0 <=? n) && (n <? 65536).

Definition ip_ok (ip : IpAddr) : Prop :=
  match ip with
  | V4 a b c d => u8 a && u8 b && u8 c && u8 d = true
  | V6 segs => length segs = 8%nat /\ forallb u16 segs = true
  end.

Example parse_ip_examples :
  parse_ip "192.168.1.5" = Some (V4 192 168 1 5) /\
  parse_ip "2001:DB8::1" = Some (V6 [0x2001; 0xdb8; 0; 0; 0; 0; 0; 1]) /\
  parse_ip "::ffff:1.2.3.4" = Some (V6 [0; 0; 0; 0; 0; 0xffff; 0x102; 0x304]) /\
  parse_ip "01.2.3.4" = None /\ parse_ip "1.2.3" = None /\ parse_ip "1.2.3.4 " = None /\
  parse_ip "::" = Some (V6 (replicate 8 0)) /\ parse_ip "1::2::3" = None /\
  show_ip (V6 [0x2001; 0xdb8; 0; 0; 0; 0; 0; 1]) = "2001:db8::1"%stdpp /\
  show_ip (V6 (replicate 8 0)) = "::"%stdpp /\
  show_ip (V6 [0xfe80; 0; 0; 0; 1; 0; 0; 2]) = "fe80::1:0:0:2"%stdpp.
Proof. by vm_compute. Qed.

(** ** Decimal octets *)

Definition digit_char (d : Z) : ascii := ascii_of_nat (Z.to_nat (48 + d)).

Lemma to_digit_10 c d : to_digit 10 c = Some d -> 0 <= d < 10 /\ c = digit_char d.
Proof.
  unfold to_digit, is_ascii_digit, in_range, digit_char. intros H.
  assert (Hc : byte_Z c - 48 = d /\ 48 <= byte_Z c <= 57).
  { repeat (case_match; simplify_eq); z_bool; lia. }
  destruct Hc as [<- Hc]. split; [lia|].
  replace (Z.to_nat (48 + (byte_Z c - 48))) with (nat_of_ascii c) by (unfold byte_Z; lia).
  by rewrite ascii_nat_embedding.
Qed.

Lemma to_digit_digit_char d : 0 <= d < 10 -> to_digit 10 (digit_char d) = Some d.
Proof.
  intros Hd. revert d Hd.
  by apply (forall_below (fun d => to_digit 10 (digit_char d) = Some d) 10).
Qed.

Lemma digit_char_zero d : 0 <= d < 10 -> Ascii.eqb (digit_char d) "0" = (d =? 0).
Proof.
  intros Hd. revert d Hd.
  by apply (forall_below (fun d => Ascii.eqb (digit_char d) "0" = (d =? 0)) 10).
Qed.

(** The digits of an octet, without leading zeros. *)
Definition octet_digits (n : Z) : list Z :=
  if n <? 10 then [n]
  else if n <? 100 then [n / 10; n mod 10]
  else [n / 100; n / 10 mod 10; n mod 10].

Fixpoint digits_str (ds : list Z) (rest : string) : string :=
  match ds with
  | [] => rest
  | d :: ds => String (digit_char d) (digits_str ds rest)
  end.

Lemma digits_str_app ds rest rest' :
  digits_str ds rest +:+ rest' = digits_str ds (rest +:+ rest').
Proof.
  induction ds as [|d ds IH]; [done|]. cbn [digits_str].
  change (String (digit_char d) (digits_str ds rest) +:+ rest')
    with (String (digit_char d) (digits_str ds rest +:+ rest')). by rewrite IH.
Qed.

Lemma show_octet n : 0 <= n < 256 -> show_Z n = digits_str (octet_digits n) EmptyString.
Proof.
  intros Hn. revert n Hn.
  by apply (forall_below (fun n => show_Z n = digits_str (octet_digits n) EmptyString) 256).
Qed.

Lemma show_octet_app n rest :
  0 <= n < 256 -> show_Z n +:+ rest = digits_str (octet_digits n) rest.
Proof. intros Hn. by rewrite show_octet, digits_str_app. Qed.

(** A string that does not start with a digit. *)
Definition no_digit (s : string) : bool :=
  match s with
  | String c _ => match to_digit 10 c with Some _ => false | None => true end
  | EmptyString => true
  end.

Lemma read_digits_stop max acc count s :
  no_digit s = true -> read_digits 10 max acc count s = Some (acc, count, s).
Proof. destruct s as [|c s]; cbn; [done|]. by destruct (to_digit 10 c). Qed.

(** The digits of an octet, read by the number reader. *)
Lemma read_octet_show n rest :
  0 <= n < 256 -> no_digit rest = true ->
  read_number 10 3 false 255 (show_Z n +:+ rest) = Some (n, rest).
Proof.
  intros Hn Hrest. rewrite show_octet_app by done.
  unfold read_number, octet_digits.
  destruct (Z.ltb_spec n 10) as [H1|H1]; [|destruct (Z.ltb_spec n 100) as [H2|H2]];
    cbn [digits_str read_digits leading_zero];
    rewrite ?to_digit_digit_char by (Z.to_euclidean_division_equations; lia);
    repeat match goal with |- context [3 <? ?k] => change (3 <? k) with false end;
    cbn iota; rewrite read_digits_stop by done;
    rewrite digit_char_zero by (Z.to_euclidean_division_equations; lia);
    repeat case_match; z_bool; cbn in *; z_bool; destruct_and?;
    try (Z.to_euclidean_division_equations; lia);
    do 2 f_equal; Z.to_euclidean_division_equations; lia.
Qed.

Lemma read_digits_inv max acc count s v k rest :
  read_digits 10 max acc count s = Some (v, k, rest) -> 0 <= count ->
  exists ds, s = digits_str ds rest /\ Forall (fun d => 0 <= d < 10) ds /\
    k = count + vec_len ds /\ (count <= max -> k <= max) /\
    v = foldl (fun a d => a * 10 + d) acc ds.
Proof.
  revert acc count. induction s as [|c s IH]; intros acc count; cbn.
  - intros [= <- <- <-] ?. exists []. unfold vec_len. cbn. by rewrite Z.add_0_r.
  - destruct (to_digit 10 c) as [d|] eqn:Ed.
    + destruct (Z.ltb_spec max (count + 1)); [done|]. intros Hr Hc.
      destruct (IH _ _ Hr ltac:(lia)) as (ds & -> & Hds & -> & Hk & ->).
      apply to_digit_10 in Ed as [Hd ->]. exists (d :: ds). unfold vec_len in *.
      split; [done|]. split; [by constructor|]. cbn [length foldl].
      split; [lia|]. split; [lia|done].
    + intros [= <- <- <-] ?. exists []. unfold vec_len. cbn. by rewrite Z.add_0_r.
Qed.

Lemma read_octet_inv s n rest :
  read_number 10 3 false 255 s = Some (n, rest) ->
  0 <= n < 256 /\ s = show_Z n +:+ rest.
Proof.
  unfold read_number. destruct (read_digits 10 3 0 0 s) as [[[v k] rest']|] eqn:Hr; [|done].
  apply read_digits_inv in Hr as (ds & -> & Hds & -> & Hk & ->); [|done].
  specialize (Hk ltac:(lia)). unfold vec_len in *.
  destruct (Z.eqb_spec (0 + Z.of_nat (length ds)) 0) as [|Hne]; [done|].
  destruct ds as [|d1 [|d2 [|d3 [|? ds]]]]; cbn [length] in Hk, Hne; try lia;
    repeat match goal with H : Forall _ (_ :: _) |- _ => apply Forall_cons in H as [? H] end;
    cbn [digits_str leading_zero foldl length]; rewrite digit_char_zero by done;
    case_match eqn:Hz; try done; case_match eqn:Hm; try done; intros [= <- <-];
    apply Z.leb_le in Hm; (split; [lia|]); rewrite show_octet_app by lia; unfold octet_digits.
  - destruct (Z.ltb_spec (0 * 10 + d1) 10); [done|lia].
  - cbn in Hz. rewrite andb_true_r in Hz. z_bool.
    destruct (Z.ltb_spec ((0 * 10 + d1) * 10 + d2) 10); [lia|].
    destruct (Z.ltb_spec ((0 * 10 + d1) * 10 + d2) 100); [|lia].
    cbn [digits_str]. do 3 f_equal; Z.to_euclidean_division_equations; lia.
  - cbn in Hz. rewrite andb_true_r in Hz. z_bool.
    destruct (Z.ltb_spec (((0 * 10 + d1) * 10 + d2) * 10 + d3) 10); [lia|].
    destruct (Z.ltb_spec (((0 * 10 + d1) * 10 + d2) * 10 + d3) 100); [lia|].
    cbn [digits_str]. do 4 f_equal; Z.to_euclidean_division_equations; lia.
Qed.

(** ** IPv4 addresses *)

Lemma read_octet_first n rest :
  0 <= n < 256 -> no_digit rest = true -> read_octet 0 (show_Z n +:+ rest) = Some (n, rest).
Proof. apply read_octet_show. Qed.

Lemma read_octet_sep i n rest :
  0 <= n < 256 -> no_digit rest = true ->
  read_octet (S i) ("."%stdpp +:+ (show_Z n +:+ rest)) = Some (n, rest).
Proof. intros. unfold read_octet. cbn. by apply read_octet_show. Qed.

Lemma read_ipv4_show a b c d rest :
  u8 a && u8 b && u8 c && u8 d = true -> no_digit rest = true ->
  read_ipv4 (show_v4 a b c d +:+ rest) = Some (a, b, c, d, rest).
Proof.
  unfold u8. intros Hip Hrest. z_bool. destruct_and?. z_bool.
  unfold read_ipv4, show_v4. rewrite !str_app_assoc.
  rewrite read_octet_first; [|lia|done]. cbn [mbind option_bind].
  do 2 (rewrite read_octet_sep; [|lia|done]; cbn [mbind option_bind]).
  by rewrite read_octet_sep; [|lia|done].
Qed.

Lemma read_octet_sep_inv i s n rest :
  read_octet (S i) s = Some (n, rest) ->
  0 <= n < 256 /\ s = "."%stdpp +:+ (show_Z n +:+ rest).
Proof.
  unfold read_octet. cbn. destruct s as [|c s]; cbn; [done|].
  destruct (Ascii.eqb_spec c "."%char) as [->|]; cbn; [|done].
  intros [? ->]%read_octet_inv. done.
Qed.

Lemma read_ipv4_inv s a b c d rest :
  read_ipv4 s = Some (a, b, c, d, rest) ->
  u8 a && u8 b && u8 c && u8 d = true /\ s = show_v4 a b c d +:+ rest.
Proof.
  unfold read_ipv4.
  destruct (read_octet 0 s) as [[a' s1]|] eqn:E1; cbn [mbind option_bind]; [|done].
  destruct (read_octet 1 s1) as [[b' s2]|] eqn:E2; cbn [mbind option_bind]; [|done].
  destruct (read_octet 2 s2) as [[c' s3]|] eqn:E3; cbn [mbind option_bind]; [|done].
  destruct (read_octet 3 s3) as [[d' s4]|] eqn:E4; cbn [mbind option_bind]; [|done].
  intros [= -> -> -> -> ->].
  apply read_octet_inv in E1 as [Ha ->].
  apply read_octet_sep_inv in E2 as [Hb ->], E3 as [Hc ->], E4 as [Hd ->].
  unfold show_v4. rewrite !str_app_assoc. split; [|done]. unfold u8.
  rewrite !andb_true_iff, !Z.leb_le, !Z.ltb_lt. lia.
Qed.

Lemma parse_v4 s a b c d :
  parse_ip s = Some (V4 a b c d) <->
  ip_ok (V4 a b c d) /\ s = show_ip (V4 a b c d).
Proof.
  unfold parse_ip, read_ip. split.
  - destruct (read_ipv4 s) as [[[[[a' b'] c'] d'] rest]|] eqn:E.
    + destruct rest; [|done]. intros [= -> -> -> ->].
      apply read_ipv4_inv in E as [Hok ->]. by rewrite str_app_empty.
    + destruct (read_ipv6 s) as [[segs rest]|]; cbn; [|done]. by destruct rest.
  - intros [Hok ->]. cbn [show_ip].
    pose proof (read_ipv4_show a b c d EmptyString Hok eq_refl) as Hr.
    rewrite str_app_empty in Hr. by rewrite Hr.
Qed.

(** An IPv4 address has exactly one spelling that parses: what the parser
    accepts as [V4] is what [Display] prints (no leading zeros, no sign, no
    blanks), so a forwarded IPv4 header and the socket address of the same
    client name the same room. *)
Theorem ipv4_one_spelling s a b c d :
  parse_ip s = Some (V4 a b c d) <->
  ip_ok (V4 a b c d) /\ s = show_ip (V4 a b c d).
Proof. apply parse_v4. Qed.
