(* ===== verification/ClientIp.v ===== *)
(** * Who a connection is: health checks, forwarded headers, rooms
    (signal/src/server.rs, first half of [handle_connection])

    From the bytes peeked on an accepted socket to the name of the room the
    connection will join. *)

From S2P Require Import Prelude RStr IpAddr.

Open Scope Z_scope.
Local Open Scope stdpp_scope.
Local Open Scope Z_scope.

(** ** The plain-HTTP short cut *)

Definition crlf : string := String "013"%char (String "010"%char EmptyString).

(** [preview.to_ascii_lowercase().contains("upgrade: websocket")], on the bytes
    peeked: what the lossy decoding replaces is never ASCII. *)
Definition wants_websocket (preview : string) : bool :=
  str_contains "upgrade: websocket"%stdpp (to_ascii_lowercase preview).

Definition health_body : string := "bolt-rendezvous OK"%stdpp.

Definition health_response : string :=
  ("HTTP/1.1 200 OK" +:+ crlf +:+ "Content-Type: text/plain" +:+ crlf +:+
   "Content-Length: " +:+ show_Z (usize_len health_body) +:+ crlf +:+
   "Connection: close" +:+ crlf +:+ crlf +:+ health_body)%stdpp.

(** The outcome of the peek: go on with the handshake, answer the health check
    and return, or return after a socket error. *)
Inductive admission := Handshake | Health (response : string) | PeekFailed.

Definition admit_stream (peeked : Result string unit) : admission :=
  match peeked with
  | Ok preview => if wants_websocket preview then Handshake else Health health_response
  | Err _ => PeekFailed
  end.

(** ** The handshake callback *)

(** The two headers it reads: absent, present but not visible ASCII ([to_str]
    fails), or present with a text. *)
Record Headers := mkHeaders {
  fly_client_ip : option (option string);
  x_forwarded_for : option (option string);
}.

Definition is_ip (s : string) : bool :=
  match parse_ip s with Some _ => true | None => false end.

(** [value.split(',').next().unwrap_or(value).trim()] *)
Definition first_item (value : string) : string :=
  str_trim (default value (head (str_split ","%char value))).

(** The X-Forwarded-For half of the callback. *)
Definition callback_xff (h : Headers) : option string :=
  match x_forwarded_for h with
  | Some (Some value) =>
    let raw_ip := first_item value in
    if is_ip raw_ip then Some raw_ip else None
  | _ => None
  end.

(** What the callback leaves in [forwarded_for]. *)
Definition callback (h : Headers) : option string :=
  match fly_client_ip h with
  | Some (Some value) =>
    let ip_str := str_trim value in
    if is_ip ip_str then Some ip_str else callback_xff h
  | _ => callback_xff h
  end.

(** ** Private addresses *)

(** The second dot-separated field, as a [u8] in [lo..=hi]. *)
Definition second_octet_in (lo hi : Z) (ip : string) : bool :=
  match str_split "."%char ip !! 1%nat with
  | Some second =>
    match parse_u8 second with
    | Some n => (lo <=? n) && (n <=? hi)
    | None => false
    end
  | None => false
  end.

(** [is_private_ip] *)
Definition is_private_ip (ip : string) : bool :=
  if String.eqb ip "127.0.0.1"%stdpp then true
  else if starts_with "10."%stdpp ip then true
  else if starts_with "192.168."%stdpp ip then true
  else if starts_with "169.254."%stdpp ip then true
  else if starts_with "172."%stdpp ip && second_octet_in 16 31 ip then true
  else if starts_with "100."%stdpp ip && second_octet_in 64 127 ip then true
  else if String.eqb ip "::1"%stdpp then true
  else if starts_with "fc"%stdpp ip || starts_with "fd"%stdpp ip then true
  else if starts_with "fe80"%stdpp ip then true
  else false.

(** ** The room *)

(** [raw_ip] of [handle_connection]; [addr] is the socket's IP. *)
Definition raw_ip (trusted_proxies : list IpAddr) (addr : IpAddr)
    (forwarded_ip : option string) : string :=
  match forwarded_ip with
  | Some ip =>
    if bool_decide (addr ∈ trusted_proxies) then ip
    else if is_private_ip (show_ip addr) && negb (str_is_empty ip) then ip
    else show_ip addr
  | None => show_ip addr
  end.

Definition local_room : string := "local"%stdpp.

(** [client_ip] of [handle_connection]. *)
Definition client_ip (trusted_proxies : list IpAddr) (addr : IpAddr) (h : Headers) : string :=
  let raw := raw_ip trusted_proxies addr (callback h) in
  if is_private_ip raw then local_room else raw.

(** ** IPv4: exactly six networks are private *)

(** A network in CIDR notation, over 32-bit addresses. *)
Definition addr32 (a b c d : Z) : Z := ((a * 256 + b) * 256 + c) * 256 + d.

Definition in_net (ip : Z) (net : Z * Z) : bool :=
  Z.shiftr ip (32 - net.2) =? Z.shiftr net.1 (32 - net.2).

Definition private_nets : list (Z * Z) :=
  [(addr32 10 0 0 0, 8); (addr32 172 16 0 0, 12); (addr32 192 168 0 0, 16);
   (addr32 169 254 0 0, 16); (addr32 100 64 0 0, 10); (addr32 127 0 0 1, 32)].

Lemma digit_char_inj d d' : 0 <= d < 10 -> 0 <= d' < 10 -> digit_char d = digit_char d' -> d = d'.
Proof.
  intros Hd Hd' Heq. pose proof (to_digit_digit_char d Hd) as H.
  rewrite Heq, to_digit_digit_char in H by done. by injection H.
Qed.

Lemma digit_not_dot d : 0 <= d < 10 -> digit_char d <> "."%char.
Proof.
  intros Hd Heq. pose proof (to_digit_digit_char d Hd) as H.
  by rewrite Heq in H.
Qed.

(** A dotted prefix meets a dotted string field by field. *)
Lemma prefix_field ds ds' p r :
  Forall (fun d => 0 <= d < 10) ds -> Forall (fun d => 0 <= d < 10) ds' ->
  String.prefix (digits_str ds (String "." p)) (digits_str ds' (String "." r)) =
    bool_decide (ds = ds') && String.prefix p r.
Proof.
  intros Hds. revert ds'. induction Hds as [|d ds Hd Hds IH]; intros ds' Hds'.
  - destruct Hds' as [|d' ds' Hd' Hds']; cbn [digits_str String.prefix].
    + by destruct (ascii_dec "." ".").
    + destruct (ascii_dec "." (digit_char d')) as [Heq|]; [|done].
      by destruct (digit_not_dot d').
  - destruct Hds' as [|d' ds' Hd' Hds']; cbn [digits_str String.prefix].
    + destruct (ascii_dec (digit_char d) ".") as [Heq|]; [|done].
      by destruct (digit_not_dot d).
    + destruct (ascii_dec (digit_char d) (digit_char d')) as [Heq|Hne].
      * apply digit_char_inj in Heq as ->; [|done..]. rewrite IH by done.
        f_equal. apply bool_decide_ext. naive_solver.
      * rewrite bool_decide_eq_false_2; [done|]. by intros [= ->].
Qed.

Lemma octet_digits_ok n : 0 <= n < 256 -> Forall (fun d => 0 <= d < 10) (octet_digits n).
Proof.
  intros Hn. unfold octet_digits.
  repeat case_match; z_bool; repeat constructor; Z.to_euclidean_division_equations; lia.
Qed.

Lemma octet_digits_value n : 0 <= n < 256 -> foldl (fun a d => a * 10 + d) 0 (octet_digits n) = n.
Proof. revert n. by apply (forall_below (fun n => foldl _ 0 (octet_digits n) = n) 256). Qed.

Lemma octet_digits_inj n m :
  0 <= n < 256 -> 0 <= m < 256 -> octet_digits n = octet_digits m -> n = m.
Proof.
  intros Hn Hm Heq. rewrite <-(octet_digits_value n Hn), Heq. by apply octet_digits_value.
Qed.

Lemma starts_with_octet k n p r :
  0 <= k < 256 -> 0 <= n < 256 ->
  starts_with (show_Z k +:+ String "." p) (show_Z n +:+ String "." r) =
    (n =? k) && starts_with p r.
Proof.
  intros Hk Hn. unfold starts_with. rewrite !show_octet_app by done.
  rewrite prefix_field by (by apply octet_digits_ok). f_equal.
  destruct (Z.eqb_spec n k) as [->|Hne]; [by apply bool_decide_eq_true_2|].
  apply bool_decide_eq_false_2. intros Heq%octet_digits_inj; [by subst|done..].
Qed.

Lemma octet_lacks_dot n : 0 <= n < 256 -> lacks "." (show_Z n) = true.
Proof. revert n. by apply (forall_below (fun n => lacks "." (show_Z n) = true) 256). Qed.

Lemma parse_u8_octet n : 0 <= n < 256 -> parse_u8 (show_Z n) = Some n.
Proof. revert n. by apply (forall_below (fun n => parse_u8 (show_Z n) = Some n) 256). Qed.

Lemma show_v4_fields a b c d :
  show_v4 a b c d =
    show_Z a +:+ String "." (show_Z b +:+ String "." (show_Z c +:+ String "." (show_Z d))).
Proof. done. Qed.

Lemma second_octet_v4 lo hi a b c d :
  0 <= a < 256 -> 0 <= b < 256 ->
  second_octet_in lo hi (show_v4 a b c d) = (lo <=? b) && (b <=? hi).
Proof.
  intros Ha Hb. unfold second_octet_in. rewrite show_v4_fields.
  rewrite str_split_app by (by apply octet_lacks_dot). cbn [lookup list_lookup].
  rewrite str_split_app by (by apply octet_lacks_dot). cbn [lookup list_lookup].
  by rewrite parse_u8_octet.
Qed.

(** The first character of an IPv4 address is a digit. *)
Lemma starts_with_nondigit c p a b c' d :
  0 <= a < 256 -> to_digit 10 c = None ->
  starts_with (String c p) (show_v4 a b c' d) = false.
Proof.
  intros Ha Hc. rewrite show_v4_fields, show_octet_app by done. unfold starts_with.
  pose proof (octet_digits_ok a Ha) as Hds. unfold octet_digits in *.
  assert (Hne : forall d0 ds r, Forall (fun d => 0 <= d < 10) (d0 :: ds) ->
    String.prefix (String c p) (digits_str (d0 :: ds) r) = false).
  { intros d0 ds r [Hd0 _]%Forall_cons. cbn [digits_str String.prefix].
    destruct (ascii_dec c (digit_char d0)) as [->|]; [|done].
    by rewrite to_digit_digit_char in Hc. }
  repeat case_match; by apply Hne.
Qed.

Lemma show_v4_eqb a b c d a' b' c' d' :
  ip_ok (V4 a b c d) -> ip_ok (V4 a' b' c' d') ->
  String.eqb (show_v4 a b c d) (show_v4 a' b' c' d') =
    (a =? a') && (b =? b') && (c =? c') && (d =? d').
Proof.
  intros Hok Hok'. destruct (String.eqb_spec (show_v4 a b c d) (show_v4 a' b' c' d')) as [Heq|Hne].
  - pose proof (proj2 (parse_v4 _ a b c d) (conj Hok eq_refl)) as H1.
    pose proof (proj2 (parse_v4 _ a' b' c' d') (conj Hok' eq_refl)) as H2.
    cbn [show_ip] in *. rewrite Heq, H2 in H1. injection H1 as -> -> -> ->.
    by rewrite !Z.eqb_refl.
  - symmetry. apply not_true_is_false. rewrite !andb_true_iff, !Z.eqb_eq.
    intros [[[-> ->] ->] ->]. by apply Hne.
Qed.

Lemma in_net_range a b c d net len lo n :
  0 <= len <= 32 -> Z.shiftr net (32 - len) = lo ->
  2 ^ (32 - len) = n ->
  in_net (addr32 a b c d) (net, len) = (lo * n <=? addr32 a b c d) && (addr32 a b c d <? (lo + 1) * n).
Proof.
  intros Hlen <- <-. unfold in_net. cbn [fst snd].
  assert (0 < 2 ^ (32 - len)) by (apply Z.pow_pos_nonneg; lia).
  rewrite (Z.shiftr_div_pow2 (addr32 a b c d)) by lia.
  set (q := Z.shiftr net (32 - len)) in *. set (n := 2 ^ (32 - len)) in *.
  destruct (Z.eqb_spec (addr32 a b c d / n) q) as [<-|Hne]; symmetry.
  - apply andb_true_iff. rewrite Z.leb_le, Z.ltb_lt.
    pose proof (Z.mul_div_le (addr32 a b c d) n). pose proof (Z.mul_succ_div_gt (addr32 a b c d) n). lia.
  - apply not_true_is_false. rewrite andb_true_iff, Z.leb_le, Z.ltb_lt. intros [? ?].
    apply Hne. symmetry. apply (Z.div_unique _ _ _ (addr32 a b c d - q * n)); lia.
Qed.

Lemma starts_with_empty s : starts_with EmptyString s = true.
Proof. by destruct s. Qed.

Lemma private_v4 a b c d :
  ip_ok (V4 a b c d) ->
  is_private_ip (show_v4 a b c d) =
    (a =? 10) || ((a =? 192) && (b =? 168)) || ((a =? 169) && (b =? 254)) ||
    ((a =? 172) && (16 <=? b) && (b <=? 31)) || ((a =? 100) && (64 <=? b) && (b <=? 127)) ||
    ((a =? 127) && (b =? 0) && (c =? 0) && (d =? 1)).
Proof.
  intros Hok. pose proof Hok as Hr. cbn in Hr. unfold u8 in Hr. z_bool. destruct_and?. z_bool.
  assert (H127 : String.eqb (show_v4 a b c d) "127.0.0.1"%stdpp =
    (a =? 127) && (b =? 0) && (c =? 0) && (d =? 1)) by (by apply (show_v4_eqb a b c d 127 0 0 1)).
  assert (Hone : forall k, 0 <= k < 256 ->
    starts_with (show_Z k +:+ String "." EmptyString) (show_v4 a b c d) = (a =? k)).
  { intros k Hk. rewrite show_v4_fields, starts_with_octet by lia.
    by rewrite starts_with_empty, andb_true_r. }
  assert (Htwo : forall k l, 0 <= k < 256 -> 0 <= l < 256 ->
    starts_with (show_Z k +:+ String "." (show_Z l +:+ String "." EmptyString)) (show_v4 a b c d) =
      (a =? k) && (b =? l)).
  { intros k l Hk Hl. rewrite show_v4_fields, !starts_with_octet by lia.
    by rewrite starts_with_empty, andb_true_r. }
  assert (Hcol : String.eqb (show_v4 a b c d) "::1"%stdpp = false).
  { destruct (String.eqb_spec (show_v4 a b c d) "::1"%stdpp) as [Heq|]; [|done].
    pose proof (starts_with_nondigit ":" EmptyString a b c d ltac:(lia) eq_refl) as Hc.
    by rewrite Heq in Hc. }
  unfold is_private_ip. rewrite H127, Hcol, !second_octet_v4 by lia.
  pose proof (Hone 10 ltac:(lia)) as E1. pose proof (Hone 172 ltac:(lia)) as E2.
  pose proof (Hone 100 ltac:(lia)) as E3.
  pose proof (Htwo 192 168 ltac:(lia) ltac:(lia)) as E4.
  pose proof (Htwo 169 254 ltac:(lia) ltac:(lia)) as E5.
  change (show_Z 10 +:+ _) with "10."%stdpp in E1.
  change (show_Z 172 +:+ _) with "172."%stdpp in E2.
  change (show_Z 100 +:+ _) with "100."%stdpp in E3.
  change (show_Z 192 +:+ _) with "192.168."%stdpp in E4.
  change (show_Z 169 +:+ _) with "169.254."%stdpp in E5.
  rewrite E1, E2, E3, E4, E5, !starts_with_nondigit by (lia || done).
  generalize (a =? 10), ((a =? 192) && (b =? 168)), ((a =? 169) && (b =? 254)),
    ((a =? 127) && (b =? 0) && (c =? 0) && (d =? 1)). intros [] [] [] [];
  rewrite ?orb_true_r, ?orb_false_r; cbn; try done; rewrite <-?andb_assoc;
  generalize ((a =? 172) && ((16 <=? b) && (b <=? 31))), ((a =? 100) && ((64 <=? b) && (b <=? 127)));
  by intros [] [].
Qed.

(** C19: on IPv4 the string tests of [is_private_ip] decide membership in six
    networks, and nothing else: 10.0.0.0/8, 172.16.0.0/12, 192.168.0.0/16,
    169.254.0.0/16, 100.64.0.0/10 and the single host 127.0.0.1. *)
Theorem is_private_ipv4_nets a b c d :
  ip_ok (V4 a b c d) ->
  is_private_ip (show_ip (V4 a b c d)) = existsb (in_net (addr32 a b c d)) private_nets.
Proof.
  intros Hok. cbn [show_ip]. rewrite private_v4 by done.
  cbn in Hok. unfold u8 in Hok. z_bool. destruct_and?. z_bool.
  unfold private_nets, existsb.
  rewrite (in_net_range a b c d (addr32 10 0 0 0) 8 10 16777216) by (done || lia).
  rewrite (in_net_range a b c d (addr32 172 16 0 0) 12 2753 1048576) by (done || lia).
  rewrite (in_net_range a b c d (addr32 192 168 0 0) 16 49320 65536) by (done || lia).
  rewrite (in_net_range a b c d (addr32 169 254 0 0) 16 43518 65536) by (done || lia).
  rewrite (in_net_range a b c d (addr32 100 64 0 0) 10 401 4194304) by (done || lia).
  rewrite (in_net_range a b c d (addr32 127 0 0 1) 32 2130706433 1) by (done || lia).
  apply eq_true_iff_eq.
  rewrite !orb_true_iff, !andb_true_iff, !Z.eqb_eq, !Z.leb_le, !Z.ltb_lt.
  unfold addr32. split; intros Hcase; destruct_or?; try done; lia.
Qed.

(** ** IPv6: tests on the text, not on the prefix *)

Lemma prefix_stop p s c t :
  lacks c p = true -> starts_with p (s +:+ String c t) = starts_with p s.
Proof.
  unfold lacks, starts_with. revert s. induction p as [|x p IH]; intros s; cbn [str_all].
  - intros _. by destruct s.
  - intros [Hx%negb_true_iff Hp]%andb_prop. destruct s as [|y s].
    + change (EmptyString +:+ String c t) with (String c t). cbn [String.prefix].
      destruct (ascii_dec x c) as [->|]; [|done]. by rewrite Ascii.eqb_refl in Hx.
    + change (String y s +:+ String c t) with (String y (s +:+ String c t)).
      cbn [String.prefix]. destruct (ascii_dec x y); [|done]. by apply IH.
Qed.

(** The text of an IPv6 address whose first segment is not zero. *)
Lemma zero_span_start i cs cl bs bl segs :
  (1 <= i)%nat -> (cl = 0 \/ 1 <= cs)%nat -> (bl = 0 \/ 1 <= bs)%nat ->
  let '(start, len) := zero_span i cs cl bs bl segs in (len = 0 \/ 1 <= start)%nat.
Proof.
  revert i cs cl bs bl. induction segs as [|g segs IH]; intros i cs cl bs bl Hi Hc Hb; cbn; [done|].
  destruct (g =? 0); [|by apply IH; [lia|left|done]].
  assert (Hcs : (1 <= (if Nat.eqb cl 0 then i else cs))%nat).
  { destruct (Nat.eqb_spec cl 0); lia. }
  destruct (Nat.leb bl cl); apply IH; auto; lia.
Qed.

Lemma show_v6_first g segs :
  g <> 0 -> length segs = 7%nat ->
  exists t, show_v6 (g :: segs) = show_hex g +:+ String ":" t.
Proof.
  intros Hg Hlen.
  assert (Hfmt : forall l, l <> [] ->
    exists t, fmt_segments (g :: l) = show_hex g +:+ String ":" t).
  { intros [|h l] Hl; [done|]. by exists (fmt_segments (h :: l)). }
  assert (Hshow : show_v6 (g :: segs) =
    let '(start, len) := zero_span 0 0 0 0 0 (g :: segs) in
    if Nat.ltb 1 len then
      fmt_segments (take start (g :: segs)) +:+ "::"%stdpp +:+ fmt_segments (drop (start + len) (g :: segs))
    else fmt_segments (g :: segs)).
  { unfold show_v6. by destruct g. }
  rewrite Hshow. cbn [zero_span]. destruct (Z.eqb_spec g 0) as [|_]; [done|].
  pose proof (zero_span_start 1 0 0 0 0 segs ltac:(lia) ltac:(lia) ltac:(lia)) as Hs.
  destruct (zero_span 1 0 0 0 0 segs) as [start len].
  destruct (Nat.ltb_spec 1 len); [|by apply Hfmt; intros ->].
  destruct start as [|start]; [lia|]. cbn [take].
  destruct (take start segs) as [|h l] eqn:Et.
  - eexists. cbn [fmt_segments str_join]. reflexivity.
  - destruct (Hfmt (h :: l)) as [t ->]; [done|]. rewrite str_app_assoc.
    change (String ":" t +:+ ?r) with (String ":" (t +:+ r)). by eexists.
Qed.

Lemma to_digit_hex_digit d : 0 <= d < 16 -> to_digit 16 (hex_digit d) = Some d.
Proof. revert d. by apply (forall_below (fun d => to_digit 16 (hex_digit d) = Some d) 16). Qed.

Lemma prefix_hex k d p s :
  0 <= k < 16 -> 0 <= d < 16 ->
  starts_with (String (hex_digit k) p) (String (hex_digit d) s) = (d =? k) && starts_with p s.
Proof.
  intros Hk Hd. unfold starts_with. cbn [String.prefix].
  destruct (ascii_dec (hex_digit k) (hex_digit d)) as [Heq|Hne].
  - pose proof (to_digit_hex_digit k Hk) as Hkd. rewrite Heq, to_digit_hex_digit in Hkd by done.
    injection Hkd as <-. by rewrite Z.eqb_refl.
  - destruct (Z.eqb_spec d k) as [->|]; [done|done].
Qed.

Ltac divs := Z.to_euclidean_division_equations; lia.

(** A two-digit hexadecimal prefix meets segments of two, three or four digits. *)
Lemma prefix2_hex k1 k2 g :
  0 < k1 < 16 -> 0 <= k2 < 16 -> u16 g = true ->
  starts_with (String (hex_digit k1) (String (hex_digit k2) EmptyString)) (show_hex g) =
    (let k := k1 * 16 + k2 in (g =? k) || (g / 16 =? k) || (g / 256 =? k)).
Proof.
  unfold u16. intros Hk1 Hk2 Hg. z_bool. destruct_and?. z_bool. unfold show_hex. cbn zeta.
  destruct (Z.eqb_spec (g / 4096) 0) as [Hd3|Hd3]; cbn [negb];
    [destruct (Z.eqb_spec (g / 256 mod 16) 0) as [Hd2|Hd2]; cbn [negb];
      [destruct (Z.eqb_spec (g / 16 mod 16) 0) as [Hd1|Hd1]; cbn [negb]|]|];
    rewrite !prefix_hex by (lia || divs);
    rewrite ?starts_with_empty; apply eq_true_iff_eq;
    rewrite ?orb_true_iff, ?andb_true_iff, !Z.eqb_eq.
  - change (starts_with _ EmptyString) with false. divs.
  - divs.
  - divs.
  - divs.
Qed.

Lemma show_hex_lacks c g :
  to_digit 16 c = None -> u16 g = true -> lacks c (show_hex g) = true.
Proof.
  unfold u16. intros Hc Hg. z_bool. destruct_and?. z_bool.
  assert (Hne : forall d, 0 <= d < 16 -> negb (Ascii.eqb (hex_digit d) c) = true).
  { intros d Hd. destruct (Ascii.eqb_spec (hex_digit d) c) as [<-|]; [|done].
    by rewrite to_digit_hex_digit in Hc. }
  unfold show_hex, lacks. cbn zeta. repeat case_match; cbn [str_all];
    rewrite !Hne by (lia || divs); done.
Qed.

Lemma starts_with_lacks c p s : starts_with p s = true -> lacks c s = true -> lacks c p = true.
Proof.
  unfold starts_with, lacks. revert s. induction p as [|x p IH]; intros s; [done|].
  destruct s as [|y s]; cbn [String.prefix str_all]; [done|].
  destruct (ascii_dec x y) as [->|]; [|done]. intros Hp [Hy Hs]%andb_prop.
  rewrite Hy. cbn. by apply (IH s).
Qed.

Lemma starts_with_dotted p g t :
  u16 g = true -> lacks ":" p = true -> lacks "." p = false ->
  starts_with p (show_hex g +:+ String ":" t) = false.
Proof.
  intros Hg Hc Hd. rewrite prefix_stop by done. apply not_true_is_false. intros Hp.
  pose proof (starts_with_lacks "." _ _ Hp (show_hex_lacks "." g eq_refl Hg)). congruence.
Qed.

Lemma starts_fe80 g : u16 g = true -> starts_with "fe80"%stdpp (show_hex g) = (g =? 0xfe80).
Proof.
  unfold u16. intros Hg. z_bool. destruct_and?. z_bool.
  change "fe80"%stdpp with (String (hex_digit 15) (String (hex_digit 14)
    (String (hex_digit 8) (String (hex_digit 0) EmptyString)))).
  unfold show_hex. cbn zeta. apply eq_true_iff_eq.
  repeat case_match; z_bool; rewrite !prefix_hex by (lia || divs);
    rewrite ?starts_with_empty, ?andb_true_r, ?andb_true_iff, !Z.eqb_eq;
    repeat match goal with |- context [starts_with (String ?c ?p) EmptyString] =>
      change (starts_with (String c p) EmptyString) with false end; divs.
Qed.

(** On IPv6 the tests read the text of the address. Every unique local
    address (fc00::/7) is private, but so is every address whose first segment
    is written with a leading [fc] or [fd], such as fc::1 or fd1::1, which are
    outside fc00::/7; and of the link-local network fe80::/10 only the
    addresses with first segment fe80 are. *)
Theorem is_private_ipv6_text g segs :
  ip_ok (V6 (g :: segs)) -> g <> 0 ->
  is_private_ip (show_ip (V6 (g :: segs))) =
    existsb (fun k => (g =? k) || (g / 16 =? k) || (g / 256 =? k)) [0xfc; 0xfd]
    || (g =? 0xfe80).
Proof.
  intros [Hlen Hall] Hg0. cbn [forallb] in Hall. apply andb_prop in Hall as [Hg _].
  cbn in Hlen. injection Hlen as Hlen. cbn [show_ip].
  destruct (show_v6_first g segs Hg0 Hlen) as [t ->].
  assert (H127 : String.eqb (show_hex g +:+ String ":" t) "127.0.0.1"%stdpp = false).
  { destruct (String.eqb_spec (show_hex g +:+ String ":" t) "127.0.0.1"%stdpp) as [Heq|]; [|done].
    pose proof (lacks_app ":" (show_hex g) (String ":" t)) as Hl.
    rewrite Heq, show_hex_lacks in Hl by done. vm_compute in Hl. done. }
  assert (H1 : String.eqb (show_hex g +:+ String ":" t) "::1"%stdpp = false).
  { destruct (String.eqb_spec (show_hex g +:+ String ":" t) "::1"%stdpp) as [Heq|]; [|done].
    pose proof (show_hex_lacks ":" g eq_refl Hg) as Hl.
    assert (exists c r, show_hex g = String c r) as (c & r & Er).
    { unfold show_hex. cbn zeta. repeat case_match; by eexists _, _. }
    rewrite Er in Heq, Hl. injection Heq as -> _. done. }
  unfold is_private_ip. rewrite H127, H1, !starts_with_dotted by done. cbn [andb].
  rewrite !prefix_stop by done.
  change "fc"%stdpp with (String (hex_digit 15) (String (hex_digit 12) EmptyString)).
  change "fd"%stdpp with (String (hex_digit 15) (String (hex_digit 13) EmptyString)).
  rewrite !prefix2_hex by (done || lia). cbn [existsb]. rewrite orb_false_r.
  cbn zeta. change (15 * 16 + 12) with 252. change (15 * 16 + 13) with 253.
  change 0xfc with 252. change 0xfd with 253. destruct (_ || _); [done|]. cbn [orb].
  rewrite starts_fe80 by done. by destruct (g =? 0xfe80).
Qed.

(** ** Which room *)

Lemma callback_is_ip h ip : callback h = Some ip -> is_ip ip = true.
Proof.
  unfold callback, callback_xff. intros Hc.
  repeat (case_match; simplify_eq); done.
Qed.

Lemma is_ip_nonempty ip : is_ip ip = true -> str_is_empty ip = false.
Proof. by destruct ip. Qed.

(** The sources a forwarded address is taken from. *)
Definition trusts_headers (trusted_proxies : list IpAddr) (addr : IpAddr) : Prop :=
  addr ∈ trusted_proxies \/ is_private_ip (show_ip addr) = true.

(** C18: only a connection from a configured proxy or from a private address can
    choose its room by headers: from anywhere else the headers, whatever they
    say, leave the socket's own address. From such a source a valid
    Fly-Client-IP wins over X-Forwarded-For, an invalid one falls back to the
    first X-Forwarded-For entry, and an invalid entry to the socket. *)
Theorem client_ip_authority tp addr h :
  (~ trusts_headers tp addr -> client_ip tp addr h = show_ip addr) /\
  (trusts_headers tp addr ->
   client_ip tp addr h =
     let raw := default (show_ip addr) (callback h) in
     if is_private_ip raw then local_room else raw) /\
  (forall v, fly_client_ip h = Some (Some v) -> is_ip (str_trim v) = true ->
     callback h = Some (str_trim v)) /\
  (forall v, fly_client_ip h = Some (Some v) -> is_ip (str_trim v) = false ->
     callback h = callback_xff h) /\
  (forall v, x_forwarded_for h = Some (Some v) -> is_ip (first_item v) = false ->
     callback_xff h = None).
Proof.
  unfold trusts_headers, client_ip, raw_ip. split; [|split; [|split; [|split]]].
  - intros Hno. rewrite bool_decide_eq_false_2 by tauto.
    destruct (is_private_ip (show_ip addr)) eqn:Hp; [tauto|]. cbn.
    assert (match callback h with Some _ | None => show_ip addr end = show_ip addr) as ->.
    { by destruct (callback h). }
    by rewrite Hp.
  - intros Hyes. destruct (callback h) as [ip|] eqn:Hc; [|done].
    rewrite (is_ip_nonempty ip (callback_is_ip h ip Hc)), andb_true_r. cbn.
    destruct (bool_decide_reflect (addr ∈ tp)); [done|].
    destruct Hyes as [Hin|Hp]; [done|by rewrite Hp].
  - intros v Hv Hip. unfold callback. by rewrite Hv, Hip.
  - intros v Hv Hip. unfold callback. by rewrite Hv, Hip.
  - intros v Hv Hip. unfold callback_xff. by rewrite Hv, Hip.
Qed.

(** Two spellings of one IPv6 address forwarded by a trusted proxy put the
    same client in two rooms, since the header's text, validated but not
    normalised, names the room; and the private test misses the upper-case
    spelling of a unique local address. *)
Theorem forwarded_ipv6_spelling :
  let h v := mkHeaders None (Some (Some v)) in
  let proxy := V4 203 0 113 9 in
  parse_ip "2001:DB8::1"%stdpp = parse_ip "2001:db8::1"%stdpp /\
  client_ip [proxy] proxy (h "2001:DB8::1"%stdpp) = "2001:DB8::1"%stdpp /\
  client_ip [proxy] proxy (h "2001:db8::1"%stdpp) = "2001:db8::1"%stdpp /\
  parse_ip "FD00::1"%stdpp = parse_ip "fd00::1"%stdpp /\
  client_ip [proxy] proxy (h "FD00::1"%stdpp) = "FD00::1"%stdpp /\
  client_ip [proxy] proxy (h "fd00::1"%stdpp) = local_room.
Proof. by vm_compute. Qed.

Example health_response_text :
  health_response =
    ("HTTP/1.1 200 OK" +:+ crlf +:+ "Content-Type: text/plain" +:+ crlf +:+
     "Content-Length: 18" +:+ crlf +:+ "Connection: close" +:+ crlf +:+ crlf +:+
     "bolt-rendezvous OK")%stdpp.
Proof. by vm_compute. Qed.

Example admit_examples :
  admit_stream (Ok ("GET / HTTP/1.1" +:+ crlf +:+ "UPGRADE: WebSocket" +:+ crlf)%stdpp) = Handshake /\
  admit_stream (Ok ("GET / HTTP/1.1" +:+ crlf)%stdpp) = Health health_response.
Proof. by vm_compute. Qed.

(** ** Witnesses *)

Lemma is_private_ipv4_nets_witness :
  is_private_ip (show_ip (V4 172 31 0 1)) = true /\
  is_private_ip (show_ip (V4 172 32 0 1)) = false /\
  is_private_ip (show_ip (V4 127 0 0 2)) = false.
Proof.
  rewrite !is_private_ipv4_nets by done. by vm_compute.
Defined.

Lemma is_private_ipv6_text_witness :
  is_private_ip (show_ip (V6 [0xfc; 0; 0; 0; 0; 0; 0; 1])) = true /\
  is_private_ip (show_ip (V6 [0xfe90; 0; 0; 0; 0; 0; 0; 1])) = false.
Proof. rewrite !is_private_ipv6_text by done. by vm_compute. Defined.

Lemma client_ip_authority_witness :
  client_ip [] (V4 8 8 8 8) (mkHeaders (Some (Some "10.0.0.1"%stdpp)) None) = "8.8.8.8"%stdpp /\
  client_ip [] (V4 10 1 2 3) (mkHeaders None (Some (Some "9.9.9.9, 1.1.1.1"%stdpp))) = "9.9.9.9"%stdpp.
Proof.
  split.
  - destruct (client_ip_authority [] (V4 8 8 8 8)
      (mkHeaders (Some (Some "10.0.0.1"%stdpp)) None)) as [H1 _].
    rewrite H1; [by vm_compute|]. unfold trusts_headers. intros [ Hn%elem_of_nil|Hp]; [done|by vm_compute in Hp].
  - destruct (client_ip_authority [] (V4 10 1 2 3)
      (mkHeaders None (Some (Some "9.9.9.9, 1.1.1.1"%stdpp)))) as (_ & H2 & _).
    rewrite H2; [by vm_compute|]. right. by vm_compute.
Defined.
