(* ===== verification/Server.v ===== *)
(** * The connection handler (signal/src/server.rs, [handle_connection])

    A connection after its handshake: the registration phase, the message loop
    and the cleanup, as a state machine that consumes what the WebSocket stream
    yields; and the system of all connections over the shared room table.

    The text parser [serde_json::from_str::<ClientMessage>] belongs to a
    third-party crate and is a parameter, as is the rendering of its errors. *)

From S2P Require Import Prelude RStr Mpsc Protocol Room Validate RateLimit.

Open Scope Z_scope.
Local Open Scope stdpp_scope.

(** [tungstenite::Message]; payloads the handler does not look at are left out. *)
Inductive Message :=
| Text (text : string)
| Binary
| PingFrame
| PongFrame
| CloseFrame
| RawFrame.

(** What [ws_stream_rx.next()] yields: a message, an error, or the end. *)
Abbreviation received := (option (Result Message unit)).

(** What the message loop waits for: [next()] within [IDLE_TIMEOUT], or [Err]
    when the timeout elapses first. *)
Abbreviation timed := (Result received unit).

(** Where a handler is in its code. *)
Inductive phase :=
| Registering
| Registered (code : string) (sid : Z)
| Closed.

#[export] Instance phase_eq_dec : EqDecision phase.
Proof. solve_decision. Defined.

(** The locals of a handler: [client_ip], [tx], [rate_limit]. *)
Record conn := mkConn {
  c_phase : phase;
  c_ip : string;
  c_tx : sender;
  c_rate : RateLimit;
}.

Definition set_phase (ph : phase) (c : conn) : conn := mkConn ph (c_ip c) (c_tx c) (c_rate c).
Definition set_rate (rl : RateLimit) (c : conn) : conn := mkConn (c_phase c) (c_ip c) (c_tx c) rl.

Section Server.
Context {V : Type}.
Context (from_str : string -> Result (ClientMessage V) string).

(** [let _ = tx.send(m)] *)
Definition say (c : conn) (m : ServerMessage V) (w : world V) : world V :=
  set_chans (send_ (c_tx c) m (w_chans w)) w.

(** [let _ = tx.send(ServerMessage::Error { message })] *)
Definition say_error (c : conn) (message : string) (w : world V) : world V :=
  say c (Error message) w.

(** [write_task.abort(); return;] *)
Definition hang_up (c : conn) (w : world V) : conn * world V :=
  (set_phase Closed c, set_chans (abort (c_tx c) (w_chans w)) w).

(** ** Registration *)

(** From the first accepted [register] to the message loop. *)
Definition register (c : conn) (code name : string) (ty : DeviceType)
    (url hash : option string) (w : world V) : conn * world V :=
  match validate_peer_code code with
  | Err e => hang_up c (say_error c e w)
  | Ok code =>
    let info := mkPeerInfo code name ty (c_tx c) 0 url hash in
    match add_peer (c_ip c) info w with
    | (Err e, w) => hang_up c (say_error c e w)
    | (Ok (existing, sid), w) =>
      (set_phase (Registered code sid) c, say c (Peers existing) w)
    end
  end.

(** One turn of the registration loop, at the instant [now]. *)
Definition registration_step (now : Z) (r : received) (c : conn) (w : world V) :
    conn * world V :=
  match r with
  | Some (Ok (Text text)) =>
    let '(verdict, rl) := check now (c_rate c) in
    let c := set_rate rl c in
    match verdict with
    | Err true => hang_up c w
    | Err false => (c, say_error c "rate limited" w)
    | Ok _ =>
      match validate_message_size (usize_len text) with
      | Err e => (c, say_error c e w)
      | Ok _ =>
        match from_str text with
        | Ok (Register code name ty url hash) =>
          match validate_device_name name with
          | Err e => (c, say_error c e w)
          | Ok _ => register c code name ty url hash w
          end
        | Ok _ => (c, say_error c "must send 'register' as first message" w)
        | Err e => (c, say_error c ("malformed message: " +:+ e) w)
        end
      end
    end
  | Some (Ok Binary) => (c, say_error c "binary frames not accepted" w)
  | Some (Ok PingFrame) | Some (Ok PongFrame) => (c, w)
  | Some (Ok CloseFrame) | None => hang_up c w
  | Some (Ok RawFrame) => (c, w)
  | Some (Err _) => hang_up c w
  end.

(** ** The message loop *)

(** The relay both signal forms end with. *)
Definition relay (c : conn) (code to : string) (payload : V) (target : sender)
    (w : world V) : world V :=
  let '(result, chans) := send target (Signal code payload) (w_chans w) in
  let w := set_chans chans w in
  if is_err result then say_error c ("peer '" +:+ to +:+ "' is no longer connected") w
  else w.

(** [ClientMessage::Signal] *)
Definition on_signal (c : conn) (code to : string) (payload : V) (w : world V) : world V :=
  match validate_signal_target to with
  | Err e => say_error c e w
  | Ok to =>
    match find_peer (c_ip c) to w with
    | Some target => relay c code to payload target w
    | None => say_error c ("peer '" +:+ to +:+ "' not found") w
    end
  end.

(** [ClientMessage::ManualSignal] *)
Definition on_manual_signal (c : conn) (code to : string) (payload : V) (w : world V) :
    world V :=
  match validate_signal_target to with
  | Err e => say_error c e w
  | Ok to =>
    match find_peer_manual to w with
    | Found target => relay c code to payload target w
    | Ambiguous => say_error c ("peer '" +:+ to +:+ "' is ambiguous") w
    | NotFound => say_error c ("peer '" +:+ to +:+ "' not found") w
    end
  end.

(** A message of the loop that parsed, or its parse error. *)
Definition on_message (c : conn) (code : string) (m : Result (ClientMessage V) string)
    (w : world V) : world V :=
  match m with
  | Ok (ClientSignal to payload) => on_signal c code to payload w
  | Ok (ManualSignal to payload) => on_manual_signal c code to payload w
  | Ok Ping => w
  | Ok (Register _ _ _ _ _) => say_error c "already registered" w
  | Err e => say_error c ("malformed message: " +:+ e) w
  end.

(** After the loop: [remove_peer] and [write_task.abort()]. *)
Definition cleanup (c : conn) (code : string) (sid : Z) (w : world V) : conn * world V :=
  hang_up c (remove_peer (c_ip c) code sid w).

(** One turn of the message loop. *)
Definition loop_step (now : Z) (t : timed) (c : conn) (code : string) (sid : Z)
    (w : world V) : conn * world V :=
  match t with
  | Err _ => cleanup c code sid w
  | Ok (Some (Ok (Text text))) =>
    let '(verdict, rl) := check now (c_rate c) in
    let c := set_rate rl c in
    match verdict with
    | Err true => cleanup c code sid w
    | Err false => (c, say_error c "rate limited" w)
    | Ok _ =>
      match validate_message_size (usize_len text) with
      | Err e => (c, say_error c e w)
      | Ok _ => (c, on_message c code (from_str text) w)
      end
    end
  | Ok (Some (Ok Binary)) => (c, say_error c "binary frames not accepted" w)
  | Ok (Some (Ok PingFrame)) | Ok (Some (Ok PongFrame)) => (c, w)
  | Ok (Some (Ok CloseFrame)) | Ok None => cleanup c code sid w
  | Ok (Some (Ok RawFrame)) => (c, w)
  | Ok (Some (Err _)) => cleanup c code sid w
  end.

(** The handler, wherever it is.  Registration waits without a timeout, so an
    elapsed timeout reaches only the loop. *)
Definition handle (now : Z) (t : timed) (c : conn) (w : world V) : option (conn * world V) :=
  match c_phase c, t with
  | Registering, Ok r => Some (registration_step now r c w)
  | Registering, Err _ => None
  | Registered code sid, t => Some (loop_step now t c code sid w)
  | Closed, _ => None
  end.

(** ** The system *)

(** Every connection ever accepted, under the index of its channel, over the
    shared room table. *)
Record server := mkServer {
  s_world : world V;
  s_conns : gmap nat conn;
}.

Definition boot : server := mkServer new ∅.

(** A handshake completed: the channel is created, the write task spawned and
    the limiter started. *)
Definition accepted (id : nat) (ip : string) (now : Z) (s : server) : server :=
  mkServer (set_chans (<[id := new_chan]> (w_chans (s_world s))) (s_world s))
    (<[id := mkConn Registering ip id (rl_new now)]> (s_conns s)).

(** The writer of a connection goes on. *)
Definition set_chan (id : nat) (ch : chan (ServerMessage V)) (w : world V) : world V :=
  set_chans (<[id := ch]> (w_chans w)) w.

Context (to_string : ServerMessage V -> option string).

Inductive server_step : server -> server -> Prop :=
| step_accept id ip now s :
    w_chans (s_world s) !! id = None -> server_step s (accepted id ip now s)
| step_handle id c now t c' w' s :
    s_conns s !! id = Some c -> handle now t c (s_world s) = Some (c', w') ->
    server_step s (mkServer w' (<[id := c']> (s_conns s)))
| step_write id ch ch' s :
    w_chans (s_world s) !! id = Some ch -> task_step to_string ch ch' ->
    server_step s (mkServer (set_chan id ch' (s_world s)) (s_conns s)).

(** The states after [n] steps. *)
Inductive server_reach : nat -> server -> Prop :=
| reach_boot : server_reach 0 boot
| reach_step n s s' : server_reach n s -> server_step s s' -> server_reach (S n) s'.
End Server.

Arguments server V : clear implicits.
Arguments handle {V} from_str now t c w.
