(* ===== verification/ServerExamples.v ===== *)
(** * Concrete runs of the server

    A finite text parser, and the states the system reaches on short scripts of
    events; the witnesses of the server's theorems are evaluated on them. *)

From S2P Require Import Prelude RStr Mpsc Protocol Room Validate RateLimit Server.

Open Scope Z_scope.
Local Open Scope stdpp_scope.

(** The texts the scripts send. *)
Definition from_str (text : string) : Result (ClientMessage unit) string :=
  if String.eqb text "reg-alpha" then Ok (Register "AL-PHA" "Phone" Phone None None)
  else if String.eqb text "reg-beta" then Ok (Register "BETA" "Laptop" Laptop None None)
  else if String.eqb text "reg-bad" then Ok (Register "no spaces" "Tablet" Tablet None None)
  else if String.eqb text "signal-beta" then Ok (ClientSignal "BE-TA" tt)
  else if String.eqb text "signal-gamma" then Ok (ClientSignal "GAMMA" tt)
  else if String.eqb text "ping" then Ok Ping
  else Err "expected value at line 1 column 1".

Definition to_string (m : ServerMessage unit) : option string :=
  match m with
  | Error e => Some e
  | Signal from _ => Some from
  | _ => Some EmptyString
  end.

Inductive event := Accept (ip : string) | On (id : nat) (t : timed).

Definition says (id : nat) (text : string) : event := On id (Ok (Some (Ok (Text text)))).

(** One event at the instant [now]. *)
Definition play1 (now : Z) (e : event) (s : server unit) : option (server unit) :=
  match e with
  | Accept ip =>
    let id := size (w_chans (s_world s)) in
    match w_chans (s_world s) !! id with
    | None => Some (accepted id ip now s)
    | Some _ => None
    end
  | On id t =>
    match s_conns s !! id with
    | Some c =>
      match handle from_str now t c (s_world s) with
      | Some (c', w') => Some (mkServer w' (<[id := c']> (s_conns s)))
      | None => None
      end
    | None => None
    end
  end.

Fixpoint play (now : Z) (es : list event) (s : server unit) : option (server unit) :=
  match es with
  | [] => Some s
  | e :: es => s ← play1 now e s; play (now + 1) es s
  end.

Lemma play1_step now e s s' : play1 now e s = Some s' -> server_step from_str to_string s s'.
Proof.
  destruct e as [ip|id t]; unfold play1.
  - destruct (w_chans (s_world s) !! _) as [ch|] eqn:E; [done|]. intros [= <-]. by constructor.
  - destruct (s_conns s !! id) as [c|] eqn:Ec; [|done].
    destruct (handle from_str now t c (s_world s)) as [[c' w']|] eqn:Eh; [|done].
    intros [= <-]. by eapply step_handle.
Qed.

Lemma play_reach now es n s s' :
  server_reach from_str to_string n s -> play now es s = Some s' ->
  server_reach from_str to_string (n + length es) s'.
Proof.
  revert now n s. induction es as [|e es IH]; intros now n s Hr; cbn [play length].
  - intros [= <-]. by rewrite Nat.add_0_r.
  - destruct (play1 now e s) as [s1|] eqn:E1; cbn; [|done]. intros Hp.
    rewrite Nat.add_succ_r, <-Nat.add_succ_l. eapply IH; [|done].
    by eapply reach_step, play1_step.
Qed.

(** The state a script reaches. *)
Definition after (es : list event) : server unit := default boot (play 0 es boot).

Lemma after_reach es :
  (if play 0 es boot is Some _ then true else false) = true ->
  server_reach from_str to_string (length es) (after es).
Proof.
  unfold after. destruct (play 0 es boot) as [s'|] eqn:Hs'; [|done]. intros _. cbn.
  apply (play_reach 0 es 0 boot s'); [constructor|done].
Qed.

Definition lan : string := "local".

(** Two clients of one room registered. *)
Definition two_peers : list event :=
  [Accept lan; Accept lan; says 0 "reg-alpha"; says 1 "reg-beta"].

(** A third connection takes the first one's code over. *)
Definition takeover : list event := two_peers ++ [Accept lan; says 2 "reg-alpha"].

Definition queue_of (id : nat) (s : server unit) : list (ServerMessage unit) :=
  match w_chans (s_world s) !! id with Some ch => ch_queue ch | None => [] end.

Definition phase_of (id : nat) (s : server unit) : option phase := c_phase <$> s_conns s !! id.

Definition alpha : PeerData := mkPeerData "ALPHA" "Phone" Phone None None.
Definition beta : PeerData := mkPeerData "BETA" "Laptop" Laptop None None.

Example two_peers_run :
  phase_of 0 (after two_peers) = Some (Registered "ALPHA" 1) /\
  phase_of 1 (after two_peers) = Some (Registered "BETA" 2) /\
  queue_of 0 (after two_peers) = [Peers []; PeerJoined beta] /\
  queue_of 1 (after two_peers) = [Peers [alpha]].
Proof. by vm_compute. Qed.
