(* ===== verification/ServerFacts.v ===== *)
(** * Correctness of the server

    What one event does to the shared state, the invariant of the whole system
    (every registered peer is a live connection), and what the end of a
    connection leaves behind. *)

From S2P Require Import Prelude RStr Mpsc Protocol Room RoomFacts Validate RateLimit Server.
From S2P Require Import ServerExamples.

Open Scope Z_scope.
Local Open Scope stdpp_scope.

(** ** The outcome of one event *)

Section Outcome.
Context {V : Type}.
Implicit Types w : world V.

(** The same room table, and [ms id] pushed to each channel. *)
Definition told (ms : nat -> list (ServerMessage V)) w w' : Prop :=
  w_rooms w' = w_rooms w /\ w_next w' = w_next w /\
  forall id, w_chans w' !! id = push (ms id) <$> w_chans w !! id.

(** A message that says nothing about who is in the room. *)
Definition chatter (m : ServerMessage V) : bool :=
  match m with Error _ | Signal _ _ => true | _ => false end.

Definition only (tx : nat) (m : ServerMessage V) (id : nat) : list (ServerMessage V) :=
  if decide (tx = id) then [m] else [].

Definition no_news (ms : nat -> list (ServerMessage V)) : Prop :=
  forall id, Forall (fun m => chatter m = true) (ms id).

Lemma told_nil w : told (fun _ => []) w w.
Proof. split; [done|]. split; [done|]. intros id. destruct (_ !! id); cbn; [by rewrite push_nil|done]. Qed.

Lemma told_say c m w : told (only (c_tx c) m) w (say c m w).
Proof.
  split; [done|]. split; [done|]. intros id. cbn. rewrite send__lookup. unfold only.
  case_decide; [done|]. destruct (w_chans w !! id); cbn; [by rewrite push_nil|done].
Qed.

Lemma told_trans ms ms' w w' w'' :
  told ms w w' -> told ms' w' w'' -> told (fun id => ms id ++ ms' id) w w''.
Proof.
  intros (H1 & H2 & H3) (H1' & H2' & H3'). split; [congruence|]. split; [congruence|].
  intros id. rewrite H3', H3. destruct (w_chans w !! id); cbn; [by rewrite push_push|done].
Qed.

Lemma told_send target m w chans r :
  send target m (w_chans w) = (r, chans) -> told (only target m) w (set_chans chans w).
Proof.
  intros Hs. split; [done|]. split; [done|]. intros id. cbn.
  pose proof (send__lookup target m (w_chans w) id) as Hl.
  unfold send_ in Hl. rewrite Hs in Hl. cbn in Hl. rewrite Hl. unfold only.
  case_decide; [done|]. destruct (w_chans w !! id); cbn; [by rewrite push_nil|done].
Qed.

Lemma no_news_only tx m : chatter m = true -> no_news (only tx m).
Proof. intros Hm id. unfold only. case_decide; auto with bolt. Qed.

Lemma no_news_app ms ms' : no_news ms -> no_news ms' -> no_news (fun id => ms id ++ ms' id).
Proof. intros H1 H2 id. apply Forall_app. by split. Qed.

(** Only error and signal messages, and no change of the table. *)
Definition quiet w w' : Prop := exists ms, told ms w w' /\ no_news ms.

Lemma quiet_refl w : quiet w w.
Proof. exists (fun _ => []). split; [apply told_nil|]. by intros id. Qed.

Lemma quiet_error c e w : quiet w (say_error c e w).
Proof. eexists. split; [apply told_say|by apply no_news_only]. Qed.

Lemma quiet_relay c code to payload target w : quiet w (relay c code to payload target w).
Proof.
  unfold relay. destruct (send target (Signal code payload) (w_chans w)) as [r chans] eqn:Es.
  apply told_send in Es. destruct (is_err r).
  - eexists. split; [eapply told_trans; [done|apply told_say]|].
    apply no_news_app; by apply no_news_only.
  - eexists. split; [done|]. by apply no_news_only.
Qed.

Lemma quiet_on_message c code m w : quiet w (on_message c code m w).
Proof.
  unfold on_message, on_signal, on_manual_signal.
  repeat case_match; first [apply quiet_refl|apply quiet_error|apply quiet_relay].
Qed.

(** What a connection can do, and what then becomes of it.  [peer_info] is the
    record [register] builds. *)
Definition peer_info (c : conn) (code name : string) ty url hash : PeerInfo :=
  mkPeerInfo code name ty (c_tx c) 0 url hash.

Definition closed (c : conn) (w : world V) : world V := set_chans (abort (c_tx c) (w_chans w)) w.

Inductive outcome (c : conn) (w : world V) : phase -> world V -> Prop :=
| out_quiet w' : quiet w w' -> outcome c w (c_phase c) w'
| out_refused w' :
    c_phase c = Registering -> quiet w w' -> outcome c w Closed (closed c w')
| out_full code name ty url hash e w' :
    c_phase c = Registering -> code_ok code ->
    usize_len name <= MAX_DEVICE_NAME_BYTES ->
    add_peer (c_ip c) (peer_info c code name ty url hash) w = (Err e, w') ->
    outcome c w Closed (closed c (say_error c e w'))
| out_registered code name ty url hash existing sid w' :
    c_phase c = Registering -> code_ok code ->
    usize_len name <= MAX_DEVICE_NAME_BYTES ->
    add_peer (c_ip c) (peer_info c code name ty url hash) w = (Ok (existing, sid), w') ->
    outcome c w (Registered code sid) (say c (Peers existing) w')
| out_left code sid :
    c_phase c = Registered code sid ->
    outcome c w Closed (closed c (remove_peer (c_ip c) code sid w)).

Context (from_str : string -> Result (ClientMessage V) string).

Lemma outcome_rate c rl w ph w' : outcome (set_rate rl c) w ph w' -> outcome c w ph w'.
Proof.
  destruct 1 as [w' Hq|w' Hph Hq|code name ty url hash e w' Hph Hc Hn Ha
    |code name ty url hash ex sid w' Hph Hc Hn Ha|code sid Hph].
  - exact (out_quiet c w w' Hq).
  - exact (out_refused c w w' Hph Hq).
  - exact (out_full c w code name ty url hash e w' Hph Hc Hn Ha).
  - exact (out_registered c w code name ty url hash ex sid w' Hph Hc Hn Ha).
  - exact (out_left c w code sid Hph).
Qed.

Lemma register_outcome c code name ty url hash w c' w' :
  c_phase c = Registering -> usize_len name <= MAX_DEVICE_NAME_BYTES ->
  register c code name ty url hash w = (c', w') ->
  c' = set_phase (c_phase c') c /\ outcome c w (c_phase c') w'.
Proof.
  intros Hph Hname. unfold register, hang_up.
  destruct (validate_peer_code code) as [code'|e] eqn:Ev.
  - apply peer_code_ok in Ev as [_ Hcode].
    destruct (add_peer (c_ip c) _ w) as [[[existing sid]|e] w1] eqn:Ea; intros [= <- <-];
      (split; [done|]); cbn [c_phase set_phase]; by econstructor.
  - intros [= <- <-]. split; [done|]. apply (out_refused c w (say_error c e w)); [done|].
    apply quiet_error.
Qed.

(** One event of a connection: its address, channel and room never change, and
    its effect is one of five. *)
Lemma handle_outcome now t c w c' w' :
  handle from_str now t c w = Some (c', w') ->
  c_ip c' = c_ip c /\ c_tx c' = c_tx c /\ outcome c w (c_phase c') w'.
Proof.
  assert (Hquiet : forall c1 w1, c_phase c1 = c_phase c -> c_ip c1 = c_ip c -> c_tx c1 = c_tx c ->
    quiet w w1 -> c_ip c1 = c_ip c /\ c_tx c1 = c_tx c /\ outcome c w (c_phase c1) w1).
  { intros c1 w1 -> -> -> Hq. split; [done|]. split; [done|]. by constructor. }
  unfold handle. destruct (c_phase c) as [|code sid|] eqn:Hph; [| |by destruct t].
  - destruct t as [r|]; [|done]. unfold registration_step. intros [= Heq]. revert Heq.
    destruct r as [[[text| | | | |]|]|]; cbn [hang_up set_rate];
      try (intros [= <- <-]; first
        [ apply Hquiet; done || apply quiet_refl || apply quiet_error
        | split; [done|]; split; [done|]; by apply (out_refused c w w); [|apply quiet_refl]]).
    destruct (check now (c_rate c)) as [[[]|[]] rl].
    + destruct (validate_message_size _) as [[]|e].
      * destruct (from_str text) as [[code name ty url hash| | |]|e];
          try (intros [= <- <-]; apply Hquiet; done || apply quiet_error).
        destruct (validate_device_name name) as [[]|e] eqn:En.
        -- intros Hr. apply validate_device_name_ok in En.
           apply register_outcome in Hr as [Hc' Hout]; [|done..].
           rewrite Hc'. cbn. split; [done|]. split; [done|].
           by apply (outcome_rate c rl).
        -- intros [= <- <-]. apply Hquiet; done || apply quiet_error.
      * intros [= <- <-]. apply Hquiet; done || apply quiet_error.
    + intros [= <- <-]. split; [done|]. split; [done|].
      by apply (out_refused c w w); [|apply quiet_refl].
    + intros [= <- <-]. apply Hquiet; done || apply quiet_error.
  - unfold loop_step, cleanup. intros [= Heq]. revert Heq.
    destruct t as [[[[text| | | | |]|]|]|];
      try (intros [= <- <-]; first
        [ apply Hquiet; done || apply quiet_refl || apply quiet_error
        | split; [done|]; split; [done|]; by apply (out_left c w)]).
    destruct (check now (c_rate c)) as [[[]|[]] rl].
    + destruct (validate_message_size _) as [[]|e]; intros [= <- <-];
        apply Hquiet; done || apply quiet_error || apply quiet_on_message.
    + intros [= <- <-]. split; [done|]. split; [done|]. by apply (out_left c w).
    + intros [= <- <-]. apply Hquiet; done || apply quiet_error.
Qed.
End Outcome.

(** ** The invariant of the system *)

Section System.
Context {V : Type}.
Implicit Types w : world V.

(** A peer in the table is a connection in its message loop, under its own
    code, session, room and channel. *)
Definition live_peer (conns : gmap nat conn) (ip : string) (p : PeerInfo) : Prop :=
  exists c, conns !! peer_sender p = Some c /\
    c_phase c = Registered (peer_code p) (session_id p) /\ c_ip c = ip.

Record server_inv (n : nat) (s : server V) : Prop := {
  si_table : rm_inv (s_world s);
  si_next : w_next (s_world s) <= 1 + Z.of_nat n;
  si_conns : forall id c, s_conns s !! id = Some c ->
    c_tx c = id /\ is_Some (w_chans (s_world s) !! id);
  si_live : forall ip p, p ∈ peers_at ip (s_world s) -> live_peer (s_conns s) ip p;
}.

Lemma peers_at_rooms ip w w' : w_rooms w' = w_rooms w -> peers_at ip w' = peers_at ip w.
Proof. unfold peers_at. by intros ->. Qed.

(** The same rooms and counter, and no channel lost. *)
Definition same_table w w' : Prop :=
  w_rooms w' = w_rooms w /\ w_next w' = w_next w /\
  forall id, is_Some (w_chans w !! id) -> is_Some (w_chans w' !! id).

#[local] Instance same_table_preorder : PreOrder same_table.
Proof.
  split; [done|]. intros w1 w2 w3 (? & ? & ?) (? & ? & ?). unfold same_table. naive_solver congruence.
Qed.

Lemma same_told (ms : nat -> list (ServerMessage V)) w w' : told ms w w' -> same_table w w'.
Proof. intros (? & ? & Hc). do 2 (split; [done|]). intros id. by rewrite Hc, fmap_is_Some. Qed.

Lemma same_closed c w : same_table w (closed c w).
Proof.
  do 2 (split; [done|]). intros id. cbn. unfold abort.
  destruct (decide (c_tx c = id)) as [->|Hne].
  - by rewrite lookup_alter_eq, fmap_is_Some.
  - by rewrite lookup_alter_ne.
Qed.

Lemma same_say c m w : same_table w (say c m w).
Proof. eapply same_told, told_say. Qed.

Lemma rm_inv_same w w' : same_table w w' -> rm_inv w -> rm_inv w'.
Proof. intros (Hr & Hn & _) [? ? ? ? ?]. by split; rewrite ?Hr, ?Hn. Qed.

Lemma peers_at_same ip w w' : same_table w w' -> peers_at ip w' = peers_at ip w.
Proof. intros (Hr & _). by apply peers_at_rooms. Qed.

(** The members of the rooms after an [add_peer] that succeeded. *)
Lemma add_peer_members ip peer w existing sid w' :
  rm_inv w -> add_peer ip peer w = (Ok (existing, sid), w') ->
  sid = w_next w /\
  existing = (to_peer_data <$> others (peer_code peer) (peers_at ip w)) /\
  forall ip', peers_at ip' w' =
    if decide (ip' = ip) then others (peer_code peer) (peers_at ip w) ++ [with_session peer sid]
    else peers_at ip' w.
Proof.
  intros Hw. rewrite add_peer_eq by done. cbn zeta.
  destruct (room_limit_reached _ _); [done|]. destruct (_ <=? _); [done|].
  intros [= <- <- <-]. split; [done|]. split; [done|]. intros ip'. unfold peers_at at 1. cbn.
  case_decide as Hip; [subst; by rewrite lookup_insert_eq|]. by rewrite lookup_insert_ne.
Qed.

Lemma add_peer_error ip peer w e w' :
  rm_inv w -> add_peer ip peer w = (Err e, w') -> w' = bump w.
Proof.
  intros Hw. rewrite add_peer_eq by done. cbn zeta.
  destruct (room_limit_reached _ _); [by intros [= _ <-]|].
  destruct (_ <=? _); [by intros [= _ <-]|done].
Qed.

Lemma add_peer_next ip peer w : w_next (add_peer ip peer w).2 = wrap_u64 (w_next w + 1).
Proof.
  unfold add_peer, fetch_session_id. cbn. destruct (room_limit_reached _ _); [done|].
  unfold add_peer_entry. cbn. by destruct (_ <=? _).
Qed.

Lemma add_peer_chan ip peer w id :
  is_Some (w_chans w !! id) -> is_Some (w_chans (add_peer ip peer w).2 !! id).
Proof.
  unfold add_peer, fetch_session_id, add_peer_entry. cbn.
  destruct (room_limit_reached _ _); [done|]. destruct (_ <=? _); cbn; [done|].
  intros Hid. by rewrite send_all_lookup, fmap_is_Some.
Qed.

(** The members of the rooms after a [remove_peer]. *)
Lemma remove_peer_members ip code sid w ip' p :
  rm_inv w ->
  p ∈ peers_at ip' (remove_peer ip code sid w) <->
  p ∈ peers_at ip' w /\ ~ (ip' = ip /\ peer_code p = code /\ session_id p = sid).
Proof.
  intros Hw. pose proof (ro_codes _ _ (peers_at_ok ip w Hw)) as Hnd.
  rewrite remove_peer_eq by done.
  destruct (find_code code (peers_at ip w)) as [q|] eqn:Hf.
  - pose proof Hf as [Hq Hqc]%find_code_Some.
    assert (Hsame : forall p, p ∈ peers_at ip w -> peer_code p = code -> p = q).
    { intros p0 Hp0 Hc0. apply (codes_injective (peers_at ip w)); congruence. }
    destruct (Z.eqb_spec (session_id q) sid) as [Hs|Hs].
    + cbn zeta. assert (Hat : peers_at ip' (World
        (match others code (peers_at ip w) with
         | [] => delete ip (w_rooms w)
         | _ => <[ip := others code (peers_at ip w)]> (w_rooms w)
         end) (w_next w) (send_all (peer_sender <$> others code (peers_at ip w))
           (PeerLeft code) (w_chans w))) =
        if decide (ip' = ip) then others code (peers_at ip w) else peers_at ip' w).
      { unfold peers_at at 1. cbn. case_decide as Hip.
        - subst ip'. destruct (others code (peers_at ip w)) eqn:Eo;
            [by rewrite lookup_delete_eq|by rewrite lookup_insert_eq].
        - destruct (others code (peers_at ip w)) eqn:Eo;
            [by rewrite lookup_delete_ne|by rewrite lookup_insert_ne]. }
      rewrite Hat. case_decide as Hip; [subst ip'|].
      * rewrite elem_of_others. split.
        -- intros [Hp Hc]. split; [done|]. by intros (_ & ? & _).
        -- intros [Hp Hn]. split; [done|]. intros Hc. apply Hn.
           by rewrite (Hsame p Hp Hc).
      * split; [|tauto]. intros Hp. split; [done|]. by intros (? & _).
    + split; [|tauto]. intros Hp. split; [done|]. intros (-> & Hc & Hsid).
      apply Hs. by rewrite <-(Hsame p Hp Hc).
  - split; [|tauto]. intros Hp. split; [done|]. intros (-> & Hc & _).
    apply find_code_None in Hf. apply Hf. rewrite <-Hc. by apply list_elem_of_fmap_2.
Qed.

Lemma remove_peer_chan ip code sid w id :
  is_Some (w_chans w !! id) -> is_Some (w_chans (remove_peer ip code sid w) !! id).
Proof.
  unfold remove_peer, remove_peer_entry. destruct (w_rooms w !! ip); [|done].
  destruct (_ <? _); [|done]. intros Hid.
  destruct (retain _ _); cbn;
    by rewrite <-elem_of_dom, ?send_all_dom, ?send__dom, elem_of_dom.
Qed.

Lemma remove_peer_next ip code sid w : w_next (remove_peer ip code sid w) = w_next w.
Proof.
  unfold remove_peer, remove_peer_entry. destruct (w_rooms w !! ip); [|done].
  destruct (_ <? _); [|done]. by destruct (retain _ _).
Qed.

(** Updating a connection no registered peer depends on. *)
Lemma live_other conns ip p id c :
  live_peer conns ip p -> peer_sender p <> id -> live_peer (<[id := c]> conns) ip p.
Proof. intros (c0 & ? & ?) Hne. exists c0. by rewrite lookup_insert_ne. Qed.

Lemma live_same conns ip p id c c' :
  conns !! id = Some c -> c_phase c' = c_phase c -> c_ip c' = c_ip c ->
  live_peer conns ip p -> live_peer (<[id := c']> conns) ip p.
Proof.
  intros Hc Hph Hip (c0 & Hc0 & Hph0 & Hip0). unfold live_peer.
  destruct (decide (id = peer_sender p)) as [->|Hne].
  - rewrite lookup_insert_eq. exists c'. split; [done|]. split; congruence.
  - rewrite lookup_insert_ne by done. by exists c0.
Qed.

(** A connection that is not in its loop has no peer in the table. *)
Lemma live_not_registering conns ip p id c :
  live_peer conns ip p -> conns !! id = Some c ->
  (forall code sid, c_phase c <> Registered code sid) -> peer_sender p <> id.
Proof. intros (c0 & Hc0 & Hph & _) Hc Hno <-. rewrite Hc0 in Hc. simplify_eq. by eapply Hno. Qed.

(** The clock of the session counter: fewer than 2^64 - 2 events. *)
Definition young (n : nat) : Prop := Z.of_nat n + 2 < u64_modulus.

Lemma bump_peers ip w : peers_at ip (bump w) = peers_at ip w.
Proof. done. Qed.

(** A connection's record replaced and the table changed. *)
Lemma server_inv_update n s id c w1 w' c' :
  server_inv n s -> s_conns s !! id = Some c ->
  c_tx c' = c_tx c -> same_table w1 w' -> rm_inv w1 ->
  w_next w1 <= 1 + Z.of_nat (S n) ->
  (forall i, is_Some (w_chans (s_world s) !! i) -> is_Some (w_chans w1 !! i)) ->
  (forall ip p, p ∈ peers_at ip w1 -> live_peer (<[id := c']> (s_conns s)) ip p) ->
  server_inv (S n) (mkServer w' (<[id := c']> (s_conns s))).
Proof.
  intros [_ _ Hconns _] Hc Htx Hsame Htab Hnext Hdom Hlive. split; cbn [s_world s_conns].
  - by eapply rm_inv_same.
  - destruct Hsame as (_ & -> & _). done.
  - destruct Hsame as (_ & _ & Hdom').
    intros i c0 [[<- <-]|[_ Hi]]%lookup_insert_Some.
    + destruct (Hconns id c Hc). split; [congruence|auto].
    + destruct (Hconns i c0 Hi). auto.
  - intros ip p. rewrite (peers_at_same ip w1) by done. apply Hlive.
Qed.

(** One event of connection [id] preserves the invariant. *)
Lemma outcome_inv n s id c ph w' c' :
  server_inv n s -> young n -> s_conns s !! id = Some c ->
  outcome c (s_world s) ph w' ->
  c_ip c' = c_ip c -> c_tx c' = c_tx c -> c_phase c' = ph ->
  server_inv (S n) (mkServer w' (<[id := c']> (s_conns s))).
Proof.
  intros Hinv Hyoung Hc Hout Hip Htx Hph. pose proof Hinv as [Htab Hnext Hconns Hlive].
  unfold young in Hyoung. destruct (Hconns id c Hc) as [Hid Hch].
  assert (Hok : counter_ok (s_world s)) by (unfold counter_ok; lia).
  pose proof (inv_next _ Htab) as Hpos.
  assert (Hbump : wrap_u64 (w_next (s_world s) + 1) = w_next (s_world s) + 1)
    by (apply wrap_u64_small; unfold counter_ok in Hok; lia).
  assert (Hgone : c_phase c = Registering -> forall ip p, p ∈ peers_at ip (s_world s) ->
    peer_sender p <> id).
  { intros Hr ip p Hp. eapply live_not_registering; [by apply Hlive|done|]. congruence. }
  destruct Hout as [w' (ms & Hq & _)|w' Hr (ms & Hq & _)|code name ty url hash e w' Hr Hcode Hname Ha
    |code name ty url hash ex sid w' Hr Hcode Hname Ha|code sid Hr].
  - apply (server_inv_update n s id c (s_world s)); try done; [by eapply same_told|lia|].
    intros ip p Hp. eapply live_same; eauto.
  - apply (server_inv_update n s id c (s_world s)); try done;
      [etrans; [by eapply same_told|apply same_closed]|lia|].
    intros ip p Hp. apply live_other; [by apply Hlive|eauto].
  - apply add_peer_error in Ha as ->; [|done].
    apply (server_inv_update n s id c (bump (s_world s))); try done;
      [etrans; [apply same_say|apply same_closed]|by apply bump_inv|cbn; lia|].
    intros ip p Hp. apply live_other; [by apply Hlive|eauto].
  - pose proof (add_peer_inv (c_ip c) (peer_info c code name ty url hash) _ Htab Hok) as Htab'.
    pose proof (add_peer_next (c_ip c) (peer_info c code name ty url hash) (s_world s)) as Hnext'.
    pose proof (fun i => add_peer_chan (c_ip c) (peer_info c code name ty url hash) (s_world s) i) as Hdom.
    rewrite Ha in *. cbn [snd] in *.
    apply (server_inv_update n s id c w'); try done; [apply same_say|lia|].
    apply add_peer_members in Ha as (-> & -> & Hat); [|done]. intros ip p. rewrite Hat.
    case_decide as Hip0; [subst ip|].
    + intros [[Hp _]%elem_of_others|Hp%list_elem_of_singleton]%elem_of_app.
      * apply live_other; [by apply Hlive|eauto].
      * subst p. exists c'. cbn. rewrite Hid, lookup_insert_eq. by split.
    + intros Hp. apply live_other; [by apply Hlive|eauto].
  - apply (server_inv_update n s id c (remove_peer (c_ip c) code sid (s_world s))); try done.
    + apply same_closed.
    + by apply remove_peer_inv.
    + rewrite remove_peer_next. lia.
    + intros i. apply remove_peer_chan.
    + intros ip p [Hp Hno]%remove_peer_members; [|done].
      pose proof (Hlive ip p Hp) as Hl. apply live_other; [done|]. intros <-.
      destruct Hl as (c0 & Hc0 & Hph0 & Hip0). rewrite Hc0 in Hc. simplify_eq.
      rewrite Hr in Hph0. simplify_eq. by apply Hno.
Qed.

Lemma write_inv n s id ch ch' :
  server_inv n s -> w_chans (s_world s) !! id = Some ch ->
  server_inv (S n) (mkServer (set_chan id ch' (s_world s)) (s_conns s)).
Proof.
  intros [Htab Hnext Hconns Hlive] Hch. split; cbn [s_world s_conns].
  - by destruct Htab; split.
  - cbn. lia.
  - intros i c Hc. destruct (Hconns i c Hc) as [? Hi]. split; [done|]. cbn.
    destruct (decide (id = i)) as [->|]; [by rewrite lookup_insert_eq|by rewrite lookup_insert_ne].
  - apply Hlive.
Qed.

Lemma accept_inv n s id ip now :
  server_inv n s -> w_chans (s_world s) !! id = None ->
  server_inv (S n) (accepted id ip now s).
Proof.
  intros [Htab Hnext Hconns Hlive] Hnew. split; cbn [s_world s_conns accepted].
  - by destruct Htab; split.
  - cbn. lia.
  - intros i c [[<- <-]|[Hne Hi]]%lookup_insert_Some; cbn.
    + by rewrite lookup_insert_eq.
    + rewrite lookup_insert_ne by done. by apply Hconns.
  - intros ip' p Hp. destruct (Hlive ip' p Hp) as (c & Hc & Hrest).
    apply live_other; [by exists c|]. intros Heq. destruct (Hconns _ _ Hc) as [_ Hs].
    rewrite Heq, Hnew in Hs. by destruct Hs.
Qed.

Lemma boot_inv : server_inv 0 boot.
Proof.
  split; cbn; [apply no_rooms_inv|done|done|]. intros ip p Hp. by apply elem_of_nil in Hp.
Qed.

Context (from_str : string -> Result (ClientMessage V) string).
Context (to_string : ServerMessage V -> option string).

Lemma server_step_inv n s s' :
  server_inv n s -> young n -> server_step from_str to_string s s' -> server_inv (S n) s'.
Proof.
  intros Hinv Hyoung. destruct 1 as [id ip now s Hnew|id c now t c' w' s Hc Hh|id ch ch' s Hch Ht].
  - by apply accept_inv.
  - apply handle_outcome in Hh as (Hip & Htx & Hout). by eapply outcome_inv.
  - by eapply write_inv.
Qed.

Lemma server_reach_inv n s :
  server_reach from_str to_string n s -> young n -> server_inv n s.
Proof.
  induction 1 as [|n s s' Hr IH Hs]; intros Hy; [apply boot_inv|].
  unfold young in *. eapply server_step_inv; [apply IH; lia| |done]. unfold young. lia.
Qed.

(** C9: at every moment of the server's life, whatever the clients send and
    however the write tasks are scheduled, the room table has no ghosts: every
    registered peer is a connection in its message loop, registered under
    exactly that code and session, in the room of its own address, reachable
    through its own channel; and the table is well formed. *)
Theorem no_ghost_peers n s ip p :
  server_reach from_str to_string n s -> young n ->
  p ∈ peers_at ip (s_world s) ->
  live_peer (s_conns s) ip p /\ is_Some (w_chans (s_world s) !! peer_sender p) /\
  rm_inv (s_world s).
Proof.
  intros Hr Hy Hp. destruct (server_reach_inv n s Hr Hy) as [Htab _ Hconns Hlive].
  pose proof (Hlive ip p Hp) as Hl. split; [done|]. split; [|done].
  destruct Hl as (c & Hc & _). by destruct (Hconns _ _ Hc).
Qed.

(** C10: when a connection ends, however it ends (close frame, end or error of
    the stream, idle timeout, rate limit, refused registration), no peer of it
    is left in any room and its write task has been told to stop. *)
Theorem closing_cleans_up n s id c now t c' w' :
  server_reach from_str to_string n s -> young n ->
  s_conns s !! id = Some c ->
  handle from_str now t c (s_world s) = Some (c', w') -> c_phase c' = Closed ->
  (forall ip p, p ∈ peers_at ip w' -> peer_sender p <> id) /\
  exists ch, w_chans w' !! id = Some ch /\ ch_abort ch = true.
Proof.
  intros Hr Hy Hc Hh Hcl. pose proof (server_reach_inv n s Hr Hy) as Hinv.
  assert (Hopen : c_phase c <> Closed).
  { intros Hph. unfold handle in Hh. rewrite Hph in Hh. by destruct t. }
  apply handle_outcome in Hh as (Hip & Htx & Hout).
  pose proof (outcome_inv n s id c _ w' c' Hinv Hy Hc Hout Hip Htx eq_refl)
    as [_ _ Hconns' Hlive']. cbn [s_world s_conns] in *. split.
  - intros ip p Hp. specialize (Hlive' ip p Hp).
    eapply live_not_registering; [done|apply lookup_insert_eq|]. congruence.
  - destruct (Hconns' id c' (lookup_insert_eq _ _ _)) as [Hid [ch Hch]].
    exists ch. split; [done|]. rewrite Hcl in Hout.
    assert (Hsh : exists w1, w' = closed c w1).
    { inversion Hout; subst; eauto. congruence. }
    destruct Hsh as [w1 ->]. cbn in Hch. unfold abort in Hch.
    replace id with (c_tx c) in Hch by congruence. rewrite lookup_alter_eq in Hch.
    destruct (w_chans w1 !! c_tx c); [|done]. by injection Hch as <-.
Qed.
End System.

(** ** Witnesses *)

Lemma no_ghost_peers_witness :
  live_peer (s_conns (after two_peers)) lan
    (mkPeerInfo "BETA" "Laptop" Laptop 1 2 None None).
Proof.
  apply (no_ghost_peers from_str to_string 4 (after two_peers)).
  - apply (after_reach two_peers). by vm_compute.
  - done.
  - vm_compute. right. left.
Defined.

Lemma closing_cleans_up_witness :
  exists c' w', handle from_str 9 (Err tt) (mkConn (Registered "BETA" 2) lan 1
      (mkRateLimit 49 1 0)) (s_world (after two_peers)) = Some (c', w') /\
    length (peers_at lan w') = 1%nat /\
    (forall ip p, p ∈ peers_at ip w' -> peer_sender p <> 1%nat).
Proof.
  destruct (handle from_str 9 (Err tt) (mkConn (Registered "BETA" 2) lan 1 (mkRateLimit 49 1 0))
    (s_world (after two_peers))) as [[c' w']|] eqn:Hh; [|by vm_compute in Hh].
  exists c', w'. split; [done|].
  destruct (closing_cleans_up from_str to_string 4 (after two_peers) 1 _ 9 (Err tt) c' w'
    (after_reach two_peers ltac:(by vm_compute)) ltac:(done) ltac:(by vm_compute) Hh) as [Hgone _].
  - vm_compute in Hh. by injection Hh as <- _.
  - split; [|exact Hgone]. vm_compute in Hh. by injection Hh as _ <-.
Defined.
