(* ===== verification/ClientView.v ===== *)
(** * What the clients are told

    A client knows its room only through the messages it gets: the [peers] list
    on registration, then [peer_joined] and [peer_left].  This file folds those
    messages into the client's view and shows that every event of the server
    keeps the view of every registered client equal to the membership of its
    room, and that the messages a client can cause to be delivered to others
    are its own signals. *)

From S2P Require Import Prelude RStr Mpsc Protocol Room RoomFacts RoomSpec Validate RateLimit.
From S2P Require Import Server ServerExamples ServerFacts.

Open Scope Z_scope.
Local Open Scope stdpp_scope.

(** ** Views *)

Abbreviation view := (gmap string PeerData).

Definition view_of (room : list PeerInfo) : view :=
  list_to_map ((fun p => (peer_code p, to_peer_data p)) <$> room).

(** A client with code [me] in room [ip] should see the other members. *)
Definition members {V} (ip me : string) (w : world V) : view :=
  view_of (others me (peers_at ip w)).

(** A client's bookkeeping of one server message. *)
Definition see {V} (v : view) (m : ServerMessage V) : view :=
  match m with
  | Peers ps => list_to_map ((fun p => (pd_peer_code p, p)) <$> ps)
  | PeerJoined p => <[pd_peer_code p := p]> v
  | PeerLeft code => delete code v
  | Signal _ _ | Error _ => v
  end.

Definition see_all {V} (v : view) (ms : list (ServerMessage V)) : view := foldl see v ms.

Lemma view_of_lookup room k : view_of room !! k = to_peer_data <$> find_code k room.
Proof.
  unfold view_of. induction room as [|p room IH]; [done|].
  rewrite fmap_cons. cbn [list_to_map find_code foldr uncurry].
  destruct (same_code k p) eqn:E.
  - apply elem_of_same_code in E as <-. by rewrite lookup_insert_eq.
  - rewrite lookup_insert_ne; [apply IH|]. intros <-.
    unfold same_code in E. by apply bool_decide_eq_false in E.
Qed.

Lemma members_lookup {V} ip me (w : world V) k :
  members ip me w !! k =
    if decide (k = me) then None else to_peer_data <$> find_code k (peers_at ip w).
Proof.
  unfold members. rewrite view_of_lookup, find_code_others. by case_decide.
Qed.

Lemma find_code_or code room room' :
  find_code code (room ++ room') =
    match find_code code room with Some p => Some p | None => find_code code room' end.
Proof.
  induction room as [|q room IH]; [done|]. cbn. by destruct (same_code code q).
Qed.

(** A peer added at the end of a room that did not have its code. *)
Lemma view_snoc code room peer :
  peer_code peer = code ->
  view_of (others code room ++ [peer]) = <[code := to_peer_data peer]> (view_of (others code room)).
Proof.
  intros Hc. apply map_eq. intros k. rewrite view_of_lookup, find_code_or, find_code_others. cbn.
  destruct (decide (k = code)) as [->|Hk].
  - by rewrite lookup_insert_eq, (proj2 (elem_of_same_code code peer)).
  - rewrite lookup_insert_ne, view_of_lookup, find_code_others, decide_False by done.
    destruct (find_code k room); [done|]. destruct (same_code k peer) eqn:E; [|done].
    apply elem_of_same_code in E. congruence.
Qed.

(** What another member of the room sees of that, and what the newcomer sees. *)
Lemma members_snoc {V} ip me code room peer (w : world V) :
  peer_code peer = code -> me <> code -> peers_at ip w = others code room ++ [peer] ->
  members ip me w = <[code := to_peer_data peer]> (view_of (others me room)).
Proof.
  intros Hc Hne Hat. apply map_eq. intros k.
  rewrite members_lookup, Hat, <-view_of_lookup, (view_snoc code) by done.
  destruct (decide (k = code)) as [->|Hk].
  - by rewrite !lookup_insert_eq, decide_False.
  - rewrite !lookup_insert_ne, !view_of_lookup, !find_code_others by done.
    by repeat case_decide.
Qed.

Lemma members_me {V} ip code room peer (w : world V) :
  peer_code peer = code -> peers_at ip w = others code room ++ [peer] ->
  members ip code w = view_of (others code room).
Proof.
  intros Hc Hat. apply map_eq. intros k.
  rewrite members_lookup, Hat, <-view_of_lookup, (view_snoc code) by done.
  case_decide as Hk; [subst k|by rewrite lookup_insert_ne].
  by rewrite view_of_lookup, find_code_others, decide_True.
Qed.

Lemma see_peers {V} v (room : list PeerInfo) :
  see v (Peers (to_peer_data <$> room) : ServerMessage V) = view_of room.
Proof. cbn. unfold view_of. by rewrite <-list_fmap_compose. Qed.

Lemma see_chatter {V} v (ms : list (ServerMessage V)) :
  Forall (fun m => chatter m = true) ms -> see_all v ms = v.
Proof.
  intros Hms. unfold see_all. revert v. induction Hms as [|m ms Hm Hms IH]; intros v; [done|].
  cbn. rewrite IH. by destruct m.
Qed.

(** ** Channels of distinct peers are distinct *)

Section Views.
Context {V : Type}.
Implicit Types (w : world V) (s : server V).

Lemma live_same_sender conns ip ip' p p' :
  live_peer conns ip p -> live_peer conns ip' p' -> peer_sender p = peer_sender p' ->
  ip = ip' /\ peer_code p = peer_code p' /\ session_id p = session_id p'.
Proof.
  intros (c & Hc & Hph & Hip) (c' & Hc' & Hph' & Hip') Heq. rewrite Heq in Hc.
  rewrite Hc in Hc'. simplify_eq. rewrite Hph in Hph'. simplify_eq. done.
Qed.

Lemma senders_nodup n s ip :
  server_inv n s -> NoDup (peer_sender <$> peers_at ip (s_world s)).
Proof.
  intros [Htab _ _ Hlive]. specialize (Hlive ip).
  pose proof (ro_codes _ _ (peers_at_ok ip _ Htab)) as Hnd.
  assert (Hinj : forall p q, p ∈ peers_at ip (s_world s) -> q ∈ peers_at ip (s_world s) ->
    peer_sender p = peer_sender q -> peer_code p = peer_code q).
  { intros p q Hp Hq Heq. by eapply live_same_sender; [apply Hlive|apply Hlive|]. }
  clear Hlive. induction (peers_at ip (s_world s)) as [|p room IH]; [constructor|].
  rewrite fmap_cons in *. apply NoDup_cons in Hnd as [Hp Hnd]. constructor.
  - intros (q & Heq & Hq)%list_elem_of_fmap. apply Hp. apply list_elem_of_fmap.
    exists q. split; [|done]. apply Hinj; [by left|by right|done].
  - apply IH; [done|]. intros a b Ha Hb. apply Hinj; by right.
Qed.

Lemma sender_in_others n s ip code p :
  server_inv n s -> p ∈ peers_at ip (s_world s) ->
  peer_sender p ∈ peer_sender <$> others code (peers_at ip (s_world s)) <->
  peer_code p <> code.
Proof.
  intros Hinv Hp. pose proof Hinv as [Htab _ _ Hlive]. split.
  - intros (q & Heq & [Hq Hne]%elem_of_others)%list_elem_of_fmap.
    destruct (live_same_sender _ ip ip p q (Hlive ip p Hp) (Hlive ip q Hq) Heq) as (_ & -> & _).
    done.
  - intros Hne. apply list_elem_of_fmap_2, elem_of_others. done.
Qed.

Lemma sender_elsewhere n s ip ip' code p :
  server_inv n s -> p ∈ peers_at ip (s_world s) -> ip <> ip' ->
  peer_sender p ∉ peer_sender <$> others code (peers_at ip' (s_world s)).
Proof.
  intros [_ _ _ Hlive] Hp Hne (q & Heq & [Hq _]%elem_of_others)%list_elem_of_fmap.
  by destruct (live_same_sender _ ip ip' p q (Hlive ip p Hp) (Hlive ip' q Hq) Heq).
Qed.

(** ** One event *)

(** Client [p] of room [ip], that was there before the event or not, gets
    messages that take its view to the membership after the event. *)
Definition informed w w' ip p : Prop :=
  exists ms, w_chans w' !! peer_sender p = push ms <$> w_chans w !! peer_sender p /\
    (p ∈ peers_at ip w ->
       see_all (members ip (peer_code p) w) ms = members ip (peer_code p) w') /\
    (p ∉ peers_at ip w -> forall v, see_all v ms = members ip (peer_code p) w').

Lemma informed_same w w' ip p ms :
  p ∈ peers_at ip w -> peers_at ip w' = peers_at ip w ->
  w_chans w' !! peer_sender p = push ms <$> w_chans w !! peer_sender p ->
  Forall (fun m => chatter m = true) ms -> informed w w' ip p.
Proof.
  intros Hp Hat Hch Hms. exists ms. split; [done|]. split; [|done]. intros _.
  rewrite see_chatter by done. unfold members. by rewrite Hat.
Qed.

Lemma fmap_push_nil (o : option (chan (ServerMessage V))) : o = push [] <$> o.
Proof. destruct o; cbn; [by rewrite push_nil|done]. Qed.

Lemma informed_untouched w w' ip p :
  p ∈ peers_at ip w -> peers_at ip w' = peers_at ip w ->
  w_chans w' !! peer_sender p = w_chans w !! peer_sender p -> informed w w' ip p.
Proof.
  intros Hp Hat Hch. apply (informed_same w w' ip p []); [done..| |constructor].
  rewrite Hch. apply fmap_push_nil.
Qed.

Lemma closed_other c w id : id <> c_tx c -> w_chans (closed c w) !! id = w_chans w !! id.
Proof. intros Hne. cbn. unfold abort. by rewrite lookup_alter_ne. Qed.

Lemma say_other c m w id : id <> c_tx c -> w_chans (say c m w) !! id = w_chans w !! id.
Proof. intros Hne. cbn. rewrite send__lookup. by rewrite decide_False. Qed.

Lemma informed_joined n s c code name ty url hash ex sid w' ip p :
  server_inv n s -> s_conns s !! c_tx c = Some c -> c_phase c = Registering ->
  add_peer (c_ip c) (peer_info c code name ty url hash) (s_world s) = (Ok (ex, sid), w') ->
  p ∈ peers_at ip (say c (Peers ex) w') ->
  informed (s_world s) (say c (Peers ex) w') ip p.
Proof.
  intros Hinv Hc Hr Ha Hp. pose proof Hinv as [Htab _ _ Hlive].
  pose proof (senders_nodup n s (c_ip c) Hinv) as Hsend.
  set (peer := peer_info c code name ty url hash) in *.
  assert (Hchans : forall id, w_chans w' !! id =
    if decide (id ∈ peer_sender <$> others code (peers_at (c_ip c) (s_world s)))
    then push [PeerJoined (to_peer_data peer)] <$> w_chans (s_world s) !! id
    else w_chans (s_world s) !! id).
  { intros id. rewrite add_peer_eq in Ha by done. cbn zeta in Ha.
    destruct (room_limit_reached _ _); [done|]. destruct (_ <=? _); [done|].
    injection Ha as _ _ <-. cbn [w_chans]. by apply broadcast_lookup. }
  pose proof (add_peer_members _ _ _ _ _ _ Htab Ha) as (-> & -> & Hat).
  change (peer_code peer) with code in *.
  assert (Hme : forall ip0 q, q ∈ peers_at ip0 (s_world s) -> peer_sender q <> c_tx c).
  { intros ip0 q Hq. eapply live_not_registering; [by apply Hlive|done|]. congruence. }
  change (peers_at ip (say c (Peers (to_peer_data <$> others code (peers_at (c_ip c) (s_world s)))) w'))
    with (peers_at ip w') in Hp. pose proof (Hat ip) as Hatip. rewrite Hatip in Hp.
  revert Hp. case_decide as Hip; [subst ip|]; intros Hp.
  - apply elem_of_app in Hp as [[Hp Hne]%elem_of_others|Hp%list_elem_of_singleton].
    + exists [PeerJoined (to_peer_data peer)]. split; [|split; [|done]].
      * rewrite say_other, Hchans by (by eapply Hme).
        rewrite decide_True; [done|]. by apply (sender_in_others n s).
      * intros _. cbn. symmetry.
        by apply (members_snoc (c_ip c) (peer_code p) code _ (with_session peer (w_next (s_world s)))).
    + subst p. exists [Peers (to_peer_data <$> others code (peers_at (c_ip c) (s_world s)))].
      change (peer_sender (with_session peer (w_next (s_world s)))) with (c_tx c).
      split; [|split].
      * cbn. rewrite send__lookup, decide_True, Hchans by done. rewrite decide_False; [done|].
        intros (q & Heq & [Hq _]%elem_of_others)%list_elem_of_fmap. by apply (Hme _ q Hq).
      * intros Hin. exfalso. by apply (Hme _ _ Hin).
      * intros _ v. cbn [see_all foldl]. rewrite see_peers. symmetry.
        by apply (members_me (c_ip c) code _ (with_session peer (w_next (s_world s)))).
  - apply informed_untouched; [done|by rewrite <-Hatip|].
    rewrite say_other, Hchans by (by eapply Hme). rewrite decide_False; [done|].
    by eapply sender_elsewhere.
Qed.

Lemma informed_left n s c code sid ip p :
  server_inv n s -> s_conns s !! c_tx c = Some c -> c_phase c = Registered code sid ->
  p ∈ peers_at ip (remove_peer (c_ip c) code sid (s_world s)) ->
  informed (s_world s) (closed c (remove_peer (c_ip c) code sid (s_world s))) ip p.
Proof.
  intros Hinv Hc Hr Hp. pose proof Hinv as [Htab _ _ Hlive].
  pose proof (senders_nodup n s (c_ip c) Hinv) as Hsend.
  apply remove_peer_members in Hp as [Hp Hno]; [|done].
  assert (Hne : peer_sender p <> c_tx c).
  { intros Heq. destruct (Hlive ip p Hp) as (c0 & Hc0 & Hph & Hip).
    rewrite Heq, Hc in Hc0. simplify_eq. rewrite Hr in Hph. simplify_eq. by apply Hno. }
  assert (Hcl : forall w1, informed (s_world s) w1 ip p -> informed (s_world s) (closed c w1) ip p).
  { intros w1 (ms & Hch & Hin & Hout). exists ms. by rewrite closed_other. }
  apply Hcl. rewrite remove_peer_eq by done.
  destruct (find_code code (peers_at (c_ip c) (s_world s))) as [q|] eqn:Hf;
    [|by apply informed_untouched].
  destruct (Z.eqb_spec (session_id q) sid) as [Hs|Hs]; [|by apply informed_untouched].
  cbn zeta. set (w1 := World _ _ _).
  assert (Hat : peers_at ip w1 = if decide (ip = c_ip c)
    then others code (peers_at (c_ip c) (s_world s)) else peers_at ip (s_world s)).
  { subst w1. unfold peers_at at 1. cbn. case_decide as Hip.
    - rewrite Hip. destruct (others code _) eqn:Eo; [by rewrite lookup_delete_eq|by rewrite lookup_insert_eq].
    - destruct (others code _) eqn:Eo; [by rewrite lookup_delete_ne|by rewrite lookup_insert_ne]. }
  destruct (decide (ip = c_ip c)) as [->|Hip].
  - assert (Hcode : peer_code p <> code).
    { intros Heq. apply Hno. split; [done|]. split; [done|].
      apply find_code_Some in Hf as [Hq Hqc]. rewrite <-Hs. f_equal.
      apply (codes_injective (peers_at (c_ip c) (s_world s))); [|done..|congruence].
      apply (ro_codes _ _ (peers_at_ok (c_ip c) _ Htab)). }
    exists [PeerLeft code]. split; [|split; [|done]].
    + subst w1. cbn [w_chans]. rewrite broadcast_lookup, decide_True; [done| |done].
      by apply (sender_in_others n s).
    + intros _. cbn. apply map_eq. intros k. rewrite members_lookup, Hat, find_code_others.
      destruct (decide (k = code)) as [->|Hk].
      * rewrite lookup_delete_eq. by case_decide.
      * rewrite lookup_delete_ne by done. by rewrite members_lookup.
  - apply informed_untouched; [done|done|]. subst w1. cbn [w_chans].
    apply send_all_other. by eapply sender_elsewhere.
Qed.

Lemma informed_told ms w w' ip p :
  told ms w w' -> no_news ms -> p ∈ peers_at ip w' -> informed w w' ip p.
Proof.
  intros (Hr & _ & Hch) Hno Hp.
  assert (Hat : peers_at ip w' = peers_at ip w) by (by apply peers_at_rooms).
  rewrite Hat in Hp. by apply (informed_same w w' ip p (ms (peer_sender p))).
Qed.

Lemma informed_closed c w w' ip p :
  informed w w' ip p -> peer_sender p <> c_tx c -> informed w (closed c w') ip p.
Proof. intros (ms & Hch & Hin & Hout) Hne. exists ms. by rewrite closed_other. Qed.

Context (from_str : string -> Result (ClientMessage V) string).
Context (to_string : ServerMessage V -> option string).

(** C4: the clients' views track the rooms. Let a client fold the messages it
    is sent ([peers] sets its view, [peer_joined] adds or replaces an entry,
    [peer_left] deletes one). After any event of any connection, the messages
    pushed to the channel of each registered client take its view from the
    other members of its room before the event to the other members after it;
    a client the event registers gets the right view whatever it had before.
    Code takeovers, departures and refused registrations included. *)
Theorem views_track_rooms n s id c now t c' w' ip p :
  server_reach from_str to_string n s -> young n ->
  s_conns s !! id = Some c ->
  handle from_str now t c (s_world s) = Some (c', w') ->
  p ∈ peers_at ip w' ->
  exists ms, w_chans w' !! peer_sender p = push ms <$> w_chans (s_world s) !! peer_sender p /\
    (p ∈ peers_at ip (s_world s) ->
       see_all (members ip (peer_code p) (s_world s)) ms = members ip (peer_code p) w') /\
    (p ∉ peers_at ip (s_world s) -> forall v, see_all v ms = members ip (peer_code p) w').
Proof.
  intros Hreach Hy Hc Hh Hp. fold (informed (s_world s) w' ip p).
  pose proof (server_reach_inv _ _ n s Hreach Hy) as Hinv.
  pose proof Hinv as [Htab _ Hconns Hlive]. destruct (Hconns id c Hc) as [<- _].
  apply handle_outcome in Hh as (_ & _ & Hout).
  assert (Hme : c_phase c = Registering -> forall ip q, q ∈ peers_at ip (s_world s) ->
    peer_sender q <> c_tx c).
  { intros Hr ip0 q Hq. eapply live_not_registering; [by apply Hlive|done|]. congruence. }
  destruct Hout as [w' (ms & Hq & Hno)|w' Hr (ms & Hq & Hno)|code name ty url hash e w' Hr _ _ Ha
    |code name ty url hash ex sid w' Hr _ _ Ha|code sid Hr].
  - by apply (informed_told ms).
  - assert (Hp' : p ∈ peers_at ip (s_world s)).
    { change (p ∈ peers_at ip w') in Hp.
      by rewrite (peers_at_rooms ip (s_world s)) in Hp by apply Hq. }
    apply informed_closed; [by apply (informed_told ms)|by eapply Hme].
  - apply add_peer_error in Ha as ->; [|done].
    change (p ∈ peers_at ip (s_world s)) in Hp.
    unfold say_error. apply informed_untouched; [done|done|]. rewrite closed_other, say_other by (by eapply Hme).
    done.
  - by eapply informed_joined.
  - by eapply informed_left.
Qed.

(** ** Signals *)

(** C6: A signal reaches at most one client. When a registered client sends a
    [signal], either its own channel gets one error, or exactly one channel
    gets exactly one message, the signal, marked with the sender's own
    registered code whatever the client wrote: the channel of the live
    connection registered in the sender's own room under the target code
    (hyphens removed), or nothing at all if nothing was listening there; no
    room changes. *)
Theorem signal_stays_in_room n s id c code sid to payload :
  server_reach from_str to_string n s -> young n ->
  s_conns s !! id = Some c -> c_phase c = Registered code sid ->
  let w' := on_signal c code to payload (s_world s) in
  w_rooms w' = w_rooms (s_world s) /\
  ((exists e, w' = say_error c e (s_world s)) \/
   exists p c', p ∈ peers_at (c_ip c) (s_world s) /\
     validate_signal_target to = Ok (peer_code p) /\
     s_conns s !! peer_sender p = Some c' /\ c_ip c' = c_ip c /\
     c_phase c' = Registered (peer_code p) (session_id p) /\
     forall i, w_chans w' !! i =
       if decide (i = peer_sender p)
       then push [Signal code payload] <$> w_chans (s_world s) !! i
       else w_chans (s_world s) !! i).
Proof.
  intros Hr Hy Hc Hph. cbn zeta.
  pose proof (server_reach_inv _ _ n s Hr Hy) as [Htab _ _ Hlive].
  unfold on_signal. destruct (validate_signal_target to) as [code'|e] eqn:Ev;
    [|by split; [|left; eexists]].
  unfold find_peer. destruct (w_rooms (s_world s) !! c_ip c) as [room|] eqn:Hroom; cbn;
    [|by split; [|left; eexists]].
  destruct (find_code code' room) as [p|] eqn:Hf; cbn; [|by split; [|left; eexists]].
  apply find_code_Some in Hf as [Hp <-].
  assert (Hp' : p ∈ peers_at (c_ip c) (s_world s)) by (by rewrite (peers_at_lookup _ _ _ Hroom)).
  unfold relay. destruct (send (peer_sender p) (Signal code payload) (w_chans (s_world s)))
    as [r chans] eqn:Es.
  destruct (is_err r) eqn:Er.
  - split; [done|]. left. eexists.
    assert (set_chans chans (s_world s) = s_world s) as ->; [|reflexivity].
    unfold send in Es. destruct (s_world s) as [rooms next cs]. cbn in *.
    destruct (cs !! peer_sender p) as [ch|]; [destruct (ch_rx ch)|];
      injection Es as <- <-; done.
  - split; [done|]. right. destruct (Hlive _ p Hp') as (c' & Hc' & Hph' & Hip').
    exists p, c'. do 5 (split; [done|]). intros i. cbn [w_chans set_chans].
    pose proof (send__lookup (peer_sender p) (Signal code payload) (w_chans (s_world s)) i) as Hl.
    unfold send_ in Hl. rewrite Es in Hl. cbn in Hl. rewrite Hl.
    repeat case_decide; congruence.
Qed.
End Views.

(** ** Witnesses *)

(** The third connection takes the code of the first over: the second client
    hears one [peer_joined], and its view is the room. *)
Lemma views_track_rooms_witness :
  exists c' w' ms, handle from_str 9 (Ok (Some (Ok (Text "reg-alpha"))))
      (mkConn Registering lan 2 (rl_new 4)) (s_world (after (two_peers ++ [Accept lan]))) =
    Some (c', w') /\
    w_chans w' !! 1%nat =
      push ms <$> w_chans (s_world (after (two_peers ++ [Accept lan]))) !! 1%nat /\
    see_all (members lan "BETA" (s_world (after (two_peers ++ [Accept lan])))) ms =
      members lan "BETA" w' /\
    size (members lan "BETA" w') = 1%nat.
Proof.
  set (s := after (two_peers ++ [Accept lan])).
  destruct (handle from_str 9 (Ok (Some (Ok (Text "reg-alpha"))))
    (mkConn Registering lan 2 (rl_new 4)) (s_world s)) as [[c' w']|] eqn:Hh; [|by vm_compute in Hh].
  destruct (views_track_rooms from_str to_string 5 s 2 _ 9
    (Ok (Some (Ok (Text "reg-alpha")))) c' w' lan
    (mkPeerInfo "BETA" "Laptop" Laptop 1 2 None None)
    (after_reach (two_peers ++ [Accept lan]) ltac:(by vm_compute)) ltac:(done)
    ltac:(by vm_compute) Hh) as (ms & Hch & Hold & _).
  - vm_compute in Hh. injection Hh as _ <-. vm_compute. left.
  - exists c', w', ms. split; [done|]. split; [exact Hch|]. split.
    + apply Hold. vm_compute. right. left.
    + vm_compute in Hh. by injection Hh as _ <-.
Defined.

Lemma signal_stays_in_room_witness :
  w_rooms (on_signal (mkConn (Registered "ALPHA" 1) lan 0 (mkRateLimit 49 0 0)) "ALPHA" "BE-TA" tt
    (s_world (after two_peers))) = w_rooms (s_world (after two_peers)).
Proof.
  apply (signal_stays_in_room from_str to_string 4 (after two_peers) 0 _ "ALPHA" 1 "BE-TA" tt).
  - apply (after_reach two_peers). by vm_compute.
  - done.
  - by vm_compute.
  - done.
Defined.
