(* ===== verification/ServerProps.v ===== *)
(** * Further properties of the server

    What is in the table has been validated, what an unregistered connection
    can do, and two behaviours of the teardown: a refusal can be lost, and a
    replaced connection goes on relaying. *)

From S2P Require Import Prelude RStr Mpsc Protocol Room RoomFacts Validate RateLimit Server.
From S2P Require Import ServerExamples ServerFacts.

Open Scope Z_scope.
Local Open Scope stdpp_scope.

Section Props.
Context {V : Type}.
Implicit Types (w : world V) (s : server V).

(** ** Validated data *)

Definition validated (p : PeerInfo) : Prop :=
  code_ok (peer_code p) /\ usize_len (device_name p) <= MAX_DEVICE_NAME_BYTES.

Definition table_validated w : Prop := forall ip p, p ∈ peers_at ip w -> validated p.

Lemma outcome_validated c w ph w' :
  rm_inv w -> table_validated w -> outcome c w ph w' -> table_validated w'.
Proof.
  intros Hw Hv Hout ip p. destruct Hout as [w' (ms & Hq & _)|w' Hr (ms & Hq & _)
    |code name ty url hash e w' Hr Hcode Hname Ha
    |code name ty url hash ex sid w' Hr Hcode Hname Ha|code sid Hr].
  - rewrite (peers_at_rooms ip w) by apply Hq. apply Hv.
  - change (peers_at ip (closed c w')) with (peers_at ip w').
    rewrite (peers_at_rooms ip w) by apply Hq. apply Hv.
  - apply add_peer_error in Ha as ->; [|done]. apply Hv.
  - change (peers_at ip (say c (Peers ex) w')) with (peers_at ip w').
    apply add_peer_members in Ha as (_ & _ & ->); [|done]. case_decide; [|apply Hv].
    intros [[Hp _]%elem_of_others|Hp%list_elem_of_singleton]%elem_of_app; [by eapply Hv|].
    by subst p.
  - change (peers_at ip (closed c ?w1)) with (peers_at ip w1).
    intros [Hp _]%remove_peer_members; [|done]. by eapply Hv.
Qed.

Context (from_str : string -> Result (ClientMessage V) string).
Context (to_string : ServerMessage V -> option string).

Lemma step_validated n s s' :
  server_inv n s -> table_validated (s_world s) ->
  server_step from_str to_string s s' -> table_validated (s_world s').
Proof.
  intros Hinv Hv. destruct 1 as [id ip now s Hnew|id c now t c' w' s Hc Hh|id ch ch' s Hch Ht];
    [done| |done].
  apply handle_outcome in Hh as (_ & _ & Hout). cbn [s_world].
  eapply outcome_validated; [by eapply si_table|done|done].
Qed.

Lemma reach_validated n s :
  server_reach from_str to_string n s -> young n -> table_validated (s_world s).
Proof.
  induction 1 as [|n s s' Hr IH Hs]; intros Hy.
  - intros ip p Hp. by apply elem_of_nil in Hp.
  - assert (young n) by (unfold young in *; lia).
    eapply step_validated; [by eapply server_reach_inv|by apply IH|done].
Qed.

(** C27: every peer in the table has a validated code, one to sixteen letters
    and digits in normal form, and a device name of at most 256 bytes; so the
    code it is listed under is accepted unchanged as the target of a signal. *)
Theorem registered_peers_validated n s ip p :
  server_reach from_str to_string n s -> young n -> p ∈ peers_at ip (s_world s) ->
  code_ok (peer_code p) /\ usize_len (device_name p) <= MAX_DEVICE_NAME_BYTES /\
  validate_signal_target (peer_code p) = Ok (peer_code p).
Proof.
  intros Hr Hy Hp. destruct (reach_validated n s Hr Hy ip p Hp) as [Hc Hn].
  split; [done|]. split; [done|]. apply signal_target_ok, peer_code_ok.
  split; [|done]. symmetry. by apply normalize_code, Hc.
Qed.

(** ** Before registration *)

(** Only the connection's own channel changed, by an error message at most or
    by the abort of its task. *)
Definition own_errors c w w' : Prop :=
  w_rooms w' = w_rooms w /\ forall id, id <> c_tx c -> w_chans w' !! id = w_chans w !! id.

Lemma own_refl c w : own_errors c w w.
Proof. done. Qed.

Lemma own_error c e w : own_errors c w (say_error c e w).
Proof.
  split; [done|]. intros id Hid. cbn. rewrite send__lookup. by rewrite decide_False.
Qed.

Lemma own_hang_up c w w' : own_errors c w w' -> own_errors c w (hang_up c w').2.
Proof.
  intros [Hr Hc]. split; [done|]. intros id Hid. cbn. unfold abort.
  rewrite lookup_alter_ne by done. by apply Hc.
Qed.

Lemma register_phase c code name ty url hash w c' w' :
  register c code name ty url hash w = (c', w') ->
  c_phase c' = Closed \/ exists code sid, c_phase c' = Registered code sid.
Proof.
  unfold register, hang_up. destruct (validate_peer_code code) as [code'|e].
  - destruct (add_peer (c_ip c) _ w) as [[[existing sid]|e] w1]; intros [= <- _]; cbn; eauto.
  - intros [= <- _]. by left.
Qed.

Lemma register_own c code name ty url hash w c' w' :
  rm_inv w -> register c code name ty url hash w = (c', w') -> c_phase c' = Closed ->
  own_errors c w w'.
Proof.
  intros Hw Hreg Hcl. unfold register in Hreg.
  destruct (validate_peer_code code) as [code'|e].
  - destruct (add_peer (c_ip c) _ w) as [[[existing sid]|e] w1] eqn:Ea.
    + injection Hreg as <- <-. by cbn in Hcl.
    + apply add_peer_error in Ea as ->; [|done].
      injection Hreg as _ <-. by apply (own_hang_up c w), (own_error c e (bump w)).
  - injection Hreg as _ <-. apply (own_hang_up c w), own_error.
Qed.

(** C26: until it registers, a connection can disturb nobody: whatever it sends,
    in whatever order, no room changes and no channel but its own does; only
    the event that registers it is seen by others. *)
Theorem unregistered_is_harmless n s id c now t c' w' :
  server_reach from_str to_string n s -> young n -> s_conns s !! id = Some c ->
  c_phase c = Registering -> handle from_str now t c (s_world s) = Some (c', w') ->
  (forall code sid, c_phase c' <> Registered code sid) ->
  w_rooms w' = w_rooms (s_world s) /\
  forall id', id' <> id -> w_chans w' !! id' = w_chans (s_world s) !! id'.
Proof.
  intros Hr Hy Hc Hph Hh Hno.
  destruct (server_reach_inv _ _ n s Hr Hy) as [Htab _ Hconns _].
  destruct (Hconns id c Hc) as [<- _]. change (own_errors c (s_world s) w').
  unfold handle in Hh. rewrite Hph in Hh. destruct t as [r|]; [|done].
  injection Hh as Heq. revert Heq. unfold registration_step.
  destruct r as [[[text| | | | |]|]|];
    try (intros [= <- <-]; first [apply own_refl|apply own_error|by apply (own_hang_up c (s_world s))]).
  destruct (check now (c_rate c)) as [[[]|[]] rl];
    [|intros [= <- <-]; by apply (own_hang_up c (s_world s))
     |intros [= <- <-]; apply (own_error c)].
  destruct (validate_message_size _) as [[]|e]; [|intros [= <- <-]; apply (own_error c)].
  destruct (from_str text) as [[code name ty url hash| | |]|e];
    try (intros [= <- <-]; apply (own_error c)).
  destruct (validate_device_name name) as [[]|e]; [|intros [= <- <-]; apply (own_error c)].
  intros Hreg. assert (Hcl : c_phase c' = Closed).
  { apply register_phase in Hreg as [Hcl|(code' & sid' & Hreg)]; [done|].
    by destruct (Hno code' sid'). }
  exact (register_own (set_rate rl c) _ _ _ _ _ _ _ _ Htab Hreg Hcl).
Qed.

(** ** A refusal can be lost *)

(** C37: A client whose registration is refused for its peer code is not sure to
    learn why: the handler queues the error and aborts the write task in one
    go, so the schedule in which the task forwards the error and the schedule
    in which it is cancelled first are both possible. *)
Theorem refusal_may_be_lost now c text code name ty url hash e w ch rl :
  c_phase c = Registering -> w_chans w !! c_tx c = Some ch ->
  ch_rx ch = true -> ch_queue ch = [] ->
  check now (c_rate c) = (Ok tt, rl) ->
  usize_len text <= MAX_MESSAGE_BYTES ->
  from_str text = Ok (Register code name ty url hash) ->
  usize_len name <= MAX_DEVICE_NAME_BYTES -> validate_peer_code code = Err e ->
  exists w' ch',
    handle from_str now (Ok (Some (Ok (Text text)))) c w = Some (set_phase Closed (set_rate rl c), w') /\
    w_chans w' !! c_tx c = Some ch' /\ ch_queue ch' = [Error e] /\
    (exists told, task_forward to_string ch' = Some told /\
       ch_wire told = match to_string (Error e) with
                      | Some json => ch_wire ch ++ [json] | None => ch_wire ch end) /\
    (task_step to_string ch' (task_end ch') /\ ch_wire (task_end ch') = ch_wire ch).
Proof.
  intros Hph Hch Hrx Hq Hrl Hsize Hjson Hname Hcode.
  eexists _, (Chan [Error e] true true (ch_wire ch)). split; [|split; [|split; [done|split]]].
  - unfold handle, registration_step. rewrite Hph, Hrl.
    rewrite (proj2 (validate_message_size_ok _) Hsize), Hjson.
    rewrite (proj2 (validate_device_name_ok _) Hname). unfold register. rewrite Hcode. done.
  - cbn. unfold abort. rewrite lookup_alter_eq, send__lookup, decide_True, Hch by done.
    cbn. unfold push. rewrite Hrx, Hq. done.
  - eexists. split; [done|]. done.
  - split; [by apply task_step_aborted|done].
Qed.
(** ** A replaced connection *)

(** Whether the write task of a connection has been told to stop. *)
Definition aborted w (id : nat) : option bool := ch_abort <$> w_chans w !! id.

Lemma aborted_push w w' (ms : nat -> list (ServerMessage V)) id :
  w_chans w' !! id = push (ms id) <$> w_chans w !! id -> aborted w' id = aborted w id.
Proof.
  unfold aborted. intros ->. destruct (w_chans w !! id) as [[q [] a wire]|]; done.
Qed.

Lemma aborted_told ms w w' id : told ms w w' -> aborted w' id = aborted w id.
Proof. intros (_ & _ & Hc). by eapply aborted_push. Qed.

Lemma aborted_quiet w w' id : quiet w w' -> aborted w' id = aborted w id.
Proof. intros (ms & Ht & _). by eapply aborted_told. Qed.

Lemma aborted_add_peer ip peer w id : aborted (add_peer ip peer w).2 id = aborted w id.
Proof.
  unfold add_peer, fetch_session_id, add_peer_entry. cbn.
  destruct (room_limit_reached _ _); [done|]. destruct (_ <=? _); cbn; [done|].
  eapply (aborted_push _ _ (fun _ => _)). cbn. apply send_all_lookup.
Qed.

Lemma aborted_remove_peer ip code sid w id : aborted (remove_peer ip code sid w) id = aborted w id.
Proof.
  unfold remove_peer, remove_peer_entry. destruct (w_rooms w !! ip); [|done].
  destruct (_ <? _); [|done].
  unfold aborted, remove_room. destruct (retain _ _); cbn; rewrite ?send_all_lookup, ?send__lookup;
    repeat case_match; by destruct (w_chans w !! id) as [[q [] a wire]|].
Qed.

Lemma aborted_closed c w id : id <> c_tx c -> aborted (closed c w) id = aborted w id.
Proof. intros Hid. unfold aborted, closed, abort. cbn. by rewrite lookup_alter_ne. Qed.

(** Only the end of a connection tells its own write task to stop. *)
Lemma outcome_aborted c w ph w' id :
  outcome c w ph w' -> (ph = Closed -> c_phase c <> Closed -> id <> c_tx c) ->
  aborted w' id = aborted w id.
Proof.
  intros Hout Hid. destruct Hout as [w' Hq|w' Hph Hq|code name ty url hash e w' Hph Hc Hn Ha
    |code name ty url hash ex sid w' Hph Hc Hn Ha|code sid Hph].
  - by apply aborted_quiet.
  - rewrite aborted_closed by (apply Hid; congruence). by apply aborted_quiet.
  - rewrite aborted_closed by (apply Hid; congruence).
    unfold say_error. rewrite (aborted_told _ _ _ id (told_say c (Error e) w')).
    pose proof (aborted_add_peer (c_ip c) (peer_info c code name ty url hash) w id) as Hp.
    by rewrite Ha in Hp.
  - rewrite (aborted_told _ _ _ id (told_say c (Peers ex) w')).
    pose proof (aborted_add_peer (c_ip c) (peer_info c code name ty url hash) w id) as Hp.
    by rewrite Ha in Hp.
  - rewrite aborted_closed by (apply Hid; congruence). apply aborted_remove_peer.
Qed.

Lemma open_not_aborted n s :
  server_reach from_str to_string n s -> young n ->
  forall id c, s_conns s !! id = Some c -> c_phase c <> Closed -> aborted (s_world s) id = Some false.
Proof.
  induction 1 as [|n s s' Hr IH Hs]; intros Hy id c; [by cbn; rewrite lookup_empty|].
  assert (Hyn : young n) by (unfold young in *; lia). specialize (IH Hyn).
  pose proof (server_reach_inv _ _ n s Hr Hyn) as [_ _ Hconns _].
  destruct Hs as [j ip now s Hnew|j c0 now t c1 w1 s Hc0 Hh|j ch ch' s Hch Ht]; cbn.
  - intros [[<- <-]|[Hne Hc]]%lookup_insert_Some Hph; unfold aborted; cbn; [by rewrite lookup_insert_eq|].
    rewrite lookup_insert_ne by done. by apply (IH id c).
  - pose proof (handle_outcome _ _ _ _ _ _ _ Hh) as (_ & Htx & Hout).
    pose proof (proj1 (Hconns j c0 Hc0)) as Hj.
    intros [[<- <-]|[Hne Hc]]%lookup_insert_Some Hph.
    + rewrite (outcome_aborted _ _ _ _ j Hout) by done. apply (IH j c0 Hc0).
      intros Hcl. unfold handle in Hh. by rewrite Hcl in Hh.
    + rewrite (outcome_aborted _ _ _ _ id Hout) by congruence. by apply (IH id c).
  - intros Hc Hph. specialize (IH id c Hc Hph). unfold aborted in *. cbn.
    destruct (decide (j = id)) as [->|Hne]; [|by rewrite lookup_insert_ne].
    rewrite lookup_insert_eq. rewrite Hch in IH. cbn in *. rewrite <-IH. f_equal.
    destruct Ht as [d d' Hf|d m q Hrx Hq|d Hrx Ha]; [|done..]. unfold task_forward in Hf.
    destruct (ch_rx d); [|done]. destruct (ch_queue d); [done|]. by injection Hf as <-.
Qed.

(** C38: A connection whose code was taken over is not closed by that.  In every
    reachable state, a connection that is in its message loop while its code
    belongs to another connection has a write task nobody told to stop, and a
    signal it sends within the limits to a member of the room is delivered to
    that member and to nobody else, under the code it lost: the member cannot
    tell it from the owner of the code, to whom all answers go.  The connection
    stays in its loop, and can do so again. *)
Theorem replaced_connection_still_relays n s id c code sid other now text to payload rl to' target ch :
  server_reach from_str to_string n s -> young n ->
  s_conns s !! id = Some c -> c_phase c = Registered code sid ->
  find_peer (c_ip c) code (s_world s) = Some other -> other <> id ->
  check now (c_rate c) = (Ok tt, rl) -> usize_len text <= MAX_MESSAGE_BYTES ->
  from_str text = Ok (ClientSignal to payload) -> validate_signal_target to = Ok to' ->
  find_peer (c_ip c) to' (s_world s) = Some target ->
  w_chans (s_world s) !! target = Some ch -> ch_rx ch = true ->
  aborted (s_world s) id = Some false /\
  exists w', handle from_str now (Ok (Some (Ok (Text text)))) c (s_world s) = Some (set_rate rl c, w') /\
    c_phase (set_rate rl c) = Registered code sid /\
    w_chans w' !! target = Some (push [Signal code payload] ch) /\
    (forall i, i <> target -> w_chans w' !! i = w_chans (s_world s) !! i) /\
    find_peer (c_ip c) code w' = Some other.
Proof.
  intros Hr Hy Hc Hph Hother Hne Hrl Hsize Hjson Hto Htarget Hch Hrx.
  split. { apply (open_not_aborted n s Hr Hy id c Hc). by rewrite Hph. }
  exists (relay (set_rate rl c) code to' payload target (s_world s)).
  unfold handle, loop_step. rewrite Hph, Hrl, (proj2 (validate_message_size_ok _) Hsize), Hjson. cbn.
  unfold on_signal. rewrite Hto. cbn. rewrite Htarget. split; [done|].
  unfold relay, send. rewrite Hch, Hrx. cbn. split_and!; [done|by rewrite lookup_insert_eq| |done].
  intros i Hi. by rewrite lookup_insert_ne.
Qed.
End Props.

(** ** Witnesses *)

Lemma registered_peers_validated_witness :
  validate_signal_target "ALPHA" = Ok "ALPHA".
Proof.
  apply (registered_peers_validated from_str to_string 4 (after two_peers) lan
    (mkPeerInfo "ALPHA" "Phone" Phone 0 1 None None)).
  - apply (after_reach two_peers). by vm_compute.
  - done.
  - vm_compute. left.
Defined.

Lemma unregistered_is_harmless_witness :
  exists c' w', handle from_str 9 (Ok (Some (Ok (Text "signal-beta"))))
      (mkConn Registering lan 2 (rl_new 4)) (s_world (after (two_peers ++ [Accept lan]))) =
    Some (c', w') /\
    w_chans w' !! 1%nat = w_chans (s_world (after (two_peers ++ [Accept lan]))) !! 1%nat.
Proof.
  set (s := after (two_peers ++ [Accept lan])).
  destruct (handle from_str 9 (Ok (Some (Ok (Text "signal-beta"))))
    (mkConn Registering lan 2 (rl_new 4)) (s_world s)) as [[c' w']|] eqn:Hh; [|by vm_compute in Hh].
  exists c', w'. split; [done|].
  apply (unregistered_is_harmless from_str to_string 5 s 2 _ 9
    (Ok (Some (Ok (Text "signal-beta")))) c' w'
    (after_reach (two_peers ++ [Accept lan]) ltac:(by vm_compute)) ltac:(done)
    ltac:(by vm_compute) eq_refl Hh); [|done].
  vm_compute in Hh. by injection Hh as <- _.
Defined.

Lemma refusal_may_be_lost_witness :
  exists w' ch', handle from_str 5 (Ok (Some (Ok (Text "reg-bad"))))
      (mkConn Registering lan 0 (rl_new 0)) (World ∅ 1 {[0%nat := new_chan]}) =
    Some (mkConn Closed lan 0 (mkRateLimit 49 0 0), w') /\
    w_chans w' !! 0%nat = Some ch' /\ ch_wire (task_end ch') = [].
Proof.
  destruct (refusal_may_be_lost from_str to_string 5 (mkConn Registering lan 0 (rl_new 0))
    "reg-bad" "no spaces" "Tablet" Tablet None None
    "invalid_peer_code: Peer code must contain only letters and digits (a-z, A-Z, 0-9). Hyphens are stripped automatically."
    (World ∅ 1 {[0%nat := new_chan]}) new_chan (mkRateLimit 49 0 0))
    as (w' & ch' & Hh & Hch & _ & _ & _ & Hw); try done.
  exists w', ch'. by split.
Defined.

(** The first client's code was taken over by the third connection; the first
    client signals the second. *)
Lemma replaced_connection_still_relays_witness :
  exists w', handle from_str 9 (Ok (Some (Ok (Text "signal-beta"))))
      (mkConn (Registered "ALPHA" 1) lan 0 (mkRateLimit 49 0 0)) (s_world (after takeover)) =
    Some (mkConn (Registered "ALPHA" 1) lan 0 (mkRateLimit 48 0 0), w') /\
    (exists ch, w_chans w' !! 1%nat = Some (push [Signal "ALPHA" tt] ch)) /\
    find_peer lan "ALPHA" w' = Some 2%nat.
Proof.
  assert (Hc : s_conns (after takeover) !! 0%nat =
    Some (mkConn (Registered "ALPHA" 1) lan 0 (mkRateLimit 49 0 0))) by (by vm_compute).
  assert (Hch : w_chans (s_world (after takeover)) !! 1%nat =
    Some (push [] (Chan (queue_of 1 (after takeover)) true false []))) by (by vm_compute).
  assert (Ho : find_peer lan "ALPHA" (s_world (after takeover)) = Some 2%nat) by (by vm_compute).
  assert (Ht : find_peer lan "BETA" (s_world (after takeover)) = Some 1%nat) by (by vm_compute).
  destruct (replaced_connection_still_relays from_str to_string 6 (after takeover) 0 _ "ALPHA" 1 2 9
    "signal-beta" "BE-TA" tt (mkRateLimit 48 0 0) "BETA" 1 _
    (after_reach takeover ltac:(by vm_compute)) ltac:(done) Hc eq_refl Ho ltac:(done) ltac:(by vm_compute)
    ltac:(by vm_compute) eq_refl ltac:(by vm_compute) Ht Hch eq_refl) as (_ & w' & Hh & _ & Hp & _ & Hf).
  exists w'. split; [exact Hh|]. split; [by eexists|exact Hf].
Defined.
