(* ===== verification/Ops.v ===== *)
(** * The connection handler in atomic steps

    [Server.handle] runs one event of a connection in one piece.  The handlers
    are tasks of a multi-threaded runtime that share the room table and the
    channels, and between two accesses to them another task may run.  Here the
    same handlers are programs over the accesses: each is one operation of the
    concurrent table, the session counter, a channel or a task handle, and what
    lies between is local.  Run without interference a program is the handler of
    [Server]. *)

From S2P Require Import Prelude RStr Mpsc Protocol Room RoomFacts Validate RateLimit Server.

Open Scope Z_scope.
Local Open Scope stdpp_scope.
Local Open Scope Z_scope.

Section Ops.
Context {V : Type}.
Implicit Types w : world V.

(** The accesses to shared state, by the type of their answer.  The iterator of
    [find_peer_manual] locks one room at a time: it is a listing of the rooms
    and then one read for each; a room that is gone by then reads as empty.  The
    listing ([RoomKeys]) and the count of the rooms ([CountRooms]) are one access
    each here; the concurrent map goes through its shards one after the other
    for them, so that under interference the real answer can be one that no
    single moment had.  Neither changes anything, and nothing but the theorems
    on the number of rooms and on the manual lookup depends on their answer. *)
Inductive op : Type -> Type :=
| FetchSession : op Z
| ContainsRoom (ip : string) : op bool
| CountRooms : op Z
| EnterRoom (ip : string) (peer : PeerInfo) : op (Result (list PeerData) string)
| LeaveRoom (ip code : string) (sid : Z) : op bool
| DeleteRoom (ip : string) : op unit
| FindPeer (ip code : string) : op (option sender)
| RoomKeys : op (list string)
| ReadRoom (ip : string) : op (list PeerInfo)
| SendTo (tx : sender) (m : ServerMessage V) : op (Result unit unit)
| AbortTask (tx : sender) : op unit.

Definition exec {B} (o : op B) (w : world V) : B * world V :=
  match o in op B return B * world V with
  | FetchSession => fetch_session_id w
  | ContainsRoom ip => (bool_decide (is_Some (w_rooms w !! ip)), w)
  | CountRooms => (Z.of_nat (size (w_rooms w)), w)
  | EnterRoom ip peer => add_peer_entry ip peer w
  | LeaveRoom ip code sid => remove_peer_entry ip code sid w
  | DeleteRoom ip => (tt, remove_room ip w)
  | FindPeer ip code => (find_peer ip code w, w)
  | RoomKeys => ((map_to_list (w_rooms w)).*1, w)
  | ReadRoom ip => (peers_at ip w, w)
  | SendTo tx m => let '(r, cs) := send tx m (w_chans w) in (r, set_chans cs w)
  | AbortTask tx => (tt, set_chans (abort tx (w_chans w)) w)
  end.

(** A program: a result, or an access and what to do with its answer. *)
Inductive prog (A : Type) : Type :=
| Ret (a : A)
| Call {B : Type} (o : op B) (k : B -> prog A).
Arguments Ret {A} a.
Arguments Call {A B} o k.

Fixpoint bind {A C} (p : prog A) (f : A -> prog C) : prog C :=
  match p with
  | Ret a => f a
  | Call o k => Call o (fun b => bind (k b) f)
  end.

(** A program without interference. *)
Fixpoint run {A} (p : prog A) (w : world V) : A * world V :=
  match p with
  | Ret a => (a, w)
  | Call o k => let '(b, w) := exec o w in run (k b) w
  end.

Lemma run_bind {A C} (p : prog A) (f : A -> prog C) w :
  run (bind p f) w = let '(a, w) := run p w in run (f a) w.
Proof.
  revert w. induction p as [a|B o k IH]; intros w; cbn; [done|].
  destruct (exec o w) as [b w']. apply IH.
Qed.
End Ops.

Arguments op V : clear implicits.
Arguments prog V A : clear implicits.
Arguments Ret {V A} a.
Arguments Call {V A B} o k.

Declare Scope prog_scope.
Delimit Scope prog_scope with prog.
Notation "'let!' x ':=' o 'in' p" := (Call o (fun x => p))
  (at level 10, x name, o at level 100, p at level 200) : prog_scope.
Notation "'do!' x ':=' p 'in' q" := (bind p (fun x => q))
  (at level 10, x name, p at level 100, q at level 200) : prog_scope.

Section Programs.
Context {V : Type}.
Context (from_str : string -> Result (ClientMessage V) string).
Implicit Types w : world V.
Local Open Scope prog_scope.

(** ** The room manager's methods *)

(** [RoomManager::add_peer] *)
Definition add_peer_p (ip : string) (peer : PeerInfo) :
    prog V (Result (list PeerData * Z) string) :=
  let! sid := FetchSession in
  let! there := ContainsRoom ip in
  do! full := (if there then Ret false else let! n := CountRooms in Ret (MAX_ROOMS <=? n)) in
  if full then Ret (Err room_limit_error)
  else
    let! r := EnterRoom ip (with_session peer sid) in
    Ret (match r with Ok existing => Ok (existing, sid) | Err e => Err e end).

(** [RoomManager::remove_peer] *)
Definition remove_peer_p (ip code : string) (sid : Z) : prog V unit :=
  let! should_remove_room := LeaveRoom ip code sid in
  if should_remove_room then let! _ := DeleteRoom ip in Ret tt else Ret tt.

(** [RoomManager::find_peer_manual], over the rooms the iterator visits. *)
Fixpoint manual_scan_p (code : string) (found : option sender) (rooms : list string) :
    prog V ManualPeerLookup :=
  match rooms with
  | [] => Ret (match found with Some s => Found s | None => NotFound end)
  | ip :: rooms =>
    let! room := ReadRoom ip in
    match manual_scan_room code found room with
    | None => Ret Ambiguous
    | Some found => manual_scan_p code found rooms
    end
  end.

Definition find_peer_manual_p (code : string) : prog V ManualPeerLookup :=
  let! rooms := RoomKeys in manual_scan_p code None rooms.

(** ** The handler *)

Definition say_p (c : conn) (m : ServerMessage V) : prog V unit :=
  let! _ := SendTo (c_tx c) m in Ret tt.

Definition hang_up_p (c : conn) : prog V conn :=
  let! _ := AbortTask (c_tx c) in Ret (set_phase Closed c).

(** [say_error] and on with the loop. *)
Definition complain_p (c : conn) (e : string) : prog V conn :=
  do! _ := say_p c (Error e) in Ret c.

(** [say_error] and the end of the handler. *)
Definition refuse_p (c : conn) (e : string) : prog V conn :=
  do! _ := say_p c (Error e) in hang_up_p c.

Definition register_p (c : conn) (code name : string) (ty : DeviceType)
    (url hash : option string) : prog V conn :=
  match validate_peer_code code with
  | Err e => refuse_p c e
  | Ok code =>
    do! r := add_peer_p (c_ip c) (mkPeerInfo code name ty (c_tx c) 0 url hash) in
    match r with
    | Err e => refuse_p c e
    | Ok (existing, sid) =>
      do! _ := say_p c (Peers existing) in Ret (set_phase (Registered code sid) c)
    end
  end.

Definition registration_p (now : Z) (r : received) (c : conn) : prog V conn :=
  match r with
  | Some (Ok (Text text)) =>
    let '(verdict, rl) := check now (c_rate c) in
    let c := set_rate rl c in
    match verdict with
    | Err true => hang_up_p c
    | Err false => complain_p c "rate limited"
    | Ok _ =>
      match validate_message_size (usize_len text) with
      | Err e => complain_p c e
      | Ok _ =>
        match from_str text with
        | Ok (Register code name ty url hash) =>
          match validate_device_name name with
          | Err e => complain_p c e
          | Ok _ => register_p c code name ty url hash
          end
        | Ok _ => complain_p c "must send 'register' as first message"
        | Err e => complain_p c ("malformed message: " +:+ e)
        end
      end
    end
  | Some (Ok Binary) => complain_p c "binary frames not accepted"
  | Some (Ok PingFrame) | Some (Ok PongFrame) => Ret c
  | Some (Ok CloseFrame) | None => hang_up_p c
  | Some (Ok RawFrame) => Ret c
  | Some (Err _) => hang_up_p c
  end.

Definition relay_p (c : conn) (code to : string) (payload : V) (target : sender) : prog V unit :=
  let! result := SendTo target (Signal code payload) in
  if is_err result then say_p c (Error ("peer '" +:+ to +:+ "' is no longer connected")) else Ret tt.

Definition on_signal_p (c : conn) (code to : string) (payload : V) : prog V unit :=
  match validate_signal_target to with
  | Err e => say_p c (Error e)
  | Ok to =>
    let! target := FindPeer (c_ip c) to in
    match target with
    | Some target => relay_p c code to payload target
    | None => say_p c (Error ("peer '" +:+ to +:+ "' not found"))
    end
  end.

Definition on_manual_signal_p (c : conn) (code to : string) (payload : V) : prog V unit :=
  match validate_signal_target to with
  | Err e => say_p c (Error e)
  | Ok to =>
    do! lookup := find_peer_manual_p to in
    match lookup with
    | Found target => relay_p c code to payload target
    | Ambiguous => say_p c (Error ("peer '" +:+ to +:+ "' is ambiguous"))
    | NotFound => say_p c (Error ("peer '" +:+ to +:+ "' not found"))
    end
  end.

Definition on_message_p (c : conn) (code : string) (m : Result (ClientMessage V) string) :
    prog V unit :=
  match m with
  | Ok (ClientSignal to payload) => on_signal_p c code to payload
  | Ok (ManualSignal to payload) => on_manual_signal_p c code to payload
  | Ok Ping => Ret tt
  | Ok (Register _ _ _ _ _) => say_p c (Error "already registered")
  | Err e => say_p c (Error ("malformed message: " +:+ e))
  end.

Definition cleanup_p (c : conn) (code : string) (sid : Z) : prog V conn :=
  do! _ := remove_peer_p (c_ip c) code sid in hang_up_p c.

Definition loop_p (now : Z) (t : timed) (c : conn) (code : string) (sid : Z) : prog V conn :=
  match t with
  | Err _ => cleanup_p c code sid
  | Ok (Some (Ok (Text text))) =>
    let '(verdict, rl) := check now (c_rate c) in
    let c := set_rate rl c in
    match verdict with
    | Err true => cleanup_p c code sid
    | Err false => complain_p c "rate limited"
    | Ok _ =>
      match validate_message_size (usize_len text) with
      | Err e => complain_p c e
      | Ok _ => do! _ := on_message_p c code (from_str text) in Ret c
      end
    end
  | Ok (Some (Ok Binary)) => complain_p c "binary frames not accepted"
  | Ok (Some (Ok PingFrame)) | Ok (Some (Ok PongFrame)) => Ret c
  | Ok (Some (Ok CloseFrame)) | Ok None => cleanup_p c code sid
  | Ok (Some (Ok RawFrame)) => Ret c
  | Ok (Some (Err _)) => cleanup_p c code sid
  end.

(** What the handler does with an event, wherever it is; [None] when it has no
    use for it. *)
Definition handle_p (now : Z) (t : timed) (c : conn) : option (prog V conn) :=
  match c_phase c, t with
  | Registering, Ok r => Some (registration_p now r c)
  | Registering, Err _ => None
  | Registered code sid, t => Some (loop_p now t c code sid)
  | Closed, _ => None
  end.

(** ** Alone, the programs are the handler *)

Lemma run_add_peer ip peer w : run (add_peer_p ip peer) w = add_peer ip peer w.
Proof.
  unfold add_peer_p, add_peer, room_limit_reached. cbn. rewrite run_bind.
  destruct (bool_decide (is_Some (w_rooms w !! ip))); cbn.
  - by destruct (add_peer_entry _ _ _) as [[?|?] ?].
  - destruct (MAX_ROOMS <=? Z.of_nat (size (w_rooms w))); cbn; [done|].
    by destruct (add_peer_entry _ _ _) as [[?|?] ?].
Qed.

Lemma run_remove_peer ip code sid w : run (remove_peer_p ip code sid) w = (tt, remove_peer ip code sid w).
Proof.
  unfold remove_peer_p, remove_peer. cbn.
  by destruct (remove_peer_entry ip code sid w) as [[] ?].
Qed.

Lemma run_manual_scan code found rooms w :
  run (manual_scan_p code found rooms) w =
    (manual_scan code found ((fun ip => peers_at ip w) <$> rooms), w).
Proof.
  revert found. induction rooms as [|ip rooms IH]; intros found; cbn; [done|].
  destruct (manual_scan_room code found (peers_at ip w)); [apply IH|done].
Qed.

Lemma run_find_peer_manual code w : run (find_peer_manual_p code) w = (find_peer_manual code w, w).
Proof.
  unfold find_peer_manual_p. cbn. rewrite run_manual_scan. unfold find_peer_manual. do 2 f_equal.
  rewrite <-list_fmap_compose. apply list_fmap_ext. intros i [ip room] Hi. cbn.
  apply list_elem_of_lookup_2, elem_of_map_to_list in Hi. unfold peers_at. by rewrite Hi.
Qed.

Lemma run_say c m w : run (say_p c m) w = (tt, say c m w).
Proof. unfold say_p, say, send_. cbn. by destruct (send (c_tx c) m (w_chans w)). Qed.

Lemma run_complain c e w : run (complain_p c e) w = (c, say_error c e w).
Proof. unfold complain_p. by rewrite run_bind, run_say. Qed.

Lemma run_refuse c e w : run (refuse_p c e) w = hang_up c (say_error c e w).
Proof. unfold refuse_p. by rewrite run_bind, run_say. Qed.

Lemma run_cleanup c code sid w : run (cleanup_p c code sid) w = cleanup c code sid w.
Proof. unfold cleanup_p. by rewrite run_bind, run_remove_peer. Qed.

Lemma run_register c code name ty url hash w :
  run (register_p c code name ty url hash) w = register c code name ty url hash w.
Proof.
  unfold register_p, register. destruct (validate_peer_code code) as [code'|e]; [|apply run_refuse].
  rewrite run_bind, run_add_peer.
  destruct (add_peer _ _ w) as [[[existing sid]|e] w']; [|apply run_refuse].
  by rewrite run_bind, run_say.
Qed.

Lemma run_relay c code to payload target w :
  run (relay_p c code to payload target) w = (tt, relay c code to payload target w).
Proof.
  unfold relay_p, relay. cbn. destruct (send target _ _) as [r cs]. cbn.
  destruct (is_err r); [apply run_say|done].
Qed.

Lemma run_on_message c code m w : run (on_message_p c code m) w = (tt, on_message c code m w).
Proof.
  destruct m as [[| to payload|to payload|]|e]; cbn [on_message_p on_message]; try apply run_say; [| |done].
  - unfold on_signal_p, on_signal. destruct (validate_signal_target to); [|apply run_say].
    cbn. destruct (find_peer _ _ w); [apply run_relay|apply run_say].
  - unfold on_manual_signal_p, on_manual_signal. destruct (validate_signal_target to); [|apply run_say].
    rewrite run_bind, run_find_peer_manual.
    destruct (find_peer_manual _ w); [apply run_relay|apply run_say..].
Qed.

(** Run without interference, the atomic steps of a handler do to the table,
    the channels and the connection what the handler of one piece does, on every
    event and in every phase, and take up the same events. *)
Lemma handler_alone now t c w :
  (fun p => run p w) <$> handle_p now t c = handle from_str now t c w.
Proof.
  unfold handle_p, handle. destruct (c_phase c) as [|code sid|]; [|cbn; f_equal|done].
  - destruct t as [r|]; [|done]. cbn. f_equal. unfold registration_p, registration_step.
    destruct r as [[[text| | | | |]|]|]; try done; [|apply run_complain].
    destruct (check now (c_rate c)) as [[[]|[]] rl]; [|done|apply run_complain].
    destruct (validate_message_size _); [|apply run_complain].
    destruct (from_str text) as [[code name ty url hash| | |]|e]; try apply run_complain.
    destruct (validate_device_name name); [apply run_register|apply run_complain].
  - unfold loop_p, loop_step. destruct t as [[[[text| | | | |]|]|]|]; try done;
      try apply run_cleanup; [|apply run_complain].
    destruct (check now (c_rate c)) as [[[]|[]] rl]; [|apply run_cleanup|apply run_complain].
    destruct (validate_message_size _); [|apply run_complain].
    by rewrite run_bind, run_on_message.
Qed.
End Programs.
