(* ===== verification/Interleave.v ===== *)
(** * The server as interleaved handlers

    Every connection runs its handler as a task; between two accesses of one
    handler any other may run.  A connection is idle or in the middle of an
    event, with the rest of its program.  The invariant of the whole is kept with
    a ghost state per connection, the part of the table its program owns, and a
    rule for each access in the style of a program logic: a program is safe when
    each of its accesses, from any state the others may have produced, keeps
    the invariant. *)

From S2P Require Import Prelude RStr Mpsc Protocol Room RoomFacts RoomSpec RoomConc Validate RateLimit.
From S2P Require Import Server ServerFacts Ops.

Open Scope Z_scope.

Section Interleave.
Context {V : Type}.
Context (from_str : string -> Result (ClientMessage V) string).
Context (to_string : ServerMessage V -> option string).
Implicit Types w : world V.

(** ** The system *)

(** A connection's task: waiting for an event, or with a program to finish; the
    connection is the one the event found. *)
Inductive thread := Idle (c : conn) | Busy (c : conn) (p : prog V conn).

Definition thread_conn (th : thread) : conn := match th with Idle c | Busy c _ => c end.

Record system := System { y_world : world V; y_threads : gmap nat thread }.

Definition set_thread (id : nat) (th : thread) (s : system) : system :=
  System (y_world s) (<[id := th]> (y_threads s)).

Definition sys_boot : system := System new ∅.

Definition sys_accepted (id : nat) (ip : string) (now : Z) (s : system) : system :=
  System (set_chans (<[id := new_chan]> (w_chans (y_world s))) (y_world s))
    (<[id := Idle (mkConn Registering ip id (rl_new now))]> (y_threads s)).

(** One access of a task. *)
Definition access (id : nat) (c : conn) {B} (o : op V B) (k : B -> prog V conn) (s : system) : system :=
  let '(b, w) := exec o (y_world s) in System w (<[id := Busy c (k b)]> (y_threads s)).

(** A task moves; the label is the connection whose client was heard from.  The
    end of a wait that timed out is not the client's doing. *)
Inductive sys_act : option nat -> system -> system -> Prop :=
| sys_event id c now t p s :
    y_threads s !! id = Some (Idle c) -> handle_p from_str now t c = Some p ->
    sys_act (match t with Ok _ => Some id | Err _ => None end) s (set_thread id (Busy c p) s)
| sys_access id c B (o : op V B) k s :
    y_threads s !! id = Some (Busy c (Call o k)) -> sys_act None s (access id c o k s)
| sys_return id c c' s :
    y_threads s !! id = Some (Busy c (Ret c')) -> sys_act None s (set_thread id (Idle c') s)
| sys_write id ch ch' s :
    w_chans (y_world s) !! id = Some ch -> task_step to_string ch ch' ->
    sys_act None s (System (set_chan id ch' (y_world s)) (y_threads s)).

Inductive sys_step : system -> system -> Prop :=
| sys_accept id ip now s :
    w_chans (y_world s) !! id = None -> sys_step s (sys_accepted id ip now s)
| sys_acts l s s' : sys_act l s s' -> sys_step s s'.

Inductive sys_reach : nat -> system -> Prop :=
| sys_reach_boot : sys_reach 0 sys_boot
| sys_reach_step n s s' : sys_reach n s -> sys_step s s' -> sys_reach (S n) s'.

(** ** Ghost state *)

(** What a task owns of the table: nothing; a session it fetched; the entry of a
    peer; or the duty to delete a room it emptied. *)
Inductive ghost :=
| Nothing
| Session (sid : Z)
| Entry (ip code : string) (sid : Z)
| Emptied (ip : string).

Definition ghost_sid (g : ghost) : option Z :=
  match g with Session sid | Entry _ _ sid => Some sid | _ => None end.

Implicit Types gh : gmap nat ghost.

Record inv w gh : Prop := {
  i_next : 0 < w_next w;
  i_rooms : rooms_ok (w_next w) (w_rooms w);
  i_entries : forall ip p, p ∈ peers_at ip w ->
    gh !! peer_sender p = Some (Entry ip (peer_code p) (session_id p));
  i_sids : forall id g sid, gh !! id = Some g -> ghost_sid g = Some sid -> 0 < sid < w_next w;
  i_distinct : forall id id' g g' sid, gh !! id = Some g -> gh !! id' = Some g' ->
    ghost_sid g = Some sid -> ghost_sid g' = Some sid -> id = id';
  i_emptied : forall ip, w_rooms w !! ip = Some [] -> exists id, gh !! id = Some (Emptied ip);
  i_chans : forall id, is_Some (gh !! id) -> is_Some (w_chans w !! id);
}.

Lemma peers_at_room_ok ip w gh : inv w gh -> room_ok (w_next w) (peers_at ip w).
Proof. intros Hi. apply default_room_ok, (i_rooms w gh Hi). Qed.

(** A peer is found by its session, and by its channel. *)
Lemma same_sender_same w gh ip ip' p p' :
  inv w gh -> p ∈ peers_at ip w -> p' ∈ peers_at ip' w ->
  peer_sender p = peer_sender p' -> ip = ip' /\ p = p'.
Proof.
  intros Hi Hp Hp' Heq. pose proof (i_entries _ _ Hi ip p Hp) as Hg.
  pose proof (i_entries _ _ Hi ip' p' Hp') as Hg'. rewrite Heq, Hg' in Hg.
  injection Hg as -> Hcode _. split; [done|].
  apply (codes_injective (peers_at ip w)); try done. apply (ro_codes _ _ (peers_at_room_ok ip w gh Hi)).
Qed.

Lemma inv_sessions_unique w gh : inv w gh -> sessions_unique (w_rooms w).
Proof.
  intros Hi ip ip' room room' p p' Hr Hr' Hp Hp' Heq.
  assert (Hat : p ∈ peers_at ip w) by (unfold peers_at; by rewrite Hr).
  assert (Hat' : p' ∈ peers_at ip' w) by (unfold peers_at; by rewrite Hr').
  apply (same_sender_same w gh); [done..|].
  eapply (i_distinct _ _ Hi); [by apply (i_entries _ _ Hi ip)|by apply (i_entries _ _ Hi ip')|done|].
  cbn. by rewrite Heq.
Qed.

(** The table and the counter are untouched, and no channel is lost. *)
Lemma inv_same w w' gh : same_table w w' -> inv w gh -> inv w' gh.
Proof.
  intros (Hr & Hn & Hd) [H1 H2 H3 H4 H5 H6 H7]. split; rewrite ?Hr, ?Hn; try done.
  - intros ip p Hp. apply H3. unfold peers_at in *. by rewrite <-Hr.
  - intros id Hid. by apply Hd, H7.
Qed.

(** The accesses that only look at the table or use a channel. *)
Definition calm {B} (o : op V B) : bool :=
  match o with FetchSession | EnterRoom _ _ | LeaveRoom _ _ _ | DeleteRoom _ => false | _ => true end.

Lemma calm_same {B} (o : op V B) w : calm o = true -> same_table w (exec o w).2.
Proof.
  destruct o; try done; intros _; cbn.
  - destruct (send tx m (w_chans w)) as [r cs] eqn:Hs. cbn. split_and!; [done..|]. intros i Hi. cbn.
    replace cs with (send_ tx m (w_chans w)) by (unfold send_; by rewrite Hs).
    by rewrite <-elem_of_dom, send__dom, elem_of_dom.
  - split_and!; [done..|]. intros i Hi. cbn. unfold abort. rewrite lookup_alter.
    case_decide; subst; [by rewrite fmap_is_Some|done].
Qed.

(** ** Safe programs *)

Fixpoint safe {A} (id : nat) (p : prog V A) (g : ghost) (Q : A -> ghost -> Prop) : Prop :=
  match p with
  | Ret a => Q a g
  | Call o k => forall w gh, inv w gh -> gh !! id = Some g -> counter_ok w ->
      exists g', inv (exec o w).2 (<[id := g']> gh) /\ safe id (k (exec o w).1) g' Q
  end.

Lemma safe_mono {A} id (p : prog V A) g (Q Q' : A -> ghost -> Prop) :
  safe id p g Q -> (forall a g', Q a g' -> Q' a g') -> safe id p g Q'.
Proof.
  intros Hp HQ. revert g Hp. induction p as [a|B o k IH]; intros g Hp; cbn in *; [by apply HQ|].
  intros w gh Hi Hg Hc. destruct (Hp w gh Hi Hg Hc) as (g' & Hi' & Hk). exists g'. auto.
Qed.

Lemma safe_bind {A C} id (p : prog V A) (f : A -> prog V C) g (Q : A -> ghost -> Prop) R :
  safe id p g Q -> (forall a g', Q a g' -> safe id (f a) g' R) -> safe id (bind p f) g R.
Proof.
  intros Hp Hf. revert g Hp. induction p as [a|B o k IH]; intros g Hp; cbn in *; [by apply Hf|].
  intros w gh Hi Hg Hc. destruct (Hp w gh Hi Hg Hc) as (g' & Hi' & Hk). exists g'. auto.
Qed.

Lemma safe_calm {A B} id (o : op V B) (k : B -> prog V A) g Q :
  calm o = true -> (forall b, safe id (k b) g Q) -> safe id (Call o k) g Q.
Proof.
  intros Hcalm Hk w gh Hi Hg _. exists g. rewrite insert_id by done.
  split; [|apply Hk]. by apply (inv_same w), Hi; apply calm_same.
Qed.

Lemma safe_fetch {A} id (k : Z -> prog V A) Q :
  (forall sid, safe id (k sid) (Session sid) Q) -> safe id (Call FetchSession k) Nothing Q.
Proof.
  intros Hk w gh Hi Hg Hc. exists (Session (w_next w)). split; [|apply Hk]. cbn.
  destruct Hi as [H1 H2 H3 H4 H5 H6 H7]. unfold counter_ok in Hc.
  assert (Hother : forall i g sid, <[id := Session (w_next w)]> gh !! i = Some g -> ghost_sid g = Some sid ->
    i = id /\ sid = w_next w \/ i <> id /\ gh !! i = Some g /\ 0 < sid < w_next w).
  { intros i g sid [[<- <-]|[Hne Hl]]%lookup_insert_Some Hs; [left; by injection Hs|right].
    split_and!; [done|done|by eapply H4..]. }
  split; cbn; rewrite ?wrap_u64_small by lia; [lia| |..].
  - intros ip room Hroom. apply (room_ok_mono (w_next w)); [lia|by apply (H2 ip)].
  - intros ip p Hp. rewrite lookup_insert_ne; [by apply H3|]. intros ->.
    rewrite (H3 ip p Hp) in Hg. done.
  - intros i g sid Hl Hs. destruct (Hother i g sid Hl Hs) as [[_ ->]|(_ & _ & ?)]; lia.
  - intros i i' g g' sid Hl Hl' Hs Hs'.
    destruct (Hother i g sid Hl Hs) as [[-> ->]|(_ & Hi & ?)],
      (Hother i' g' _ Hl' Hs') as [[-> ?]|(_ & Hi' & ?)]; [done|lia..|]. by eapply H5.
  - intros ip Hip. destruct (H6 ip Hip) as [i Hi]. exists i. rewrite lookup_insert_ne; [done|].
    intros <-. rewrite Hi in Hg. done.
  - intros i [[= <-]|[_ Hl]]%lookup_insert_is_Some; [by apply H7; exists Nothing|by apply H7].
Qed.
(** An access that changed the table and moved the task's ghost on: the session
    it holds is the one it had or none. *)
Lemma inv_update w w' gh id g g' :
  inv w gh -> gh !! id = Some g ->
  w_next w' = w_next w -> rooms_ok (w_next w) (w_rooms w') ->
  (forall i, is_Some (w_chans w !! i) -> is_Some (w_chans w' !! i)) ->
  (ghost_sid g' = None \/ ghost_sid g' = ghost_sid g) ->
  (forall ip p, p ∈ peers_at ip w' ->
     <[id := g']> gh !! peer_sender p = Some (Entry ip (peer_code p) (session_id p))) ->
  (forall ip, w_rooms w' !! ip = Some [] -> exists i, <[id := g']> gh !! i = Some (Emptied ip)) ->
  inv w' (<[id := g']> gh).
Proof.
  intros [H1 H2 H3 H4 H5 H6 H7] Hg Hn Hr Hch Hsid He Hem.
  assert (Hold : forall i h sid, <[id := g']> gh !! i = Some h -> ghost_sid h = Some sid ->
    exists h', gh !! i = Some h' /\ ghost_sid h' = Some sid).
  { intros i h sid [[<- <-]|[_ Hl]]%lookup_insert_Some Hs; [|by exists h].
    destruct Hsid as [Hsid|Hsid]; [congruence|]. exists g. split; [done|congruence]. }
  split; rewrite ?Hn; try done.
  - intros i h sid Hl Hs. destruct (Hold i h sid Hl Hs) as (h' & ? & ?). by eapply H4.
  - intros i i' h h' sid Hl Hl' Hs Hs'.
    destruct (Hold i h sid Hl Hs) as (? & ? & ?), (Hold i' h' sid Hl' Hs') as (? & ? & ?). by eapply H5.
  - intros i [<-|[_ Hl]]%lookup_insert_is_Some; apply Hch, H7; [by exists g|done].
Qed.

(** A task whose ghost owns no entry has no peer in the table. *)
Lemma no_entry w gh id g ip p :
  inv w gh -> gh !! id = Some g -> (forall ip' c sid, g <> Entry ip' c sid) ->
  p ∈ peers_at ip w -> peer_sender p <> id.
Proof. intros Hi Hg Hno Hp <-. rewrite (i_entries _ _ Hi ip p Hp) in Hg. injection Hg as <-. by eapply Hno. Qed.

Lemma enter_eq ip peer w n :
  room_ok n (peers_at ip w) ->
  let room := others (peer_code peer) (peers_at ip w) in
  add_peer_entry ip peer w =
    if MAX_PEERS_PER_ROOM <=? vec_len room
    then (Err room_full_error, set_rooms (<[ip := room]> (w_rooms w)) w)
    else (Ok (to_peer_data <$> room),
          World (<[ip := room ++ [peer]]> (w_rooms w)) (w_next w)
            (send_all (peer_sender <$> room) (PeerJoined (to_peer_data peer)) (w_chans w))).
Proof.
  intros Hok. cbn zeta. unfold add_peer_entry. fold (peers_at ip w).
  by rewrite replace_stale_retain by apply (ro_codes _ _ Hok).
Qed.

Lemma peers_insert ip ip' room w :
  default [] (<[ip := room]> (w_rooms w) !! ip') = if decide (ip' = ip) then room else peers_at ip' w.
Proof.
  case_decide as Hip; [subst; by rewrite lookup_insert_eq|by rewrite lookup_insert_ne].
Qed.

Lemma safe_enter {A} id ip peer sid (k : _ -> prog V A) Q :
  peer_sender peer = id -> session_id peer = sid ->
  (forall existing, safe id (k (Ok existing)) (Entry ip (peer_code peer) sid) Q) ->
  safe id (k (Err room_full_error)) Nothing Q ->
  safe id (Call (EnterRoom ip peer) k) (Session sid) Q.
Proof.
  intros Htx Hsid Hok Herr w gh Hi Hg _. cbn.
  pose proof (peers_at_room_ok ip w gh Hi) as Hroom.
  pose proof (enter_eq ip peer w _ Hroom) as Heq. cbn zeta in Heq.
  assert (Hfree : forall ip' p, p ∈ peers_at ip' w -> id <> peer_sender p).
  { intros ip' p Hp Heq'. by apply (no_entry w gh id (Session sid) ip' p). }
  pose proof (add_entry_facts ip peer w (i_rooms _ _ Hi) (inv_sessions_unique _ _ Hi)) as Hf.
  rewrite Hsid in Hf. destruct Hf as (Hn & Hr & _); [by eapply (i_sids _ _ Hi)| |].
  { intros ip' room q Hq Hin Hs. apply (Hfree ip' q); [unfold peers_at; by rewrite Hq|symmetry].
    eapply (i_distinct _ _ Hi); [apply (i_entries _ _ Hi ip'); unfold peers_at; by rewrite Hq|done|done|].
    cbn. by rewrite Hs. }
  rewrite Heq in *. destruct (Z.leb_spec MAX_PEERS_PER_ROOM
    (vec_len (others (peer_code peer) (peers_at ip w)))) as [Hfull|_]; cbn [fst snd] in *.
  - exists Nothing. split; [|done].
    eapply (inv_update w); try done; [by left| |].
    + intros ip' p. unfold peers_at at 1. cbn. rewrite peers_insert. intros Hp.
      assert (Hp' : p ∈ peers_at ip' w).
      { case_decide; [subst; by apply elem_of_others in Hp as [? _]|done]. }
      rewrite lookup_insert_ne by (by eapply Hfree). by apply (i_entries _ _ Hi).
    + intros ip'. cbn. intros [[<- Hnil]|[_ He]]%lookup_insert_Some.
      { by rewrite Hnil in Hfull. }
      destruct (i_emptied _ _ Hi ip' He) as [i Hem]. exists i.
      rewrite lookup_insert_ne; [done|]. intros <-. by rewrite Hem in Hg.
  - exists (Entry ip (peer_code peer) sid). split; [|done].
    eapply (inv_update w); try done; [|by right| |].
    + intros i Hsome. cbn. by rewrite <-elem_of_dom, send_all_dom, elem_of_dom.
    + intros ip' p. unfold peers_at at 1. cbn. rewrite peers_insert. intros Hp.
      assert (Hp' : p ∈ peers_at ip' w \/ ip' = ip /\ p = peer).
      { case_decide; [subst|by left].
        apply elem_of_app in Hp as [[? _]%elem_of_others| ->%list_elem_of_singleton]; auto. }
      destruct Hp' as [Hp'|[-> ->]]; [|by rewrite Htx, lookup_insert_eq, Hsid].
      rewrite lookup_insert_ne by (by eapply Hfree). by apply (i_entries _ _ Hi).
    + intros ip'. cbn. intros [[<- Hnil]|[_ He]]%lookup_insert_Some; [by apply app_nil in Hnil as [_ ?]|].
      destruct (i_emptied _ _ Hi ip' He) as [i Hem]. exists i.
      rewrite lookup_insert_ne; [done|]. intros <-. by rewrite Hem in Hg.
Qed.

(** What leaving a room does to the peers, and when it empties one. *)
Lemma leave_facts ip code sid w :
  let '(b, w') := remove_peer_entry ip code sid w in
  (forall ip' p, p ∈ peers_at ip' w' <->
     p ∈ peers_at ip' w /\ ~ (ip' = ip /\ peer_code p = code /\ session_id p = sid)) /\
  (forall ip', w_rooms w' !! ip' = Some [] -> b = true /\ ip' = ip \/ w_rooms w !! ip' = Some []) /\
  (forall i, is_Some (w_chans w !! i) -> is_Some (w_chans w' !! i)).
Proof.
  assert (His : forall p, is_session code sid p = true <-> peer_code p = code /\ session_id p = sid).
  { intros p. unfold is_session. rewrite andb_true_iff, elem_of_same_code, Z.eqb_eq. done. }
  unfold remove_peer_entry. destruct (w_rooms w !! ip) as [room|] eqn:E.
  2:{ split_and!; [|by right|done]. intros ip' p. split; [|tauto]. intros Hp. split; [done|].
      intros [-> _]. unfold peers_at in Hp. rewrite E in Hp. by apply elem_of_nil in Hp. }
  pose proof (retain_length_lt (fun p => negb (is_session code sid p)) room) as Hlt.
  unfold vec_len. destruct (Z.ltb_spec (Z.of_nat (length (retain (fun p => negb (is_session code sid p)) room)))
    (Z.of_nat (length room))) as [Hl|Hl].
  - split_and!; cbn.
    + intros ip' p. unfold peers_at at 1. cbn. rewrite peers_insert. case_decide as Hip.
      * subst ip'. unfold peers_at. rewrite E. cbn. rewrite elem_of_retain.
        pose proof (His p) as Hp. destruct (is_session code sid p); cbn; naive_solver.
      * naive_solver.
    + intros ip'. cbn. intros [[<- Hnil]|[_ He]]%lookup_insert_Some; [left|by right]. by rewrite Hnil.
    + intros i Hi. by rewrite <-elem_of_dom, send_all_dom, elem_of_dom.
  - split_and!; [|by right|done]. intros ip' p. split; [|tauto]. intros Hp. split; [done|].
    intros (-> & Hp'). unfold peers_at in Hp. rewrite E in Hp. cbn in Hp.
    assert (length (retain (fun p => negb (is_session code sid p)) room) < length room)%nat; [|lia].
    apply Hlt. exists p. split; [done|]. by rewrite (proj2 (His p) Hp').
Qed.

Lemma safe_leave {A} id ip code sid (k : _ -> prog V A) Q :
  safe id (k true) (Emptied ip) Q -> safe id (k false) Nothing Q ->
  safe id (Call (LeaveRoom ip code sid) k) (Entry ip code sid) Q.
Proof.
  intros Htrue Hfalse w gh Hi Hg _. cbn.
  pose proof (remove_entry_facts ip code sid w (i_rooms _ _ Hi) (inv_sessions_unique _ _ Hi)) as (Hn & Hr & _).
  pose proof (leave_facts ip code sid w) as Hl.
  destruct (remove_peer_entry ip code sid w) as [b w']. cbn in *. destruct Hl as (Hp & He & Hch).
  exists (if b then Emptied ip else Nothing). split; [|by destruct b].
  eapply (inv_update w); try done; [by left; destruct b| |].
  - intros ip' p [Hin Hno]%Hp. rewrite lookup_insert_ne; [by apply (i_entries _ _ Hi)|].
    intros Heq. rewrite Heq, (i_entries _ _ Hi ip' p Hin) in Hg. injection Hg as ? ? ?. by apply Hno.
  - intros ip' [[-> ->]|Hem]%He; [exists id; by rewrite lookup_insert_eq|].
    destruct (i_emptied _ _ Hi ip' Hem) as [i Hem']. exists i.
    rewrite lookup_insert_ne; [done|]. intros <-. by rewrite Hem' in Hg.
Qed.

Lemma safe_delete {A} id ip (k : unit -> prog V A) Q :
  safe id (k tt) Nothing Q -> safe id (Call (DeleteRoom ip) k) (Emptied ip) Q.
Proof.
  intros Hk w gh Hi Hg _. cbn. exists Nothing. split; [|done].
  eapply (inv_update w); try done; [|by left| |].
  - intros ip' room. cbn. intros [_ Hroom]%lookup_delete_Some. by apply (i_rooms _ _ Hi ip').
  - intros ip' p Hp. assert (Hp' : p ∈ peers_at ip' w).
    { unfold peers_at in *. cbn in Hp. destruct (decide (ip = ip')) as [->|Hne].
      - rewrite lookup_delete_eq in Hp. by apply elem_of_nil in Hp.
      - by rewrite lookup_delete_ne in Hp. }
    rewrite lookup_insert_ne; [by apply (i_entries _ _ Hi)|].
    intros ->. by rewrite (i_entries _ _ Hi ip' p Hp') in Hg.
  - intros ip'. cbn. intros [Hne Hem]%lookup_delete_Some. destruct (i_emptied _ _ Hi ip' Hem) as [i Hi'].
    exists i. rewrite lookup_insert_ne; [done|]. intros <-. rewrite Hi' in Hg. congruence.
Qed.

(** ** The handler's programs are safe *)

(** Nothing in the table is this task's. *)
Definition spent (g : ghost) : bool := match g with Nothing | Session _ => true | _ => false end.

(** The limiter of a connection still served, which is below the threshold, and
    of one that may be about to be closed. *)
Definition rate_within (most : Z) (rl : RateLimit) : Prop :=
  0 <= remaining rl <= RATE_LIMIT_PER_SECOND /\ 0 <= consecutive_violations rl <= most.

Definition strict : RateLimit -> Prop := rate_within (RATE_LIMIT_CLOSE_THRESHOLD - 1).
Definition loose : RateLimit -> Prop := rate_within RATE_LIMIT_CLOSE_THRESHOLD.

Lemma strict_loose rl : strict rl -> loose rl.
Proof. intros [? ?]. split; [done|lia]. Qed.

Lemma check_strict now rl v rl' :
  strict rl -> check now rl = (v, rl') -> match v with Err true => loose rl' | _ => strict rl' end.
Proof.
  intros [Hr Hv]. unfold check. intros Hc.
  assert (Hf : strict (refill now rl)).
  { unfold refill. destruct (one_second <=? duration_since now (window_start rl)); [|by split].
    split; cbn; [unfold RATE_LIMIT_PER_SECOND; lia|done]. }
  destruct Hf as [Hr' Hv'].
  unfold strict, loose, rate_within, RATE_LIMIT_CLOSE_THRESHOLD, RATE_LIMIT_PER_SECOND in *.
  destruct (Z.ltb_spec 0 (remaining (refill now rl))).
  - injection Hc as <- <-. cbn. lia.
  - unfold wrap_u32 in Hc. rewrite Z.mod_small in Hc by (unfold u32_modulus; lia). injection Hc as <- <-.
    destruct (Z.leb_spec 3 (consecutive_violations (refill now rl) + 1)); cbn; lia.
Qed.

(** What a connection between two events owns. *)
Definition owns (c : conn) (g : ghost) : Prop :=
  match c_phase c with
  | Registering => g = Nothing
  | Registered code sid => g = Entry (c_ip c) code sid
  | Closed => spent g = true
  end /\
  match c_phase c with Closed => loose (c_rate c) | _ => strict (c_rate c) end.

(** What a handler leaves of connection [c]. *)
Definition leaves (c c' : conn) (g : ghost) : Prop :=
  c_tx c' = c_tx c /\ c_ip c' = c_ip c /\ owns c' g.

Lemma safe_say {A} id c m (f : unit -> prog V A) g Q :
  safe id (f tt) g Q -> safe id (bind (say_p c m) f) g Q.
Proof. intros Hf. apply (safe_bind _ _ _ _ (fun _ g' => g' = g)); [by apply safe_calm|]. by intros [] ? ->. Qed.

Lemma safe_say' id c m g : safe id (say_p c m) g (fun _ g' => g' = g).
Proof. by apply safe_calm. Qed.

Lemma safe_hang_up id c g : spent g = true -> loose (c_rate c) -> safe id (hang_up_p c) g (leaves c).
Proof. intros Hg Hr. by apply safe_calm. Qed.

Lemma safe_complain id c e g : owns c g -> safe id (complain_p c e) g (leaves c).
Proof. intros Hg. by apply safe_say. Qed.

Lemma safe_refuse id c e g :
  spent g = true -> loose (c_rate c) -> safe id (refuse_p c e) g (leaves c).
Proof. intros Hg Hr. by apply safe_say, safe_hang_up. Qed.

Lemma safe_add_peer id ip peer :
  peer_sender peer = id ->
  safe id (add_peer_p ip peer) Nothing (fun r g =>
    match r with Ok (_, sid) => g = Entry ip (peer_code peer) sid | Err _ => spent g = true end).
Proof.
  intros Htx. apply safe_fetch. intros sid. apply safe_calm; [done|]. intros there.
  apply (safe_bind _ _ _ _ (fun _ g => g = Session sid)).
  { destruct there; [done|]. by apply safe_calm. }
  intros full g ->. destruct full; [done|]. by apply safe_enter.
Qed.

Lemma safe_remove_peer id ip code sid :
  safe id (remove_peer_p ip code sid) (Entry ip code sid) (fun _ g => g = Nothing).
Proof. apply safe_leave; [|done]. by apply safe_delete. Qed.

Lemma safe_manual_scan id code found rooms g :
  safe id (manual_scan_p code found rooms) g (fun _ g' => g' = g).
Proof.
  revert found. induction rooms as [|ip rooms IH]; intros found; [done|].
  apply safe_calm; [done|]. intros room. destruct (manual_scan_room code found room); [apply IH|done].
Qed.

Lemma safe_relay id c code to payload target g :
  safe id (relay_p c code to payload target) g (fun _ g' => g' = g).
Proof. apply safe_calm; [done|]. intros r. destruct (is_err r); [apply safe_say'|done]. Qed.

Lemma safe_on_message id c code m g : safe id (on_message_p c code m) g (fun _ g' => g' = g).
Proof.
  destruct m as [[| to payload|to payload|]|e]; cbn [on_message_p]; try apply safe_say'; [| |done].
  - unfold on_signal_p. destruct (validate_signal_target to); [|apply safe_say'].
    apply safe_calm; [done|]. intros [target|]; [apply safe_relay|apply safe_say'].
  - unfold on_manual_signal_p. destruct (validate_signal_target to) as [to'|]; [|apply safe_say'].
    apply (safe_bind _ _ _ _ (fun _ g' => g' = g)).
    + apply safe_calm; [done|]. intros rooms. apply safe_manual_scan.
    + intros lookup ? ->. destruct lookup; [apply safe_relay|apply safe_say'..].
Qed.

Lemma safe_register id c code name ty url hash :
  c_tx c = id -> strict (c_rate c) -> safe id (register_p c code name ty url hash) Nothing (leaves c).
Proof.
  intros Htx Hr. pose proof (strict_loose _ Hr) as Hr'.
  unfold register_p. destruct (validate_peer_code code); [|by apply safe_refuse].
  eapply safe_bind; [by apply safe_add_peer|]. intros r g Hg. cbn in Hg.
  destruct r as [[existing sid]|e]; [|by apply safe_refuse]. subst g. by apply safe_say.
Qed.

Lemma safe_registration id now r c :
  c_tx c = id -> c_phase c = Registering -> strict (c_rate c) ->
  safe id (registration_p from_str now r c) Nothing (leaves c).
Proof.
  intros Htx Hph Hr. pose proof (strict_loose _ Hr) as Hr'. unfold registration_p.
  assert (Hown : forall rl, strict rl -> owns (set_rate rl c) Nothing).
  { intros rl Hrl. unfold owns. cbn. by rewrite Hph. }
  assert (Hc : forall rl e, strict rl -> safe id (complain_p (set_rate rl c) e) Nothing (leaves c)).
  { intros rl e Hrl. by apply (safe_complain id (set_rate rl c)), Hown. }
  assert (Hc' : owns c Nothing) by (unfold owns; by rewrite Hph).
  destruct r as [[[text| | | | |]|]|]; try done; try (by apply safe_hang_up); try (by apply safe_complain).
  destruct (check now (c_rate c)) as [v rl] eqn:Hcheck. apply check_strict in Hcheck; [|done].
  destruct v as [[]|[]];
    [|by apply (safe_hang_up id (set_rate rl c))|by apply Hc].
  destruct (validate_message_size _); [|by apply Hc].
  destruct (from_str text) as [[code name ty url hash| | |]|e]; try (by apply Hc).
  destruct (validate_device_name name); [by apply (safe_register id (set_rate rl c))|by apply Hc].
Qed.

Lemma safe_cleanup id c code sid :
  loose (c_rate c) -> safe id (cleanup_p c code sid) (Entry (c_ip c) code sid) (leaves c).
Proof.
  intros Hr. eapply safe_bind; [apply safe_remove_peer|]. intros [] g ->. by apply safe_hang_up.
Qed.

Lemma safe_loop id now t c code sid :
  c_phase c = Registered code sid -> strict (c_rate c) ->
  safe id (loop_p from_str now t c code sid) (Entry (c_ip c) code sid) (leaves c).
Proof.
  intros Hph Hr. pose proof (strict_loose _ Hr) as Hr'. set (g := Entry (c_ip c) code sid).
  assert (Hst : forall rl, strict rl -> leaves c (set_rate rl c) g).
  { intros rl Hrl. split_and!; [done|done|]. unfold owns. cbn. by rewrite Hph. }
  assert (Hc : forall rl e, strict rl -> safe id (complain_p (set_rate rl c) e) g (leaves c)).
  { intros rl e Hrl. by apply (safe_complain id (set_rate rl c)), Hst. }
  assert (Hc' : owns c g) by (unfold owns; by rewrite Hph).
  unfold loop_p. destruct t as [[[[text| | | | |]|]|]|]; try done; try (by apply safe_cleanup);
    try (by apply safe_complain).
  destruct (check now (c_rate c)) as [v rl] eqn:Hcheck. apply check_strict in Hcheck; [|done].
  destruct v as [[]|[]];
    [|by apply (safe_cleanup id (set_rate rl c))|by apply Hc].
  destruct (validate_message_size _); [|by apply Hc].
  eapply safe_bind; [apply safe_on_message|]. intros [] ? ->. by apply Hst.
Qed.

Lemma handle_p_safe now t c p g :
  owns c g -> handle_p from_str now t c = Some p -> safe (c_tx c) p g (leaves c).
Proof.
  unfold owns, handle_p. destruct (c_phase c) eqn:Hph; intros [Hg Hr]; [|subst g|done].
  - subst g. destruct t as [r|]; [|done]. intros [= <-]. by apply safe_registration.
  - intros [= <-]. by apply safe_loop.
Qed.
End Interleave.
