(* ===== verification/InterleaveProps.v ===== *)
(** * What holds of the interleaved handlers

    The invariant of [Interleave] lifted to the whole system, and what follows
    from it whatever the schedule: the table is well formed, every peer in it
    belongs to a live connection of its room, and there are no more rooms than
    connections at work.  Schedules are run on it at the end. *)

From S2P Require Import Prelude RStr Mpsc Protocol Room RoomFacts RoomSpec RoomConc Validate RateLimit.
From S2P Require Import Server ServerFacts ServerExamples Ops Interleave.

Open Scope Z_scope.

Section Props.
Context {V : Type}.
Context (from_str : string -> Result (ClientMessage V) string).
Context (to_string : ServerMessage V -> option string).
Implicit Types w : world V.
Implicit Types s : system (V := V).
Implicit Types gh : gmap nat ghost.

(** ** The system's invariant *)

Definition thread_ok (id : nat) (th : thread (V := V)) (g : ghost) : Prop :=
  c_tx (thread_conn th) = id /\
  match th with Idle c => owns c g | Busy c p => safe id p g (leaves c) end.

Record sys_ok (n : nat) s gh : Prop := {
  so_inv : inv (y_world s) gh;
  so_next : w_next (y_world s) <= 1 + Z.of_nat n;
  so_threads : forall id th, y_threads s !! id = Some th -> exists g, gh !! id = Some g /\ thread_ok id th g;
  so_ghosts : forall id, is_Some (gh !! id) -> is_Some (y_threads s !! id);
}.

Lemma exec_next {B} (o : op V B) w :
  counter_ok w -> 0 < w_next w -> w_next w <= w_next (exec o w).2 <= w_next w + 1.
Proof.
  intros Hok Hpos. unfold counter_ok in Hok. destruct o; cbn; try lia.
  - rewrite wrap_u64_small by lia. lia.
  - unfold add_peer_entry. destruct (_ <=? _); cbn; lia.
  - unfold remove_peer_entry. destruct (w_rooms w !! ip); [|cbn; lia].
    destruct (_ <? _); cbn; lia.
  - destruct (send tx m (w_chans w)). cbn. lia.
Qed.

(** A task moves on and its ghost with it. *)
Lemma sys_ok_thread n s gh id th g g' th' w' :
  sys_ok n s gh -> y_threads s !! id = Some th -> gh !! id = Some g ->
  inv w' (<[id := g']> gh) -> w_next w' <= 1 + Z.of_nat (S n) -> thread_ok id th' g' ->
  sys_ok (S n) (System w' (<[id := th']> (y_threads s))) (<[id := g']> gh).
Proof.
  intros [_ _ Hth Hgh] Hid Hg Hinv Hn Hok. split; cbn; [done|done|..].
  - intros i t [[<- <-]|[Hne Hi]]%lookup_insert_Some; [by exists g'; rewrite lookup_insert_eq|].
    destruct (Hth i t Hi) as (g0 & ? & ?). exists g0. by rewrite lookup_insert_ne.
  - intros i Hi. apply lookup_insert_is_Some.
    apply lookup_insert_is_Some in Hi as [->|[Hne Hi]]; [by left|]. right. auto.
Qed.

Lemma inv_accept w gh id :
  inv w gh -> w_chans w !! id = None ->
  inv (set_chans (<[id := new_chan]> (w_chans w)) w) (<[id := Nothing]> gh).
Proof.
  intros [H1 H2 H3 H4 H5 H6 H7] Hfresh.
  assert (Hno : gh !! id = None).
  { destruct (gh !! id) eqn:E; [|done]. destruct (H7 id) as [? Hch]; [by eexists|congruence]. }
  assert (Hold : forall i g sid, <[id := Nothing]> gh !! i = Some g -> ghost_sid g = Some sid ->
    gh !! i = Some g).
  { intros i g sid [[<- <-]|[_ ?]]%lookup_insert_Some; done. }
  split; cbn; try done.
  - intros ip' p Hp. specialize (H3 ip' p Hp). rewrite lookup_insert_ne; [done|]. intros ->. congruence.
  - intros i g sid Hg Hs. eapply H4; [by eapply Hold|done].
  - intros i i' g g' sid Hg Hg' Hs Hs'. eapply H5; [by eapply Hold|by eapply Hold|done|done].
  - intros ip' Hip. destruct (H6 ip' Hip) as [i Hi]. exists i. rewrite lookup_insert_ne; [done|].
    intros ->. congruence.
  - intros i Hi. apply lookup_insert_is_Some. apply lookup_insert_is_Some in Hi as [->|[? ?]]; auto.
Qed.

Lemma inv_chan w gh id ch ch' :
  inv w gh -> w_chans w !! id = Some ch -> inv (set_chan id ch' w) gh.
Proof.
  intros Hi Hch. apply (inv_same w); [|done]. split_and!; [done..|]. intros i Hsome. cbn.
  apply lookup_insert_is_Some. destruct (decide (id = i)); auto.
Qed.

Lemma sys_step_ok n s s' gh :
  young n -> sys_ok n s gh -> sys_step from_str to_string s s' -> exists gh', sys_ok (S n) s' gh'.
Proof.
  intros Hyoung Hok Hstep. pose proof Hok as [Hinv Hnext Hth Hgh]. unfold young in Hyoung.
  assert (Hc : counter_ok (y_world s)) by (unfold counter_ok; lia).
  destruct Hstep as [id ip now s Hfresh|l s s' [id c now t p s1 Hid Hp|id c B o k s1 Hid|id c c' s1 Hid
    |id ch ch' s1 Hch Htask]].
  - exists (<[id := Nothing]> gh). split; cbn; [by apply inv_accept|lia|..].
    + intros i th [[<- <-]|[Hne Hi]]%lookup_insert_Some.
      { exists Nothing. rewrite lookup_insert_eq. split_and!; [done..|]. by split. }
      destruct (Hth i th Hi) as (g & ? & ?). exists g. by rewrite lookup_insert_ne.
    + intros i Hi. apply lookup_insert_is_Some. apply lookup_insert_is_Some in Hi as [->|[? ?]]; auto.
  - destruct (Hth id _ Hid) as (g & Hg & Htx & Howns). exists (<[id := g]> gh).
    apply (sys_ok_thread n s1 gh id (Idle c) g); try done; [by rewrite insert_id|lia|].
    split; [done|]. cbn in Htx. rewrite <-Htx. by apply (handle_p_safe from_str now t).
  - destruct (Hth id _ Hid) as (g & Hg & Htx & Hsafe). cbn in Hsafe.
    destruct (Hsafe _ _ Hinv Hg Hc) as (g' & Hinv' & Hk). exists (<[id := g']> gh).
    pose proof (exec_next o (y_world s1) Hc (i_next _ _ Hinv)) as Hn.
    unfold access. destruct (exec o (y_world s1)) as [b w']. cbn in *.
    apply (sys_ok_thread n s1 gh id (Busy c (Call o k)) g); try done. lia.
  - destruct (Hth id _ Hid) as (g & Hg & Htx & Htx' & Hip & Howns). exists (<[id := g]> gh).
    apply (sys_ok_thread n s1 gh id (Busy c (Ret c')) g); try done; [by rewrite insert_id|lia|].
    split; [|done]. cbn in *. congruence.
  - exists gh. split; cbn; [by eapply inv_chan|lia|done|done].
Qed.

Lemma sys_boot_ok : sys_ok 0 sys_boot ∅.
Proof.
  split; cbn; [|done|by intros ? ? ?%lookup_empty_Some|by intros ? [? ?%lookup_empty_Some]].
  split; cbn; [done|by intros ? ? ?%lookup_empty_Some|..].
  - intros ip p. unfold peers_at. cbn. rewrite lookup_empty. by intros ?%elem_of_nil.
  - by intros ? ? ? ?%lookup_empty_Some.
  - by intros ? ? ? ? ? ?%lookup_empty_Some.
  - by intros ? ?%lookup_empty_Some.
  - by intros ? [? ?%lookup_empty_Some].
Qed.

Lemma sys_reach_ok n s : sys_reach from_str to_string n s -> young n -> exists gh, sys_ok n s gh.
Proof.
  induction 1 as [|n s s' Hr IH Hs]; intros Hy; [exists ∅; apply sys_boot_ok|].
  unfold young in Hy. destruct IH as [gh Hok]; [unfold young; lia|].
  apply (sys_step_ok n s s' gh); [unfold young; lia|done|done].
Qed.

(** ** Every peer has its connection *)

(** A connection between its registration and its end, or in the middle of an
    event. *)
Definition at_work (th : thread (V := V)) : bool :=
  match th with
  | Idle c => match c_phase c with Registered _ _ => true | _ => false end
  | Busy _ _ => true
  end.

Definition workers s : gset nat := dom (filter (fun x => at_work x.2 = true) (y_threads s)).

Lemma elem_of_workers id s :
  id ∈ workers s <-> exists th, y_threads s !! id = Some th /\ at_work th = true.
Proof.
  unfold workers. rewrite elem_of_dom. split.
  - intros [th [Hl Hw]%map_lookup_filter_Some]. by exists th.
  - intros (th & Hl & Hw). exists th. by apply map_lookup_filter_Some.
Qed.

(** A task that owns part of the table is at work. *)
Lemma owner_at_work n s gh id g :
  sys_ok n s gh -> gh !! id = Some g -> spent g = false -> id ∈ workers s.
Proof.
  intros Hok Hg Hsp. destruct (so_ghosts _ _ _ Hok id) as [th Hth]; [by eexists|].
  apply elem_of_workers. exists th. split; [done|].
  destruct (so_threads _ _ _ Hok id th Hth) as (g' & Hg' & _ & Ht). rewrite Hg in Hg'. injection Hg' as <-.
  destruct th as [c|]; [|done]. destruct Ht as [Ht _]. cbn.
  destruct (c_phase c); [by rewrite Ht in Hsp|done|congruence].
Qed.

Lemma peer_at_work n s gh ip p :
  sys_ok n s gh -> p ∈ peers_at ip (y_world s) -> peer_sender p ∈ workers s.
Proof. intros Hok Hp. eapply owner_at_work; [done|by apply (i_entries _ _ (so_inv _ _ _ Hok) ip)|done]. Qed.

Lemma no_ghost_thread n s :
  sys_reach from_str to_string n s -> young n ->
  forall ip p, p ∈ peers_at ip (y_world s) ->
  exists th, y_threads s !! peer_sender p = Some th /\ at_work th = true.
Proof.
  intros Hr Hy ip p Hp. destruct (sys_reach_ok n s Hr Hy) as [gh Hok].
  by apply elem_of_workers, (peer_at_work n s gh ip).
Qed.

(** C2: whatever the interleaving of the handlers' accesses to the room table,
    the session counter, the channels and the task handles, the table is well
    formed, no two peers share a session id, and there are no ghosts: the
    connection of every peer in the table is in the middle of an event or
    registered in that room under exactly that code and session; and an empty
    room is in the table only while some handler has an event to finish. *)
Theorem no_ghosts_interleaved n s :
  sys_reach from_str to_string n s -> young n ->
  rooms_ok (w_next (y_world s)) (w_rooms (y_world s)) /\
  sessions_unique (w_rooms (y_world s)) /\
  (forall ip p, p ∈ peers_at ip (y_world s) ->
     exists th, y_threads s !! peer_sender p = Some th /\ at_work th = true /\
       forall c, th = Idle c -> c_ip c = ip /\ c_phase c = Registered (peer_code p) (session_id p)) /\
  (forall ip, w_rooms (y_world s) !! ip = Some [] -> exists id c p, y_threads s !! id = Some (Busy c p)).
Proof.
  intros Hr Hy. destruct (sys_reach_ok n s Hr Hy) as [gh Hok]. pose proof (so_inv _ _ _ Hok) as Hinv.
  split_and!; [by eapply i_rooms|by eapply inv_sessions_unique|..].
  - intros ip p Hp. pose proof (peer_at_work n s gh ip p Hok Hp) as (th & Hth & Hw)%elem_of_workers.
    exists th. split_and!; [done..|]. intros c ->.
    destruct (so_threads _ _ _ Hok _ _ Hth) as (g & Hg & _ & Ho). rewrite (i_entries _ _ Hinv ip p Hp) in Hg.
    injection Hg as <-. destruct Ho as [Ho _]. cbn in Hw. destruct (c_phase c); [done| |done].
    by injection Ho as -> -> ->.
  - intros ip Hip. destruct (i_emptied _ _ Hinv ip Hip) as [id Hg].
    destruct (so_ghosts _ _ _ Hok id) as [th Hth]; [by eexists|].
    destruct (so_threads _ _ _ Hok id th Hth) as (g & Hg' & _ & Ht). rewrite Hg in Hg'. injection Hg' as <-.
    destruct th as [c|c p]; [|by exists id, c, p]. exfalso. destruct Ht as [Ht _]. by destruct (c_phase c).
Qed.

(** The table is bounded by the connections: at any moment there are at most
    as many rooms, and at most as many peers in any one of them, as connections
    that are registered or in the middle of an event. *)
Theorem table_within_connections n s :
  sys_reach from_str to_string n s -> young n ->
  (size (w_rooms (y_world s)) <= size (workers s))%nat /\
  forall ip, (length (peers_at ip (y_world s)) <= size (workers s))%nat.
Proof.
  intros Hr Hy. destruct (sys_reach_ok n s Hr Hy) as [gh Hok]. pose proof (so_inv _ _ _ Hok) as Hinv. split.
  - rewrite <-length_map_to_list, <-(length_fmap fst).
    apply (length_injects (fun ip id => gh !! id = Some (Emptied ip) \/
      exists code sid, gh !! id = Some (Entry ip code sid))); [apply NoDup_fst_map_to_list| |].
    + intros ip ([ip' room] & -> & Hroom%elem_of_map_to_list)%list_elem_of_fmap. cbn.
      destruct room as [|p room].
      * destruct (i_emptied _ _ Hinv ip' Hroom) as [id Hid]. exists id. split; [|by left].
        by eapply owner_at_work.
      * assert (Hp : p ∈ peers_at ip' (y_world s)) by (unfold peers_at; rewrite Hroom; by left).
        exists (peer_sender p). split; [by eapply peer_at_work|right]. eexists _, _. by apply (i_entries _ _ Hinv).
    + intros ip ip' id [Hg|(? & ? & Hg)] [Hg'|(? & ? & Hg')]; congruence.
  - intros ip. pose proof (peers_at_room_ok ip _ gh Hinv) as Hroom.
    rewrite <-(length_fmap peer_sender).
    assert (Hnd : NoDup (peer_sender <$> peers_at ip (y_world s))).
    { apply NoDup_fmap_2_strong.
      - intros p q Hp Hq Heq. by eapply same_sender_same.
      - eapply NoDup_fmap_1, (ro_codes _ _ Hroom). }
    apply (length_injects eq); [done| |congruence].
    intros id (p & -> & Hp)%list_elem_of_fmap. exists (peer_sender p). split; [|done]. by eapply peer_at_work.
Qed.
End Props.

(** ** Schedules *)

(** A schedule of the tasks, run on the decoder and the encoder of
    [ServerExamples]. *)
Inductive move := Connect (ip : string) | Hear (id : nat) (t : timed) | Run (id : nat).

Definition move1 (now : Z) (m : move) (s : system (V := unit)) : option system :=
  match m with
  | Connect ip =>
    let id := size (w_chans (y_world s)) in
    match w_chans (y_world s) !! id with
    | None => Some (sys_accepted id ip now s)
    | Some _ => None
    end
  | Hear id t =>
    match y_threads s !! id with
    | Some (Idle c) =>
      match handle_p from_str now t c with Some p => Some (set_thread id (Busy c p) s) | None => None end
    | _ => None
    end
  | Run id =>
    match y_threads s !! id with
    | Some (Busy c (Call o k)) => Some (access id c o k s)
    | Some (Busy c (Ret c')) => Some (set_thread id (Idle c') s)
    | _ => None
    end
  end.

Fixpoint moves (now : Z) (ms : list move) (s : system) : option system :=
  match ms with
  | [] => Some s
  | m :: ms => match move1 now m s with Some s => moves (now + 1) ms s | None => None end
  end.

Definition move_label (m : move) : option nat :=
  match m with Hear id (Ok _) => Some id | _ => None end.

Lemma move1_act now m s s' :
  (forall ip, m <> Connect ip) -> move1 now m s = Some s' ->
  sys_act from_str to_string (move_label m) s s'.
Proof.
  intros Hm. destruct m as [ip|id t|id]; cbn; [by destruct (Hm ip)|..].
  - destruct (y_threads s !! id) as [[c|]|] eqn:E; try done.
    destruct (handle_p from_str now t c) as [p|] eqn:Hp; [|done]. intros [= <-].
    by apply (sys_event from_str to_string id c now t p s).
  - destruct (y_threads s !! id) as [[|c [c'|B o k]]|] eqn:E; try done; intros [= <-];
      [by eapply sys_return|by apply sys_access].
Qed.

Lemma move1_step now m s s' : move1 now m s = Some s' -> sys_step from_str to_string s s'.
Proof.
  destruct m as [ip|id t|id]; [cbn|intros Hm; apply move1_act in Hm; [by eapply sys_acts|by intros ?]..].
  destruct (w_chans (y_world s) !! _) eqn:E; [done|]. intros [= <-]. by constructor.
Qed.

Lemma moves_reach now ms n s s' :
  sys_reach from_str to_string n s -> moves now ms s = Some s' ->
  sys_reach from_str to_string (n + length ms) s'.
Proof.
  revert now n s. induction ms as [|m ms IH]; intros now n s Hr; cbn [moves length].
  - intros [= <-]. by rewrite Nat.add_0_r.
  - destruct (move1 now m s) as [s1|] eqn:E; [|done]. intros Hm.
    rewrite Nat.add_succ_r, <-Nat.add_succ_l. eapply IH; [|done]. by eapply sys_reach_step, move1_step.
Qed.

Definition at_end (ms : list move) : system := default sys_boot (moves 0 ms sys_boot).

Lemma at_end_reach ms :
  (if moves 0 ms sys_boot is Some _ then true else false) = true ->
  sys_reach from_str to_string (length ms) (at_end ms).
Proof.
  unfold at_end. destruct (moves 0 ms sys_boot) as [s'|] eqn:Hs'; [|done]. intros _. cbn.
  apply (moves_reach 0 ms 0 sys_boot s'); [constructor|done].
Qed.

Definition hears (id : nat) (text : string) : move := Hear id (Ok (Some (Ok (Text text)))).

Definition thread_phase (id : nat) (s : system (V := unit)) : option phase :=
  match y_threads s !! id with Some (Idle c) => Some (c_phase c) | _ => None end.

(** The accesses of a registration that goes through, up to the release of the
    room's entry, and the rest of it. *)
Definition entering (id : nat) (text : string) (there : bool) : list move :=
  hears id text :: repeat (Run id) (if there then 3 else 4).
Definition telling (id : nat) : list move := repeat (Run id) 2.

(** The first client leaves while the second is registering. *)
Definition leaves_meanwhile : list move :=
  [Connect lan; Connect lan] ++ entering 0 "reg-alpha"%stdpp false ++ telling 0 ++
  entering 1 "reg-beta"%stdpp true ++ Hear 0 (Ok None) :: repeat (Run 0) 3 ++ telling 1.

(** The second client registers while the first is registering. *)
Definition joins_meanwhile : list move :=
  [Connect lan; Connect lan] ++ entering 0 "reg-alpha"%stdpp false ++
  entering 1 "reg-beta"%stdpp true ++ telling 1 ++ telling 0.

(** ** Witnesses *)

(** In the middle of a departure: the room is empty and still there. *)
Definition departing : list move :=
  [Connect lan] ++ entering 0 "reg-alpha"%stdpp false ++ telling 0 ++ [Hear 0 (Ok None); Run 0].

Lemma no_ghosts_interleaved_witness :
  w_rooms (y_world (at_end departing)) !! lan = Some [] /\
  exists id c p, y_threads (at_end departing) !! id = Some (Busy c p).
Proof.
  assert (He : w_rooms (y_world (at_end departing)) !! lan = Some []) by (by vm_compute).
  split; [exact He|].
  apply (no_ghosts_interleaved from_str to_string (length departing) (at_end departing)) with (ip := lan); [|by vm_compute|exact He].
  apply (at_end_reach departing). by vm_compute.
Defined.

Lemma table_within_connections_witness :
  size (w_rooms (y_world (at_end joins_meanwhile))) = 1%nat /\
  size (workers (at_end joins_meanwhile)) = 2%nat /\
  (size (w_rooms (y_world (at_end joins_meanwhile))) <= size (workers (at_end joins_meanwhile)))%nat.
Proof.
  split; [by vm_compute|split; [by vm_compute|]].
  refine (proj1 (table_within_connections from_str to_string (length joins_meanwhile) (at_end joins_meanwhile) _ _)).
  - apply (at_end_reach joins_meanwhile). by vm_compute.
  - by vm_compute.
Defined.
