(* ===== verification/ViewRaces.v ===== *)
(** * What clients see of their room under interleaving

    In [ClientView] an event is one step, and what a client is told adds up to
    the membership of its room.  Here the handlers interleave at their accesses.
    A client's view of a code then changes only when the holder of that code in
    its room does; but the first list, which is read under the room's lock and
    queued after it is released, can already be wrong, and then nothing corrects
    it. *)

From S2P Require Import Prelude RStr Mpsc Protocol Room RoomFacts Validate RateLimit.
From S2P Require Import Server ServerFacts ClientView ServerExamples Ops Interleave InterleaveProps.

Open Scope Z_scope.

Section Views.
Context {V : Type}.
Context (from_str : string -> Result (ClientMessage V) string).
Context (to_string : ServerMessage V -> option string).
Implicit Types w : world V.
Implicit Types s : system (V := V).
Implicit Types gh : gmap nat ghost.

(** ** The shape of the handlers' programs *)

(** Every access a program can come to satisfies [P]. *)
Fixpoint shaped {A} (P : forall B, op V B -> Prop) (p : prog V A) : Prop :=
  match p with
  | Ret _ => True
  | Call o k => P _ o /\ forall b, shaped P (k b)
  end.

Lemma shaped_bind {A C} P (p : prog V A) (f : A -> prog V C) :
  shaped P p -> (forall a, shaped P (f a)) -> shaped P (bind p f).
Proof. intros Hp Hf. induction p as [a|B o k IH]; [apply Hf|]. destruct Hp as [Ho Hk]. split; auto. Qed.

Definition is_registered (c : conn) : bool :=
  match c_phase c with Registered _ _ => true | _ => false end.

(** Only a connection that is registering enters a room, as itself, and sends a
    list of peers, to itself; nobody sends news of peers but the room manager. *)
Definition allowed (c : conn) B (o : op V B) : Prop :=
  match o with
  | EnterRoom _ peer => is_registered c = false /\ peer_sender peer = c_tx c
  | SendTo tx m =>
    match m with
    | Peers _ => is_registered c = false /\ tx = c_tx c
    | PeerJoined _ | PeerLeft _ => False
    | Signal _ _ | Error _ => True
    end
  | _ => True
  end.

Lemma allowed_rate c rl : allowed (set_rate rl c) = allowed c.
Proof. done. Qed.

Lemma shaped_complain c c' e : shaped (allowed c) (complain_p (V := V) c' e).
Proof. done. Qed.

Lemma shaped_hang_up c c' : shaped (allowed c) (hang_up_p (V := V) c').
Proof. done. Qed.

Lemma shaped_refuse c c' e : shaped (allowed c) (refuse_p (V := V) c' e).
Proof. done. Qed.

Lemma shaped_register c code name ty url hash :
  is_registered c = false -> shaped (allowed c) (register_p (V := V) c code name ty url hash).
Proof.
  intros Hr. unfold register_p. destruct (validate_peer_code code); [|apply shaped_refuse].
  apply shaped_bind.
  - split; [done|]. intros sid. split; [done|]. intros there. apply shaped_bind; [by destruct there|].
    intros []; [done|]. by split.
  - intros [[existing sid]|e]; [|apply shaped_refuse]. by split.
Qed.

Lemma shaped_relay c code to payload target : shaped (allowed c) (relay_p (V := V) c code to payload target).
Proof. split; [done|]. intros r. by destruct (is_err r). Qed.

Lemma shaped_manual_scan c code found rooms : shaped (allowed c) (manual_scan_p (V := V) code found rooms).
Proof.
  revert found. induction rooms as [|ip rooms IH]; intros found; [done|]. split; [done|]. intros room.
  by destruct (manual_scan_room code found room).
Qed.

Lemma shaped_on_message c code m : shaped (allowed c) (on_message_p (V := V) c code m).
Proof.
  destruct m as [[| to payload|to payload|]|e]; try done; cbn [on_message_p].
  - unfold on_signal_p. destruct (validate_signal_target to); [|done]. split; [done|].
    intros [target|]; [apply shaped_relay|done].
  - unfold on_manual_signal_p. destruct (validate_signal_target to); [|done]. apply shaped_bind.
    + split; [done|]. intros rooms. apply shaped_manual_scan.
    + intros []; [apply shaped_relay|done..].
Qed.

Lemma handle_p_shaped now t c p : handle_p from_str now t c = Some p -> shaped (allowed c) p.
Proof.
  unfold handle_p. destruct (c_phase c) as [|code sid|] eqn:Hph; [destruct t as [r|]; [|done]| |done]; intros [= <-].
  - unfold registration_p. destruct r as [[[text| | | | |]|]|]; try done.
    destruct (check now (c_rate c)) as [[[]|[]] rl]; [|done..]. destruct (validate_message_size _); [|done].
    destruct (from_str text) as [[code name ty url hash| | |]|e]; try done.
    destruct (validate_device_name name); [|done]. rewrite <-(allowed_rate c rl). apply shaped_register.
    unfold is_registered. cbn. by rewrite Hph.
  - unfold loop_p, cleanup_p. assert (Hc : forall c', shaped (allowed c) (cleanup_p (V := V) c' code sid)).
    { intros c'. split; [done|]. by intros []. }
    destruct t as [[[[text| | | | |]|]|]|]; try done; try apply Hc.
    destruct (check now (c_rate c)) as [[[]|[]] rl]; [|apply Hc|done]. destruct (validate_message_size _); [|done].
    apply shaped_bind; [|done]. rewrite <-(allowed_rate c rl). apply shaped_on_message.
Qed.

Definition all_shaped s : Prop :=
  forall id c p, y_threads s !! id = Some (Busy c p) -> shaped (allowed c) p.

Lemma reach_shaped n s : sys_reach from_str to_string n s -> all_shaped s.
Proof.
  induction 1 as [|n s s' _ IH Hs]; [by intros id c p; cbn; rewrite lookup_empty|].
  destruct Hs as [id ip now s Hfresh|l s s' [id c now t p s1 Hid Hp|id c B o k s1 Hid|id c c' s1 Hid
    |id ch ch' s1 Hch Htask]]; [| | | |exact IH]; intros i ci pi; unfold access; try destruct (exec _ _) as [b w'];
    cbn; (intros [[<- Heq]|[_ Hi]]%lookup_insert_Some; [|by eapply IH]); simplify_eq.
  - by eapply handle_p_shaped.
  - by apply (IH _ _ _ Hid).
Qed.

(** ** What is queued for a client *)

Definition inbox (b : nat) s : list (ServerMessage V) :=
  match w_chans (y_world s) !! b with Some ch => ch_queue ch | None => [] end.

(** What a step appends to the queue; nothing when the step takes from it. *)
Definition gained (b : nat) s s' : list (ServerMessage V) := drop (length (inbox b s)) (inbox b s').

(** A message that says something about the holder of a code. *)
Definition concerns (k : string) (m : ServerMessage V) : bool :=
  match m with
  | Peers _ => true
  | PeerJoined p => bool_decide (pd_peer_code p = k)
  | PeerLeft code => bool_decide (code = k)
  | Signal _ _ | Error _ => false
  end.

Definition silent_on (k : string) (ms : list (ServerMessage V)) : Prop :=
  Forall (fun m => concerns k m = false) ms.

Lemma see_silent k ms v : silent_on k ms -> see_all v ms !! k = v !! k.
Proof.
  intros Hms. unfold see_all. revert v. induction Hms as [|m ms Hm Hms IH]; intros v; [done|]. cbn.
  rewrite IH. destruct m as [ps|p|code|from x|e]; cbn in *; try done; apply bool_decide_eq_false in Hm.
  - by rewrite lookup_insert_ne.
  - by rewrite lookup_delete_ne.
Qed.

Lemma gained_same b s s' :
  w_chans (y_world s') !! b = w_chans (y_world s) !! b -> gained b s s' = [].
Proof. intros Hc. unfold gained, inbox. rewrite Hc. by rewrite drop_all. Qed.

Lemma gained_push b s s' ms k :
  w_chans (y_world s') !! b = push ms <$> w_chans (y_world s) !! b -> silent_on k ms ->
  silent_on k (gained b s s').
Proof.
  intros Hc Hms. unfold gained, inbox. rewrite Hc.
  destruct (w_chans (y_world s) !! b) as [ch|]; cbn; [|constructor]. unfold push.
  destruct (ch_rx ch); cbn; [by rewrite drop_app_length|]. rewrite drop_all. constructor.
Qed.

(** A broadcast. *)
Lemma gained_broadcast b s s' txs m k :
  w_chans (y_world s') = send_all txs m (w_chans (y_world s)) ->
  (b ∈ txs -> concerns k m = false) -> silent_on k (gained b s s').
Proof.
  intros Hc Hm. destruct (decide (b ∈ txs)) as [Hb|Hb].
  - eapply gained_push; [rewrite Hc; apply send_all_lookup|]. apply Forall_replicate. auto.
  - rewrite gained_same; [constructor|]. rewrite Hc. by apply send_all_other.
Qed.

(** ** Nothing changes hands *)

Definition registered (id : nat) s : Prop :=
  exists th, y_threads s !! id = Some th /\ is_registered (thread_conn th) = true.

(** In the room [ip] the code [k] is with [o], or free, the client [b] is a
    member, and both are registered connections. *)
Definition steady (ip k : string) (o : option PeerInfo) (b : nat) s : Prop :=
  find_code k (peers_at ip (y_world s)) = o /\
  (exists p, p ∈ peers_at ip (y_world s) /\ peer_sender p = b) /\
  registered b s /\ (forall p, o = Some p -> registered (peer_sender p) s).

(** A connection that may enter a room or send a list is not registered. *)
Lemma not_registering id c p s :
  registered id s -> y_threads s !! id = Some (Busy c p) -> is_registered c = false -> False.
Proof. intros (th & Hth & Hr) Hid Hc. rewrite Hid in Hth. injection Hth as <-. cbn in Hr. congruence. Qed.

Lemma steady_access n s gh id c B (o : op V B) kont ip k holder b :
  sys_ok n s gh -> shaped (allowed c) (Call o kont) -> y_threads s !! id = Some (Busy c (Call o kont)) ->
  steady ip k holder b s -> steady ip k holder b (access id c o kont s) ->
  silent_on k (gained b s (access id c o kont s)).
Proof.
  intros Hok [Ho _] Hid (Hk & (pb & Hpb & Htb) & Hb & Hholder) (Hk' & _).
  pose proof (so_inv _ _ _ Hok) as Hinv.
  assert (Htx : c_tx c = id) by (by destruct (so_threads _ _ _ Hok _ _ Hid) as (? & _ & ? & _)).
  assert (Hroom : forall ip' q, q ∈ peers_at ip' (y_world s) -> peer_sender q = b -> ip' = ip).
  { intros ip' q Hq Heq. by eapply same_sender_same; [done..|congruence]. }
  assert (Hnd : NoDup (peer_code <$> peers_at ip (y_world s))).
  { apply (ro_codes _ _ (peers_at_room_ok ip _ gh Hinv)). }
  revert Hk'. unfold access. destruct (exec o (y_world s)) as [a w'] eqn:He. cbn [y_world]. intros Hk'.
  assert (Hsame : w_chans w' = w_chans (y_world s) -> silent_on k (gained b s (System w' (<[id:=Busy c (kont a)]> (y_threads s))))).
  { intros Hc. rewrite gained_same; [constructor|]. cbn. by rewrite Hc. }
  destruct o; cbn in He, Ho; try (injection He as <- <-; by apply Hsame).
  - rewrite (enter_eq ip0 peer _ (w_next (y_world s))) in He by (by apply (peers_at_room_ok ip0 _ gh)).
    cbn zeta in He. destruct (_ <=? _); injection He as <- <-; [by apply Hsame|].
    eapply gained_broadcast; [done|]. intros (q & Hq & [Hin _]%elem_of_others)%list_elem_of_fmap.
    apply bool_decide_eq_false. cbn. intros Hcode. destruct Ho as [Hc Hsend].
    rewrite (Hroom ip0 q Hin) in Hk' by done. unfold peers_at in Hk'. cbn in Hk'.
    rewrite lookup_insert_eq in Hk'. cbn in Hk'.
    rewrite Hcode, find_code_app in Hk' by apply others_no_code.
    cbn in Hk'. rewrite (proj2 (elem_of_same_code k peer) Hcode) in Hk'.
    apply (not_registering id c (Call (EnterRoom ip0 peer) kont) s); [|done..].
    rewrite <-Htx, <-Hsend. by apply Hholder.
  - unfold remove_peer_entry in He. destruct (w_rooms (y_world s) !! ip0) as [room|] eqn:Er;
      [|injection He as <- <-; by apply Hsame].
    destruct (Z.ltb_spec (vec_len (retain (fun p => negb (is_session code sid p)) room)) (vec_len room))
      as [Hlt|_]; injection He as <- <-; [|by apply Hsame].
    assert (Hat : peers_at ip0 (y_world s) = room) by (unfold peers_at; by rewrite Er).
    eapply gained_broadcast; [done|]. intros (q & Hq & [Hin _]%elem_of_retain)%list_elem_of_fmap.
    apply bool_decide_eq_false. intros ->. rewrite <-Hat in Hin.
    pose proof (Hroom ip0 q Hin (eq_sym Hq)) as ->. unfold vec_len in Hlt.
    apply Nat2Z.inj_lt, retain_length_lt in Hlt as (p & Hp & Hs%negb_false_iff).
    pose proof Hs as [Hcode _]%andb_prop. apply elem_of_same_code in Hcode.
    assert (Hf : find_code k (peers_at ip (y_world s)) = Some p) by (apply find_code_iff; [done|by rewrite Hat]).
    rewrite Hf in Hk. subst holder. unfold peers_at in Hk'. cbn in Hk'. rewrite lookup_insert_eq in Hk'.
    apply find_code_Some in Hk' as [[_ Hn%negb_true_iff]%elem_of_retain _]. congruence.
  - destruct (send tx m (w_chans (y_world s))) as [r cs] eqn:Hs. injection He as <- <-.
    eapply (gained_push _ _ _ (if decide (tx = b) then [m] else [])).
    + cbn. replace cs with (send_ tx m (w_chans (y_world s))) by (unfold send_; by rewrite Hs).
      rewrite send__lookup. case_decide; [done|].
      destruct (w_chans (y_world s) !! b); cbn; [by rewrite push_nil|done].
    + case_decide as Heq; [|constructor]. repeat constructor. destruct m; try done.
      destruct Ho as [Hc ->]. exfalso. eapply not_registering; [|done|done]. by rewrite <-Htx, Heq.
  - injection He as <- <-. match goal with |- silent_on _ ?g => assert (Hg : g = []); [|by rewrite Hg; constructor] end.
    unfold gained, inbox. cbn.
    unfold abort. rewrite lookup_alter. case_decide as Heq; [|by rewrite drop_all]. subst tx.
    destruct (w_chans (y_world s) !! b) as [ch|]; cbn; [by rewrite drop_all|done].
Qed.

Lemma steady_step n s gh s' ip k holder b :
  sys_ok n s gh -> all_shaped s -> sys_step from_str to_string s s' ->
  steady ip k holder b s -> steady ip k holder b s' -> silent_on k (gained b s s').
Proof.
  intros Hok Hsh Hstep Hst Hst'. pose proof Hst as (_ & (pb & Hpb & Htb) & _).
  assert (Hch : is_Some (w_chans (y_world s) !! b)).
  { pose proof (so_inv _ _ _ Hok) as Hinv. apply (i_chans _ _ Hinv). rewrite <-Htb.
    eexists. by apply (i_entries _ _ Hinv ip). }
  destruct Hstep as [id addr now s Hfresh|l s s' [id c now t p s1 Hid Hp|id c B o kont s1 Hid|id c c' s1 Hid
    |id ch ch' s1 Hch1 Htask]].
  - rewrite gained_same; [constructor|]. cbn. rewrite lookup_insert_ne; [done|]. intros ->.
    rewrite Hfresh in Hch. by destruct Hch.
  - rewrite gained_same; [constructor|done].
  - eapply steady_access; try done. by eapply Hsh.
  - rewrite gained_same; [constructor|done].
  - destruct (decide (id = b)) as [->|Hne].
    2:{ rewrite gained_same; [constructor|]. cbn. by rewrite lookup_insert_ne. }
    unfold gained, inbox. cbn. rewrite lookup_insert_eq, Hch1. rewrite drop_ge; [constructor|].
    destruct Htask as [d d' Hf|d m q Hrx Hq|d Hrx Ha]; cbn; [|lia..]. unfold task_forward in Hf.
    destruct (ch_rx d); [|done]. destruct (ch_queue d) as [|m q]; [done|]. injection Hf as <-. cbn. lia.
Qed.

(** An execution that stays within [P], its length, and what is queued for [b]
    in it. *)
Inductive onward (P : system (V := V) -> Prop) (b : nat) s : nat -> list (ServerMessage V) -> system -> Prop :=
| onward_here : P s -> onward P b s 0 [] s
| onward_step m told s1 s2 :
    onward P b s m told s1 -> sys_step from_str to_string s1 s2 -> P s2 ->
    onward P b s (S m) (told ++ gained b s1 s2) s2.

Lemma onward_in P b s m told s' : onward P b s m told s' -> P s'.
Proof. by destruct 1. Qed.

Lemma onward_reach P b n s m told s' :
  sys_reach from_str to_string n s -> onward P b s m told s' -> sys_reach from_str to_string (n + m) s'.
Proof.
  intros Hr. induction 1 as [Hs|m told s1 s2 Hon IH Hstep Hs]; [by rewrite Nat.add_0_r|].
  rewrite Nat.add_succ_r. by eapply sys_reach_step.
Qed.

Lemma steady_silent n s m told s' ip k holder b :
  sys_reach from_str to_string n s -> onward (steady ip k holder b) b s m told s' -> young (n + m) ->
  silent_on k told.
Proof.
  intros Hr. induction 1 as [Hs|m told s1 s2 Hon IH Hstep Hs]; intros Hy; [constructor|].
  assert (Hy1 : young (n + m)) by (unfold young in *; lia). apply Forall_app. split; [by apply IH|].
  pose proof (onward_reach _ _ _ _ _ _ _ Hr Hon) as Hr1.
  destruct (sys_reach_ok from_str to_string _ _ Hr1 Hy1) as [gh Hok].
  eapply steady_step; [done|by eapply reach_shaped|done|by eapply onward_in|done].
Qed.

(** C5: under every interleaving of the handlers, a client is told of a code
    only when the code changes hands: through any execution in which the code
    stays with its holder in the room, or stays free, and the client and the
    holder stay registered, nothing that is queued for the client changes its
    view of that code, however many others join, leave, signal or are refused
    in that room and in all others. *)
Theorem view_follows_holder n s m told s' ip k holder b v :
  sys_reach from_str to_string n s -> young (n + m) ->
  onward (steady ip k holder b) b s m told s' -> see_all v told !! k = v !! k.
Proof. intros Hr Hy Hon. by eapply see_silent, steady_silent. Qed.
End Views.

(** ** The first list races *)

Definition beta_peer : PeerInfo := mkPeerInfo "BETA" "Laptop" Laptop 1 2 None None.

(** The client of [me] sees at [k] what it should not, now and through every
    execution from here in which [k] stays with [holder] and both stay. *)
Definition wrong_for_ever (b : nat) (me k : string) (holder : option PeerInfo) (n : nat)
    (s : system (V := unit)) : Prop :=
  steady lan k holder b s /\
  forall m told s', onward from_str to_string (steady lan k holder b) b s m told s' -> young (n + m) ->
    see_all ∅ (inbox b s ++ told) !! k <> members lan me (y_world s') !! k.

(** The view and the membership at [k] stay what they are. *)
Lemma wrong_stays b me k holder n s :
  sys_reach from_str to_string n s -> steady lan k holder b s -> me <> k ->
  see_all ∅ (inbox b s) !! k <> to_peer_data <$> holder -> wrong_for_ever b me k holder n s.
Proof.
  intros Hr Hst Hme Hwrong. split; [done|]. intros m told s' Hon Hy.
  pose proof (onward_in from_str to_string _ _ _ _ _ _ Hon) as (Hk & _).
  rewrite members_lookup, decide_False, Hk by done. unfold see_all. rewrite foldl_app.
  fold (see_all ∅ (inbox b s)). fold (see_all (see_all ∅ (inbox b s)) told).
  rewrite (see_silent k told); [done|]. by eapply (steady_silent from_str to_string n s m told s').
Qed.

Lemma steady_intro ip k holder b p (s : system (V := unit)) :
  find_code k (peers_at ip (y_world s)) = holder -> p ∈ peers_at ip (y_world s) -> peer_sender p = b ->
  registered b s -> (forall q, holder = Some q -> registered (peer_sender q) s) -> steady ip k holder b s.
Proof. intros ? ? ? ? ?. split_and!; [done|by exists p|done..]. Qed.

(** The first client leaves while the second is registering. *)
Definition stale : system (V := unit) := at_end leaves_meanwhile.
(** The second client registers while the first is registering. *)
Definition blind : system (V := unit) := at_end joins_meanwhile.

Lemma stale_steady : steady lan "ALPHA" None 1 stale.
Proof.
  apply (steady_intro _ _ _ _ beta_peer); [by vm_compute|by vm_compute; left|done| |done].
  eexists. split; by vm_compute.
Qed.

Lemma blind_steady : steady lan "BETA" (Some beta_peer) 0 blind.
Proof.
  apply (steady_intro _ _ _ _ (mkPeerInfo "ALPHA" "Phone" Phone 0 1 None None));
    [by vm_compute|by vm_compute; left|done| |intros q [= <-]]; eexists; split; by vm_compute.
Qed.

(** C36: the list a newcomer is sent can be out of date before it is sent, and
    then nothing corrects it.  The list is read with the room's entry held but
    queued after the entry is released; a member that leaves in between has its
    departure queued before the list that names it, and a peer that joins in
    between has its arrival queued before the list that omits it.  Both
    schedules end with every handler at rest.  In the first the newcomer's view
    holds a peer that is gone from its room, and holds it through every
    execution in which nobody registers there under that code again and the
    newcomer stays.  In the second the view lacks a peer that is in the room, and
    lacks it through every execution in which the two stay. *)
Theorem first_view_races :
  (exists n s, sys_reach from_str to_string n s /\
     thread_phase 0 s = Some Closed /\ thread_phase 1 s = Some (Registered "BETA" 2) /\
     members lan "BETA" (y_world s) = ∅ /\ see_all ∅ (inbox 1 s) = {["ALPHA"%stdpp := alpha]} /\
     wrong_for_ever 1 "BETA" "ALPHA" None n s) /\
  (exists n s, sys_reach from_str to_string n s /\
     thread_phase 0 s = Some (Registered "ALPHA" 1) /\ thread_phase 1 s = Some (Registered "BETA" 2) /\
     members lan "ALPHA" (y_world s) = {["BETA"%stdpp := beta]} /\ see_all ∅ (inbox 0 s) = ∅ /\
     wrong_for_ever 0 "ALPHA" "BETA" (Some beta_peer) n s).
Proof.
  split.
  - assert (Hr : sys_reach from_str to_string (length leaves_meanwhile) stale) by (by apply at_end_reach; vm_compute).
    exists (length leaves_meanwhile), stale. split_and!; [done|by vm_compute..|].
    apply wrong_stays; [done|apply stale_steady|done|by vm_compute].
  - assert (Hr : sys_reach from_str to_string (length joins_meanwhile) blind) by (by apply at_end_reach; vm_compute).
    exists (length joins_meanwhile), blind. split_and!; [done|by vm_compute..|].
    apply wrong_stays; [done|apply blind_steady|done|by vm_compute].
Qed.

(** ** Witnesses *)

(** The first client signals the second. *)
Definition on (m : move) (s : system (V := unit)) : system := default s (move1 99 m s).
Definition asked : system := on (hears 0 "signal-beta"%stdpp) blind.
Definition found : system := on (Run 0) asked.
Definition relayed : system := on (Run 0) found.

Definition alpha_peer : PeerInfo := mkPeerInfo "ALPHA" "Phone" Phone 0 1 None None.

Ltac steady_now :=
  apply (steady_intro _ _ _ _ beta_peer);
    [by vm_compute|by vm_compute; repeat constructor|done| |intros q [= <-]]; eexists; split; by vm_compute.

Lemma onward_on m s (P : system (V := unit) -> Prop) b n told s1 :
  onward from_str to_string P b s n told s1 -> is_Some (move1 99 m s1) -> P (on m s1) ->
  onward from_str to_string P b s (S n) (told ++ gained b s1 (on m s1)) (on m s1).
Proof.
  intros Hon [s2 Hm] HP. eapply onward_step; [done| |done]. unfold on. rewrite Hm. by eapply move1_step.
Qed.

Lemma view_follows_holder_witness :
  gained 1 found relayed = [Signal "ALPHA"%stdpp tt] /\
  see_all {["ALPHA"%stdpp := alpha]} ((([] ++ gained 1 blind asked) ++ gained 1 asked found) ++ gained 1 found relayed)
    !! "ALPHA"%stdpp = Some alpha.
Proof.
  split; [by vm_compute|].
  rewrite (view_follows_holder from_str to_string (length joins_meanwhile) blind 3 _ relayed lan "ALPHA"
    (Some alpha_peer) 1); [by vm_compute| | |].
  - apply at_end_reach. by vm_compute.
  - by vm_compute.
  - apply onward_on; [|by eexists; vm_compute|steady_now].
    apply onward_on; [|by eexists; vm_compute|steady_now].
    apply onward_on; [|by eexists; vm_compute|steady_now].
    apply onward_here. steady_now.
Defined.
