(* ===== verification/Slots.v ===== *)
(** * The embeddable server and its connection limit (signal/src/lib.rs)

    [SignalingServer]'s configuration, and the connection slots: an atomic
    counter taken by a load and a compare-exchange in a loop and given back by
    the guard's destructor, by any number of tasks in any interleaving. *)

From S2P Require Import Prelude IpAddr.

Open Scope Z_scope.

Definition DEFAULT_MAX_WS_CONNECTIONS : Z := 256.

(** ** [SignalingServer] *)

(** The configuration fields; the room manager and the counter are the shared
    state of [Room] and of the slots below. *)
Record SignalingServer := mkSignalingServer {
  ss_addr : SocketAddr;
  ss_trusted_proxies : list IpAddr;
  ss_max_connections : Z;
}.

(** [SignalingServer::new] *)
Definition server_new (addr : SocketAddr) : SignalingServer :=
  mkSignalingServer addr [] DEFAULT_MAX_WS_CONNECTIONS.

Definition with_trusted_proxies (proxies : list IpAddr) (s : SignalingServer) : SignalingServer :=
  mkSignalingServer (ss_addr s) proxies (ss_max_connections s).

Definition with_max_connections (max : Z) (s : SignalingServer) : SignalingServer :=
  mkSignalingServer (ss_addr s) (ss_trusted_proxies s) max.

(** ** Slots *)

(** A task that wants a slot: about to load the counter, with the value it
    loaded, refused ([None]), holding a [ConnectionGuard], or done with it. *)
Inductive task :=
| Trying
| Loaded (current : Z)
| Refused
| Holding
| Dropped.

#[export] Instance task_eq_dec : EqDecision task.
Proof. solve_decision. Defined.

(** The counter and the tasks. *)
Record slots := mkSlots { active : Z; tasks : list task }.

Definition set_task (i : nat) (t : task) (s : slots) : slots :=
  mkSlots (active s) (<[i := t]> (tasks s)).

Section Slots.
Context (max_connections : Z).

(** [self.active_connections.load(Acquire)] and the limit test. *)
Definition load_step (s : slots) : task :=
  if max_connections <=? active s then Refused else Loaded (active s).

(** [compare_exchange(current, current + 1)]: the counter and the task after
    it; a failure goes round the loop. *)
Definition cas_step (current : Z) (s : slots) : Z * task :=
  if active s =? current then (wrap_u64 (current + 1), Holding) else (active s, Trying).

(** [ConnectionGuard::drop]: [fetch_sub(1)]. *)
Definition drop_guard (s : slots) : Z := wrap_u64 (active s - 1).

(** One atomic step of task [i]. *)
Definition task_run (i : nat) (s : slots) : option slots :=
  match tasks s !! i with
  | Some Trying => Some (set_task i (load_step s) s)
  | Some (Loaded current) =>
    let '(n, t) := cas_step current s in Some (mkSlots n (<[i := t]> (tasks s)))
  | Some Holding => Some (mkSlots (drop_guard s) (<[i := Dropped]> (tasks s)))
  | _ => None
  end.

(** [try_acquire_slot], when no other task moves meanwhile. *)
Fixpoint acquire_alone (fuel : nat) (i : nat) (s : slots) : option slots :=
  match fuel, tasks s !! i with
  | S fuel, Some Trying | S fuel, Some (Loaded _) =>
    match task_run i s with Some s => acquire_alone fuel i s | None => None end
  | _, Some Refused | _, Some Holding => Some s
  | _, _ => None
  end.

(** A new connection is accepted: its task starts to try. *)
Definition arrive (s : slots) : slots := mkSlots (active s) (tasks s ++ [Trying]).

Inductive slots_step : slots -> slots -> Prop :=
| slots_arrive s : slots_step s (arrive s)
| slots_task i s s' : task_run i s = Some s' -> slots_step s s'.

Inductive slots_reach : slots -> Prop :=
| slots_init : slots_reach (mkSlots 0 [])
| slots_next s s' : slots_reach s -> slots_step s s' -> slots_reach s'.

(** ** The limit *)

Definition holding (l : list task) : nat := length (filter (fun t => t = Holding) l).

Arguments holding : simpl never.

Lemma holding_app l l' : holding (l ++ l') = (holding l + holding l')%nat.
Proof. unfold holding. by rewrite filter_app, length_app. Qed.

Definition guards (t : task) : nat := match t with Holding => 1 | _ => 0 end.

Lemma holding_insert l i t t' :
  l !! i = Some t ->
  (holding (<[i := t']> l) + guards t = holding l + guards t')%nat.
Proof.
  intros Hl. rewrite (insert_take_drop l i t') by (by eapply lookup_lt_Some).
  rewrite <-(take_drop_middle l i t Hl) at 3. rewrite !holding_app.
  unfold holding. rewrite !filter_cons.
  destruct t, t'; repeat case_decide; try done; cbn [length guards]; lia.
Qed.

(** A value a task has loaded was below the limit. *)
Definition loaded_ok (l : list task) : Prop :=
  Forall (fun t => match t with Loaded n => 0 <= n < max_connections | _ => True end) l.

Record slots_ok (s : slots) : Prop := {
  so_count : active s = Z.of_nat (holding (tasks s));
  so_limit : active s <= max_connections;
  so_loaded : loaded_ok (tasks s);
}.

Hypothesis limit_range : 0 <= max_connections < u64_modulus.

Lemma task_run_ok i s s' : slots_ok s -> task_run i s = Some s' -> slots_ok s'.
Proof.
  intros [Hcount Hlimit Hloaded]. unfold task_run.
  destruct (tasks s !! i) as [t|] eqn:Ht; [|done].
  pose proof (fun t' => holding_insert (tasks s) i t t' Ht) as Hins.
  pose proof (fun t' H => Forall_insert _ (tasks s) i t' Hloaded H) as Hall.
  pose proof (Forall_lookup_1 _ _ _ _ Hloaded Ht) as Hcur. cbn in Hcur, Hall.
  destruct t as [|current| | |]; try done.
  - intros [= <-]. unfold set_task, load_step.
    destruct (Z.leb_spec max_connections (active s)); split; cbn; try done;
      try (specialize (Hins Refused); cbn in Hins; lia);
      try (specialize (Hins (Loaded (active s))); cbn in Hins; lia);
      apply Hall; [done|lia].
  - unfold cas_step. destruct (Z.eqb_spec (active s) current) as [Heq|Hne].
    + rewrite wrap_u64_small by lia. intros [= <-].
      specialize (Hins Holding). cbn in Hins. split; cbn; [lia|lia|by apply Hall].
    + intros [= <-]. specialize (Hins Trying). cbn in Hins. split; cbn; [lia|lia|by apply Hall].
  - intros [= <-]. specialize (Hins Dropped). cbn in Hins. unfold drop_guard.
    rewrite wrap_u64_small by lia. split; cbn; [lia|lia|by apply Hall].
Qed.

Lemma arrive_ok s : slots_ok s -> slots_ok (arrive s).
Proof.
  intros [Hcount Hlimit Hloaded]. split; cbn; [|done|].
  - rewrite holding_app. change (holding [Trying]) with 0%nat. lia.
  - by apply Forall_app; split; [|constructor; [done|constructor]].
Qed.

Lemma slots_reach_ok s : slots_reach s -> slots_ok s.
Proof.
  induction 1 as [|s s' _ IH Hs].
  - split; cbn; [done|lia|constructor].
  - destruct Hs as [s|i s s' Hr]; [by apply arrive_ok|by eapply task_run_ok].
Qed.

(** However the tasks interleave, the counter is exactly the number of
    guards alive, never above the limit and never below zero: no
    over-subscription, no slot lost and none given back twice. *)
Theorem slots_bounded s :
  slots_reach s ->
  active s = Z.of_nat (holding (tasks s)) /\ Z.of_nat (holding (tasks s)) <= max_connections.
Proof. intros Hr. destruct (slots_reach_ok s Hr) as [Hc Hl _]. split; [done|lia]. Qed.

Lemma run_trying i s :
  tasks s !! i = Some Trying -> task_run i s = Some (set_task i (load_step s) s).
Proof. unfold task_run. by intros ->. Qed.

(** A task that runs undisturbed gets its answer after a load and one
    compare-exchange: a guard exactly when a slot is free, and otherwise a
    refusal that leaves the counter alone. *)
Theorem acquire_decides i s :
  slots_reach s -> tasks s !! i = Some Trying ->
  acquire_alone 2 i s =
    Some (if Z.of_nat (holding (tasks s)) <? max_connections
          then mkSlots (active s + 1) (<[i := Holding]> (tasks s))
          else set_task i Refused s).
Proof.
  intros Hr Ht. destruct (slots_reach_ok s Hr) as [Hc Hl _]. rewrite <-Hc.
  assert (Hlt : (i < length (tasks s))%nat) by (by eapply lookup_lt_Some).
  cbn [acquire_alone]. rewrite Ht, run_trying by done. unfold load_step.
  destruct (Z.leb_spec max_connections (active s)), (Z.ltb_spec (active s) max_connections);
    try lia; unfold set_task; cbn [tasks active]; rewrite list_lookup_insert_eq by done; [done|].
  unfold task_run. cbn [tasks active]. rewrite list_lookup_insert_eq by done.
  unfold cas_step. cbn [active]. rewrite Z.eqb_refl, wrap_u64_small by lia.
  cbn [tasks]. by rewrite list_insert_insert_eq, list_lookup_insert_eq.
Qed.
End Slots.

(** ** Witnesses *)

(** Two tasks load the same value; the second compare-exchange fails and goes
    round to a refusal. *)
Definition race : option slots :=
  s ← task_run 1 0 (arrive (arrive (mkSlots 0 [])));
  s ← task_run 1 1 s; s ← task_run 1 0 s; s ← task_run 1 1 s; task_run 1 1 s.

Lemma race_reach s : race = Some s -> slots_reach 1 s.
Proof.
  unfold race. intros Hs.
  repeat match type of Hs with
  | (task_run 1 ?i ?s0 ≫= _) = _ => destruct (task_run 1 i s0) eqn:?; cbn in Hs; [|done]
  end.
  repeat (eapply slots_next; [|by eapply slots_task]).
  eapply slots_next; [eapply slots_next; [apply slots_init|]|]; apply slots_arrive.
Defined.

Lemma slots_bounded_witness :
  race = Some (mkSlots 1 [Holding; Refused]) /\
  1 = Z.of_nat (holding [Holding; Refused]) /\ Z.of_nat (holding [Holding; Refused]) <= 1.
Proof.
  assert (Hr : race = Some (mkSlots 1 [Holding; Refused])) by (by vm_compute).
  split; [done|]. apply (slots_bounded 1 ltac:(by vm_compute) (mkSlots 1 [Holding; Refused])).
  by apply race_reach.
Defined.

Lemma acquire_decides_witness :
  acquire_alone 1 2 0 (arrive (mkSlots 0 [])) = Some (mkSlots 1 [Holding]).
Proof.
  rewrite (acquire_decides 1 ltac:(by vm_compute) 0 (arrive (mkSlots 0 []))); [done| |done].
  eapply slots_next; [apply slots_init|apply slots_arrive].
Defined.
