(* ===== verification/Serve.v ===== *)
(** * The whole server (signal/src/lib.rs [SignalingServer::run], server.rs [handle_connection])

    The accept loop, the connection counter, the stages of every connection and
    the interleaved handlers in one step relation: a stream is accepted, given a
    slot or dropped, peeked at, shaken hands with, served by its handler, and its
    slot given back; all of it interleaved with the other connections.  Steps
    that a client causes carry its label, so that what happens without a client
    is a property of executions. *)

From S2P Require Import Prelude RStr Mpsc Protocol Room RoomFacts RoomSpec RoomConc Validate RateLimit IpAddr.
From S2P Require Import ClientIp Server ServerFacts ServerExamples Ops Interleave InterleaveProps Slots.

Open Scope Z_scope.

(** Where the accept loop is: waiting for a stream, or taking a slot for one. *)
Inductive accepting :=
| Waiting
| Acquiring (id : nat) (addr : IpAddr) (t : task).

(** Where [handle_connection] is for a stream that has a slot, up to its return
    and the drop of its guard. *)
Inductive stage :=
| Peeking (addr : IpAddr)
| Handshaking (addr : IpAddr)
| Serving
| Returned
| Ended.

#[export] Instance stage_eq_dec : EqDecision stage.
Proof. solve_decision. Defined.

Section Serve.
Context {V : Type}.
Context (from_str : string -> Result (ClientMessage V) string).
Context (to_string : ServerMessage V -> option string).
Context (server : SignalingServer).

Record serve := Serve {
  v_loop : accepting;
  v_active : Z;
  v_stages : gmap nat stage;
  v_sys : system (V := V);
}.

Definition serve_boot : serve := Serve Waiting 0 ∅ sys_boot.

(** One step of [try_acquire_slot] for the stream just accepted; with a guard
    the handler is spawned, without one the stream is dropped. *)
Definition acquire (id : nat) (addr : IpAddr) (t : task) (s : serve) : serve :=
  let counter := mkSlots (v_active s) [] in
  match t with
  | Trying =>
    match load_step (ss_max_connections server) counter with
    | Refused => Serve Waiting (v_active s) (v_stages s) (v_sys s)
    | t => Serve (Acquiring id addr t) (v_active s) (v_stages s) (v_sys s)
    end
  | Loaded current =>
    match cas_step current counter with
    | (n, Holding) => Serve Waiting n (<[id := Peeking addr]> (v_stages s)) (v_sys s)
    | (n, t) => Serve (Acquiring id addr t) n (v_stages s) (v_sys s)
    end
  | _ => s
  end.

Definition set_stage (id : nat) (st : stage) (s : serve) : serve :=
  Serve (v_loop s) (v_active s) (<[id := st]> (v_stages s)) (v_sys s).

(** The request is peeked at. *)
Definition peeked (id : nat) (addr : IpAddr) (r : Result string unit) (s : serve) : serve :=
  match admit_stream r with
  | Handshake => set_stage id (Handshaking addr) s
  | Health _ | PeekFailed => set_stage id Returned s
  end.

(** The handshake ends, with the headers the callback saw. *)
Definition shaken (id : nat) (addr : IpAddr) (now : Z) (r : Result Headers unit) (s : serve) : serve :=
  match r with
  | Ok h =>
    let ip := client_ip (ss_trusted_proxies server) addr h in
    Serve (v_loop s) (v_active s) (<[id := Serving]> (v_stages s)) (sys_accepted id ip now (v_sys s))
  | Err _ => set_stage id Returned s
  end.

Definition drop_slot (id : nat) (s : serve) : serve :=
  Serve (v_loop s) (drop_guard (mkSlots (v_active s) [])) (<[id := Ended]> (v_stages s)) (v_sys s).

Inductive serve_step : option nat -> serve -> serve -> Prop :=
| serve_arrive id addr s :
    v_loop s = Waiting -> v_stages s !! id = None ->
    serve_step None s (Serve (Acquiring id addr Trying) (v_active s) (v_stages s) (v_sys s))
| serve_accept_failed s : v_loop s = Waiting -> serve_step None s s
| serve_acquire id addr t s :
    v_loop s = Acquiring id addr t -> serve_step None s (acquire id addr t s)
| serve_peek id addr r s :
    v_stages s !! id = Some (Peeking addr) -> serve_step (Some id) s (peeked id addr r s)
| serve_shake id addr now r s :
    v_stages s !! id = Some (Handshaking addr) -> serve_step (Some id) s (shaken id addr now r s)
| serve_run l s y :
    sys_act from_str to_string l (v_sys s) y ->
    serve_step l s (Serve (v_loop s) (v_active s) (v_stages s) y)
| serve_return id c s :
    v_stages s !! id = Some Serving -> y_threads (v_sys s) !! id = Some (Idle c) ->
    c_phase c = Closed -> serve_step None s (set_stage id Returned s)
| serve_drop id s :
    v_stages s !! id = Some Returned -> serve_step None s (drop_slot id s).

Inductive serve_reach : nat -> serve -> Prop :=
| serve_reach_boot : serve_reach 0 serve_boot
| serve_reach_step n l s s' : serve_reach n s -> serve_step l s s' -> serve_reach (S n) s'.

(** ** The slots in use *)

Definition in_use (st : stage) : bool := match st with Ended => false | _ => true end.

Definition holders (s : serve) : gset nat := dom (filter (fun x => in_use x.2 = true) (v_stages s)).

Lemma elem_of_holders id s :
  id ∈ holders s <-> exists st, v_stages s !! id = Some st /\ in_use st = true.
Proof.
  unfold holders. rewrite elem_of_dom. split.
  - intros [st [Hl Hw]%map_lookup_filter_Some]. by exists st.
  - intros (st & Hl & Hw). exists st. by apply map_lookup_filter_Some.
Qed.

Lemma holders_insert id st s active loop y :
  holders (Serve loop active (<[id := st]> (v_stages s)) y) =
    if in_use st then {[id]} ∪ holders s else holders s ∖ {[id]}.
Proof.
  apply set_eq. intros i. rewrite elem_of_holders. cbn.
  assert (Hi : (if in_use st then i ∈ ({[id]} : gset nat) ∪ holders s else i ∈ holders s ∖ {[id]}) <->
    i ∈ (if in_use st then ({[id]} : gset nat) ∪ holders s else holders s ∖ {[id]})) by (by destruct (in_use st)).
  rewrite <-Hi. destruct (decide (i = id)) as [->|Hne].
  - rewrite lookup_insert_eq. destruct (in_use st) eqn:E; [set_solver by eauto|].
    split; [intros (st' & [= <-] & ?); congruence|set_solver].
  - rewrite lookup_insert_ne, <-elem_of_holders by done. destruct (in_use st); set_solver.
Qed.

(** A task of the runtime belongs to a stream past its handshake, and one that
    has returned is closed. *)
Definition staged (st : option stage) (th : thread (V := V)) : Prop :=
  match st with
  | Some Serving => True
  | Some Returned | Some Ended => exists c, th = Idle c /\ c_phase c = Closed
  | _ => False
  end.

Definition loop_ok (s : serve) : Prop :=
  match v_loop s with
  | Waiting => True
  | Acquiring id _ t =>
    v_stages s !! id = None /\
    match t with Trying => True | Loaded n => 0 <= n < ss_max_connections server | _ => False end
  end.

Record serve_ok (n : nat) (s : serve) : Prop := {
  vo_sys : exists m, (m <= n)%nat /\ sys_reach from_str to_string m (v_sys s);
  vo_count : v_active s = Z.of_nat (size (holders s));
  vo_limit : v_active s <= ss_max_connections server;
  vo_loop : loop_ok s;
  vo_staged : forall id th, y_threads (v_sys s) !! id = Some th -> staged (v_stages s !! id) th;
  vo_fresh : forall id, is_Some (w_chans (y_world (v_sys s)) !! id) -> is_Some (y_threads (v_sys s) !! id);
}.

(** ** The invariant *)

Lemma exec_dom {B} (o : op V B) w : dom (w_chans (exec o w).2) = dom (w_chans w).
Proof.
  destruct o; cbn; try done.
  - unfold add_peer_entry. destruct (_ <=? _); cbn; [done|apply send_all_dom].
  - unfold remove_peer_entry. destruct (w_rooms w !! ip); [|done].
    destruct (_ <? _); cbn; [apply send_all_dom|done].
  - destruct (send tx m (w_chans w)) as [r cs] eqn:Hs. cbn.
    replace cs with (send_ tx m (w_chans w)) by (unfold send_; by rewrite Hs). apply send__dom.
  - apply dom_alter_L.
Qed.

Definition at_rest (th : thread (V := V)) : Prop := exists c, th = Idle c /\ c_phase c = Closed.

(** A move of the handlers adds no channel and no task, and leaves alone the
    tasks that are done. *)
Lemma act_frame l y y' :
  sys_act from_str to_string l y y' ->
  dom (w_chans (y_world y')) = dom (w_chans (y_world y)) /\
  dom (y_threads y') = dom (y_threads y) /\
  (forall id th, y_threads y !! id = Some th -> at_rest th -> y_threads y' !! id = Some th).
Proof.
  assert (Hthread : forall id th th' y0, y_threads y0 !! id = Some th -> ~ at_rest th ->
    dom (<[id := th']> (y_threads y0)) = dom (y_threads y0) /\
    (forall i t, y_threads y0 !! i = Some t -> at_rest t -> <[id := th']> (y_threads y0) !! i = Some t)).
  { intros id th th' y0 Hid Hno. split; [by apply dom_insert_lookup_L|]. intros i t Hi Hrest.
    rewrite lookup_insert_ne; [done|]. intros <-. rewrite Hid in Hi. by injection Hi as <-. }
  intros [id c now t p y1 Hid Hp|id c B o k y1 Hid|id c c' y1 Hid|id ch ch' y1 Hch _].
  - split; [done|]. apply (Hthread id (Idle c)); [done|]. intros (c0 & [= <-] & Hph).
    unfold handle_p in Hp. by rewrite Hph in Hp.
  - pose proof (exec_dom o (y_world y1)) as Hd. unfold access.
    destruct (exec o (y_world y1)) as [b w']. split; [done|].
    apply (Hthread id (Busy c (Call o k))); [done|]. by intros (c0 & ? & _).
  - split; [done|]. apply (Hthread id (Busy c (Ret c'))); [done|]. by intros (c0 & ? & _).
  - split; [by apply dom_insert_lookup_L; exists ch|done].
Qed.

Hypothesis limit_range : 0 <= ss_max_connections server < u64_modulus.

Lemma loop_ok_stages s loop active st id :
  is_Some (v_stages s !! id) ->
  loop_ok s -> loop_ok (Serve (v_loop s) active (<[id := st]> (v_stages s)) loop).
Proof.
  unfold loop_ok. cbn. destruct (v_loop s) as [|i a t]; [done|]. intros [? Hid] [Hi Ht].
  split; [|done]. rewrite lookup_insert_ne; [done|]. congruence.
Qed.

(** A stage that keeps its slot moves on. *)
Lemma serve_ok_stage n s id st0 st y :
  serve_ok n s -> v_stages s !! id = Some st0 -> in_use st0 = true -> in_use st = true ->
  (exists m, (m <= S n)%nat /\ sys_reach from_str to_string m y) ->
  (forall i th, y_threads y !! i = Some th -> staged (<[id := st]> (v_stages s) !! i) th) ->
  (forall i, is_Some (w_chans (y_world y) !! i) -> is_Some (y_threads y !! i)) ->
  serve_ok (S n) (Serve (v_loop s) (v_active s) (<[id := st]> (v_stages s)) y).
Proof.
  intros [Hsys Hcount Hlimit Hloop Hstaged Hfresh] Hid Huse Huse' Hy Hst Hfr.
  split; cbn; try done; [|by apply loop_ok_stages].
  rewrite holders_insert, Huse'. rewrite Hcount. do 2 f_equal.
  assert (Hin : id ∈ holders s) by (apply elem_of_holders; by exists st0). set_solver.
Qed.

Lemma serve_acquire_ok n s id addr t :
  serve_ok n s -> v_loop s = Acquiring id addr t -> serve_ok (S n) (acquire id addr t s).
Proof.
  intros [(m & Hm & Hsys) Hcount Hlimit Hloop Hstaged Hfresh] Hl. unfold loop_ok in Hloop. rewrite Hl in Hloop.
  destruct Hloop as [Hid Ht]. assert (Hm' : exists m', (m' <= S n)%nat /\ sys_reach from_str to_string m' (v_sys s)).
  { exists m. split; [lia|done]. }
  destruct t as [|current| | |]; try done; cbn.
  - unfold load_step. cbn. destruct (Z.leb_spec (ss_max_connections server) (v_active s)); split; try done.
    split; [done|]. rewrite Hcount. cbn. lia.
  - unfold cas_step. cbn. destruct (Z.eqb_spec (v_active s) current) as [<-|_]; [|by split].
    assert (Hno : id ∉ holders s).
    { intros (st & Hst & _)%elem_of_holders. congruence. }
    rewrite wrap_u64_small by lia. split; cbn; try done; [|lia|].
    + rewrite holders_insert. cbn. rewrite size_union by set_solver. rewrite size_singleton. lia.
    + intros i th Hth. specialize (Hstaged i th Hth). rewrite lookup_insert_ne; [done|].
      intros <-. by rewrite Hid in Hstaged.
Qed.

Lemma serve_drop_ok n s id :
  serve_ok n s -> v_stages s !! id = Some Returned -> serve_ok (S n) (drop_slot id s).
Proof.
  intros [(m & Hm & Hsys) Hcount Hlimit Hloop Hstaged Hfresh] Hid.
  assert (Hin : id ∈ holders s) by (apply elem_of_holders; by exists Returned).
  assert (Hpos : (size (holders s) <> 0)%nat) by (intros E%size_empty_inv; set_solver).
  unfold drop_slot, drop_guard. cbn. rewrite wrap_u64_small by lia.
  split; cbn; try done; [exists m; split; [lia|done]| |lia|by apply loop_ok_stages|].
  - rewrite holders_insert. cbn. rewrite size_difference, size_singleton by set_solver. lia.
  - intros i th Hth. specialize (Hstaged i th Hth). destruct (decide (i = id)) as [->|Hne].
    + rewrite lookup_insert_eq. by rewrite Hid in Hstaged.
    + by rewrite lookup_insert_ne.
Qed.

Lemma serve_step_ok n l s s' : serve_ok n s -> serve_step l s s' -> serve_ok (S n) s'.
Proof.
  intros Hok Hstep. pose proof Hok as [(m & Hm & Hsys) Hcount Hlimit Hloop Hstaged Hfresh].
  assert (Hm' : exists m', (m' <= S n)%nat /\ sys_reach from_str to_string m' (v_sys s)).
  { exists m. split; [lia|done]. }
  assert (Hsame : forall id st0 st, v_stages s !! id = Some st0 -> in_use st0 = true -> in_use st = true ->
    (forall th, y_threads (v_sys s) !! id = Some th -> staged (Some st) th) ->
    serve_ok (S n) (set_stage id st s)).
  { intros id st0 st Hid Hu Hu' Hst. eapply serve_ok_stage; try done. intros i th Hth.
    destruct (decide (i = id)) as [->|Hne]; [rewrite lookup_insert_eq; auto|rewrite lookup_insert_ne; auto]. }
  assert (Hnone : forall id st th, v_stages s !! id = Some st -> (forall t, ~ staged (Some st) t) ->
    y_threads (v_sys s) !! id <> Some th).
  { intros id st th Hid Hno Hth. apply (Hno th). rewrite <-Hid. auto. }
  destruct Hstep as [id addr s Hl Hid|s Hl|id addr t s Hl|id addr r s Hid|id addr now r s Hid|l s y Hact
    |id c s Hid Hc Hph|id s Hid].
  - by split.
  - by split.
  - by apply serve_acquire_ok.
  - assert (Hno : forall th, y_threads (v_sys s) !! id <> Some th) by (intros th; by eapply Hnone; [done|intros t []]).
    unfold peeked. destruct (admit_stream r); (eapply Hsame; [done..|]); by intros th ?%Hno.
  - assert (Hno : forall th, y_threads (v_sys s) !! id <> Some th) by (intros th; by eapply Hnone; [done|intros t []]).
    destruct r as [h|[]]; [|eapply Hsame; [done..|]; by intros th ?%Hno]. cbn.
    eapply serve_ok_stage; try done; cbn.
    + exists (S m). split; [lia|]. eapply sys_reach_step; [done|]. apply sys_accept.
      destruct (w_chans (y_world (v_sys s)) !! id) eqn:E; [|done].
      destruct (Hfresh id) as [th Hth]; [by eexists|]. by apply Hno in Hth.
    + intros i th. destruct (decide (i = id)) as [->|Hne]; [by rewrite !lookup_insert_eq|].
      rewrite !lookup_insert_ne by done. auto.
    + intros i. rewrite !lookup_insert_is_Some. naive_solver.
  - destruct (act_frame l (v_sys s) y Hact) as (Hd & Ht & Hrest). split; cbn; try done.
    + exists (S m). split; [lia|]. by eapply sys_reach_step, sys_acts.
    + intros i th Hth. assert (Hsome : i ∈ dom (y_threads (v_sys s))) by (rewrite <-Ht; by apply elem_of_dom).
      apply elem_of_dom in Hsome as [th0 Hth0]. pose proof (Hstaged i th0 Hth0) as Hst.
      assert (Hr : at_rest th0 -> th = th0) by (intros Hr%(Hrest i th0 Hth0); congruence).
      destruct (v_stages s !! i) as [[]|]; try done; by rewrite Hr.
    + intros i. rewrite <-!elem_of_dom, Hd, Ht, !elem_of_dom. auto.
  - eapply Hsame; [done..|]. intros th. rewrite Hc. intros [= <-]. by exists c.
  - by apply serve_drop_ok.
Qed.

Lemma serve_reach_ok n s : serve_reach n s -> serve_ok n s.
Proof.
  induction 1 as [|n l s s' _ IH Hstep]; [|by eapply serve_step_ok].
  split; cbn; [exists 0%nat; split; [lia|constructor]| |lia|done|..].
  - unfold holders. cbn. by rewrite map_filter_empty, dom_empty_L, size_empty.
  - intros id th. by rewrite lookup_empty.
  - intros id. rewrite lookup_empty. by intros [].
Qed.

(** ** Limits of the whole *)

Lemma workers_hold n s : serve_ok n s -> workers (v_sys s) ⊆ holders s.
Proof.
  intros Hok id (th & Hth & Hw)%elem_of_workers. pose proof (vo_staged _ _ Hok id th Hth) as Hst.
  assert (Hrest : ~ at_rest th).
  { intros (c & -> & Hph). unfold at_work in Hw. by rewrite Hph in Hw. }
  apply elem_of_holders. destruct (v_stages s !! id) as [st|]; [|done]. exists st. split; [done|].
  by destruct st.
Qed.

(** C3: the whole server, whatever the interleaving: the counter is the number
    of streams that were given a slot and have not given it back, within the
    configured limit; the room table has no more rooms, and no room more
    peers, than that; every peer in it is served by a connection that holds a
    slot; and with a limit below [MAX_ROOMS], as by default, no registration is
    ever refused for the number of rooms. *)
Theorem served_within_limits n s :
  serve_reach n s -> young n ->
  v_active s = Z.of_nat (size (holders s)) /\ v_active s <= ss_max_connections server /\
  Z.of_nat (size (w_rooms (y_world (v_sys s)))) <= v_active s /\
  (forall ip, vec_len (peers_at ip (y_world (v_sys s))) <= v_active s) /\
  (forall ip p, p ∈ peers_at ip (y_world (v_sys s)) -> v_stages s !! peer_sender p = Some Serving) /\
  (ss_max_connections server < MAX_ROOMS ->
     (MAX_ROOMS <=? (exec CountRooms (y_world (v_sys s))).1) = false).
Proof.
  intros Hr Hy. pose proof (serve_reach_ok n s Hr) as Hok.
  pose proof Hok as [(m & Hm & Hsys) Hcount Hlimit _ Hstaged _].
  assert (Hym : young m) by (unfold young in *; lia).
  pose proof (table_within_connections from_str to_string m (v_sys s) Hsys Hym) as [Hrooms Hpeers].
  pose proof (workers_hold n s Hok) as Hw. pose proof (subseteq_size _ _ Hw) as Hsize.
  split_and!; [done|done|lia|..].
  - intros ip. specialize (Hpeers ip). unfold vec_len. lia.
  - intros ip p Hp.
    destruct (no_ghost_thread from_str to_string m (v_sys s) Hsys Hym ip p Hp) as (th & Hth & Hwork).
    pose proof (Hstaged _ th Hth) as Hst.
    assert (Hrest : ~ at_rest th) by (intros (c & -> & Hph); unfold at_work in Hwork; by rewrite Hph in Hwork).
    by destruct (v_stages s !! peer_sender p) as [[]|].
  - intros Hmax. apply Z.leb_gt. cbn. lia.
Qed.

(** A step of the limiter of a connection that is served, with no wrap-around. *)
Lemma check_exact now rl :
  strict rl ->
  let '(verdict, rl') := check now rl in
  loose rl' /\
  remaining rl' = remaining (refill now rl) - (if is_err verdict then 0 else 1) /\
  consecutive_violations rl' = (if is_err verdict then consecutive_violations rl + 1 else 0).
Proof.
  intros Hrl. destruct (check now rl) as [v rl'] eqn:Hc. split.
  { apply (check_strict now rl v rl' Hrl) in Hc. destruct v as [|[]]; auto using strict_loose. }
  destruct Hrl as [_ Hv]. unfold RATE_LIMIT_CLOSE_THRESHOLD in Hv. unfold check in Hc.
  rewrite refill_violations in Hc. destruct (0 <? remaining (refill now rl)); injection Hc as <- <-; cbn.
  - lia.
  - unfold wrap_u32. rewrite Z.mod_small by (unfold u32_modulus; lia). lia.
Qed.

(** C11: no machine integer of the server wraps.  In every reachable state:
    when a connection is about to give its slot back the counter is positive,
    and giving it back takes exactly one off; when the compare-exchange of the
    accept loop succeeds the counter is below the limit, and it adds exactly
    one; a session id is taken from a counter with room for the next, and every
    id handed out is positive and below it; and the next check of a connection
    that is served takes at most one off a budget of at most fifty that never
    goes below zero, and adds exactly one to a count of violations of at most
    three or clears it. *)
Theorem machine_integers_in_range n s :
  serve_reach n s -> young n ->
  (forall id, v_stages s !! id = Some Returned ->
     0 < v_active s < u64_modulus /\ v_active (drop_slot id s) = v_active s - 1) /\
  (forall id addr current, v_loop s = Acquiring id addr (Loaded current) ->
     v_loop (acquire id addr (Loaded current) s) = Waiting ->
     v_active s < ss_max_connections server < u64_modulus /\
     v_active (acquire id addr (Loaded current) s) = v_active s + 1) /\
  (fetch_session_id (y_world (v_sys s))).1 + 1 = w_next (fetch_session_id (y_world (v_sys s))).2 /\
  w_next (fetch_session_id (y_world (v_sys s))).2 < u64_modulus /\
  (forall ip p, p ∈ peers_at ip (y_world (v_sys s)) -> 0 < session_id p < w_next (y_world (v_sys s))) /\
  (forall id c now, y_threads (v_sys s) !! id = Some (Idle c) -> c_phase c <> Closed ->
     let '(verdict, rl) := check now (c_rate c) in
     0 <= remaining rl <= RATE_LIMIT_PER_SECOND /\
     remaining rl = remaining (refill now (c_rate c)) - (if is_err verdict then 0 else 1) /\
     0 <= consecutive_violations rl <= RATE_LIMIT_CLOSE_THRESHOLD /\
     consecutive_violations rl =
       (if is_err verdict then consecutive_violations (c_rate c) + 1 else 0)).
Proof.
  intros Hr Hy. pose proof (serve_reach_ok n s Hr) as [(m & Hm & Hsys) Hcount Hlimit Hloop _ _].
  assert (Hym : young m) by (unfold young in *; lia).
  destruct (sys_reach_ok from_str to_string m (v_sys s) Hsys Hym) as [gh [Hinv Hnext Hth _]].
  pose proof (i_next _ _ Hinv) as Hpos. unfold young in Hy. split_and!.
  - intros id Hid. assert (Hin : id ∈ holders s) by (apply elem_of_holders; by exists Returned).
    assert (Hne : (size (holders s) <> 0)%nat) by (intros E%size_empty_inv; set_solver).
    unfold drop_slot, drop_guard. cbn. rewrite wrap_u64_small by lia. lia.
  - intros id addr current Hl. unfold loop_ok in Hloop. rewrite Hl in Hloop. destruct Hloop as [_ Hc].
    unfold acquire, cas_step. cbn. destruct (Z.eqb_spec (v_active s) current) as [Heq|]; [|done].
    intros _. cbn. rewrite wrap_u64_small by lia. lia.
  - cbn. by rewrite wrap_u64_small by lia.
  - cbn. rewrite wrap_u64_small by lia. lia.
  - intros ip p Hp. eapply (i_sids _ _ Hinv); [by apply (i_entries _ _ Hinv ip)|done].
  - intros id c now Hc Hph. destruct (Hth id _ Hc) as (g & Hg & _ & _ & Hrate).
    assert (Hst : strict (c_rate c)) by (by destruct (c_phase c)).
    pose proof (check_exact now _ Hst) as He. destruct (check now (c_rate c)) as [v rl].
    destruct He as ([? ?] & ? & ?). done.
Qed.

(** ** The accept loop always comes back *)

Definition execution (tr : nat -> serve) : Prop := forall i, exists l, serve_step l (tr i) (tr (S i)).

(** The accept loop is run again and again, however rarely. *)
Definition loop_scheduled (tr : nat -> serve) : Prop :=
  forall i, exists j, (i <= j)%nat /\
    (v_loop (tr j) = Waiting \/
     exists id addr t, v_loop (tr j) = Acquiring id addr t /\ tr (S j) = acquire id addr t (tr j)).

(** What the loop has ahead of it at most: a turn for every slot still to be
    given back. *)
Definition ahead (s : serve) : Z :=
  match v_loop s with
  | Waiting => 0
  | Acquiring _ _ (Loaded n) => if n =? v_active s then 2 * v_active s + 1 else 2 * v_active s + 3
  | Acquiring _ _ _ => 2 * v_active s + 2
  end.

Lemma ahead_acquire n s id addr t :
  serve_ok n s -> v_loop s = Acquiring id addr t ->
  let s' := acquire id addr t s in v_loop s' = Waiting \/ ahead s' < ahead s.
Proof.
  intros [_ Hcount Hlimit Hloop _ _] Hl. unfold loop_ok in Hloop. unfold ahead. rewrite Hl in *.
  destruct Hloop as [_ Ht]. destruct t as [|current| | |]; try done; cbn.
  - unfold load_step. cbn. destruct (_ <=? _); [by left|right]. cbn. rewrite Z.eqb_refl. lia.
  - unfold cas_step. cbn. rewrite (Z.eqb_sym current). destruct (_ =? _); [by left|right]. cbn. lia.
Qed.

Lemma ahead_step n l s s' :
  serve_ok n s -> serve_step l s s' -> v_loop s <> Waiting -> v_loop s' = Waiting \/ ahead s' <= ahead s.
Proof.
  intros Hok Hstep Hbusy. assert (Hsame : forall y stages, ahead (Serve (v_loop s) (v_active s) stages y) <= ahead s).
  { intros y stages. unfold ahead. cbn. lia. }
  pose proof Hok as [_ Hcount Hlimit Hloop _ _].
  destruct Hstep as [id addr s Hl Hid|s Hl|id addr t s Hl|id addr r s Hid|id addr now r s Hid|l s y Hact
    |id c s Hid Hc Hph|id s Hid]; try (by left); try done; try (right; apply Hsame).
  - destruct (ahead_acquire n s id addr t Hok Hl); [by left|right; lia].
  - right. unfold peeked. destruct (admit_stream r); apply Hsame.
  - right. destruct r as [h|]; apply Hsame.
  - right. assert (Hin : id ∈ holders s) by (apply elem_of_holders; by exists Returned).
    assert (Hpos : (size (holders s) <> 0)%nat) by (intros E%size_empty_inv; set_solver).
    unfold ahead, drop_slot, drop_guard. cbn. rewrite wrap_u64_small by lia.
    destruct (v_loop s) as [|i a t]; [lia|]. destruct t as [|current| | |]; try lia.
    destruct (Z.eqb_spec current (v_active s)), (Z.eqb_spec current (v_active s - 1)); lia.
Qed.

Lemma trace_reach tr i n :
  serve_reach n (tr 0%nat) -> execution tr -> serve_reach (n + i) (tr i).
Proof.
  intros Hr Htr. induction i as [|i IH]; [by rewrite Nat.add_0_r|].
  rewrite Nat.add_succ_r. destruct (Htr i) as [l Hl]. by eapply serve_reach_step.
Qed.

Lemma waiting_dec s : v_loop s = Waiting \/ v_loop s <> Waiting.
Proof. destruct (v_loop s); [by left|by right]. Qed.

(** Until the loop is back its work does not grow. *)
Lemma ahead_until tr n i j :
  serve_reach n (tr 0%nat) -> execution tr -> (i <= j)%nat ->
  (exists k, (i <= k <= j)%nat /\ v_loop (tr k) = Waiting) \/ ahead (tr j) <= ahead (tr i).
Proof.
  intros Hr Htr. induction 1 as [|j Hij [(k & Hk & Hw)|Hle]]; [by right| |].
  - left. exists k. split; [lia|done].
  - destruct (waiting_dec (tr j)) as [Hw|Hw]; [left; exists j; by split; [lia|]|].
    destruct (Htr j) as [l Hl].
    destruct (ahead_step (n + j) l (tr j) (tr (S j))) as [Hw'|Hle']; try done.
    + by eapply serve_reach_ok, trace_reach.
    + left. exists (S j). by split; [lia|].
    + right. lia.
Qed.

Lemma ahead_nonneg n s : serve_ok n s -> 0 <= ahead s.
Proof.
  intros [_ Hcount _ _ _ _]. unfold ahead. destruct (v_loop s) as [|? ? []]; try lia.
  destruct (_ =? _); lia.
Qed.

(** C8: liveness of the accept loop: in every execution in which the loop is
    scheduled again and again, it always gets back to accepting, whatever the
    other connections do in between.  The compare-exchange of
    [try_acquire_slot] fails only when a connection has given its slot back
    since the load, which only the connections that hold one can do; the loop
    cannot be kept from an answer. *)
Theorem accept_loop_returns tr n :
  serve_reach n (tr 0%nat) -> execution tr -> loop_scheduled tr ->
  forall i, exists j, (i <= j)%nat /\ v_loop (tr j) = Waiting.
Proof.
  intros Hr Htr Hsched i.
  assert (Hrec : forall m i, Z.to_nat (ahead (tr i)) = m -> exists j, (i <= j)%nat /\ v_loop (tr j) = Waiting);
    [|by eapply Hrec].
  clear i. intros m. induction (lt_wf m) as [m _ IH]. intros i Him.
  destruct (Hsched i) as (j & Hij & [Hw|(id & addr & t & Hl & Hnext)]); [by exists j|].
  destruct (ahead_until tr n i j Hr Htr Hij) as [(k & Hk & Hw)|Hle]; [exists k; split; [lia|done]|].
  assert (Hok : forall k, serve_ok (n + k) (tr k)) by (intros k; by apply serve_reach_ok, trace_reach).
  destruct (ahead_acquire (n + j) (tr j) id addr t (Hok j) Hl) as [Hw|Hlt]; rewrite <-Hnext in *.
  - exists (S j). split; [lia|done].
  - pose proof (ahead_nonneg _ _ (Hok (S j))) as Hpos.
    destruct (IH (Z.to_nat (ahead (tr (S j))))) with (i := S j) as (k & Hk & Hw); [lia|done|].
    exists k. split; [lia|done].
Qed.

(** ** Clients that never speak *)

(** A connection nothing has been heard from since its stream, or since its
    handshake: no timeout runs for it. *)
Definition silent (id : nat) (s : serve) : Prop :=
  match v_stages s !! id with
  | Some (Peeking _) | Some (Handshaking _) => True
  | Some Serving => exists c, y_threads (v_sys s) !! id = Some (Idle c) /\ c_phase c = Registering
  | _ => False
  end.

(** An execution in which nothing is heard from the clients [X]. *)
Inductive without (X : gset nat) : serve -> serve -> Prop :=
| without_refl s : without X s s
| without_step s s' s'' l :
    (forall id, l = Some id -> id ∉ X) -> serve_step l s s' -> without X s' s'' -> without X s s''.

Lemma act_silent l y y' id c :
  sys_act from_str to_string l y y' -> l <> Some id ->
  y_threads y !! id = Some (Idle c) -> c_phase c = Registering -> y_threads y' !! id = Some (Idle c).
Proof.
  intros Hact Hl Hid Hph.
  destruct Hact as [i c0 now t p y1 Hi Hp|i c0 B o k y1 Hi|i c0 c' y1 Hi|i ch ch' y1 Hch _]; [..|done].
  - cbn. rewrite lookup_insert_ne; [done|]. intros ->. rewrite Hid in Hi. injection Hi as <-.
    unfold handle_p in Hp. rewrite Hph in Hp. by destruct t.
  - unfold access. destruct (exec o (y_world y1)). cbn. rewrite lookup_insert_ne; [done|]. intros ->. congruence.
  - cbn. rewrite lookup_insert_ne; [done|]. intros ->. congruence.
Qed.

(** Another connection's stage changes. *)
Lemma silent_other id i st loop active y s :
  id <> i -> (forall th, y_threads (v_sys s) !! id = Some th -> y_threads y !! id = Some th) ->
  silent id s -> silent id (Serve loop active (<[i := st]> (v_stages s)) y).
Proof.
  intros Hne Hy. unfold silent. cbn. rewrite lookup_insert_ne by done.
  destruct (v_stages s !! id) as [[]|]; try done. intros (c & ? & ?). exists c. auto.
Qed.

Lemma silent_holder id s : silent id s -> id ∈ holders s.
Proof.
  unfold silent. intros Hs. apply elem_of_holders.
  destruct (v_stages s !! id) as [st|]; [|done]. exists st. by destruct st.
Qed.

Lemma silent_step n l s s' id :
  serve_ok n s -> serve_step l s s' -> l <> Some id -> silent id s -> silent id s'.
Proof.
  intros Hok Hstep Hl Hsil.
  assert (Hstage : forall i st, id <> i -> silent id (set_stage i st s)).
  { intros i st Hne. by apply silent_other. }
  pose proof (vo_loop _ _ Hok) as Hloop. unfold loop_ok in Hloop.
  destruct Hstep as [i addr s Hw Hi|s Hw|i addr t s Hi|i addr r s Hi|i addr now r s Hi|l s y Hact
    |i c s Hi Hc Hph|i s Hi]; try done.
  - rewrite Hi in Hloop. destruct Hloop as [Hno Ht]. unfold acquire. destruct t as [|current| | |]; try done.
    + by destruct (load_step _ _).
    + destruct (cas_step current _) as [k []]; try done. apply silent_other; [|done|done].
      intros ->. unfold silent in Hsil. by rewrite Hno in Hsil.
  - assert (id <> i) by congruence. unfold peeked. destruct (admit_stream r); auto.
  - assert (id <> i) by congruence. destruct r as [h|]; [|by apply Hstage]. apply silent_other; [done| |done].
    intros th. cbn. by rewrite lookup_insert_ne.
  - unfold silent in *. cbn. destruct (v_stages s !! id) as [[]|]; try done.
    destruct Hsil as (c & Hc & Hph). exists c. split; [|done]. by eapply act_silent.
  - apply Hstage. intros ->. unfold silent in Hsil. rewrite Hi in Hsil. destruct Hsil as (c' & Hc' & Hph').
    congruence.
  - apply silent_other; [|done|done]. intros ->. unfold silent in Hsil. by rewrite Hi in Hsil.
Qed.

(** Every slot is with a silent client. *)
Lemma all_silent n s X :
  serve_ok n s -> (forall id, id ∈ X -> silent id s) -> Z.of_nat (size X) = ss_max_connections server ->
  holders s = X /\ v_active s = ss_max_connections server.
Proof.
  intros [_ Hcount Hlimit _ _ _] Hsil HX.
  assert (Hsub : X ⊆ holders s) by (intros id Hid; by apply silent_holder, Hsil).
  pose proof (subseteq_size _ _ Hsub) as Hsize.
  split; [|lia]. symmetry. apply set_eq, set_subseteq_size_equiv; [done|lia].
Qed.

(** With no slot free no stream is given one. *)
Lemma full_no_spawn n l s s' :
  serve_ok n s -> v_active s = ss_max_connections server -> serve_step l s s' ->
  dom (v_stages s') = dom (v_stages s).
Proof.
  intros Hok Hfull Hstep. pose proof (vo_loop _ _ Hok) as Hloop. unfold loop_ok in Hloop.
  assert (Hd : forall id st st', v_stages s !! id = Some st -> dom (<[id := st']> (v_stages s)) = dom (v_stages s)).
  { intros id st st' Hid. apply dom_insert_lookup_L. by exists st. }
  destruct Hstep as [i addr s Hw Hi|s Hw|i addr t s Hi|i addr r s Hi|i addr now r s Hi|l s y Hact
    |i c s Hi Hc Hph|i s Hi]; try done; try (by eapply Hd).
  - rewrite Hi in Hloop. destruct Hloop as [Hno Ht]. unfold acquire. destruct t as [|current| | |]; try done.
    + by destruct (load_step _ _).
    + unfold cas_step. cbn. destruct (Z.eqb_spec (v_active s) current); [lia|done].
  - unfold peeked. destruct (admit_stream r); by eapply Hd.
  - destruct r; by eapply Hd.
Qed.

(** C35: clients that connect and then say nothing are never timed out: neither
    the peek, nor the handshake, nor the wait for the registration has a
    timeout.  Once as many of them as the limit allows hold the slots, then for
    as long as they stay silent, whatever all others do, no other stream is ever
    given a slot. *)
Theorem silent_clients_starve n s s' X :
  serve_reach n s -> (forall id, id ∈ X -> silent id s) ->
  Z.of_nat (size X) = ss_max_connections server -> without X s s' ->
  holders s' = X /\ dom (v_stages s') = dom (v_stages s) /\ forall id, id ∈ X -> silent id s'.
Proof.
  intros Hr Hsil HX Hw. pose proof (serve_reach_ok n s Hr) as Hok. clear Hr. revert n Hok Hsil.
  induction Hw as [s|s s1 s2 l Hl Hstep Hw IH]; intros n Hok Hsil.
  - pose proof (all_silent n s X Hok Hsil HX) as [? _]. by split_and!.
  - pose proof (all_silent n s X Hok Hsil HX) as [_ Hfull].
    pose proof (full_no_spawn n l s s1 Hok Hfull Hstep) as Hdom.
    destruct (IH (S n)) as (? & ? & ?); [by eapply serve_step_ok| |].
    + intros id Hid. apply (silent_step n l s); [done..| |by apply Hsil]. intros ->. by eapply Hl.
    + split_and!; [done|congruence|done].
Qed.
End Serve.

(** ** Witnesses *)

Definition one_slot : SignalingServer :=
  with_max_connections 1 (server_new (mkSocketAddr (V4 127 0 0 1) 3001 0)).

Definition visitor : IpAddr := V4 192 168 0 7.

(** A stream is accepted and its slot taken. *)
Definition asking (id : nat) (s : serve (V := unit)) : serve :=
  Serve (Acquiring id visitor Trying) (v_active s) (v_stages s) (v_sys s).

Definition given (id : nat) (s : serve (V := unit)) : serve :=
  acquire one_slot id visitor (Loaded 0) (acquire one_slot id visitor Trying (asking id s)).

Definition arrived : serve (V := unit) := given 0 serve_boot.

Lemma arrived_reach : serve_reach from_str to_string one_slot 3 arrived.
Proof.
  eapply serve_reach_step; [eapply serve_reach_step; [eapply serve_reach_step; [constructor|]|]|].
  - by apply (serve_arrive _ _ _ 0 visitor).
  - by apply (serve_acquire _ _ _ 0 visitor Trying).
  - by apply (serve_acquire _ _ _ 0 visitor (Loaded 0)).
Defined.

(** Shaken hands with, and silent. *)
Definition served : serve (V := unit) :=
  shaken one_slot 0 visitor 0 (Ok (mkHeaders None None))
    (peeked 0 visitor (Ok "Upgrade: websocket"%stdpp) arrived).

Lemma served_reach : serve_reach from_str to_string one_slot 5 served.
Proof.
  eapply serve_reach_step; [eapply serve_reach_step; [apply arrived_reach|]|].
  - by apply (serve_peek _ _ _ 0 visitor).
  - by apply (serve_shake _ _ _ 0 visitor).
Defined.

Lemma served_within_limits_witness : v_active served = 1 /\ v_active served <= 1.
Proof.
  split; [by vm_compute|].
  apply (served_within_limits from_str to_string one_slot ltac:(by vm_compute) 5 served);
    [apply served_reach|done].
Defined.

(** The slot of a stream that was probed for its health is given back. *)
Definition probed : serve (V := unit) := peeked 0 visitor (Ok "GET / HTTP/1.1"%stdpp) arrived.

Lemma probed_reach : serve_reach from_str to_string one_slot 4 probed.
Proof. eapply serve_reach_step; [apply arrived_reach|]. by apply (serve_peek _ _ _ 0 visitor). Defined.

Lemma machine_integers_in_range_witness :
  v_stages probed !! 0%nat = Some Returned /\ v_active probed = 1 /\ v_active (drop_slot 0 probed) = 0.
Proof.
  assert (Hs : v_stages probed !! 0%nat = Some Returned) by (by vm_compute).
  split; [exact Hs|split; [by vm_compute|]].
  destruct (machine_integers_in_range from_str to_string one_slot ltac:(by vm_compute) 4 probed
    probed_reach ltac:(done)) as [Hd _].
  destruct (Hd 0%nat Hs) as [_ ->]. by vm_compute.
Defined.

Lemma silent_clients_starve_witness :
  silent 0 served /\ v_loop (acquire one_slot 1 visitor Trying (asking 1 served)) = Waiting /\
  dom (v_stages (acquire one_slot 1 visitor Trying (asking 1 served))) = dom (v_stages served).
Proof.
  assert (Hs : silent 0 served) by (eexists; split; [by vm_compute|done]).
  split; [exact Hs|split; [by vm_compute|]].
  apply (silent_clients_starve from_str to_string one_slot ltac:(by vm_compute) 5 served _ {[0%nat]}).
  - apply served_reach.
  - by intros id ->%elem_of_singleton.
  - by vm_compute.
  - apply (without_step _ _ _ _ _ (asking 1 served) _ None); [done| |].
    + by apply (serve_arrive _ _ _ 1 visitor).
    + eapply (without_step _ _ _ _ _ _ _ None); [done| |constructor].
      by apply (serve_acquire _ _ _ 1 visitor Trying).
Defined.

(** The first stream given its slot, and then failing accepts for ever. *)
Definition first_trace (i : nat) : serve (V := unit) :=
  match i with
  | 0 => serve_boot
  | 1 => asking 0 serve_boot
  | 2 => acquire one_slot 0 visitor Trying (asking 0 serve_boot)
  | _ => arrived
  end%nat.

Lemma accept_loop_returns_witness :
  v_loop (first_trace 1) <> Waiting /\ exists j, (1 <= j)%nat /\ v_loop (first_trace j) = Waiting.
Proof.
  split; [done|].
  apply (accept_loop_returns from_str to_string one_slot ltac:(by vm_compute) first_trace 0).
  - constructor.
  - intros [|[|[|i]]]; exists None.
    + by apply (serve_arrive _ _ _ 0 visitor).
    + by apply (serve_acquire _ _ _ 0 visitor Trying).
    + by apply (serve_acquire _ _ _ 0 visitor (Loaded 0)).
    + by apply serve_accept_failed.
  - intros i. exists (3 + i)%nat. split; [lia|by left].
Defined.
