(* ===== verification/Delivery.v ===== *)
(** * Delivery

    What becomes of a message once it is queued for a client, in the whole server
    of [Serve]: as long as the write task of the connection lives and is
    scheduled, everything queued is written, in order, whatever else is queued
    meanwhile and whatever the other connections do. *)

From S2P Require Import Prelude RStr Mpsc Protocol Room RoomFacts Validate RateLimit IpAddr ClientIp.
From S2P Require Import Server ServerFacts ServerExamples Ops Interleave InterleaveProps Slots Serve.

Open Scope Z_scope.

Section Delivery.
Context {V : Type}.
Context (from_str : string -> Result (ClientMessage V) string).
Context (to_string : ServerMessage V -> option string).
Context (server : SignalingServer).
Implicit Types w : world V.
Implicit Types s : serve (V := V).
Implicit Types ch : chan (ServerMessage V).

(** ** One channel across one step *)

Inductive moved : chan (ServerMessage V) -> chan (ServerMessage V) -> Prop :=
| moved_push ms ch : moved ch (push ms ch)
| moved_abort ch : moved ch (Chan (ch_queue ch) (ch_rx ch) true (ch_wire ch))
| moved_task ch ch' : task_step to_string ch ch' -> moved ch ch'.

Lemma moved_same ch : moved ch ch.
Proof. rewrite <-(push_nil ch) at 2. constructor. Qed.

(** A live write task: something is queued behind what is there, or the first
    message is written. *)
Lemma moved_live ch ch' :
  moved ch ch' -> ch_rx ch = true -> ch_rx ch' = true ->
  (exists ms, ch_queue ch' = ch_queue ch ++ ms /\ ch_wire ch' = ch_wire ch) \/
  (exists m q, ch_queue ch = m :: q /\ ch_queue ch' = q /\
     ch_wire ch' = ch_wire ch ++ option_list (to_string m)).
Proof.
  intros [ms c|c|c c' [d d' Hf|d m q Hr Hq|d Hr Ha]] Hrx Hrx'; try done.
  - left. exists ms. unfold push. by rewrite Hrx.
  - left. exists []. by rewrite app_nil_r.
  - right. unfold task_forward in Hf. rewrite Hrx in Hf. destruct (ch_queue d) as [|m q]; [done|].
    injection Hf as <-. exists m, q. cbn. split_and!; [done..|].
    destruct (to_string m); [done|by rewrite app_nil_r].
Qed.

Lemma exec_chan {B} (o : op V B) w id ch :
  w_chans w !! id = Some ch -> exists ch', w_chans (exec o w).2 !! id = Some ch' /\ moved ch ch'.
Proof.
  intros Hch. assert (Hsame : exists ch', w_chans w !! id = Some ch' /\ moved ch ch').
  { exists ch. split; [done|apply moved_same]. }
  destruct o; cbn; try done.
  - unfold add_peer_entry. destruct (_ <=? _); cbn; [done|]. rewrite send_all_lookup, Hch.
    eexists. split; [done|constructor].
  - unfold remove_peer_entry. destruct (w_rooms w !! ip); [|done]. destruct (_ <? _); cbn; [|done].
    rewrite send_all_lookup, Hch. eexists. split; [done|constructor].
  - destruct (send tx m (w_chans w)) as [r cs] eqn:Hs. cbn.
    replace cs with (send_ tx m (w_chans w)) by (unfold send_; by rewrite Hs).
    rewrite send__lookup, Hch. case_decide; [|by exists ch; split; [|apply moved_same]].
    eexists. split; [done|constructor].
  - unfold abort. rewrite lookup_alter. case_decide; [subst tx|done]. rewrite Hch. cbn.
    eexists. split; [done|constructor].
Qed.

Definition chan_at (id : nat) s : option (chan (ServerMessage V)) := w_chans (y_world (v_sys s)) !! id.

Lemma serve_step_chan n l s s' id ch :
  serve_ok from_str to_string server n s -> serve_step from_str to_string server l s s' ->
  chan_at id s = Some ch -> exists ch', chan_at id s' = Some ch' /\ moved ch ch'.
Proof.
  intros Hok Hstep Hch. unfold chan_at in *.
  assert (Hsame : exists ch', chan_at id s = Some ch' /\ moved ch ch').
  { exists ch. split; [done|apply moved_same]. }
  unfold chan_at in Hsame.
  destruct Hstep as [i addr s Hw Hi|s Hw|i addr t s Hi|i addr r s Hi|i addr now r s Hi|l s y Hact
    |i c s Hi Hc Hph|i s Hi]; try done.
  - unfold acquire. destruct t as [|current| | |]; try done.
    + by destruct (load_step _ _).
    + by destruct (cas_step current _) as [k []].
  - unfold peeked. by destruct (admit_stream r).
  - destruct r as [h|]; [|done]. cbn. rewrite lookup_insert_ne; [done|]. intros ->.
    destruct (vo_fresh _ _ _ _ _ Hok id) as [th Hth]; [by eexists|].
    pose proof (vo_staged _ _ _ _ _ Hok id th Hth) as Hst. by rewrite Hi in Hst.
  - cbn. destruct Hact as [i c now t p y1 Hi Hp|i c B o k y1 Hi|i c c' y1 Hi|i c c' y1 Hi Ht]; try done.
    + unfold access. pose proof (exec_chan o (y_world y1) id ch Hch) as Hx.
      by destruct (exec o (y_world y1)).
    + cbn. destruct (decide (i = id)) as [->|Hne]; [|by rewrite lookup_insert_ne].
      rewrite lookup_insert_eq. exists c'. split; [done|]. rewrite Hch in Hi. injection Hi as ->.
      by constructor.
Qed.

(** ** Everything queued is written *)

(** The write task of [id] is there all the time. *)
Definition writer_lives (id : nat) (tr : nat -> serve (V := V)) : Prop :=
  forall i, exists ch, chan_at id (tr i) = Some ch /\ ch_rx ch = true.

(** Whatever time it is, later the task has nothing to write or writes. *)
Definition writer_scheduled (id : nat) (tr : nat -> serve (V := V)) : Prop :=
  forall i, exists j ch, (i <= j)%nat /\ chan_at id (tr j) = Some ch /\
    (ch_queue ch = [] \/
     exists ch', task_forward to_string ch = Some ch' /\ chan_at id (tr (S j)) = Some ch').

Hypothesis limit_range : 0 <= ss_max_connections server < u64_modulus.

Context (tr : nat -> serve (V := V)) (n id : nat).
Hypothesis starts : serve_reach from_str to_string server n (tr 0%nat).
Hypothesis runs : execution from_str to_string server tr.
Hypothesis lives : writer_lives id tr.

(** The next step of the channel. *)
Lemma trace_chan i ch :
  chan_at id (tr i) = Some ch ->
  exists ch', chan_at id (tr (S i)) = Some ch' /\ ch_rx ch = true /\ ch_rx ch' = true /\ moved ch ch'.
Proof using limit_range starts runs lives.
  intros Hch. destruct (runs i) as [l Hl].
  pose proof (trace_reach from_str to_string server tr i n starts runs) as Hr.
  apply serve_reach_ok in Hr; [|done].
  destruct (serve_step_chan _ _ _ _ id ch Hr Hl Hch) as (ch' & Hch' & Hm). exists ch'.
  destruct (lives i) as (c & Hc & Hrx), (lives (S i)) as (c' & Hc' & Hrx').
  rewrite Hch in Hc. rewrite Hch' in Hc'. injection Hc as <-. injection Hc' as <-. done.
Qed.

(** The first message of the queue is written by the time the task is next
    scheduled. *)
Lemma first_written d : forall i ch m q j,
  (j = i + d)%nat -> chan_at id (tr i) = Some ch -> ch_queue ch = m :: q ->
  (exists c, chan_at id (tr j) = Some c /\
     (ch_queue c = [] \/
      exists ch', task_forward to_string c = Some ch' /\ chan_at id (tr (S j)) = Some ch')) ->
  exists k ch' ms, (i <= k)%nat /\ chan_at id (tr k) = Some ch' /\ ch_queue ch' = q ++ ms /\
    ch_wire ch' = ch_wire ch ++ option_list (to_string m).
Proof using limit_range starts runs lives.
  induction d as [|d IH]; intros i ch m q j Hj Hch Hq Hsch.
  - rewrite Nat.add_0_r in Hj. subst j. destruct Hsch as (c & Hc & Hcase).
    rewrite Hch in Hc. injection Hc as <-. destruct Hcase as [Hnil|(ch' & Hf & Hch')]; [congruence|].
    destruct (trace_chan i ch Hch) as (c' & Hc' & Hrx & _). unfold task_forward in Hf.
    rewrite Hrx, Hq in Hf. injection Hf as <-.
    eexists (S i), _, []. split_and!; [lia|exact Hch'|by rewrite app_nil_r|].
    cbn. destruct (to_string m); [done|by rewrite app_nil_r].
  - destruct (trace_chan i ch Hch) as (c & Hc & Hrx & Hrx' & Hm).
    destruct (moved_live ch c Hm Hrx Hrx') as [(ms & Hq' & Hw)|(m' & q' & Hq' & Hq'' & Hw)].
    + rewrite Hq in Hq'. cbn in Hq'.
      destruct (IH (S i) c m (q ++ ms) j) as (k & ch' & ms' & Hk & Hch' & Hqk & Hwk); [lia|done..|].
      exists k, ch', (ms ++ ms'). split_and!; [lia|done|by rewrite app_assoc|congruence].
    + rewrite Hq in Hq'. injection Hq' as <- <-. exists (S i), c, [].
      split_and!; [lia|done|by rewrite app_nil_r|done].
Qed.

Lemma prefix_written q : writer_scheduled id tr -> forall i ch more,
  chan_at id (tr i) = Some ch -> ch_queue ch = q ++ more ->
  exists k ch', (i <= k)%nat /\ chan_at id (tr k) = Some ch' /\
    ch_wire ch' = ch_wire ch ++ omap to_string q.
Proof using limit_range starts runs lives.
  intros Hsch. induction q as [|m q IH]; intros i ch more Hch Hq.
  - exists i, ch. cbn. by rewrite app_nil_r.
  - destruct (Hsch i) as (j & c & Hij & Hc & Hcase).
    destruct (first_written (j - i) i ch m (q ++ more) j) as (k & ch' & ms & Hk & Hch' & Hq' & Hw);
      [lia|done|done|by exists c|].
    rewrite <-app_assoc in Hq'.
    destruct (IH k ch' (more ++ ms) Hch' Hq') as (k' & ch'' & Hk' & Hch'' & Hw').
    exists k', ch''. split_and!; [lia|done|]. rewrite Hw', Hw, <-app_assoc. f_equal.
    cbn. by destruct (to_string m).
Qed.

(** C7: liveness of delivery: in every execution of the whole server in which the
    write task of a connection is never stopped and is scheduled again and
    again, all that is queued for the client at any moment is written to its
    socket: a moment comes when the texts of the queued messages, in their
    order and none twice, are what has been written since. *)
Theorem queue_is_delivered i ch :
  writer_scheduled id tr -> chan_at id (tr i) = Some ch ->
  exists k ch', (i <= k)%nat /\ chan_at id (tr k) = Some ch' /\
    ch_wire ch' = ch_wire ch ++ omap to_string (ch_queue ch).
Proof using limit_range starts runs lives.
  intros Hsch Hch. apply (prefix_written (ch_queue ch) Hsch i ch []); [done|by rewrite app_nil_r].
Qed.
End Delivery.

(** ** A client that is told its message is malformed *)

Definition moving (m : move) (s : serve (V := unit)) : serve :=
  Serve (v_loop s) (v_active s) (v_stages s) (default (v_sys s) (move1 7 m (v_sys s))).

Lemma moving_step m s :
  (forall ip, m <> Connect ip) -> is_Some (move1 7 m (v_sys s)) ->
  serve_step from_str to_string one_slot (move_label m) s (moving m s).
Proof.
  intros Hm [y Hy]. unfold moving. rewrite Hy. by apply serve_run, (move1_act 7).
Qed.

Definition heard : serve (V := unit) := moving (hears 0 "hello"%stdpp) served.
Definition answered : serve (V := unit) := moving (Run 0) heard.
Definition written : serve (V := unit) :=
  Serve (v_loop answered) (v_active answered) (v_stages answered)
    (System (set_chan 0 (Chan [] true false ["malformed message: expected value at line 1 column 1"%stdpp])
       (y_world (v_sys answered))) (y_threads (v_sys answered))).

Definition answer_trace (i : nat) : serve (V := unit) :=
  match i with 0 => served | 1 => heard | 2 => answered | _ => written end%nat.

Lemma queue_is_delivered_witness :
  exists k ch', (2 <= k)%nat /\ chan_at 0 (answer_trace k) = Some ch' /\
    ch_wire ch' = ["malformed message: expected value at line 1 column 1"%stdpp].
Proof.
  apply (queue_is_delivered from_str to_string one_slot ltac:(by vm_compute) answer_trace 5 0)
    with (ch := Chan [Error "malformed message: expected value at line 1 column 1"%stdpp] true false []).
  - apply served_reach.
  - intros [|[|[|i]]].
    + exists (Some 0%nat). apply (moving_step (hears 0 "hello"%stdpp)); [by intros ?|by eexists; vm_compute].
    + exists None. apply (moving_step (Run 0)); [by intros ?|by eexists; vm_compute].
    + exists None. apply serve_run. eapply sys_write; [by vm_compute|]. by apply task_step_forward.
    + exists None. by apply serve_accept_failed.
  - intros [|[|[|i]]]; eexists; (split; [by vm_compute|done]).
  - intros [|[|[|i]]].
    + eexists 0%nat, _. split; [lia|]. split; [by vm_compute|by left].
    + eexists 1%nat, _. split; [lia|]. split; [by vm_compute|by left].
    + eexists 2%nat, _. split; [lia|]. split; [by vm_compute|right]. eexists. split; [done|by vm_compute].
    + eexists (3 + i)%nat, _. split; [lia|]. split; [by vm_compute|by left].
  - by vm_compute.
Defined.
