(* ===== verification/ServerTests.v ===== *)
(** * The unit tests of the connection layer (signal/src/server.rs and lib.rs, their test modules)

    The validators, the limiter under a clock the test moves, the choice of the
    client address, the configuration of the handshake and the connection
    slots, each test run on the model.  The test that only exercises the timers
    of the runtime is left out. *)

From S2P Require Import Prelude RStr Testing Validate RateLimit IpAddr ClientIp Slots.

Open Scope Z_scope.
Local Open Scope stdpp_scope.
Local Open Scope Z_scope.

(** ** [ws_config] *)

(** [WebSocketConfig] of the WebSocket library: the two limits, and the rest,
    which only its default sets. *)
Record WebSocketConfig (R : Type) := mkWebSocketConfig {
  max_message_size : option Z;
  max_frame_size : option Z;
  other_fields : R;
}.
Arguments mkWebSocketConfig {R}.
Arguments max_message_size {R}.
Arguments max_frame_size {R}.
Arguments other_fields {R}.

Definition ws_config {R} (dflt : WebSocketConfig R) : option (WebSocketConfig R) :=
  Some (mkWebSocketConfig (Some MAX_MESSAGE_BYTES) (Some MAX_MESSAGE_BYTES) (other_fields dflt)).

(** ** The validators *)

(** ["x".repeat(n)] *)
Definition str_repeat (s : string) (n : Z) : string := String.concat EmptyString (repeat s (Z.to_nat n)).

(** The error holds the text; the validated code is the text. *)
Definition err_contains {T} (needle : string) (r : Result T string) : bool :=
  match r with Ok _ => false | Err e => str_contains needle e end.
Definition err_starts {T} (pre : string) (r : Result T string) : bool :=
  match r with Ok _ => false | Err e => starts_with pre e end.
Definition ok_eq (r : Result string string) (s : string) : bool :=
  match r with Ok t => String.eqb t s | Err _ => false end.

Definition newline : string := String "010"%char EmptyString.

Definition message_size_within_limit : bool := all_hold
  [ is_ok (validate_message_size 0);
    is_ok (validate_message_size 1024);
    is_ok (validate_message_size MAX_MESSAGE_BYTES) ].

Definition message_size_exceeds_limit : bool :=
  let result := validate_message_size (MAX_MESSAGE_BYTES + 1) in all_hold
  [ is_err result;
    err_contains "message too large" result;
    err_contains (show_Z (MAX_MESSAGE_BYTES + 1)) result ].

Definition message_size_boundary : bool := all_hold
  [ is_ok (validate_message_size MAX_MESSAGE_BYTES);
    is_err (validate_message_size (MAX_MESSAGE_BYTES + 1)) ].

Definition device_name_within_limit : bool := all_hold
  [ is_ok (validate_device_name "iPhone 15");
    is_ok (validate_device_name (str_repeat "x" MAX_DEVICE_NAME_BYTES)) ].

Definition device_name_exceeds_limit : bool :=
  let result := validate_device_name (str_repeat "x" (MAX_DEVICE_NAME_BYTES + 1)) in all_hold
  [ is_err result; err_contains "device_name too long" result ].

Definition device_name_empty_is_ok : bool := is_ok (validate_device_name "").

Definition signal_target_valid : bool := all_hold
  [ ok_eq (validate_signal_target "ABC123") "ABC123";
    ok_eq (validate_signal_target "X") "X";
    ok_eq (validate_signal_target (str_repeat "A" MAX_PEER_CODE_BYTES))
      (str_repeat "A" MAX_PEER_CODE_BYTES) ].

Definition signal_target_hyphens_stripped : bool := all_hold
  [ ok_eq (validate_signal_target "ABC-123") "ABC123";
    ok_eq (validate_signal_target "AB-CD-EF") "ABCDEF";
    ok_eq (validate_signal_target "ABCD-EFGH") "ABCDEFGH" ].

Definition signal_target_empty : bool :=
  let result := validate_signal_target "" in all_hold
  [ is_err result; err_contains "cannot be empty" result ].

Definition signal_target_only_hyphens : bool :=
  let result := validate_signal_target "---" in all_hold
  [ is_err result; err_contains "cannot be empty" result ].

Definition signal_target_too_long : bool :=
  let result := validate_signal_target (str_repeat "A" (MAX_PEER_CODE_BYTES + 1)) in all_hold
  [ is_err result; err_contains "too long" result ].

Definition signal_target_non_alphanumeric : bool := all_hold
  [ is_err (validate_signal_target "ABC 123");
    is_err (validate_signal_target ("ABC" +:+ newline +:+ "123"));
    is_err (validate_signal_target "AB!C") ].

Definition peer_code_valid : bool := all_hold
  [ ok_eq (validate_peer_code "ABC123") "ABC123";
    ok_eq (validate_peer_code (str_repeat "Z" MAX_PEER_CODE_BYTES)) (str_repeat "Z" MAX_PEER_CODE_BYTES) ].

Definition peer_code_hyphens_stripped : bool := all_hold
  [ ok_eq (validate_peer_code "ABCD-EFGH") "ABCDEFGH";
    ok_eq (validate_peer_code "AB-CD") "ABCD";
    ok_eq (validate_peer_code "A-B-C-D") "ABCD" ].

Definition peer_code_empty : bool := is_err (validate_peer_code "").

Definition peer_code_only_hyphens : bool :=
  let result := validate_peer_code "----" in all_hold
  [ is_err result; err_contains "cannot be empty" result ].

Definition peer_code_too_long : bool :=
  is_err (validate_peer_code (str_repeat "A" (MAX_PEER_CODE_BYTES + 1))).

Definition peer_code_too_long_after_strip : bool := all_hold
  [ is_ok (validate_peer_code (str_repeat "A" MAX_PEER_CODE_BYTES +:+ "--"));
    is_err (validate_peer_code (str_repeat "A" (MAX_PEER_CODE_BYTES + 1) +:+ "-")) ].

Definition peer_code_non_alphanumeric : bool := all_hold
  [ is_err (validate_peer_code "AB!C");
    is_err (validate_peer_code "AB C");
    is_err (validate_peer_code ("AB" +:+ newline +:+ "C")) ].

Definition peer_code_error_prefix : bool := all_hold
  [ err_starts "invalid_peer_code:" (validate_peer_code "");
    err_starts "invalid_peer_code:" (validate_peer_code "AB!C") ].

(** ** The limiter *)

(** The paused clock and the limiter. *)
Abbreviation limiter_test := (test (Z * RateLimit)).

Definition check_now : limiter_test (Result unit bool) :=
  call (fun '(now, rl) => let '(r, rl) := check now rl in (r, (now, rl))).
Definition advance (secs : Z) : limiter_test unit :=
  update (fun '(now, rl) => (now + secs * one_second, rl)).

#[export] Instance verdict_eq_dec : EqDecision (Result unit bool).
Proof. solve_decision. Defined.

(** The budget is used up. *)
Definition exhaust (from : Z) : limiter_test unit :=
  for_each (seqZ from (RATE_LIMIT_PER_SECOND - from)) (fun _ => check_now;; mret tt).

Definition rate_limit_allows_within_budget : limiter_test unit :=
  for_each (range RATE_LIMIT_PER_SECOND) (fun _ => r ← check_now; assert_that (is_ok r)).

Definition rate_limit_rejects_over_budget : limiter_test unit :=
  exhaust 0;;
  r ← check_now; assert_eq r (Err false).

Definition rate_limit_closes_after_threshold : limiter_test unit :=
  exhaust 0;;
  for_each (range (RATE_LIMIT_CLOSE_THRESHOLD - 1)) (fun _ => r ← check_now; assert_eq r (Err false));;
  r ← check_now; assert_eq r (Err true).

Definition rate_limit_resets_after_window : limiter_test unit :=
  exhaust 0;;
  r ← check_now; assert_that (is_err r);;
  advance 2;;
  r ← check_now; assert_that (is_ok r).

Definition rate_limit_violation_count_resets_on_success : limiter_test unit :=
  exhaust 0;;
  r ← check_now; assert_eq r (Err false);;
  r ← check_now; assert_eq r (Err false);;
  advance 2;;
  r ← check_now; assert_that (is_ok r);;
  exhaust 1;;
  r ← check_now; assert_eq r (Err false).

(** ** The forwarded address *)

(** The tests of the client address do not call the handler: each carries a copy
    of its logic, which leaves out the branch that trusts a private source.  This
    is that copy; [extracted_raw_ip_differs] compares it with the handler's. *)
Definition extracted_raw_ip (trusted : list IpAddr) (socket_ip : IpAddr) (xff_ip : option string) : string :=
  match (if bool_decide (socket_ip ∈ trusted) then xff_ip else None) with
  | Some ip => ip
  | None => show_ip socket_ip
  end.

(** [text.parse().unwrap()] *)
Definition with_ip (text : string) (k : IpAddr -> bool) : bool :=
  match parse_ip text with Some ip => k ip | None => false end.

Definition xff_ignored_when_proxy_not_trusted : bool :=
  with_ip "203.0.113.50" (fun socket_ip =>
    String.eqb (extracted_raw_ip [] socket_ip (Some "10.0.0.1")) "203.0.113.50").

Definition xff_honored_when_proxy_trusted : bool :=
  with_ip "198.51.100.1" (fun proxy => with_ip "198.51.100.1" (fun socket_ip =>
    String.eqb (extracted_raw_ip [proxy] socket_ip (Some "10.0.0.1")) "10.0.0.1")).

Definition xff_falls_back_to_socket_when_trusted_but_no_header : bool :=
  with_ip "198.51.100.1" (fun proxy => with_ip "198.51.100.1" (fun socket_ip =>
    String.eqb (extracted_raw_ip [proxy] socket_ip None) "198.51.100.1")).

Definition xff_empty_trusted_list_always_ignores_header : bool :=
  with_ip "127.0.0.1" (fun socket_ip =>
    String.eqb (extracted_raw_ip [] socket_ip (Some "spoofed.ip")) "127.0.0.1").

(** The copy agrees with [raw_ip] but in one case: an address that is private
    and not listed, with a header; there the handler takes the header and the
    copy does not. *)
Lemma extracted_raw_ip_differs trusted addr forwarded :
  raw_ip trusted addr forwarded =
    match forwarded with
    | Some ip =>
      if negb (bool_decide (addr ∈ trusted)) && is_private_ip (show_ip addr) && negb (str_is_empty ip)
      then ip else extracted_raw_ip trusted addr forwarded
    | None => extracted_raw_ip trusted addr forwarded
    end.
Proof.
  unfold raw_ip, extracted_raw_ip. generalize (is_private_ip (show_ip addr)). intros private.
  destruct forwarded as [ip|], (bool_decide (addr ∈ trusted)), private; try done;
    by destruct (str_is_empty ip).
Qed.

(** So the last test would fail if it called the handler: on its very input the
    handler takes the spoofed header. *)
Example xff_empty_trusted_list_on_the_handler :
  xff_empty_trusted_list_always_ignores_header = true /\
  with_ip "127.0.0.1" (fun socket_ip =>
    String.eqb (raw_ip [] socket_ip (Some "spoofed.ip")) "spoofed.ip") = true.
Proof. split; by vm_compute. Qed.

(** ** Constants *)

Definition trust_boundary_constants : bool := all_hold
  [ MAX_MESSAGE_BYTES =? 1048576; MAX_DEVICE_NAME_BYTES =? 256; MAX_PEER_CODE_BYTES =? 16;
    RATE_LIMIT_PER_SECOND =? 50; RATE_LIMIT_CLOSE_THRESHOLD =? 3 ].

Definition ws_config_sets_message_limits : bool :=
  match ws_config (mkWebSocketConfig None None tt) with
  | Some config => all_hold
      [ bool_decide (max_message_size config = Some MAX_MESSAGE_BYTES);
        bool_decide (max_frame_size config = Some MAX_MESSAGE_BYTES) ]
  | None => false
  end.

(** [IDLE_TIMEOUT.as_secs()] *)
Definition idle_timeout_constant_is_reasonable : bool :=
  let secs := IDLE_TIMEOUT / one_second in all_hold
  [ 60 <=? secs; secs <=? 600; secs =? 300 ].

(** ** The connection slots (lib.rs, [mod connection_limit_tests]) *)

Abbreviation slots_test := (test slots).

Definition test_server (max : Z) : SignalingServer :=
  with_max_connections max (server_new (mkSocketAddr (V4 127 0 0 1) 0 0)).

(** [server.try_acquire_slot()]: the guard is the index of the task. *)
Definition try_acquire_slot (server : SignalingServer) : slots_test (option nat) := fun s =>
  let i := length (tasks s) in
  match acquire_alone (ss_max_connections server) 2 i (arrive s) with
  | Some s => Some (if bool_decide (tasks s !! i = Some Holding) then Some i else None, s)
  | None => None
  end.

(** [drop(guard)] *)
Definition drop_guard_of (server : SignalingServer) (guard : nat) : slots_test unit := fun s =>
  match task_run (ss_max_connections server) guard s with Some s => Some (tt, s) | None => None end.

Definition active_connections : slots_test Z := query active.

Definition limit_zero_rejects_all : slots_test unit :=
  let server := test_server 0 in
  guard ← try_acquire_slot server; assert_eq guard None;;
  n ← active_connections; assert_eq n 0.

Definition limit_one_allows_first_rejects_second : slots_test unit :=
  let server := test_server 1 in
  guard ← try_acquire_slot server;
  guard ← expect guard;
  n ← active_connections; assert_eq n 1;;
  guard2 ← try_acquire_slot server; assert_eq guard2 None;;
  n ← active_connections; assert_eq n 1;;
  drop_guard_of server guard.

Definition disconnect_releases_slot : slots_test unit :=
  let server := test_server 1 in
  guard ← try_acquire_slot server; guard ← expect guard;
  n ← active_connections; assert_eq n 1;;
  drop_guard_of server guard;;
  n ← active_connections; assert_eq n 0;;
  guard2 ← try_acquire_slot server; guard2 ← expect guard2;
  n ← active_connections; assert_eq n 1;;
  drop_guard_of server guard2.

Definition default_limit_nonzero : slots_test unit :=
  let server := server_new (mkSocketAddr (V4 127 0 0 1) 0 0) in
  assert_eq (ss_max_connections server) DEFAULT_MAX_WS_CONNECTIONS;;
  assert_that (0 <? DEFAULT_MAX_WS_CONNECTIONS).

(** ** All of them *)

Definition stateless_tests : list bool :=
  [ message_size_within_limit; message_size_exceeds_limit; message_size_boundary;
    device_name_within_limit; device_name_exceeds_limit; device_name_empty_is_ok;
    signal_target_valid; signal_target_hyphens_stripped; signal_target_empty;
    signal_target_only_hyphens; signal_target_too_long; signal_target_non_alphanumeric;
    peer_code_valid; peer_code_hyphens_stripped; peer_code_empty; peer_code_only_hyphens;
    peer_code_too_long; peer_code_too_long_after_strip; peer_code_non_alphanumeric;
    peer_code_error_prefix; xff_ignored_when_proxy_not_trusted; xff_honored_when_proxy_trusted;
    xff_falls_back_to_socket_when_trusted_but_no_header;
    xff_empty_trusted_list_always_ignores_header; trust_boundary_constants;
    ws_config_sets_message_limits; idle_timeout_constant_is_reasonable ].

Definition limiter_tests : list (limiter_test unit) :=
  [ rate_limit_allows_within_budget; rate_limit_rejects_over_budget;
    rate_limit_closes_after_threshold; rate_limit_resets_after_window;
    rate_limit_violation_count_resets_on_success ].

Definition slot_tests : list (slots_test unit) :=
  [ limit_zero_rejects_all; limit_one_allows_first_rejects_second; disconnect_releases_slot;
    default_limit_nonzero ].

(** The models of the validators, the limiter and the connection slots pass the
    repository's own unit tests of them, those of the limiter on a clock that
    starts at zero; the tests of the client address pass on their own logic. *)
Example server_tests_pass :
  all_hold stateless_tests = true /\
  forallb (fun t => passes t (0, rl_new 0)) limiter_tests = true /\
  forallb (fun t => passes t (mkSlots 0 [])) slot_tests = true.
Proof. split_and!; by vm_compute. Qed.
