(* ===== verification/Config.v ===== *)
(** * The server binary's configuration (signal/src/main.rs)

    From the command line and the environment to the server that is started:
    where it listens, which proxies it trusts, how many connections it takes,
    and how much it logs. *)

From S2P Require Import Prelude RStr IpAddr ClientIp Slots.

Open Scope Z_scope.
Local Open Scope stdpp_scope.

(** The variables [main] reads, each absent or a string. *)
Record Env := mkEnv {
  BOLT_SIGNAL_PROFILE : option string;
  BOLT_SIGNAL_HOST : option string;
  BOLT_SIGNAL_PORT : option string;
  TRUSTED_PROXIES : option string;
  MAX_WS_CONNECTIONS : option string;
}.

(** [default_log] *)
Definition default_log (profile : option string) : string :=
  match profile with
  | Some p => if String.eqb p "internet" then "warn" else "info"
  | None => "info"
  end.

(** The log filter: [RUST_LOG], when it parses, over the profile's default. *)
Definition log_filter (rust_log : option string) (profile : option string) : string :=
  default (default_log profile) rust_log.

(** What [main] logs of the profile. *)
Inductive profile_notice := ProfileActive (p : string) | ProfileUnknown (p : string).

Definition notice_of (profile : option string) : option profile_notice :=
  (fun p => if String.eqb p "local" || String.eqb p "internet" then ProfileActive p else ProfileUnknown p)
    <$> profile.

(** [get_arg] *)
Definition get_arg (args : list string) (key : string) : option string :=
  i ← position (fun a => String.eqb a key) args; args !! S i.

(** [a.or_else(|| b)] *)
Definition or_else {A} (a b : option A) : option A :=
  match a with Some x => Some x | None => b end.

Definition resolve_host (args : list string) (env : Env) : string :=
  default "0.0.0.0" (or_else (get_arg args "--host") (BOLT_SIGNAL_HOST env)).

Definition resolve_port (args : list string) (env : Env) : Z :=
  default 3001
    (or_else (get_arg args "--port" ≫= parse_u16) (BOLT_SIGNAL_PORT env ≫= parse_u16)).

(** The closure of the [filter_map] over the entries of [TRUSTED_PROXIES]. *)
Definition proxy_entry (s : string) : option IpAddr :=
  let trimmed := str_trim s in
  if str_is_empty trimmed then None else parse_ip trimmed.

Definition parse_trusted_proxies (env : Env) : list IpAddr :=
  omap proxy_entry (str_split ","%char (default EmptyString (TRUSTED_PROXIES env))).

Definition parse_max_connections (env : Env) : option Z :=
  v ← MAX_WS_CONNECTIONS env; parse_usize (str_trim v).

(** [main], up to [server.run()]: [None] is the exit with status 1 on an
    address that does not parse. *)
Definition configure (args : list string) (env : Env) : option SignalingServer :=
  addr ← parse_socket_addr (resolve_host args env +:+ ":" +:+ show_Z (resolve_port args env));
  let server := with_trusted_proxies (parse_trusted_proxies env) (server_new addr) in
  Some (match parse_max_connections env with
        | Some max => with_max_connections max server
        | None => server
        end).

(** The end of [main]: the message and the exit status when [run] returns an error. *)
Definition finish (ran : Result unit string) : option (string * Z) :=
  match ran with Ok _ => None | Err e => Some ("server error: " +:+ e, 1) end.

(** ** Ports *)

Lemma port_digits port :
  0 <= port < 65536 -> read_port (":" +:+ show_Z port) = Some (port, EmptyString).
Proof.
  revert port. apply (forall_pow2 (fun port => read_port (":" +:+ show_Z port) = Some (port, EmptyString)) 16).
  by vm_compute.
Qed.

Lemma resolve_port_range args env : 0 <= resolve_port args env < 65536.
Proof.
  unfold resolve_port, or_else.
  assert (Hp : forall o n, o ≫= parse_u16 = Some n -> 0 <= n < 65536).
  { intros o n (s & _ & Hs)%bind_Some. apply parse_uint_range in Hs; lia. }
  destruct (get_arg args "--port" ≫= parse_u16) as [n|] eqn:E1; cbn; [eauto|].
  destruct (BOLT_SIGNAL_PORT env ≫= parse_u16) as [n|] eqn:E2; cbn [default]; [eauto|lia].
Qed.

Lemma socket_v4 a b c d port :
  ip_ok (V4 a b c d) -> 0 <= port < 65536 ->
  parse_socket_addr (show_v4 a b c d +:+ ":" +:+ show_Z port) =
    Some (mkSocketAddr (V4 a b c d) port 0).
Proof.
  intros Hip Hport. unfold parse_socket_addr, read_socket_v4.
  rewrite read_ipv4_show by done. cbn [mbind option_bind].
  by rewrite port_digits.
Qed.

(** ** Proxy lists *)

Lemma trim_bytes_digit fwd c l :
  to_digit 10 c <> None -> trim_bytes fwd (c :: l) = c :: l.
Proof.
  intros Hd. assert (Hc : 48 <= byte_Z c <= 57).
  { destruct (to_digit 10 c) as [d|] eqn:Ed; [|done]. apply to_digit_10 in Ed as [Hr ->].
    clear Hd. revert d Hr. by apply (forall_below (fun d => 48 <= byte_Z (digit_char d) <= 57) 10). }
  assert (Hk : forall k, ~ 48 <= k <= 57 -> (byte_Z c =? k) = false).
  { intros k Hk. apply Z.eqb_neq. lia. }
  assert (Hr : forall lo hi, 57 < lo \/ hi < 48 -> in_range lo hi c = false).
  { intros lo hi Hlo. unfold in_range. destruct (Z.leb_spec lo (byte_Z c)), (Z.leb_spec (byte_Z c) hi); done || lia. }
  cbn [trim_bytes]. unfold ws1, ws2, ws3. rewrite !Hr, !Hk by lia. cbn.
  destruct l as [|c2 l]; [done|]. destruct fwd; cbn; rewrite ?andb_false_r;
    destruct l as [|c3 l]; rewrite ?andb_false_r, ?orb_false_r; done.
Qed.

(** A text that starts and ends with a digit is left alone by [trim]. *)
Lemma str_trim_digits s c l :
  String.list_ascii_of_string s = c :: l ->
  to_digit 10 c <> None -> to_digit 10 (List.last (c :: l) c) <> None -> str_trim s = s.
Proof.
  intros Hs Hc Hlast. unfold str_trim. rewrite Hs, trim_bytes_digit by done.
  assert (Hrev : exists r, rev (c :: l) = List.last (c :: l) c :: r).
  { destruct (exists_last (l := c :: l)) as (l' & x & ->); [done|].
    rewrite List.last_last, rev_app_distr. by exists (rev l'). }
  destruct Hrev as [r Hr]. rewrite Hr, trim_bytes_digit by done.
  rewrite <-Hr, rev_involutive, <-Hs. apply String.string_of_list_ascii_of_string.
Qed.

Lemma list_of_app s t :
  String.list_ascii_of_string (s +:+ t) =
    (String.list_ascii_of_string s ++ String.list_ascii_of_string t)%list.
Proof.
  induction s as [|c s IH]; [done|].
  change (String c s +:+ t) with (String c (s +:+ t)). cbn. by rewrite IH.
Qed.

Lemma digits_str_list ds rest :
  String.list_ascii_of_string (digits_str ds rest) =
    (digit_char <$> ds) ++ String.list_ascii_of_string rest.
Proof. induction ds as [|d ds IH]; [done|]. cbn. by rewrite IH. Qed.

Lemma octet_digits_cons n : exists d ds, octet_digits n = d :: ds.
Proof. unfold octet_digits. repeat case_match; eauto. Qed.

Lemma last_app_cons {A} (l : list A) x l' d : List.last (l ++ x :: l') d = List.last (x :: l') d.
Proof.
  induction l as [|y l IH]; [done|]. rewrite <-IH. cbn.
  by destruct (l ++ x :: l') eqn:E; [by destruct l|].
Qed.

Lemma last_octet n e :
  0 <= n < 256 -> to_digit 10 (List.last (digit_char <$> octet_digits n) e) <> None.
Proof.
  intros Hn. pose proof (octet_digits_ok n Hn) as Hall. unfold octet_digits in *.
  repeat case_match; cbn; rewrite to_digit_digit_char; try done;
    by repeat (apply Forall_cons in Hall as [? Hall]).
Qed.

Lemma str_trim_v4 a b c d : ip_ok (V4 a b c d) -> str_trim (show_v4 a b c d) = show_v4 a b c d.
Proof.
  cbn. unfold u8. intros Hip. z_bool. destruct_and?. z_bool.
  destruct (octet_digits_cons a) as (x & xs & Hx).
  assert (Hl : exists l, String.list_ascii_of_string (show_v4 a b c d) =
    digit_char x :: l ++ "."%char :: (digit_char <$> octet_digits d)).
  { rewrite show_v4_fields, !list_of_app. cbn [String.list_ascii_of_string].
    rewrite !list_of_app. cbn [String.list_ascii_of_string]. rewrite list_of_app.
    cbn [String.list_ascii_of_string].
    rewrite !show_octet, !digits_str_list, Hx by lia. cbn [String.list_ascii_of_string].
    rewrite !app_nil_r, fmap_cons. cbn.
    exists ((digit_char <$> xs) ++ "."%char :: (digit_char <$> octet_digits b)
            ++ "."%char :: (digit_char <$> octet_digits c)).
    rewrite <-!app_assoc. cbn. by rewrite <-!app_assoc. }
  destruct Hl as [l Hl]. eapply str_trim_digits; [exact Hl| |].
  - pose proof (octet_digits_ok a ltac:(lia)) as Hall. rewrite Hx in Hall.
    apply Forall_cons in Hall as [Hx0 _]. by rewrite to_digit_digit_char.
  - rewrite app_comm_cons, last_app_cons.
    change ("."%char :: (digit_char <$> octet_digits d))
      with ((["."%char] : list ascii) ++ (digit_char <$> octet_digits d)).
    destruct (octet_digits_cons d) as (y & ys & Hy).
    pose proof (last_octet d (digit_char x) ltac:(lia)) as Hd.
    rewrite Hy, fmap_cons in *. by rewrite last_app_cons.
Qed.

Definition v4_ok (ip : IpAddr) : Prop := match ip with V4 _ _ _ _ => ip_ok ip | V6 _ => False end.

Lemma show_v4_lacks_comma a b c d : ip_ok (V4 a b c d) -> lacks "," (show_v4 a b c d) = true.
Proof.
  cbn. unfold u8. intros Hip. z_bool. destruct_and?. z_bool.
  assert (Hn : forall n, 0 <= n < 256 -> lacks "," (show_Z n) = true).
  { by apply (forall_below (fun n => lacks "," (show_Z n) = true) 256). }
  unfold show_v4. by rewrite !lacks_app, !Hn by lia.
Qed.

Lemma proxy_entry_v4 ip : v4_ok ip -> proxy_entry (show_ip ip) = Some ip.
Proof.
  destruct ip as [a b c d|]; [|done]. intros Hok. unfold proxy_entry. cbn [show_ip].
  rewrite str_trim_v4 by done.
  assert (Hp : parse_ip (show_v4 a b c d) = Some (V4 a b c d)) by (by apply parse_v4).
  rewrite Hp. by destruct (show_v4 a b c d) eqn:E; [|done].
Qed.

(** ** Properties *)

(** C39: the proxy list is what the variable says. Unset, it is empty; a comma
    separated list of IPv4 addresses, written as they are displayed, is read
    back in order; and whatever the variable holds, an address is trusted only
    if some entry, trimmed, spells it. *)
Theorem trusted_proxies_exact env :
  (TRUSTED_PROXIES env = None -> parse_trusted_proxies env = []) /\
  (forall ips, ips <> [] -> Forall v4_ok ips ->
     TRUSTED_PROXIES env = Some (str_join "," (show_ip <$> ips)) ->
     parse_trusted_proxies env = ips) /\
  (forall ip, ip ∈ parse_trusted_proxies env <->
     exists entry, entry ∈ str_split ","%char (default EmptyString (TRUSTED_PROXIES env)) /\
       str_is_empty (str_trim entry) = false /\ parse_ip (str_trim entry) = Some ip).
Proof.
  unfold parse_trusted_proxies. split; [|split].
  - intros ->. by vm_compute.
  - intros ips Hne Hips ->.
    cbn [from_option default]. unfold id.
    rewrite (str_split_join ","%char (show_ip <$> ips)).
    + induction Hips as [|ip ips Hip Hips IH]; [done|]. rewrite fmap_cons. cbn [omap list_omap].
      rewrite proxy_entry_v4 by done. destruct ips as [|ip' ips]; [done|]. by rewrite IH.
    + by destruct ips.
    + apply Forall_fmap. eapply Forall_impl; [exact Hips|]. intros [a b c d|] Hok; [|done].
      by apply show_v4_lacks_comma.
  - intros ip. rewrite list_elem_of_omap. unfold proxy_entry.
    split; intros (entry & Hin & He); exists entry; (split; [done|]).
    + by destruct (str_is_empty (str_trim entry)).
    + destruct He as [-> ->]. done.
Qed.

(** Any IPv4 host and any mix of valid and invalid port settings start the
    server: a [--port] or [BOLT_SIGNAL_PORT] that is no 16-bit number is passed
    over for the next source, so the port is always one of the three and the
    address always parses; connections are limited by [MAX_WS_CONNECTIONS] when
    it is a number and by 256 otherwise. *)
Theorem configure_ipv4 args env a b c d :
  ip_ok (V4 a b c d) -> resolve_host args env = show_ip (V4 a b c d) ->
  configure args env =
    Some (mkSignalingServer (mkSocketAddr (V4 a b c d) (resolve_port args env) 0)
      (parse_trusted_proxies env)
      (default DEFAULT_MAX_WS_CONNECTIONS (parse_max_connections env))).
Proof.
  intros Hip Hhost. unfold configure. rewrite Hhost. cbn [show_ip].
  rewrite socket_v4; [|done|apply resolve_port_range]. cbn.
  by destruct (parse_max_connections env).
Qed.

Definition no_env : Env := mkEnv None None None None None.

Example configure_examples :
  configure [] no_env = Some (server_new (mkSocketAddr (V4 0 0 0 0) 3001 0)) /\
  resolve_port ["--port"; "70000"] (mkEnv None None (Some "4000") None None) = 4000 /\
  configure ["--host"; "localhost"] no_env = None /\
  (ss_addr <$> configure ["--host"; "[::1]"; "--port"; "0"] no_env) =
    Some (mkSocketAddr (V6 [0; 0; 0; 0; 0; 0; 0; 1]) 0 0) /\
  parse_trusted_proxies (mkEnv None None None (Some " 10.0.0.1 ,, bad,fd00::7") None) =
    [V4 10 0 0 1; V6 [0xfd00; 0; 0; 0; 0; 0; 0; 7]].
Proof. by vm_compute. Qed.

(** ** Witnesses *)

Lemma trusted_proxies_exact_witness :
  parse_trusted_proxies (mkEnv None None None (Some "10.0.0.1,203.0.113.9") None) =
    [V4 10 0 0 1; V4 203 0 113 9].
Proof.
  apply (trusted_proxies_exact (mkEnv None None None (Some "10.0.0.1,203.0.113.9") None));
    [done|repeat constructor|done].
Defined.

Lemma configure_ipv4_witness :
  configure ["--port"; "8080"] no_env =
    Some (mkSignalingServer (mkSocketAddr (V4 0 0 0 0) 8080 0) [] 256).
Proof. rewrite (configure_ipv4 _ _ 0 0 0 0); [by vm_compute|done|done]. Defined.
