(* ===== verification/CMem.v ===== *)
(** * The C boundary of the native shared library

    What crosses the [extern "C"] functions of native/shared: pointers into a
    heap of allocations handed to the shell, with [CString::into_raw] and
    [Box::into_raw] as allocation and their [from_raw] as deallocation, which is
    undefined ([None]) on a pointer that is not a live allocation of the right
    kind; and C strings coming in, as the bytes before their NUL. *)

From S2P Require Import Prelude RStr.

Open Scope Z_scope.

(** ** Strings *)

Definition nul : ascii := "000"%char.

(** [str::from_utf8(..).is_ok()], on the bytes. *)
Definition is_cont (c : ascii) : bool := in_range 128 191 c.

Fixpoint utf8_bytes (l : list ascii) : bool :=
  match l with
  | [] => true
  | c1 :: l1 =>
    if in_range 0 127 c1 then utf8_bytes l1
    else match l1 with
    | [] => false
    | c2 :: l2 =>
      if in_range 194 223 c1 then is_cont c2 && utf8_bytes l2
      else match l2 with
      | [] => false
      | c3 :: l3 =>
        if in_range 224 239 c1 then
          (if byte_Z c1 =? 224 then in_range 160 191 c2
           else if byte_Z c1 =? 237 then in_range 128 159 c2 else is_cont c2)
          && is_cont c3 && utf8_bytes l3
        else match l3 with
        | [] => false
        | c4 :: l4 =>
          in_range 240 244 c1 &&
          (if byte_Z c1 =? 240 then in_range 144 191 c2
           else if byte_Z c1 =? 244 then in_range 128 143 c2 else is_cont c2)
          && is_cont c3 && is_cont c4 && utf8_bytes l4
        end
      end
    end
  end.

Definition utf8_valid (s : string) : bool := utf8_bytes (String.list_ascii_of_string s).

(** U+FFFD, and [String::from_utf8_lossy], which is also what the [Display] of a
    path and [Path::to_string_lossy] do: a byte sequence that begins a character
    and breaks off, up to where it breaks off, and every byte that begins none,
    are replaced by U+FFFD. *)
Definition replacement : list ascii := ["239"%char; "191"%char; "189"%char].

(** Which second bytes a lead byte of three or of four admits. *)
Definition second3 (c1 c2 : ascii) : bool :=
  if byte_Z c1 =? 224 then in_range 160 191 c2
  else if byte_Z c1 =? 237 then in_range 128 159 c2 else is_cont c2.
Definition second4 (c1 c2 : ascii) : bool :=
  if byte_Z c1 =? 240 then in_range 144 191 c2
  else if byte_Z c1 =? 244 then in_range 128 143 c2 else is_cont c2.

Fixpoint lossy_bytes (l : list ascii) : list ascii :=
  match l with
  | [] => []
  | c1 :: l1 =>
    if in_range 0 127 c1 then c1 :: lossy_bytes l1
    else if in_range 194 223 c1 then
      match l1 with
      | c2 :: l2 => if is_cont c2 then c1 :: c2 :: lossy_bytes l2 else replacement ++ lossy_bytes l1
      | [] => replacement
      end
    else if in_range 224 239 c1 then
      match l1 with
      | c2 :: l2 =>
        if second3 c1 c2 then
          match l2 with
          | c3 :: l3 =>
            if is_cont c3 then c1 :: c2 :: c3 :: lossy_bytes l3 else replacement ++ lossy_bytes l2
          | [] => replacement
          end
        else replacement ++ lossy_bytes l1
      | [] => replacement
      end
    else if in_range 240 244 c1 then
      match l1 with
      | c2 :: l2 =>
        if second4 c1 c2 then
          match l2 with
          | c3 :: l3 =>
            if is_cont c3 then
              match l3 with
              | c4 :: l4 =>
                if is_cont c4 then c1 :: c2 :: c3 :: c4 :: lossy_bytes l4
                else replacement ++ lossy_bytes l3
              | [] => replacement
              end
            else replacement ++ lossy_bytes l2
          | [] => replacement
          end
        else replacement ++ lossy_bytes l1
      | [] => replacement
      end
    else replacement ++ lossy_bytes l1
  end.

Definition to_string_lossy (s : string) : string :=
  String.string_of_list_ascii (lossy_bytes (String.list_ascii_of_string s)).

(** The validity test reads characters the same way. *)
Lemma utf8_cons c1 l1 :
  utf8_bytes (c1 :: l1) =
    if in_range 0 127 c1 then utf8_bytes l1
    else if in_range 194 223 c1 then
      match l1 with c2 :: l2 => is_cont c2 && utf8_bytes l2 | [] => false end
    else if in_range 224 239 c1 then
      match l1 with c2 :: c3 :: l3 => second3 c1 c2 && is_cont c3 && utf8_bytes l3 | _ => false end
    else if in_range 240 244 c1 then
      match l1 with
      | c2 :: c3 :: c4 :: l4 => second4 c1 c2 && is_cont c3 && is_cont c4 && utf8_bytes l4
      | _ => false
      end
    else false.
Proof.
  cbn [utf8_bytes]. unfold second3, second4. destruct (in_range 0 127 c1); [done|].
  destruct (in_range 194 223 c1); [by destruct l1|].
  destruct (in_range 224 239 c1); [by destruct l1 as [|? [|? ?]]|].
  by destruct l1 as [|c2 [|c3 [|c4 l4]]], (in_range 240 244 c1).
Qed.

Lemma utf8_replacement l : utf8_bytes (replacement ++ l) = utf8_bytes l.
Proof. done. Qed.

Lemma lossy_valid l : utf8_bytes (lossy_bytes l) = true.
Proof.
  remember (length l) as n eqn:Hn. revert l Hn. induction (lt_wf n) as [n _ IH]. intros l ->.
  assert (Hl : forall l', (length l' < length l)%nat -> utf8_bytes (lossy_bytes l') = true).
  { intros l' Hlt. by apply (IH (length l')). }
  destruct l as [|c1 l1]; [done|]. cbn [lossy_bytes]. cbn [length] in Hl.
  repeat case_match; subst; rewrite ?utf8_replacement; try done; try (apply Hl; cbn [length]; lia);
    rewrite utf8_cons; repeat match goal with E : _ = _ :> bool |- _ => rewrite E; clear E end;
    cbn [andb]; apply Hl; cbn [length]; lia.
Qed.

Lemma lossy_id l : utf8_bytes l = true -> lossy_bytes l = l.
Proof.
  remember (length l) as n eqn:Hn. revert l Hn. induction (lt_wf n) as [n _ IH]. intros l -> Hv.
  assert (Hl : forall l', (length l' < length l)%nat -> utf8_bytes l' = true -> lossy_bytes l' = l').
  { intros l' Hlt. by apply (IH (length l')). }
  destruct l as [|c1 l1]; [done|]. rewrite utf8_cons in Hv. cbn [lossy_bytes]. cbn [length] in Hl.
  repeat (case_match; try done); subst; rewrite ?andb_true_iff in Hv; destruct_and?;
    cbn [length] in Hl; repeat f_equal; try congruence; apply Hl; try lia; done.
Qed.

Lemma list_ascii_inj s t : String.list_ascii_of_string s = String.list_ascii_of_string t -> s = t.
Proof.
  intros Heq. by rewrite <-(String.string_of_list_ascii_of_string s), Heq, String.string_of_list_ascii_of_string.
Qed.

(** The lossy text is always text, and it is the original exactly when the
    original is. *)
Lemma to_string_lossy_valid s : utf8_valid (to_string_lossy s) = true.
Proof.
  unfold utf8_valid, to_string_lossy. rewrite String.list_ascii_of_string_of_list_ascii. apply lossy_valid.
Qed.

Lemma to_string_lossy_id s : to_string_lossy s = s <-> utf8_valid s = true.
Proof.
  split; [intros <-; apply to_string_lossy_valid|]. intros Hv. unfold to_string_lossy.
  rewrite lossy_id by done. apply String.string_of_list_ascii_of_string.
Qed.

Example lossy_example :
  to_string_lossy (String "a" (String "227" (String "129" (String "b" (String "255" EmptyString))))) =
    String "a" (String "239" (String "191" (String "189" (String "b"
      (String "239" (String "191" (String "189" EmptyString))))))).
Proof. by vm_compute. Qed.

(** A C string argument: null, or the bytes before the NUL. *)
Abbreviation c_arg := (option string).

(** [CStr::from_ptr(ptr).to_str()] *)
Definition to_str (bytes : string) : option string :=
  if utf8_valid bytes then Some bytes else None.

(** [CString::new(s)]: an error on an interior NUL. *)
Definition cstring_new (s : string) : option string :=
  if lacks nul s then Some s else None.

(** ** The heap *)

(** A pointer handed out: null or an address. *)
Abbreviation ptr := (option nat).

(** [BoltPeer] *)
Record BoltPeer := mkBoltPeer {
  bp_peer_code : ptr;
  bp_device_name : ptr;
  bp_device_type : ptr;
  bp_wt_url : ptr;
  bp_wt_cert_hash : ptr;
}.

Inductive cell := CellStr (s : string) | CellPeer (p : BoltPeer).

Record heap := mkHeap { h_next : nat; h_cells : gmap nat cell }.

(** Addresses in use are below the next fresh one. *)
Definition heap_ok (h : heap) : Prop := forall a c, h_cells h !! a = Some c -> (a < h_next h)%nat.

Definition alloc (c : cell) (h : heap) : ptr * heap :=
  (Some (h_next h), mkHeap (S (h_next h)) (<[h_next h := c]> (h_cells h))).

(** [CString::new(s).map(|cs| cs.into_raw()).unwrap_or(null_mut())] *)
Definition to_c_string (s : string) (h : heap) : ptr * heap :=
  match cstring_new s with
  | Some s => alloc (CellStr s) h
  | None => (None, h)
  end.

(** [CString::from_raw] and drop. *)
Definition free_str (a : nat) (h : heap) : option heap :=
  match h_cells h !! a with
  | Some (CellStr _) => Some (mkHeap (h_next h) (delete a (h_cells h)))
  | _ => None
  end.

(** [if !p.is_null() { let _ = CString::from_raw(p); }], and [bolt_free_string] *)
Definition bolt_free_string (p : ptr) (h : heap) : option heap :=
  match p with
  | Some a => free_str a h
  | None => Some h
  end.

(** What the shell reads through a pointer. *)
Definition read_str (p : ptr) (h : heap) : option string :=
  match p with
  | Some a => match h_cells h !! a with Some (CellStr s) => Some s | _ => None end
  | None => None
  end.

(** ** The string exports (native/shared/src/lib.rs) *)

(** [bolt_generate_peer_code], [bolt_platform_data_dir] and
    [bolt_platform_ipc_path] hand out a string another crate computed. *)
Definition export_string (s : string) (h : heap) : ptr * heap := to_c_string s h.

(** [bolt_probe_signal_health] *)
Definition bolt_probe_signal_health (healthy : bool) : Z := if healthy then 1 else 0.

(** ** Lemmas *)

Lemma cells_fresh h : heap_ok h -> h_cells h !! h_next h = None.
Proof.
  intros Hok. destruct (h_cells h !! h_next h) as [c|] eqn:E; [|done].
  apply Hok in E. lia.
Qed.

Lemma alloc_ok c h : heap_ok h -> heap_ok (alloc c h).2.
Proof.
  intros Hok a c'. cbn. intros [[<- _]|[_ Ha]]%lookup_insert_Some; [lia|].
  apply Hok in Ha. lia.
Qed.

(** A call of [to_c_string]: the pointer, and how freeing it undoes the call
    whatever was allocated in between. *)
Inductive handed (s : string) (h : heap) : ptr -> heap -> Prop :=
| handed_str : lacks nul s = true -> handed s h (Some (h_next h)) (alloc (CellStr s) h).2
| handed_null : lacks nul s = false -> handed s h None h.

Lemma to_c_string_handed s h : handed s h (to_c_string s h).1 (to_c_string s h).2.
Proof.
  unfold to_c_string, cstring_new. destruct (lacks nul s) eqn:E; by constructor.
Qed.

Lemma to_c_string_ok s h : heap_ok h -> heap_ok (to_c_string s h).2.
Proof.
  intros Hok. destruct (to_c_string_handed s h); [by apply alloc_ok|done].
Qed.

(** A string handed to the shell is read back as the text it was, and
    [bolt_free_string] gives the memory back exactly: no leak, no other
    allocation touched, never undefined. A text with an interior NUL is handed
    out as null, which is safe to free. *)
Theorem string_handover s h :
  heap_ok h ->
  let '(p, h') := export_string s h in
  (lacks nul s = true -> read_str p h' = Some s) /\
  (lacks nul s = false -> p = None /\ h' = h) /\
  (forall a, a <> h_next h -> h_cells h' !! a = h_cells h !! a) /\
  exists h'', bolt_free_string p h' = Some h'' /\ h_cells h'' = h_cells h.
Proof.
  intros Hok. unfold export_string. pose proof (to_c_string_handed s h) as Hh.
  destruct (to_c_string s h) as [p h']. cbn in Hh.
  destruct Hh as [Hs|Hs].
  - split; [intros _; cbn; by rewrite lookup_insert_eq|]. split; [congruence|]. split.
    + intros a Ha. cbn. by rewrite lookup_insert_ne.
    + eexists. cbn. unfold free_str. cbn. rewrite lookup_insert_eq. split; [done|].
      cbn. by rewrite delete_insert_id by (by apply cells_fresh).
  - split; [congruence|]. split; [done|]. split; [done|]. by exists h.
Qed.

Lemma string_handover_witness :
  exists h'', bolt_free_string (export_string "ABC123"%stdpp (mkHeap 7 ∅)).1
    (export_string "ABC123"%stdpp (mkHeap 7 ∅)).2 = Some h'' /\ h_cells h'' = ∅.
Proof.
  destruct (export_string "ABC123"%stdpp (mkHeap 7 ∅)) as [p h'] eqn:E.
  assert (Hok : heap_ok (mkHeap 7 ∅)) by done.
  pose proof (string_handover "ABC123"%stdpp (mkHeap 7 ∅) Hok) as H. rewrite E in H.
  apply H.
Defined.
