(* ===== verification/Lines.v ===== *)
(** * Reading lines ([std::io::BufReader::lines])

    What the code that reads a process or a socket line by line gets: the bytes
    that arrive, the timeouts of a socket with a read timeout, and the lines and
    errors the iterator yields for them.  The stderr thread of [DaemonFfi] and
    the event loop of [Cli] read this way. *)

From S2P Require Import Prelude RStr CMem.

(** How a read fails: the timeout, or another error and its text. *)
Inductive read_error := TimedOut | ReadFailed (e : string).

Definition not_utf8 : string := "stream did not contain valid UTF-8"%stdpp.

Definition utf8_line (s : string) : Result string read_error :=
  if utf8_valid s then Ok s else Err (ReadFailed not_utf8).

(** A line loses its newline and a carriage return before it. *)
Definition strip_cr (s : string) : string :=
  match String.get (String.length s - 1) s with
  | Some c => if Ascii.eqb c carriage_return then String.substring 0 (String.length s - 1) s else s
  | None => s
  end.

Definition finish_line (s : string) : Result string read_error :=
  match utf8_line s with Ok s => Ok (strip_cr s) | Err e => Err e end.

(** The iterator: what arrives is bytes and timeouts ([None]).  Each call of
    [next] reads into a string of its own, which a timeout drops; what is left
    when the stream ends is a line without its newline. *)
Fixpoint buf_lines (input : list (option ascii)) (buf : string) : list (Result string read_error) :=
  match input with
  | [] => if str_is_empty buf then [] else [utf8_line buf]
  | None :: input => Err TimedOut :: buf_lines input EmptyString
  | Some c :: input =>
    if Ascii.eqb c newline then finish_line buf :: buf_lines input EmptyString
    else buf_lines input (buf +:+ String c EmptyString)
  end.

(** ** Whole lines *)

Definition bytes (s : string) : list (option ascii) := Some <$> String.list_ascii_of_string s.

(** A writer that writes whole lines, and a reader that times out only between
    them: the lines, and [None] for a timeout. *)
Definition stream (ds : list (option string)) : list (option ascii) :=
  ds ≫= fun d => match d with Some w => bytes w ++ [Some newline] | None => [None] end.

Definition whole (d : option string) : bool :=
  match d with Some w => lacks newline w | None => true end.

(** What the reader gets for each. *)
Definition arrives (d : option string) : Result string read_error :=
  match d with Some w => finish_line w | None => Err TimedOut end.

Lemma buf_lines_word w rest buf :
  lacks newline w = true -> buf_lines (bytes w ++ rest) buf = buf_lines rest (buf +:+ w).
Proof.
  unfold lacks, bytes. revert buf. induction w as [|c w IH]; intros buf.
  - intros _. by rewrite str_app_empty.
  - cbn. intros [Hc%negb_true_iff Hw]%andb_prop. rewrite Hc, IH by done.
    rewrite str_app_assoc. done.
Qed.

Lemma buf_lines_line w rest buf :
  lacks newline w = true ->
  buf_lines (bytes w ++ Some newline :: rest) buf = finish_line (buf +:+ w) :: buf_lines rest EmptyString.
Proof. intros Hw. by rewrite buf_lines_word. Qed.

Lemma buf_lines_stream ds rest :
  Forall (fun d => whole d = true) ds ->
  buf_lines (stream ds ++ rest) EmptyString = (arrives <$> ds) ++ buf_lines rest EmptyString.
Proof.
  induction 1 as [|[w|] ds Hd Hds IH]; [done| |]; unfold stream in *; rewrite bind_cons.
  - rewrite <-!app_assoc. cbn [app]. rewrite buf_lines_line by done. cbn. by rewrite IH.
  - cbn. by rewrite IH.
Qed.

Lemma finish_line_ok w : utf8_valid w = true -> finish_line w = Ok (strip_cr w).
Proof. intros Hw. unfold finish_line, utf8_line. by rewrite Hw. Qed.

Lemma finish_line_err w : utf8_valid w = false -> finish_line w = Err (ReadFailed not_utf8).
Proof. intros Hw. unfold finish_line, utf8_line. by rewrite Hw. Qed.
