(* ===== verification/SignalingFfi.v ===== *)
(** * The signaling client's C interface (native/shared/src/signaling.rs)

    The state behind the opaque handle, the callback that updates it on each
    event of the signaling client, and the exported functions.  The client
    itself, its event source and the JSON library belong to other crates: the
    events are inputs, and rendering and parsing of JSON are parameters. *)

From S2P Require Import Prelude RStr CMem.

Open Scope Z_scope.

(** ** Data *)

Inductive Plane := Local_ | Cloud.

(** [bolt_app_core]'s [PeerInfo] *)
Record AppPeer := mkAppPeer {
  ap_code : string;
  ap_name : string;
  ap_type : string;
  ap_wt_url : option string;
  ap_wt_cert_hash : option string;
}.

Section Signaling.
Context {V : Type}.

(** [DiscoveryEvent] *)
Inductive DiscoveryEvent :=
| PeerList (list : list AppPeer) (plane : Plane)
| EvPeerJoined (peer : AppPeer) (plane : Plane)
| EvPeerLeft (code : string) (plane : Plane)
| EvConnected (plane : Plane)
| EvDisconnected (reason : string) (plane : Plane)
| EvSignal (from signal_type : string) (data : V) (plane : Plane)
| EvError (msg : string).

(** [SignalingEventInternal] *)
Inductive SignalingEventInternal :=
| IPeerJoined (peer : AppPeer) (plane : Plane)
| IPeerLeft (code : string) (plane : Plane)
| IConnected (plane : Plane)
| IDisconnected (reason : string) (plane : Plane).

(** [BoltSignaling]; the client's handle is the log of the signals given to it. *)
Record BoltSignaling := mkBoltSignaling {
  bs_sent : list (string * string * V * string);
  bs_peer_code : string;
  bs_events : list SignalingEventInternal;
  bs_peers : list AppPeer;
  bs_connected : bool;
  bs_incoming : list string;
}.

(** [SignalingConfig] *)
Record SignalingConfig := mkSignalingConfig {
  sc_server_url : string;
  sc_cloud_url : option string;
  sc_peer_code : string;
  sc_device_name : string;
  sc_device_type : string;
  sc_wt_url : option string;
  sc_wt_cert_hash : option string;
}.

(** [cstr_to_string] *)
Definition cstr_to_string (p : c_arg) : string :=
  match p with
  | Some bytes => default EmptyString (to_str bytes)
  | None => EmptyString
  end.

(** [if p.is_null() { None } else { Some(cstr_to_string(p)) }] *)
Definition nullable (p : c_arg) : option string :=
  match p with Some _ => Some (cstr_to_string p) | None => None end.

(** [bolt_signaling_start]: the configuration handed to the client, and the
    state behind the handle. *)
Definition bolt_signaling_start (local_url cloud_url peer_code device_name wt_url
    wt_cert_hash : c_arg) : SignalingConfig * BoltSignaling :=
  let code := cstr_to_string peer_code in
  (mkSignalingConfig (cstr_to_string local_url) (nullable cloud_url) code
     (cstr_to_string device_name) "desktop"%stdpp (nullable wt_url) (nullable wt_cert_hash),
   mkBoltSignaling [] code [] [] false []).

(** ** The callback *)

Definition known (code : string) (peers : list AppPeer) : bool :=
  existsb (fun p => bool_decide (ap_code p = code)) peers.

(** [if !p.iter().any(..) { p.push(peer.clone()) }] *)
Definition push_new (peer : AppPeer) (peers : list AppPeer) : list AppPeer :=
  if known (ap_code peer) peers then peers else peers ++ [peer].

Fixpoint merge (self : string) (l : list AppPeer) (peers : list AppPeer) : list AppPeer :=
  match l with
  | [] => peers
  | peer :: l =>
    merge self l
      (if negb (bool_decide (ap_code peer = self)) && negb (known (ap_code peer) peers)
       then peers ++ [peer] else peers)
  end.

Definition set_peers peers st :=
  mkBoltSignaling (bs_sent st) (bs_peer_code st) (bs_events st) peers (bs_connected st) (bs_incoming st).
Definition set_events events st :=
  mkBoltSignaling (bs_sent st) (bs_peer_code st) events (bs_peers st) (bs_connected st) (bs_incoming st).
Definition set_connected b st :=
  mkBoltSignaling (bs_sent st) (bs_peer_code st) (bs_events st) (bs_peers st) b (bs_incoming st).
Definition set_incoming l st :=
  mkBoltSignaling (bs_sent st) (bs_peer_code st) (bs_events st) (bs_peers st) (bs_connected st) l.
Definition log_event e st := set_events (bs_events st ++ [e]) st.

(** [serde_json::to_string(&json!({from, signal_type, data}))] and
    [serde_json::from_str] with [json!({})]. *)
Context (signal_json : string -> string -> V -> option string).
Context (from_str : string -> option V) (empty_object : V).

(** The callback given to [spawn_signaling_client]. *)
Definition on_event (ev : DiscoveryEvent) (st : BoltSignaling) : BoltSignaling :=
  let code_clone := bs_peer_code st in
  match ev with
  | PeerList list _ => set_peers (merge code_clone list (bs_peers st)) st
  | EvPeerJoined peer plane =>
    if bool_decide (ap_code peer = code_clone) then st
    else log_event (IPeerJoined peer plane) (set_peers (push_new peer (bs_peers st)) st)
  | EvPeerLeft code plane =>
    log_event (IPeerLeft code plane)
      (set_peers (retain (fun p => negb (bool_decide (ap_code p = code))) (bs_peers st)) st)
  | EvConnected plane => log_event (IConnected plane) (set_connected true st)
  | EvDisconnected reason plane => log_event (IDisconnected reason plane) st
  | EvSignal from ty data _ =>
    match signal_json from ty data with
    | Some json => set_incoming (bs_incoming st ++ [json]) st
    | None => st
    end
  | EvError _ => st
  end.

Definition on_events (evs : list DiscoveryEvent) (st : BoltSignaling) : BoltSignaling :=
  foldl (fun st ev => on_event ev st) st evs.

(** ** The exports *)

(** [len() as u32] *)
Definition as_u32 (n : Z) : Z := n mod 4294967296.

Definition bolt_signaling_peer_count (handle : option BoltSignaling) : Z :=
  match handle with Some st => as_u32 (vec_len (bs_peers st)) | None => 0 end.

(** An optional field: null when absent or unusable. *)
Definition opt_c_string (o : option string) (h : heap) : ptr * heap :=
  match o with Some s => to_c_string s h | None => (None, h) end.

(** [bolt_signaling_get_peer] *)
Definition bolt_signaling_get_peer (handle : option BoltSignaling) (index : Z) (h : heap) :
    ptr * heap :=
  match handle with
  | None => (None, h)
  | Some st =>
    match bs_peers st !! Z.to_nat index with
    | None => (None, h)
    | Some peer =>
      let '(wt_url_ptr, h) := opt_c_string (ap_wt_url peer) h in
      let '(wt_hash_ptr, h) := opt_c_string (ap_wt_cert_hash peer) h in
      let '(peer_code, h) := to_c_string (ap_code peer) h in
      let '(device_name, h) := to_c_string (ap_name peer) h in
      let '(device_type, h) := to_c_string (ap_type peer) h in
      alloc (CellPeer (mkBoltPeer peer_code device_name device_type wt_url_ptr wt_hash_ptr)) h
    end
  end.

(** [bolt_peer_free] *)
Definition bolt_peer_free (p : ptr) (h : heap) : option heap :=
  match p with
  | None => Some h
  | Some a =>
    match h_cells h !! a with
    | Some (CellPeer bp) =>
      let h := mkHeap (h_next h) (delete a (h_cells h)) in
      h ← bolt_free_string (bp_peer_code bp) h;
      h ← bolt_free_string (bp_device_name bp) h;
      h ← bolt_free_string (bp_device_type bp) h;
      h ← bolt_free_string (bp_wt_url bp) h;
      bolt_free_string (bp_wt_cert_hash bp) h
    | _ => None
    end
  end.

Definition bolt_signaling_is_connected (handle : option BoltSignaling) : Z :=
  match handle with Some st => if bs_connected st then 1 else 0 | None => 0 end.

Definition bolt_signaling_drain_events (st : BoltSignaling) : Z * BoltSignaling :=
  (as_u32 (vec_len (bs_events st)), set_events [] st).

(** The drain both event queues end with: null when empty, else the queue
    joined by newlines; the queue is cleared. *)
Definition drain_lines (q : list string) (h : heap) : ptr * list string * heap :=
  match q with
  | [] => (None, q, h)
  | _ => let '(p, h) := to_c_string (str_join (String newline EmptyString) q) h in (p, [], h)
  end.

Definition bolt_signaling_drain_signals (st : BoltSignaling) (h : heap) :
    ptr * BoltSignaling * heap :=
  let '(p, q, h) := drain_lines (bs_incoming st) h in (p, set_incoming q st, h).

(** [bolt_signaling_send_signal] *)
Definition bolt_signaling_send_signal (st : BoltSignaling)
    (to_peer_code signal_type data_json : c_arg) : Z * BoltSignaling :=
  match to_peer_code, signal_type with
  | Some _, Some _ =>
    let data := match data_json with
                | None => empty_object
                | Some _ => default empty_object (from_str (cstr_to_string data_json))
                end in
    (1, mkBoltSignaling
          (bs_sent st ++ [(cstr_to_string to_peer_code, cstr_to_string signal_type, data,
                           bs_peer_code st)])
          (bs_peer_code st) (bs_events st) (bs_peers st) (bs_connected st) (bs_incoming st))
  | _, _ => (0, st)
  end.

(** [bolt_signaling_stop]: whether the client was told to shut down, and that
    the handle is gone. *)
Definition bolt_signaling_stop (handle : option BoltSignaling) : bool * option BoltSignaling :=
  match handle with Some _ => (true, None) | None => (false, None) end.
End Signaling.

Arguments DiscoveryEvent V : clear implicits.
Arguments BoltSignaling V : clear implicits.
