(* ===== verification/SignalingFacts.v ===== *)
(** * Properties of the signaling client's C interface

    The peer list against the history of events, the hand-over of a peer
    across the C boundary, the signal queue, and the connected flag. *)

From S2P Require Import Prelude RStr CMem SignalingFfi.

Open Scope Z_scope.

(** ** The peer list *)

Section Peers.
Context {V : Type}.
Context (signal_json : string -> string -> V -> option string).
Implicit Types (st : BoltSignaling V) (ev : DiscoveryEvent V).

Lemma known_iff code peers : known code peers = true <-> code ∈ ap_code <$> peers.
Proof.
  unfold known. rewrite existsb_exists, list_elem_of_fmap. split.
  - intros (p & Hp & Hc%bool_decide_eq_true). exists p. split; [done|].
    by apply list_elem_of_In.
  - intros (p & -> & Hp). exists p. split; [by apply list_elem_of_In|by apply bool_decide_eq_true].
Qed.











(** A peer that comes back under its code with a new WebTransport address
    or certificate hash keeps the old ones in the list: an announcement of a
    known code changes no field, so the shell goes on handing out stale
    connection data until a [PeerLeft]. *)
Theorem rejoin_keeps_old_data st peer peer' plane :
  peer ∈ bs_peers st -> ap_code peer' = ap_code peer -> ap_code peer <> bs_peer_code st ->
  bs_peers (on_event signal_json (EvPeerJoined peer' plane) st) = bs_peers st /\
  bs_peers (on_event signal_json (PeerList [peer'] plane) st) = bs_peers st.
Proof.
  intros Hp Hc Hself.
  assert (Hk : known (ap_code peer') (bs_peers st) = true).
  { apply known_iff. rewrite Hc. by apply list_elem_of_fmap_2. }
  cbn [on_event]. rewrite bool_decide_eq_false_2 by congruence. cbn. unfold push_new.
  rewrite Hk. rewrite bool_decide_eq_false_2 by congruence. done.
Qed.

(** Once any plane has connected, the handle reports connected for ever,
    whatever the planes report afterwards, both disconnecting included. *)
Theorem connected_sticks evs evs' plane st :
  bolt_signaling_is_connected
    (Some (on_events signal_json (evs ++ EvConnected plane :: evs') st)) = 1.
Proof.
  assert (Hstick : forall l st, bs_connected st = true ->
    bs_connected (foldl (fun st ev => on_event signal_json ev st) st l) = true).
  { induction l as [|ev l IH]; intros st0 Hst; [done|]. cbn. apply IH.
    destruct ev as [| | | | | |]; cbn; repeat case_match; done. }
  unfold on_events. rewrite foldl_app. cbn [foldl].
  unfold bolt_signaling_is_connected. by rewrite Hstick.
Qed.
End Peers.

(** ** Handing a peer over *)

(** The addresses among some pointers. *)
Definition addrs (ps : list ptr) : list nat := omap id ps.

Fixpoint free_strs (ps : list ptr) (h : heap) : option heap :=
  match ps with
  | [] => Some h
  | p :: ps => h ← bolt_free_string p h; free_strs ps h
  end.

Fixpoint alloc_strs (l : list (option string)) (h : heap) : list ptr * heap :=
  match l with
  | [] => ([], h)
  | o :: l =>
    let '(p, h) := opt_c_string o h in
    let '(ps, h) := alloc_strs l h in (p :: ps, h)
  end.

Definition live_str (h : heap) (a : nat) : Prop := exists s, h_cells h !! a = Some (CellStr s).

Lemma free_strs_spec ps h :
  NoDup (addrs ps) -> (forall a, a ∈ addrs ps -> live_str h a) ->
  exists h', free_strs ps h = Some h' /\
    forall a, h_cells h' !! a = if decide (a ∈ addrs ps) then None else h_cells h !! a.
Proof.
  revert h. induction ps as [|[p|] ps IH]; intros h Hnd Hlive; cbn [free_strs].
  - exists h. split; [done|]. intros a. case_decide as Ha; [|done]. by apply elem_of_nil in Ha.
  - cbn in Hnd. apply NoDup_cons in Hnd as [Hp Hnd].
    destruct (Hlive p ltac:(by left)) as [s Hs]. cbn [bolt_free_string]. unfold free_str. rewrite Hs. cbn.
    destruct (IH (mkHeap (h_next h) (delete p (h_cells h))) Hnd) as (h' & Hf & Hc).
    { intros a Ha. destruct (Hlive a ltac:(by right)) as [s' Hs']. exists s'. cbn.
      rewrite lookup_delete_ne; [done|]. by intros ->. }
    exists h'. split; [done|]. intros a. rewrite Hc. cbn [h_cells].
    destruct (decide (a ∈ addrs ps)) as [Ha|Ha].
    + rewrite decide_True; [done|]. cbn. by right.
    + destruct (decide (a = p)) as [->|Hne].
      * rewrite lookup_delete_eq, decide_True; [done|]. cbn. by left.
      * rewrite lookup_delete_ne by done. rewrite decide_False; [done|]. cbn.
        by rewrite elem_of_cons; intros [?|?].
  - apply (IH h); done.
Qed.

(** The readings a list of fields gives the shell. *)
Definition readable (o : option string) : option string :=
  match o with Some s => if lacks nul s then Some s else None | None => None end.

Lemma opt_handed o h :
  heap_ok h ->
  let '(p, h') := opt_c_string o h in
  heap_ok h' /\ (h_next h <= h_next h')%nat /\
  (forall a, a ∈ addrs [p] -> a = h_next h /\ h_next h' = S a /\ live_str h' a) /\
  (forall a, a ∉ addrs [p] -> h_cells h' !! a = h_cells h !! a) /\
  read_str p h' = readable o.
Proof.
  intros Hok. unfold readable. destruct o as [s|]; cbn [opt_c_string].
  - pose proof (to_c_string_handed s h) as Hh. pose proof (to_c_string_ok s h Hok) as Hok'.
    destruct (to_c_string s h) as [p h']. cbn in Hh, Hok'. destruct Hh as [Hs|Hs]; rewrite Hs.
    + split; [done|]. split; [cbn; lia|]. split; [|split].
      * intros a Ha. cbn in Ha. apply list_elem_of_singleton in Ha as ->.
        split; [done|]. split; [done|]. exists s. cbn. by rewrite lookup_insert_eq.
      * intros a Ha. cbn in Ha. rewrite list_elem_of_singleton in Ha. cbn.
        by rewrite lookup_insert_ne.
      * cbn. by rewrite lookup_insert_eq.
    + split; [done|]. split; [lia|]. split; [|split; [done|done]].
      intros a Ha. by apply elem_of_nil in Ha.
  - split; [done|]. split; [lia|]. split; [|split; [done|done]].
    intros a Ha. by apply elem_of_nil in Ha.
Qed.

Lemma read_str_mono p h h' :
  (forall a, (a < h_next h)%nat -> h_cells h' !! a = h_cells h !! a) -> heap_ok h ->
  (forall a, p = Some a -> (a < h_next h)%nat) -> read_str p h' = read_str p h.
Proof. intros Hsame Hok Hp. destruct p as [a|]; cbn; [|done]. by rewrite Hsame by (by apply Hp). Qed.

Lemma alloc_strs_spec l h :
  heap_ok h ->
  let '(ps, h') := alloc_strs l h in
  heap_ok h' /\ (h_next h <= h_next h')%nat /\ NoDup (addrs ps) /\
  (forall a, a ∈ addrs ps -> (h_next h <= a < h_next h')%nat /\ live_str h' a) /\
  (forall a, a ∉ addrs ps -> h_cells h' !! a = h_cells h !! a) /\
  (fun p => read_str p h') <$> ps = readable <$> l.
Proof.
  revert h. induction l as [|o l IH]; intros h Hok; cbn [alloc_strs].
  { split; [done|]. split; [lia|]. split; [constructor|].
    split; [intros a Ha; by apply elem_of_nil in Ha|done]. }
  pose proof (opt_handed o h Hok) as Hp. destruct (opt_c_string o h) as [p h1].
  destruct Hp as (Hok1 & Hle1 & Hin1 & Hout1 & Hread1). specialize (IH h1 Hok1).
  destruct (alloc_strs l h1) as [ps h2]. destruct IH as (Hok2 & Hle2 & Hnd & Hin2 & Hout2 & Hread2).
  assert (Hp : forall a, p = Some a -> (a < h_next h1)%nat).
  { intros a ->. destruct (Hin1 a) as (-> & -> & _); [by left|lia]. }
  assert (Hfar : forall a, p = Some a -> a ∉ addrs ps).
  { intros a Ha Hin. destruct (Hin2 a Hin) as [? _]. specialize (Hp a Ha). lia. }
  split; [done|]. split; [lia|]. split; [|split; [|split]].
  - destruct p as [a|]; cbn; [|done]. apply NoDup_cons. split; [by apply Hfar|done].
  - intros a Ha. assert (Hcase : p = Some a \/ a ∈ addrs ps).
    { destruct p as [b|]; cbn in Ha; [|by right].
      apply elem_of_cons in Ha as [->|Ha]; [by left|by right]. }
    destruct Hcase as [->|Hin].
    + destruct (Hin1 a) as (-> & Hn & s & Hs); [by left|]. split; [lia|]. exists s.
      by rewrite Hout2 by (by apply Hfar).
    + destruct (Hin2 a Hin) as [? ?]. split; [lia|done].
  - intros a Ha. destruct p as [b|]; cbn in Ha.
    + rewrite not_elem_of_cons in Ha. destruct Ha as [Hne Ha].
      rewrite Hout2, Hout1; [done| |done]. cbn. by rewrite list_elem_of_singleton.
    + rewrite Hout2, Hout1; [done| |done]. cbn. by apply not_elem_of_nil.
  - rewrite fmap_cons. cbn. rewrite Hread2. f_equal. rewrite <-Hread1.
    apply read_str_mono; [|done|done].
    intros a Ha. apply Hout2. intros Hin. destruct (Hin2 a Hin). lia.
Qed.

Section Handover.
Context {V : Type}.
Implicit Types st : BoltSignaling V.

(** The string fields of a peer, in the order they are allocated. *)
Definition peer_fields (peer : AppPeer) : list (option string) :=
  [ap_wt_url peer; ap_wt_cert_hash peer; Some (ap_code peer); Some (ap_name peer);
   Some (ap_type peer)].

Lemma get_peer_alloc st i h peer :
  bs_peers st !! Z.to_nat i = Some peer ->
  exists p1 p2 p3 p4 p5 h1,
    alloc_strs (peer_fields peer) h = ([p1; p2; p3; p4; p5], h1) /\
    bolt_signaling_get_peer (Some st) i h = alloc (CellPeer (mkBoltPeer p3 p4 p5 p1 p2)) h1.
Proof.
  intros Hp. unfold bolt_signaling_get_peer, peer_fields. rewrite Hp. cbn [alloc_strs].
  destruct (opt_c_string (ap_wt_url peer) h) as [p1 h1].
  destruct (opt_c_string (ap_wt_cert_hash peer) h1) as [p2 h2]. cbn [opt_c_string].
  destruct (to_c_string (ap_code peer) h2) as [p3 h3].
  destruct (to_c_string (ap_name peer) h3) as [p4 h4].
  destruct (to_c_string (ap_type peer) h4) as [p5 h5].
  by exists p1, p2, p3, p4, p5, h5.
Qed.

Lemma peer_free_all p1 p2 p3 p4 p5 h :
  heap_ok h ->
  bolt_peer_free (Some (h_next h)) (alloc (CellPeer (mkBoltPeer p3 p4 p5 p1 p2)) h).2 =
    free_strs [p3; p4; p5; p1; p2] (mkHeap (S (h_next h)) (h_cells h)).
Proof.
  intros Hok. unfold bolt_peer_free. cbn [alloc snd h_cells h_next]. rewrite lookup_insert_eq.
  rewrite delete_insert_id by (by apply cells_fresh).
  cbn [free_strs bp_peer_code bp_device_name bp_device_type bp_wt_url bp_wt_cert_hash].
  do 4 (destruct (bolt_free_string _ _); cbn [mbind option_bind]; [|done]).
  by destruct (bolt_free_string p2 _).
Qed.

(** C14: A peer handed to the shell and freed with [bolt_peer_free] leaves the
    memory as it was: five strings and the struct, each freed once, nothing
    leaked and nothing undefined. While the shell holds it, each of its fields
    reads back as the peer's field, and is null when the field is absent or has
    an interior NUL (which a remote peer can send). *)
Theorem peer_handover st i h peer :
  heap_ok h -> bs_peers st !! Z.to_nat i = Some peer ->
  exists a bp h', bolt_signaling_get_peer (Some st) i h = (Some a, h') /\
    h_cells h' !! a = Some (CellPeer bp) /\
    read_str (bp_peer_code bp) h' = readable (Some (ap_code peer)) /\
    read_str (bp_device_name bp) h' = readable (Some (ap_name peer)) /\
    read_str (bp_device_type bp) h' = readable (Some (ap_type peer)) /\
    read_str (bp_wt_url bp) h' = readable (ap_wt_url peer) /\
    read_str (bp_wt_cert_hash bp) h' = readable (ap_wt_cert_hash peer) /\
    exists h'', bolt_peer_free (Some a) h' = Some h'' /\ h_cells h'' = h_cells h.
Proof.
  intros Hok Hp. destruct (get_peer_alloc st i h peer Hp) as (p1 & p2 & p3 & p4 & p5 & h1 & Ha & Hg).
  pose proof (alloc_strs_spec (peer_fields peer) h Hok) as Hs. rewrite Ha in Hs.
  destruct Hs as (Hok1 & Hle & Hnd & Hin & Hout & Hread). cbn in Hread.
  injection Hread as Hr1 Hr2 Hr3 Hr4 Hr5.
  assert (Hkeep : forall p, p ∈ [p1; p2; p3; p4; p5] ->
    read_str p (alloc (CellPeer (mkBoltPeer p3 p4 p5 p1 p2)) h1).2 = read_str p h1).
  { intros p Hpin. apply read_str_mono; [|done|].
    - intros a Hlt. cbn. rewrite lookup_insert_ne; [done|lia].
    - intros a ->. destruct (Hin a) as [[_ ?] _]; [|done].
      apply list_elem_of_omap. by exists (Some a). }
  eexists _, _, _. split; [rewrite Hg; reflexivity|].
  change (mkHeap _ _) with (alloc (CellPeer (mkBoltPeer p3 p4 p5 p1 p2)) h1).2.
  split; [cbn; by rewrite lookup_insert_eq|].
  cbn [bp_peer_code bp_device_name bp_device_type bp_wt_url bp_wt_cert_hash].
  rewrite !Hkeep by set_solver. do 5 (split; [done|]).
  rewrite peer_free_all by done.
  assert (Hperm : addrs [p3; p4; p5; p1; p2] ≡ₚ addrs [p1; p2; p3; p4; p5]).
  { unfold addrs. apply omap_Permutation. apply (Permutation_app_comm [p3; p4; p5] [p1; p2]). }
  destruct (free_strs_spec [p3; p4; p5; p1; p2] (mkHeap (S (h_next h1)) (h_cells h1)))
    as (h'' & Hf & Hc).
  - by rewrite Hperm.
  - intros a Ha'. rewrite Hperm in Ha'. by destruct (Hin a Ha') as [_ ?].
  - exists h''. split; [done|]. apply map_eq. intros a. rewrite Hc. cbn [h_cells].
    case_decide as Hd; rewrite Hperm in Hd.
    + destruct (Hin a Hd) as [Hge _]. symmetry.
      destruct (h_cells h !! a) as [c|] eqn:Ec; [|done]. apply Hok in Ec. lia.
    + by apply Hout.
Qed.
End Handover.

(** ** Incoming signals *)

(** A drained queue of lines without newlines or NULs. *)
Lemma drain_lines_spec q h :
  Forall (fun l => lacks newline l = true /\ lacks nul l = true) q -> heap_ok h ->
  let '(p, q', h') := drain_lines q h in
  q' = [] /\
  match q with
  | [] => p = None /\ h' = h
  | _ => exists text, read_str p h' = Some text /\ str_split newline text = q
  end.
Proof.
  intros Hq Hok. unfold drain_lines. destruct q as [|l q]; [done|].
  set (text := str_join (String newline EmptyString) (l :: q)).
  assert (Hnul : lacks nul text = true).
  { apply lacks_join; [done|]. eapply Forall_impl; [exact Hq|]. by intros ? [_ ?]. }
  pose proof (to_c_string_handed text h) as Hh. destruct (to_c_string text h) as [p h'].
  cbn [fst snd] in Hh.
  destruct Hh as [Hs|Hs]; [|by rewrite Hnul in Hs]. split; [done|].
  exists text. split; [cbn; by rewrite lookup_insert_eq|].
  apply str_split_join; [done|]. eapply Forall_impl; [exact Hq|]. by intros ? [? _].
Qed.

Section Signals.
Context {V : Type}.
Context (signal_json : string -> string -> V -> option string).
Implicit Types st : BoltSignaling V.

(** The JSON library escapes control characters. *)
Hypothesis json_lines : forall from ty data j, signal_json from ty data = Some j ->
  lacks newline j = true /\ lacks nul j = true.

(** The line an event queues. *)
Definition line_of (ev : DiscoveryEvent V) : option string :=
  match ev with EvSignal from ty data _ => signal_json from ty data | _ => None end.

Lemma incoming_lines evs st :
  bs_incoming (on_events signal_json evs st) = bs_incoming st ++ omap line_of evs.
Proof.
  unfold on_events. revert st. induction evs as [|ev evs IH]; intros st; [by rewrite app_nil_r|].
  cbn [foldl]. rewrite IH. destruct ev as [| | | | |f t d pl|]; cbn; try done.
  - by case_match.
  - destruct (signal_json f t d); [|done]. cbn. by rewrite <-app_assoc.
Qed.

Lemma line_of_ok evs :
  Forall (fun l => lacks newline l = true /\ lacks nul l = true) (omap line_of evs).
Proof.
  apply Forall_forall. intros l (ev & _ & Hl)%list_elem_of_omap.
  destruct ev; try done. by eapply json_lines.
Qed.

(** C16: no signal is lost, repeated or reordered on its way to the shell. From
    one drain to the next, whatever events come between, the text the shell
    gets splits at the newlines into exactly the lines the events queued, in
    order; the drain leaves the queue empty, and returns null exactly when
    nothing came. *)
Theorem signals_delivered evs st h :
  bs_incoming st = [] -> heap_ok h ->
  let '(p, st', h') := bolt_signaling_drain_signals (on_events signal_json evs st) h in
  bs_incoming st' = [] /\ bs_peers st' = bs_peers (on_events signal_json evs st) /\
  match omap line_of evs with
  | [] => p = None
  | lines => exists text, read_str p h' = Some text /\ str_split newline text = lines
  end.
Proof.
  intros Hempty Hok. unfold bolt_signaling_drain_signals.
  rewrite incoming_lines, Hempty. cbn [app].
  pose proof (drain_lines_spec (omap line_of evs) h (line_of_ok evs) Hok) as Hd.
  destruct (drain_lines (omap line_of evs) h) as [[p q'] h']. destruct Hd as [-> Hd].
  split; [done|]. split; [done|]. destruct (omap line_of evs); [apply Hd|done].
Qed.

Context (from_str : string -> option V) (empty_object : V).

(** A signal the shell sends always carries this device's own code as its
    source, and an unusable payload goes out as the empty object; a target or
    type that is not valid UTF-8 is not refused but sent as the empty text,
    with the answer that means success. *)
Theorem send_signal_behaviour st to ty data :
  let '(r, st') := bolt_signaling_send_signal from_str empty_object st to ty data in
  match to, ty with
  | Some t, Some y =>
    r = 1 /\ bs_sent st' = bs_sent st ++
      [(if utf8_valid t then t else EmptyString, if utf8_valid y then y else EmptyString,
        match data with
        | Some d => default empty_object (from_str (if utf8_valid d then d else EmptyString))
        | None => empty_object
        end, bs_peer_code st)]
  | _, _ => r = 0 /\ st' = st
  end.
Proof.
  unfold bolt_signaling_send_signal, cstr_to_string, to_str.
  destruct to as [t|]; [|done]. destruct ty as [y|]; [|done]. split; [done|]. cbn.
  destruct data as [d|]; repeat case_match; done.
Qed.
End Signals.

(** ** Witnesses *)

Section Witnesses.
Local Open Scope stdpp_scope.

Definition phone : AppPeer := mkAppPeer "K7X2AB" "Phone" "phone" (Some "https://10.0.0.2:9871") None.
Definition phone' : AppPeer := mkAppPeer "K7X2AB" "Phone" "phone" (Some "https://10.0.0.9:9871") None.

(** A renderer that drops what JSON would escape. *)
Definition render (from ty : string) (_ : unit) : option string :=
  Some (str_filter (fun c => negb (Ascii.eqb c newline) && negb (Ascii.eqb c nul)) (from +:+ ":" +:+ ty)).

Lemma render_lines from ty data j :
  render from ty data = Some j -> lacks newline j = true /\ lacks nul j = true.
Proof.
  unfold render, lacks. intros [= <-].
  split; (eapply str_all_impl; [|apply str_filter_all]); intros c [? ?]%andb_prop; done.
Defined.

Definition st0 : BoltSignaling unit := mkBoltSignaling [] "SELF01" [] [] false [].
Definition st1 : BoltSignaling unit := on_events render [EvPeerJoined phone Cloud] st0.


Lemma rejoin_keeps_old_data_witness :
  bs_peers (on_event render (EvPeerJoined phone' Cloud) st1) = [phone].
Proof.
  destruct (rejoin_keeps_old_data render st1 phone phone' Cloud) as [-> _];
    [vm_compute; left|done|done|by vm_compute].
Defined.

Lemma peer_handover_witness :
  exists a bp h', bolt_signaling_get_peer (Some st1) 0 (mkHeap 3 ∅) = (Some a, h') /\
    read_str (bp_wt_url bp) h' = Some "https://10.0.0.2:9871" /\
    exists h'', bolt_peer_free (Some a) h' = Some h'' /\ h_cells h'' = ∅.
Proof.
  assert (Hok : heap_ok (mkHeap 3 ∅)) by done.
  destruct (peer_handover st1 0 (mkHeap 3 ∅) phone Hok ltac:(by vm_compute))
    as (a & bp & h' & Hg & _ & _ & _ & _ & Hu & _ & Hf).
  exists a, bp, h'. split; [done|]. split; [|done]. by rewrite Hu.
Defined.

Lemma signals_delivered_witness :
  bs_incoming (bolt_signaling_drain_signals
    (on_events render [EvSignal "K7X2AB" "offer" tt Cloud; EvSignal "K7X2AB" "ice" tt Cloud] st0)
    (mkHeap 0 ∅)).1.2 = [].
Proof.
  assert (Hok : heap_ok (mkHeap 0 ∅)) by done.
  pose proof (signals_delivered render render_lines
    [EvSignal "K7X2AB" "offer" tt Cloud; EvSignal "K7X2AB" "ice" tt Cloud] st0 (mkHeap 0 ∅)
    eq_refl Hok) as H.
  destruct (bolt_signaling_drain_signals _ _) as [[p st'] h']. apply H.
Defined.
End Witnesses.
