(* ===== verification/IpcFfi.v ===== *)
(** * The IPC bridge's C interface (native/shared/src/ipc.rs)

    The capped queue of events behind the opaque handle and the exported
    functions.  The bridge to the daemon and the JSON library belong to other
    crates: their answers are parameters. *)

From S2P Require Import Prelude RStr CMem SignalingFfi SignalingFacts.

Open Scope Z_scope.

(** [validate_cstr] *)
Definition validate_cstr (p : c_arg) : option string := bytes ← p; to_str bytes.

(** [BoltIpc]: the queue of JSON events. *)
Record BoltIpc := mkBoltIpc { ipc_events : list string }.

Definition QUEUE_CAP : Z := 1000.

Section Ipc.
Context {V : Type}.

(** The JSON of an event, and of a payload. *)
Context (event_json : string -> V -> option string).
Context (from_str : string -> option V).

(** [bridge.start(path, version)] and [bridge.send_decision(msg)]. *)
Context (bridge_start : string -> string -> Result unit string).
Context (bridge_send : string -> V -> Result unit string).

(** [if q.len() < 1000 { q.push(json); }] *)
Definition push_capped (json : string) (q : list string) : list string :=
  if vec_len q <? QUEUE_CAP then q ++ [json] else q.

(** The event callback. *)
Definition on_ipc_event (name : string) (payload : V) (h : BoltIpc) : BoltIpc :=
  match event_json name payload with
  | Some json => mkBoltIpc (push_capped json (ipc_events h))
  | None => h
  end.

Definition on_ipc_events (evs : list (string * V)) (h : BoltIpc) : BoltIpc :=
  foldl (fun h ev => on_ipc_event ev.1 ev.2 h) h evs.

(** [bolt_ipc_start] *)
Definition bolt_ipc_start (socket_path app_version : c_arg) : option BoltIpc :=
  match validate_cstr socket_path with
  | None => None
  | Some socket_path =>
    match validate_cstr app_version with
    | None => None
    | Some app_version =>
      match bridge_start socket_path app_version with
      | Err _ => None
      | Ok _ => Some (mkBoltIpc [])
      end
    end
  end.

(** [bolt_ipc_is_connected], given the bridge's answer. *)
Definition bolt_ipc_is_connected (handle : option BoltIpc) (connected : bool) : Z :=
  match handle with Some _ => if connected then 1 else 0 | None => 0 end.

(** [bolt_ipc_drain_events] *)
Definition bolt_ipc_drain_events (handle : option BoltIpc) (h : heap) :
    ptr * option BoltIpc * heap :=
  match handle with
  | None => (None, None, h)
  | Some b => let '(p, q, h) := drain_lines (ipc_events b) h in (p, Some (mkBoltIpc q), h)
  end.

(** [bolt_ipc_send_decision] *)
Definition bolt_ipc_send_decision (handle : option BoltIpc) (msg_type payload_json : c_arg) : Z :=
  match handle with
  | None => 0
  | Some _ =>
    match validate_cstr msg_type with
    | None => 0
    | Some msg_type =>
      match validate_cstr payload_json with
      | None => 0
      | Some payload_json =>
        match from_str payload_json with
        | None => 0
        | Some payload =>
          match bridge_send msg_type payload with Ok _ => 1 | Err _ => 0 end
        end
      end
    end
  end.

(** [bolt_ipc_stop]: whether the bridge was told to shut down, and that the
    handle is gone. *)
Definition bolt_ipc_stop (handle : option BoltIpc) : bool * option BoltIpc :=
  match handle with Some _ => (true, None) | None => (false, None) end.

(** ** The queue *)

Lemma push_capped_take json q :
  vec_len q <= QUEUE_CAP -> push_capped json q = take 1000 (q ++ [json]).
Proof.
  unfold push_capped, vec_len, QUEUE_CAP. intros Hq.
  destruct (Z.ltb_spec (Z.of_nat (length q)) 1000).
  - rewrite take_ge; [done|]. rewrite length_app. cbn. lia.
  - rewrite take_app_le by lia. by rewrite take_ge by lia.
Qed.

(** The JSON of a run of events. *)
Definition lines (evs : list (string * V)) : list string :=
  omap (fun ev => event_json ev.1 ev.2) evs.

Lemma queue_take evs q :
  vec_len q <= QUEUE_CAP ->
  ipc_events (on_ipc_events evs (mkBoltIpc q)) = take 1000 (q ++ lines evs).
Proof.
  unfold on_ipc_events. revert q. induction evs as [|[name payload] evs IH]; intros q Hq.
  - cbn. rewrite app_nil_r, take_ge; [done|]. unfold vec_len, QUEUE_CAP in Hq. lia.
  - cbn [foldl]. unfold on_ipc_event at 2. cbn [fst snd ipc_events].
    unfold lines. cbn [omap list_omap]. cbn [fst snd].
    destruct (event_json name payload) as [json|]; [|by apply IH].
    rewrite IH; [|unfold vec_len, QUEUE_CAP; rewrite push_capped_take, length_take by done; lia].
    rewrite push_capped_take by done. fold (lines evs).
    change (q ++ json :: lines evs) with (q ++ [json] ++ lines evs). rewrite app_assoc.
    unfold vec_len, QUEUE_CAP in Hq.
    destruct (decide (length (q ++ [json]) <= 1000)%nat) as [Hle|Hgt].
    + by rewrite (take_ge (q ++ [json])).
    + rewrite (take_app_le (take 1000 (q ++ [json]))) by (rewrite length_take; lia).
      rewrite (take_app_le (q ++ [json])) by lia. by rewrite take_take.
Qed.

Hypothesis json_lines : forall name payload j, event_json name payload = Some j ->
  lacks newline j = true /\ lacks nul j = true.

(** C22: between two drains the shell gets, as newline-separated lines in order,
    the first thousand events that came: none lost, repeated or reordered up to
    the cap, and beyond it the newest are the ones dropped; the queue never
    holds more than a thousand, and a drain leaves it empty. *)
Theorem ipc_events_delivered evs h :
  heap_ok h ->
  let handle := on_ipc_events evs (mkBoltIpc []) in
  vec_len (ipc_events handle) <= QUEUE_CAP /\
  let '(p, handle', h') := bolt_ipc_drain_events (Some handle) h in
  handle' = Some (mkBoltIpc []) /\
  match take 1000 (lines evs) with
  | [] => p = None
  | ls => exists text, read_str p h' = Some text /\ str_split newline text = ls
  end.
Proof.
  intros Hok. cbn zeta. pose proof (queue_take evs [] ltac:(done)) as Hq. cbn [app] in Hq.
  split.
  - rewrite Hq. unfold vec_len, QUEUE_CAP. rewrite length_take. lia.
  - unfold bolt_ipc_drain_events. rewrite Hq.
    assert (Hl : Forall (fun l => lacks newline l = true /\ lacks nul l = true) (take 1000 (lines evs))).
    { apply Forall_take, Forall_forall. intros l ([name payload] & _ & Hl)%list_elem_of_omap.
      by eapply json_lines. }
    pose proof (drain_lines_spec (take 1000 (lines evs)) h Hl Hok) as Hd.
    destruct (drain_lines (take 1000 (lines evs)) h) as [[p q'] h'].
    destruct Hd as [-> Hd]. split; [done|]. destruct (take 1000 (lines evs)); [apply Hd|done].
Qed.

(** A decision is reported sent exactly when the handle and both strings
    are good, the payload is JSON and the bridge took it; otherwise nothing
    reaches the bridge or it said no. *)
Theorem send_decision_exact handle ty payload :
  bolt_ipc_send_decision handle ty payload = 1 <->
  handle <> None /\ exists t p v, validate_cstr ty = Some t /\ validate_cstr payload = Some p /\
    from_str p = Some v /\ bridge_send t v = Ok tt.
Proof.
  unfold bolt_ipc_send_decision. destruct handle as [b|]; [|split; [done|by intros [? _]]].
  split.
  - intros Hr. split; [done|]. repeat case_match; try done. destruct t as [].
    by eexists _, _, _.
  - intros (_ & t & p & v & -> & -> & -> & ->). done.
Qed.
End Ipc.

(** ** Witnesses *)

Definition event_name (name : string) (_ : unit) : option string := render name name tt.

Lemma event_name_lines name payload j :
  event_name name payload = Some j -> lacks newline j = true /\ lacks nul j = true.
Proof. by apply render_lines. Defined.

Lemma ipc_events_delivered_witness :
  vec_len (ipc_events (on_ipc_events event_name (replicate 1500 ("stats"%stdpp, tt))
    (mkBoltIpc []))) <= QUEUE_CAP.
Proof.
  assert (Hok : heap_ok (mkHeap 0 ∅)) by done.
  destruct (ipc_events_delivered event_name event_name_lines
    (replicate 1500 ("stats"%stdpp, tt)) (mkHeap 0 ∅) Hok) as [Hcap _]. exact Hcap.
Defined.
