(* ===== verification/DaemonFfi.v ===== *)
(** * Daemon supervision (native/shared/src/daemon.rs)

    The lookup of the daemon binary, its start, the stderr ring, the signal
    files that carry requests to it, and its stop.  Process creation and the
    file system are inputs: whether a path exists, whether a write succeeds,
    the running process id, the platform's data directory. *)

From S2P Require Import Prelude RStr CMem Lines SignalingFfi.

Open Scope Z_scope.
Local Open Scope stdpp_scope.

(** ** Paths *)

(** [std::path::Path]: whether it starts at the root, and its components. *)
Record path := mkPath { p_root : bool; p_comps : list string }.

Definition path_str (p : path) : string :=
  (if p_root p then "/" else EmptyString) +:+ str_join "/" (p_comps p).

(** [Path::parent]: none for the root and for the empty path. *)
Definition parent (p : path) : option path :=
  match p_comps p with
  | [] => None
  | _ => Some (mkPath (p_root p) (removelast (p_comps p)))
  end.

(** [Path::join] with a relative path. *)
Definition join (p : path) (comps : list string) : path := mkPath (p_root p) (p_comps p ++ comps).

(** [Path::ancestors]: the path itself, then its parents. *)
Fixpoint ancestors_from (fuel : nat) (p : path) : list path :=
  match fuel with
  | O => [p]
  | S fuel => p :: match parent p with Some p' => ancestors_from fuel p' | None => [] end
  end.
Definition ancestors (p : path) : list path := ancestors_from (length (p_comps p)) p.

(** ** Finding the binary *)

Definition DEV_LOOKUP_MAX_ANCESTORS : nat := 8.

(** The two build directories below one ancestor. *)
Definition dev_candidates (ancestor : path) : list string :=
  [path_str (join (join ancestor ["bolt-daemon"]) ["target"; "release"; "bolt-daemon"]);
   path_str (join (join ancestor ["bolt-daemon"]) ["target"; "debug"; "bolt-daemon"])].

Definition sidecar (exe_dir : path) : string := path_str (join exe_dir ["bolt-daemon"]).

Definition explicit_candidate (explicit_override : option string) : list string :=
  match explicit_override with
  | Some explicit => if str_is_empty explicit then [] else [explicit]
  | None => []
  end.

(** [daemon_candidate_paths] *)
Definition daemon_candidate_paths (current_exe : option path) (explicit_override : option string) :
    list string :=
  explicit_candidate explicit_override ++
  match current_exe ≫= parent with
  | Some exe_dir =>
    sidecar exe_dir ::
    (take DEV_LOOKUP_MAX_ANCESTORS (ancestors exe_dir) ≫= dev_candidates)
  | None => []
  end.

Fixpoint first_existing (exists_ : string -> bool) (l : list string) : option string :=
  match l with
  | [] => None
  | p :: l => if exists_ p then Some p else first_existing exists_ l
  end.

(** [resolve_daemon_binary] *)
Definition resolve_daemon_binary (exists_ : string -> bool) (current_exe : option path)
    (explicit_override : option string) : option string :=
  first_existing exists_ (daemon_candidate_paths current_exe explicit_override).

(** [bolt_daemon_find_binary] *)
Definition bolt_daemon_find_binary (exists_ : string -> bool) (current_exe : option path)
    (explicit_override : option string) (h : heap) : ptr * heap :=
  match resolve_daemon_binary exists_ current_exe explicit_override with
  | Some p => opt_c_string (to_str p) h
  | None => (None, h)
  end.

(** ** Starting *)

(** [daemon_spawn_args] *)
Definition daemon_spawn_args (ws_listen socket_path data_dir : string) : list string :=
  ["--mode"; "ws-endpoint"; "--ws-listen"; ws_listen; "--socket-path"; socket_path;
   "--data-dir"; data_dir; "--pairing-policy"; "ask"].

(** [BoltDaemon]; the child is there until it is stopped. *)
Record BoltDaemon := mkBoltDaemon {
  d_pid : Z;
  d_stderr : list string;
  d_ws_port : Z;
  d_data_dir : string;
  d_socket_path : string;
}.

(** [port] *)
Definition daemon_port (ws_port own_pid : Z) : Z :=
  if ws_port =? 0 then 9100 + own_pid mod 900 else ws_port.

(** [daemon_data_dir]: the platform's default, which another crate computes. *)
Definition daemon_data_dir (default_data_dir : string) : string := default_data_dir.

(** [bolt_daemon_start]; [spawn] is [Command::new(bin).args(..).spawn()] and
    gives the child's pid. *)
Definition bolt_daemon_start (spawn : string -> list string -> Result Z unit)
    (own_pid : Z) (default_data_dir : string) (daemon_bin : c_arg) (ws_port : Z) : option BoltDaemon :=
  match daemon_bin with
  | None => None
  | Some bytes =>
    match to_str bytes with
    | None => None
    | Some bin_path =>
      let port := daemon_port ws_port own_pid in
      let data_dir := daemon_data_dir default_data_dir in
      let socket_path := "/tmp/bolt-native-" +:+ show_Z own_pid +:+ ".sock" in
      let ws_listen := "0.0.0.0:" +:+ show_Z port in
      match spawn bin_path (daemon_spawn_args ws_listen socket_path data_dir) with
      | Err _ => None
      | Ok pid => Some (mkBoltDaemon pid [] port data_dir socket_path)
      end
    end
  end.

(** ** The stderr ring *)

(** One line captured: pushed, and the oldest 500 dropped over 1000. *)
Definition push_line (buf : list string) (line : string) : list string :=
  let buf := buf ++ [line] in
  if (1000 <? vec_len buf)%Z then drop 500 buf else buf.

(** [map_while(Result::ok)] and the pushes. *)
Fixpoint keep_while_ok (lines : list (Result string read_error)) (buf : list string) : list string :=
  match lines with
  | Ok line :: lines => keep_while_ok lines (push_line buf line)
  | Err _ :: _ | [] => buf
  end.

(** The capture thread: [reader.lines().map_while(Result::ok)] over what the
    child writes to its pipe. *)
Definition capture (stderr : list (option ascii)) (buf : list string) : list string :=
  keep_while_ok (buf_lines stderr EmptyString) buf.

Definition set_stderr (buf : list string) (d : BoltDaemon) : BoltDaemon :=
  mkBoltDaemon (d_pid d) buf (d_ws_port d) (d_data_dir d) (d_socket_path d).

(** The lines [bolt_daemon_recent_stderr] joins. *)
Definition recent_lines (buf : list string) (last_n : Z) : list string :=
  drop (length buf - Z.to_nat last_n) buf.

Definition bolt_daemon_recent_stderr (handle : option BoltDaemon) (last_n : Z) (h : heap) :
    ptr * heap :=
  match handle with
  | None => (None, h)
  | Some d => to_c_string (str_join (String newline EmptyString) (recent_lines (d_stderr d) last_n)) h
  end.

(** ** Getters *)

(** [try_wait] answers whether the child has exited. *)
Definition bolt_daemon_is_running (handle : option BoltDaemon) (exited : bool) : Z :=
  match handle with Some _ => if exited then 0 else 1 | None => 0 end.
Definition bolt_daemon_ws_port (handle : option BoltDaemon) : Z :=
  match handle with Some d => d_ws_port d | None => 0 end.
Definition bolt_daemon_pid (handle : option BoltDaemon) : Z :=
  match handle with Some d => d_pid d | None => 0 end.
Definition bolt_daemon_socket_path (handle : option BoltDaemon) (h : heap) : ptr * heap :=
  match handle with Some d => to_c_string (d_socket_path d) h | None => (None, h) end.
Definition bolt_daemon_data_dir (handle : option BoltDaemon) (h : heap) : ptr * heap :=
  match handle with Some d => to_c_string (d_data_dir d) h | None => (None, h) end.

(** ** Signal files *)

(** The file system the functions write to, and which paths accept a write. *)
Abbreviation files := (gmap string string).

Section Files.
Context (writable : string -> bool).

(** [std::fs::write(path, contents)] and the 1 or 0 the exports answer. *)
Definition write_signal (d : BoltDaemon) (name contents : string) (fs : files) : Z * files :=
  let signal_path := d_data_dir d +:+ "/" +:+ name in
  if writable signal_path then (1, <[signal_path := contents]> fs) else (0, fs).

Definition bolt_daemon_send_file (handle : option BoltDaemon) (file_path : c_arg) (fs : files) :
    Z * files :=
  match handle, file_path with
  | Some d, Some bytes =>
    match to_str bytes with
    | Some p => write_signal d "send_file.signal" p fs
    | None => (0, fs)
    end
  | _, _ => (0, fs)
  end.

Definition bolt_daemon_disconnect_session (handle : option BoltDaemon) (fs : files) : Z * files :=
  match handle with
  | Some d => write_signal d "disconnect_session.signal" "disconnect" fs
  | None => (0, fs)
  end.

Definition bolt_daemon_connect_remote (handle : option BoltDaemon) (ws_url : c_arg) (fs : files) :
    Z * files :=
  match handle, ws_url with
  | Some d, Some bytes =>
    match to_str bytes with
    | Some url => write_signal d "connect_remote.signal" url fs
    | None => (0, fs)
    end
  | _, _ => (0, fs)
  end.

(** [optional_cstr] *)
Definition optional_cstr (p : c_arg) : Result (option string) unit :=
  match p with
  | None => Ok None
  | Some bytes =>
    match to_str bytes with
    | None => Err tt
    | Some s => let value := str_trim s in
                if str_is_empty value then Ok None else Ok (Some value)
    end
  end.

(** [json!({wsUrl, quicAddr, quicCertHash}).to_string()] *)
Context (connect_json : option string -> option string -> option string -> string).

Definition is_none {A} (o : option A) : bool := match o with None => true | Some _ => false end.

Definition bolt_daemon_connect_remote_v2 (handle : option BoltDaemon)
    (ws_url quic_addr quic_cert_hash : c_arg) (fs : files) : Z * files :=
  match handle with
  | None => (0, fs)
  | Some d =>
    match optional_cstr ws_url with
    | Err _ => (0, fs)
    | Ok ws_url =>
      match optional_cstr quic_addr with
      | Err _ => (0, fs)
      | Ok quic_addr =>
        match optional_cstr quic_cert_hash with
        | Err _ => (0, fs)
        | Ok quic_cert_hash =>
          if is_none ws_url && is_none quic_addr then (0, fs)
          else write_signal d "connect_remote.signal" (connect_json ws_url quic_addr quic_cert_hash) fs
        end
      end
    end
  end.

Definition bolt_daemon_allow_quic_peer_cert_hash (handle : option BoltDaemon)
    (quic_cert_hash : c_arg) (fs : files) : Z * files :=
  match handle, quic_cert_hash with
  | Some d, Some bytes =>
    match to_str bytes with
    | None => (0, fs)
    | Some s =>
      let hash := str_trim s in
      if negb (usize_len hash =? 64)%Z || negb (str_all is_ascii_hexdigit hash) then (0, fs)
      else write_signal d "allow_quic_peer.signal" hash fs
    end
  | _, _ => (0, fs)
  end.

Definition bolt_daemon_pause_transfer (handle : option BoltDaemon) (fs : files) : Z * files :=
  match handle with
  | Some d => write_signal d "transfer_pause.signal" "pause" fs
  | None => (0, fs)
  end.

Definition bolt_daemon_resume_transfer (handle : option BoltDaemon) (fs : files) : Z * files :=
  match handle with
  | Some d => write_signal d "transfer_resume.signal" "resume" fs
  | None => (0, fs)
  end.

(** [bolt_daemon_stop]: the processes killed and the files after. *)
Definition bolt_daemon_stop (handle : option BoltDaemon) (fs : files) : list Z * files :=
  match handle with
  | Some d => ([d_pid d], delete (d_socket_path d) fs)
  | None => ([], fs)
  end.
End Files.

Example candidates_example :
  daemon_candidate_paths (Some (mkPath true ["opt"; "LocalBolt"])) (Some "/usr/bin/bolt") =
    ["/usr/bin/bolt"; "/opt/bolt-daemon";
     "/opt/bolt-daemon/target/release/bolt-daemon"; "/opt/bolt-daemon/target/debug/bolt-daemon";
     "/bolt-daemon/target/release/bolt-daemon"; "/bolt-daemon/target/debug/bolt-daemon"] /\
  daemon_candidate_paths (Some (mkPath true [])) (Some EmptyString) = [].
Proof. by vm_compute. Qed.
