(* ===== verification/DaemonFacts.v ===== *)
(** * Properties of daemon supervision

    Which binary is chosen, what the stderr ring keeps, the policy the daemon
    is started with, and what reaches it through the signal files. *)

From S2P Require Import Prelude RStr CMem Lines SignalingFfi DaemonFfi.

Open Scope Z_scope.
Local Open Scope stdpp_scope.

(** ** The choice of the binary *)

Lemma first_existing_Some exists_ l p :
  first_existing exists_ l = Some p <->
  exists l1 l2, l = l1 ++ p :: l2 /\ exists_ p = true /\ Forall (fun q => exists_ q = false) l1.
Proof.
  induction l as [|q l IH]; cbn [first_existing].
  - split; [done|]. intros (l1 & l2 & Hl & _). by destruct l1.
  - destruct (exists_ q) eqn:Eq.
    + split.
      * intros [= ->]. by exists [], l.
      * intros ([|q' l1] & l2 & [= -> ->] & Hp & Hl1); [done|].
        apply Forall_cons in Hl1 as [? _]. congruence.
    + rewrite IH. split.
      * intros (l1 & l2 & -> & Hp & Hl1). exists (q :: l1), l2. auto with bolt.
      * intros ([|q' l1] & l2 & [= -> ->] & Hp & Hl1); [congruence|].
        apply Forall_cons in Hl1 as [_ ?]. by exists l1, l2.
Qed.

Lemma first_existing_None exists_ l :
  first_existing exists_ l = None <-> Forall (fun q => exists_ q = false) l.
Proof.
  induction l as [|q l IH]; cbn [first_existing]; [by split|].
  rewrite Forall_cons. destruct (exists_ q) eqn:Eq; [by split; [|intros [? _]]|]. tauto.
Qed.

Lemma first_existing_app exists_ l l' :
  first_existing exists_ (l ++ l') =
    match first_existing exists_ l with Some p => Some p | None => first_existing exists_ l' end.
Proof. induction l as [|q l IH]; [done|]. cbn. by destruct (exists_ q). Qed.

Lemma dev_candidates_length l : length (l ≫= dev_candidates) = (2 * length l)%nat.
Proof. induction l as [|a l IH]; [done|]. rewrite bind_cons, length_app, IH. cbn. lia. Qed.

(** The daemon that is run is the first candidate that exists: an existing
    explicit override wins over everything; otherwise the sidecar next to the
    executable wins over every development build; a development build is found
    only among at most sixteen places, two per ancestor; and with none of them
    nothing is run. *)
Theorem daemon_lookup_order exists_ exe exe_dir override :
  exe ≫= parent = Some exe_dir ->
  resolve_daemon_binary exists_ exe override =
    match first_existing exists_ (explicit_candidate override) with
    | Some p => Some p
    | None =>
      if exists_ (sidecar exe_dir) then Some (sidecar exe_dir)
      else first_existing exists_ (take 8 (ancestors exe_dir) ≫= dev_candidates)
    end /\
  (length (take 8 (ancestors exe_dir) ≫= dev_candidates) <= 16)%nat /\
  (forall p, resolve_daemon_binary exists_ exe override = Some p ->
     exists_ p = true /\ p ∈ daemon_candidate_paths exe override).
Proof.
  intros Hexe. split; [|split].
  - unfold resolve_daemon_binary, daemon_candidate_paths. rewrite Hexe, first_existing_app.
    done.
  - rewrite dev_candidates_length, length_take. lia.
  - intros p (l1 & l2 & Hl & Hp & _)%first_existing_Some. split; [done|].
    rewrite Hl. apply elem_of_app. right. by left.
Qed.

(** ** The stderr ring *)

(** A buffer of the ring against everything captured. *)
Record ring_ok (all buf : list string) : Prop := {
  ring_suffix : exists dropped, all = dropped ++ buf;
  ring_size : (length buf <= 1000)%nat;
  ring_kept : (500 <= length buf)%nat \/ buf = all;
}.

Lemma push_line_ok all buf line : ring_ok all buf -> ring_ok (all ++ [line]) (push_line buf line).
Proof.
  intros [[d Hd] Hs Hk]. unfold push_line. cbn zeta. subst all.
  destruct (Z.ltb_spec 1000 (vec_len (buf ++ [line]))) as [Hlt|Hge];
    unfold vec_len in *; rewrite length_app in *; cbn [length] in *.
  - split.
    + exists (d ++ take 500 (buf ++ [line])). by rewrite <-!app_assoc, (take_drop 500 (buf ++ [line])).
    + rewrite length_drop, length_app. cbn. lia.
    + left. rewrite length_drop, length_app. cbn. lia.
  - split.
    + exists d. by rewrite app_assoc.
    + rewrite length_app. cbn. lia.
    + destruct Hk as [Hk|Hk]; [left; rewrite length_app; cbn; lia|right]. by rewrite <-Hk.
Qed.

(** The lines before the first read error. *)
Fixpoint good_lines (lines : list (Result string read_error)) : list string :=
  match lines with
  | Ok line :: lines => line :: good_lines lines
  | Err _ :: _ | [] => []
  end.

Lemma keep_while_ok_ring lines all buf :
  ring_ok all buf -> ring_ok (all ++ good_lines lines) (keep_while_ok lines buf).
Proof.
  revert all buf. induction lines as [|[line|e] lines IH]; intros all buf Hr; cbn.
  - by rewrite app_nil_r.
  - change (all ++ line :: good_lines lines) with (all ++ [line] ++ good_lines lines).
    rewrite app_assoc. by apply IH, push_line_ok.
  - by rewrite app_nil_r.
Qed.

Lemma keep_while_ok_stops lines e rest buf :
  keep_while_ok (lines ++ Err e :: rest) buf = keep_while_ok (lines ++ [Err e]) buf.
Proof. revert buf. induction lines as [|[line|e'] lines IH]; intros buf; cbn; auto. Qed.

Lemma keep_while_ok_end lines e buf :
  keep_while_ok (lines ++ [Err e]) buf = keep_while_ok lines buf.
Proof. revert buf. induction lines as [|[line|e'] lines IH]; intros buf; cbn; auto. Qed.

(** What the daemon writes, line by line. *)
Definition written (ws : list string) : list (option ascii) := stream (Some <$> ws).

Lemma capture_written ws buf :
  Forall (fun w => lacks newline w = true) ws ->
  capture (written ws) buf = keep_while_ok (finish_line <$> ws) buf.
Proof.
  intros Hws. unfold capture, written. rewrite <-(app_nil_r (stream _)), buf_lines_stream by (by apply Forall_fmap).
  by rewrite app_nil_r, <-list_fmap_compose.
Qed.

Lemma good_lines_text ws :
  Forall (fun w => utf8_valid w = true) ws -> good_lines (finish_line <$> ws) = strip_cr <$> ws.
Proof.
  induction 1 as [|w ws Hw Hws IH]; [done|]. rewrite fmap_cons, finish_line_ok by done. cbn.
  by rewrite IH.
Qed.

(** C23: of what the daemon writes to its standard error, line by line, at most
    1000 lines are kept.  While it writes text, asking for up to 500 recent
    lines gives exactly the last lines it wrote, without their line ends, as if
    nothing had been dropped.  With the first line that is not UTF-8 the capture
    is over: whatever the daemon writes from then on, the answers stay what they
    were before it. *)
Theorem recent_stderr_exact ws n :
  Forall (fun w => lacks newline w = true) ws -> 0 <= n <= 500 ->
  (length (capture (written ws) []) <= 1000)%nat /\
  (Forall (fun w => utf8_valid w = true) ws ->
     recent_lines (capture (written ws) []) n = strip_cr <$> drop (length ws - Z.to_nat n) ws) /\
  (forall bad more, lacks newline bad = true -> Forall (fun w => lacks newline w = true) more ->
     utf8_valid bad = false ->
     capture (written (ws ++ bad :: more)) [] = capture (written ws) []).
Proof.
  intros Hws Hn. assert (H0 : ring_ok [] []) by (split; [by exists []|cbn; lia|by right]).
  destruct (keep_while_ok_ring (finish_line <$> ws) [] [] H0) as [[d Hd] Hs Hk]. cbn [app] in *.
  split_and!; [by rewrite capture_written|..].
  - intros Htext. rewrite capture_written by done. rewrite good_lines_text in * by done.
    rewrite fmap_drop. unfold recent_lines.
    replace (length ws) with (length (strip_cr <$> ws)) by apply length_fmap.
    destruct Hk as [Hk|Hk]; [|by rewrite <-Hk].
    rewrite Hd, length_app, drop_app, (drop_ge d) by lia. cbn [app]. f_equal. lia.
  - intros bad more Hbad Hmore Hu. rewrite !capture_written; [|done|by apply Forall_app_2; [|constructor]].
    by rewrite fmap_app, fmap_cons, (finish_line_err bad), keep_while_ok_stops, keep_while_ok_end.
Qed.

(** ** Starting and stopping *)

Definition follows (x y : string) (l : list string) : Prop :=
  exists l1 l2, l = l1 ++ x :: y :: l2.

(** C24: however the daemon is started, it is started with the pairing policy
    [ask], on the port the handle reports, which is a valid unprivileged port
    when the caller leaves the choice to the library; the handle's paths are
    the ones the daemon was given. *)
Theorem daemon_start_args spawn own_pid data_dir bin port d :
  0 <= own_pid -> 0 <= port < 65536 ->
  bolt_daemon_start spawn own_pid data_dir bin port = Some d ->
  exists bin_path args, to_str bin_path = bin /\ spawn bin_path args = Ok (d_pid d) /\
    follows "--pairing-policy" "ask" args /\
    follows "--ws-listen" ("0.0.0.0:" +:+ show_Z (d_ws_port d)) args /\
    follows "--socket-path" (d_socket_path d) args /\
    follows "--data-dir" (d_data_dir d) args /\
    (port = 0 -> 9100 <= d_ws_port d < 10000) /\ (port <> 0 -> d_ws_port d = port).
Proof.
  intros Hpid Hport. unfold bolt_daemon_start. destruct bin as [bytes|]; [|done].
  destruct (to_str bytes) as [bin_path|] eqn:Eb; [|done].
  destruct (spawn _ _) as [pid|] eqn:Es; [|done]. intros [= <-].
  assert (bin_path = bytes) as ->.
  { unfold to_str in Eb. destruct (utf8_valid bytes); congruence. }
  eexists _, _. split; [done|]. split; [done|]. cbn [d_ws_port d_socket_path d_data_dir].
  unfold daemon_spawn_args, follows. split; [|split; [|split; [|split; [|split]]]].
  - by eexists ["--mode"; _; _; _; _; _; _; _], [].
  - by eexists ["--mode"; _], _.
  - by eexists ["--mode"; _; _; _], _.
  - by eexists ["--mode"; _; _; _; _; _], _.
  - intros ->. unfold daemon_port. cbn. pose proof (Z.mod_pos_bound own_pid 900). lia.
  - intros Hne. unfold daemon_port. by destruct (Z.eqb_spec port 0).
Qed.

(** ** Signal files *)

(** A certificate hash is allowed exactly when, trimmed, it is 64
    hexadecimal digits; the daemon then reads exactly those digits; anything
    else is refused before any file is touched. *)
Theorem allow_quic_exact writable d bytes fs :
  let path := d_data_dir d +:+ "/allow_quic_peer.signal" in
  let '(r, fs') := bolt_daemon_allow_quic_peer_cert_hash writable (Some d) (Some bytes) fs in
  (r = 1 <-> utf8_valid bytes = true /\ usize_len (str_trim bytes) = 64 /\
     str_all is_ascii_hexdigit (str_trim bytes) = true /\ writable path = true) /\
  (r = 1 -> fs' = <[path := str_trim bytes]> fs) /\ (r <> 1 -> r = 0 /\ fs' = fs).
Proof.
  cbn zeta. unfold bolt_daemon_allow_quic_peer_cert_hash, to_str.
  destruct (utf8_valid bytes); [|split; [split; [done|by intros [? _]]|done]].
  destruct (Z.eqb_spec (usize_len (str_trim bytes)) 64) as [Hl|Hl]; cbn [negb orb];
    [|split; [split; [done|by intros (_ & ? & _)]|done]].
  destruct (str_all is_ascii_hexdigit (str_trim bytes)); cbn [negb];
    [|split; [split; [done|by intros (_ & _ & ? & _)]|done]].
  unfold write_signal. change ("/" +:+ "allow_quic_peer.signal") with "/allow_quic_peer.signal".
  destruct (writable _) eqn:Ew; [done|]. split; [split; [done|]|done].
  intros (_ & _ & _ & ?). done.
Qed.

(** What an optional argument means once trimmed. *)
Lemma optional_cstr_ok p o :
  optional_cstr p = Ok o <->
  match p with
  | None => o = None
  | Some bytes => utf8_valid bytes = true /\
      o = if str_is_empty (str_trim bytes) then None else Some (str_trim bytes)
  end.
Proof.
  unfold optional_cstr, to_str. destruct p as [bytes|]; [|by split; [intros [= <-]|intros ->]].
  destruct (utf8_valid bytes); [|by split; [|intros [? _]]].
  destruct (str_is_empty _); (split; [by intros [= <-]|by intros [_ ->]]).
Qed.

(** A structured connect request is written exactly when the three
    arguments are readable and at least one of the two addresses is more than
    blanks; blank arguments count as absent, and otherwise nothing is
    written. *)
Theorem connect_remote_v2_exact writable connect_json d ws quic hash fs :
  let path := d_data_dir d +:+ "/connect_remote.signal" in
  let '(r, fs') := bolt_daemon_connect_remote_v2 writable connect_json (Some d) ws quic hash fs in
  (r = 1 <-> exists w q h, optional_cstr ws = Ok w /\ optional_cstr quic = Ok q /\
     optional_cstr hash = Ok h /\ (w <> None \/ q <> None) /\ writable path = true) /\
  (forall w q h, r = 1 -> optional_cstr ws = Ok w -> optional_cstr quic = Ok q ->
     optional_cstr hash = Ok h -> fs' = <[path := connect_json w q h]> fs) /\
  (r <> 1 -> r = 0 /\ fs' = fs).
Proof.
  cbn zeta. unfold bolt_daemon_connect_remote_v2.
  destruct (optional_cstr ws) as [w|]; [|split; [split; [done|naive_solver]|done]].
  destruct (optional_cstr quic) as [q|]; [|split; [split; [done|naive_solver]|done]].
  destruct (optional_cstr hash) as [h|]; [|split; [split; [done|naive_solver]|done]].
  unfold write_signal. change ("/" +:+ "connect_remote.signal") with "/connect_remote.signal".
  destruct w as [w|], q as [q|]; cbn [is_none andb];
    [| | |split; [split; [done|naive_solver]|done]];
    (destruct (writable _) eqn:Ew;
      [split; [split; [intros _; eexists _, _, _; repeat split; by (left + right)|done]
              |split; [by intros ? ? ? _ [= <-] [= <-] [= <-]|done]]
      |split; [split; [done|naive_solver]|done]]).
Qed.

(** Stopping the daemon ends its process and removes its socket, and leaves
    every other file alone, those of the data directory with the identity and
    the trust store included. *)
Theorem stop_keeps_data d fs f :
  f <> d_socket_path d ->
  (bolt_daemon_stop (Some d) fs).2 !! f = fs !! f /\
  (bolt_daemon_stop (Some d) fs).1 = [d_pid d] /\
  (bolt_daemon_stop (Some d) fs).2 !! d_socket_path d = None.
Proof.
  intros Hf. cbn. rewrite lookup_delete_ne by done. by rewrite lookup_delete_eq.
Qed.

(** ** Witnesses *)

Definition app : path := mkPath true ["Applications"; "LocalBolt.app"; "LocalBolt"].

Lemma daemon_lookup_order_witness :
  resolve_daemon_binary (fun p => negb (String.eqb p "/nowhere")) (Some app) (Some "/nowhere") =
    Some "/Applications/LocalBolt.app/bolt-daemon".
Proof.
  destruct (daemon_lookup_order (fun p => negb (String.eqb p "/nowhere")) (Some app)
    (mkPath true ["Applications"; "LocalBolt.app"]) (Some "/nowhere") eq_refl) as [-> _].
  by vm_compute.
Defined.

Lemma recent_stderr_exact_witness :
  recent_lines (capture (written (replicate 1200 "line")) []) 3 = replicate 3 "line" /\
  recent_lines (capture (written (replicate 1200 "line" ++ String "255" EmptyString :: ["more"])) []) 3 =
    replicate 3 "line".
Proof.
  destruct (recent_stderr_exact (replicate 1200 "line") 3 ltac:(by apply Forall_replicate) ltac:(lia))
    as (_ & Hr & Hbad).
  rewrite Hbad by (by repeat constructor). rewrite Hr by (by apply Forall_replicate).
  split; by vm_compute.
Defined.

Lemma daemon_start_args_witness :
  exists d, bolt_daemon_start (fun _ _ => Ok 77) 1234 "/data" (Some "/bin/bolt-daemon") 0 = Some d /\
    9100 <= d_ws_port d < 10000.
Proof.
  destruct (bolt_daemon_start (fun _ _ => Ok 77) 1234 "/data" (Some "/bin/bolt-daemon") 0)
    as [d|] eqn:E; [|by vm_compute in E].
  exists d. split; [done|].
  destruct (daemon_start_args (fun _ _ => Ok 77) 1234 "/data" (Some "/bin/bolt-daemon") 0 d
    ltac:(lia) ltac:(lia) E) as (_ & _ & _ & _ & _ & _ & _ & _ & Hp & _).
  by apply Hp.
Defined.

Lemma stop_keeps_data_witness :
  (bolt_daemon_stop (Some (mkBoltDaemon 77 [] 9100 "/data" "/tmp/b.sock"))
    {["/data/identity" := "key"]}).2 !! "/data/identity" = Some "key".
Proof.
  destruct (stop_keeps_data (mkBoltDaemon 77 [] 9100 "/data" "/tmp/b.sock")
    {["/data/identity" := "key"]} "/data/identity" ltac:(done)) as [-> _].
  by vm_compute.
Defined.
