(* ===== verification/Format.v ===== *)
(** * Floating point and sizes for the Linux clients

    The [f64] arithmetic the two Linux clients use to show sizes and progress:
    conversion of a [u64], division by a power of two, multiplication, and the
    one-decimal [Display]; then [format_bytes] (native/linux/cli/src/main.rs)
    and [human_size] (native/linux/gtk/src/main.rs).

    A finite [f64] is a dyadic number, mantissa and exponent; dividing by a
    power of two changes only the exponent, which the sizes here keep far from
    the ends of its range. *)

From S2P Require Import Prelude.

Open Scope Z_scope.

(** [z / 2^k] to the nearest integer, ties to the even one. *)
Definition rne_shift (z k : Z) : Z :=
  let d := 2 ^ k in
  let q := z / d in let r := z mod d in
  if 2 * r <? d then q
  else if d <? 2 * r then q + 1
  else if Z.even q then q else q + 1.

Record f64 := mkF64 { f_man : Z; f_exp : Z }.

(** Rounding to 53 significant bits. *)
Definition round53 (m e : Z) : f64 :=
  let extra := Z.log2 (Z.abs m) - 52 in
  if extra <=? 0 then mkF64 m e else mkF64 (rne_shift m extra) (e + extra).

(** [bytes as f64] *)
Definition f64_of_u64 (z : Z) : f64 := round53 z 0.

(** [x / 2^k] *)
Definition f64_div_pow2 (x : f64) (k : Z) : f64 := mkF64 (f_man x) (f_exp x - k).

(** [x * n] for a small integer constant [n]. *)
Definition f64_mul (x : f64) (n : Z) : f64 := round53 (f_man x * n) (f_exp x).

(** [x >= n] for an integer constant [n]. *)
Definition f64_ge (x : f64) (n : Z) : bool :=
  if 0 <=? f_exp x then n <=? f_man x * 2 ^ f_exp x
  else n * 2 ^ (- f_exp x) <=? f_man x.

(** [x as u32]: towards zero, saturating. *)
Definition f64_as_u32 (x : f64) : Z :=
  let t := if 0 <=? f_exp x then f_man x * 2 ^ f_exp x else Z.quot (f_man x) (2 ^ (- f_exp x)) in
  Z.max 0 (Z.min t 4294967295).

(** The tenths [{:.1}] prints: the exact value, ties to even. *)
Definition tenths (x : f64) : Z :=
  if 0 <=? f_exp x then 10 * (f_man x * 2 ^ f_exp x)
  else rne_shift (10 * f_man x) (- f_exp x).

(** [{:.1}] of a number that is not negative. *)
Definition show_1 (x : f64) : string :=
  (show_Z (tenths x / 10) +:+ "." +:+ show_Z (tenths x mod 10))%stdpp.

Definition KB : Z := 1024.
Definition MB : Z := 1024 * KB.
Definition GB : Z := 1024 * MB.

(** [format_bytes] *)
Definition format_bytes (bytes : Z) : string :=
  (if (GB <=? bytes)%Z then show_1 (f64_div_pow2 (f64_of_u64 bytes) 30) +:+ " GB"
   else if (MB <=? bytes)%Z then show_1 (f64_div_pow2 (f64_of_u64 bytes) 20) +:+ " MB"
   else if (KB <=? bytes)%Z then show_1 (f64_div_pow2 (f64_of_u64 bytes) 10) +:+ " KB"
   else show_Z bytes +:+ " B")%stdpp.

Definition UNITS : list string := (["B"; "KB"; "MB"; "GB"; "TB"])%stdpp.

(** The loop of [human_size]: it runs at most [UNITS.len() - 1] times, which is
    the fuel. *)
Fixpoint scale (fuel : nat) (size : f64) (unit : nat) : f64 * nat :=
  match fuel with
  | O => (size, unit)
  | S fuel =>
    if f64_ge size 1024 && Nat.ltb unit (length UNITS - 1)
    then scale fuel (f64_div_pow2 size 10) (S unit)
    else (size, unit)
  end.

(** [human_size] *)
Definition human_size (bytes : Z) : string :=
  let '(size, unit) := scale 4 (f64_of_u64 bytes) 0 in
  (if Nat.eqb unit 0 then show_Z bytes +:+ " " +:+ default EmptyString (UNITS !! 0%nat)
   else show_1 size +:+ " " +:+ default EmptyString (UNITS !! unit))%stdpp.

Example format_bytes_examples :
  (format_bytes 0, format_bytes 512, format_bytes 1024, format_bytes 1048576,
   format_bytes 1073741824, format_bytes 1536) =
  ("0 B", "512 B", "1.0 KB", "1.0 MB", "1.0 GB", "1.5 KB")%stdpp.
Proof. by vm_compute. Qed.

(** ** Rounding *)

Lemma rne_shift_error z k : 0 <= k -> Z.abs (2 * (rne_shift z k * 2 ^ k - z)) <= 2 ^ k.
Proof.
  intros Hk. assert (Hd : 0 < 2 ^ k) by (by apply Z.pow_pos_nonneg; lia).
  unfold rne_shift. cbn zeta. generalize dependent (2 ^ k). intros d Hd.
  pose proof (Z.div_mod z d ltac:(lia)) as Hz. pose proof (Z.mod_pos_bound z d Hd) as Hr.
  destruct (Z.ltb_spec (2 * (z mod d)) d); [nia|].
  destruct (Z.ltb_spec d (2 * (z mod d))); [nia|].
  destruct (Z.even (z / d)); nia.
Qed.

Lemma f64_of_small z : 0 <= z < 2 ^ 53 -> f64_of_u64 z = mkF64 z 0.
Proof.
  intros Hz. unfold f64_of_u64, round53. cbn zeta.
  destruct (Z.leb_spec (Z.log2 (Z.abs z) - 52) 0) as [|Hlt]; [done|].
  assert (Z.log2 (Z.abs z) < 53); [|lia].
  rewrite Z.abs_eq by lia. destruct (Z.eq_dec z 0) as [->|]; [done|].
  apply Z.log2_lt_pow2; lia.
Qed.

Lemma tenths_size z k :
  0 <= z < 2 ^ 53 -> 0 < k ->
  Z.abs (2 * (tenths (f64_div_pow2 (f64_of_u64 z) k) * 2 ^ k - 10 * z)) <= 2 ^ k.
Proof.
  intros Hz Hk. rewrite f64_of_small by done. unfold tenths, f64_div_pow2. cbn [f_man f_exp].
  destruct (Z.leb_spec 0 (0 - k)); [lia|]. replace (- (0 - k)) with k by lia.
  apply rne_shift_error. lia.
Qed.

(** The unit a size is shown in: none, or a power of two and its name. *)
Definition unit_of (bytes : Z) : Z * string :=
  if GB <=? bytes then (30, " GB"%stdpp)
  else if MB <=? bytes then (20, " MB"%stdpp) else (10, " KB"%stdpp).

(** Below 2^53 bytes (eight pebibytes) [format_bytes] shows sizes under a
    kibibyte exactly, and any other as a number of tenths of the largest unit
    that fits, off by at most half a tenth. *)
Theorem format_bytes_accurate bytes :
  0 <= bytes < 2 ^ 53 ->
  (bytes < KB -> format_bytes bytes = (show_Z bytes +:+ " B")%stdpp) /\
  (KB <= bytes -> exists t,
     format_bytes bytes =
       (show_Z (t / 10) +:+ "." +:+ show_Z (t mod 10) +:+ (unit_of bytes).2)%stdpp /\
     2 ^ (unit_of bytes).1 <= bytes /\
     Z.abs (2 * (t * 2 ^ (unit_of bytes).1 - 10 * bytes)) <= 2 ^ (unit_of bytes).1).
Proof.
  intros Hb. unfold format_bytes, unit_of. split.
  - intros Hk. unfold GB, MB, KB in *. destruct (Z.leb_spec (1024 * (1024 * 1024)) bytes); [lia|].
    destruct (Z.leb_spec (1024 * 1024) bytes); [lia|].
    by destruct (Z.leb_spec 1024 bytes); [lia|].
  - intros Hk.
    assert (Happ : forall a b c d : string, ((a +:+ (b +:+ c)) +:+ d = a +:+ (b +:+ (c +:+ d)))%stdpp).
    { assert (Ha : forall a b c : string, ((a +:+ b) +:+ c = a +:+ (b +:+ c))%stdpp).
      { intros a b c. induction a as [|x a IH]; [done|].
        change ((String x a +:+ b) +:+ c)%stdpp with (String x ((a +:+ b) +:+ c)%stdpp).
        by rewrite IH. }
      intros a b c d. by rewrite !Ha. }
    destruct (Z.leb_spec GB bytes) as [Hg|Hg]; [|destruct (Z.leb_spec MB bytes) as [Hm|Hm]];
      [| |destruct (Z.leb_spec KB bytes) as [_|]; [|lia]]; cbn [fst snd];
      (eexists; split; [unfold show_1; apply Happ|split; [done|by apply tenths_size]]).
Qed.

(** At the top of a unit the two clients round up to 1024 of it instead of
    one of the next: one byte short of a mebibyte is shown as 1024.0 KB by
    both. They agree below a tebibyte and differ from there on, where only
    [human_size] has a unit. *)
Theorem size_boundaries :
  format_bytes (MB - 1) = "1024.0 KB"%stdpp /\ human_size (MB - 1) = "1024.0 KB"%stdpp /\
  format_bytes (1024 * GB) = "1024.0 GB"%stdpp /\ human_size (1024 * GB) = "1.0 TB"%stdpp.
Proof. by vm_compute. Qed.

Lemma f64_ge_small z k n :
  0 <= z < 2 ^ 53 -> 0 <= k -> f64_ge (mkF64 z (0 - k)) n = (n * 2 ^ k <=? z).
Proof.
  intros Hz Hk. unfold f64_ge. cbn [f_man f_exp].
  destruct (Z.leb_spec 0 (0 - k)) as [H0|H0].
  - replace k with 0 by lia. cbn. by rewrite !Z.mul_1_r.
  - by replace (- (0 - k)) with k by lia.
Qed.

(** Below a tebibyte the loop of [human_size] and the comparisons of
    [format_bytes] are the same function. *)
Theorem sizes_agree bytes :
  0 <= bytes < 1024 * GB -> human_size bytes = format_bytes bytes.
Proof.
  intros Hb. assert (Hs : 0 <= bytes < 2 ^ 53) by (unfold GB, MB, KB in *; lia).
  unfold human_size, format_bytes. rewrite f64_of_small by done.
  unfold GB, MB, KB in *. change (scale 4) with (fun s u =>
    if f64_ge s 1024 && Nat.ltb u 4 then scale 3 (f64_div_pow2 s 10) (S u) else (s, u)).
  cbv beta. change (mkF64 bytes 0) with (mkF64 bytes (0 - 0)) at 1.
  assert (Hdiv : forall k, f64_div_pow2 (mkF64 bytes (0 - k)) 10 = mkF64 bytes (0 - (k + 10))).
  { intros k. unfold f64_div_pow2. cbn. f_equal. lia. }
  change (mkF64 bytes 0) with (mkF64 bytes (0 - 0)).
  cbn [scale]. change (length UNITS - 1)%nat with 4%nat. cbn [Nat.ltb Nat.leb].
  rewrite !andb_true_r, !Hdiv, !f64_ge_small by lia.
  change (1024 * 2 ^ 0) with 1024. change (1024 * 2 ^ (0 + 10)) with (1024 * 1024).
  change (1024 * 2 ^ (0 + 10 + 10)) with (1024 * (1024 * 1024)).
  destruct (Z.leb_spec 1024 bytes) as [H1|H1].
  - destruct (Z.leb_spec (1024 * 1024) bytes) as [H2|H2].
    + destruct (Z.leb_spec (1024 * (1024 * 1024)) bytes) as [H3|H3].
      * change (1024 * 2 ^ (0 + 10 + 10 + 10)) with (1024 * (1024 * (1024 * 1024))).
        destruct (Z.leb_spec (1024 * (1024 * (1024 * 1024))) bytes); [lia|]. done.
      * done.
    + destruct (Z.leb_spec (1024 * (1024 * 1024)) bytes); [lia|]. done.
  - destruct (Z.leb_spec (1024 * 1024) bytes); [lia|].
    destruct (Z.leb_spec (1024 * (1024 * 1024)) bytes); [lia|]. done.
Qed.

Lemma format_bytes_accurate_witness :
  exists t, format_bytes 1500000 = (show_Z (t / 10) +:+ "." +:+ show_Z (t mod 10) +:+ " MB")%stdpp /\
    Z.abs (2 * (t * 2 ^ 20 - 10 * 1500000)) <= 2 ^ 20.
Proof.
  destruct (format_bytes_accurate 1500000 ltac:(lia)) as [_ Hf].
  destruct (Hf ltac:(unfold KB; lia)) as (t & Ht & _ & He). exists t. by split.
Defined.

Lemma sizes_agree_witness : human_size 123456789 = "117.7 MB"%stdpp.
Proof. rewrite sizes_agree; [by vm_compute|unfold GB, MB, KB; lia]. Defined.
