(* ===== verification/Cli.v ===== *)
(** * The Linux command line client (native/linux/cli/src/main.rs)

    What the client decides and prints on each event of the daemon, and its
    event loop.  A run is the list of its effects.  Sockets, processes and the file system are inputs; the IPC
    message types and the JSON values belong to other crates and are
    parameters. *)

From S2P Require Import Prelude RStr Protocol CMem Lines SignalingFfi DaemonFfi Format.

Open Scope Z_scope.
Local Open Scope stdpp_scope.

(** [Decision] *)
Inductive Decision := AllowOnce | AllowAlways | DenyOnce | DenyAlways.

#[export] Instance Decision_eq_dec : EqDecision Decision.
Proof. solve_decision. Defined.

(** [parse_pairing_choice] *)
Definition parse_pairing_choice (input : string) : Decision :=
  let s := to_ascii_lowercase (str_trim input) in
  if String.eqb s "y" || String.eqb s "yes" then AllowOnce
  else if String.eqb s "a" || String.eqb s "always" then AllowAlways
  else if String.eqb s "d" || String.eqb s "never" then DenyAlways
  else DenyOnce.

(** [PairingRequestPayload] and [TransferIncomingRequestPayload] *)
Record PairingRequest := mkPairingRequest {
  pr_request_id : string;
  pr_device_name : string;
  pr_device_type : string;
  pr_sas : string;
  pr_capabilities : list string;
}.
Record TransferRequest := mkTransferRequest {
  tr_request_id : string;
  tr_file_name : string;
  tr_file_size : Z;
  tr_from : string;
}.

(** What a command does to the world. *)
Inductive effect :=
| Println (s : string)
| PrintCapabilities (l : list string)
| Eprint (s : string)
| Eprintln (s : string)
| SendDecision (msg_type request_id : string) (d : Decision)
| SendHandshake
| SendFile (path : string)
| WriteFile (path contents : string)
| RemoveFile (path : string)
| Spawn (bin : string) (args : list string)
| Terminate (pid : Z)
| ForceKill (pid : Z)
| Sleep (ms : Z)
| Exit (code : Z).

Section Cli.
Context {V : Type} `{Json V}.

(** [as_bool], [as_u64], [as_f64] of a JSON value, its [Display], and the two
    payload decoders. *)
Context (j_as_bool : V -> option bool) (j_as_u64 : V -> option Z) (j_as_f64 : V -> option f64).
Context (j_show : V -> string).
Context (pairing_of_value : V -> option PairingRequest).
Context (transfer_of_value : V -> option TransferRequest).

(** [IpcMessage]; [kind] is whether it is an event. *)
Record IpcMessage := mkIpcMessage { msg_type : string; msg_event : bool; payload : V }.

(** [payload.get(k).and_then(|v| v.as_str()).unwrap_or(d)] and its likes. *)
Definition str_or (k d : string) (m : IpcMessage) : string :=
  default d (j_get (payload m) k ≫= j_as_str).
Definition bool_or (k : string) (m : IpcMessage) : bool :=
  default false (j_get (payload m) k ≫= j_as_bool).
Definition u64_or (k : string) (m : IpcMessage) : Z :=
  default 0 (j_get (payload m) k ≫= j_as_u64).

(** The standard input: the next line, or a read error; and how a write to the
    daemon goes. *)
Record io := mkIo { stdin : Result string unit; write : Result unit string }.

Definition sent (io0 : io) (ty id : string) (d : Decision) (fail : string) : list effect :=
  match write io0 with
  | Ok _ => [SendDecision ty id d]
  | Err e => [Eprintln (fail +:+ ": " +:+ e)]
  end.

(** ** Events *)

Definition on_version_status (m : IpcMessage) : list effect :=
  let version := str_or "daemon_version" "?" m in
  if bool_or "compatible" m then [Println ("[daemon] version handshake OK (daemon " +:+ version +:+ ")")]
  else [Eprintln ("[daemon] version INCOMPATIBLE (daemon " +:+ version +:+ ")")].

Definition on_daemon_status (m : IpcMessage) : list effect :=
  [Println ("[daemon] status: version=" +:+ str_or "version" "?" m +:+ ", connected_peers=" +:+
            show_Z (u64_or "connected_peers" m))].

(** [&s[..n]]: a panic ([None]) when [n] is not at a character boundary. *)
Definition is_boundary (n : nat) (s : string) : bool :=
  match String.get n s with
  | Some c => negb (in_range 128 191 c)
  | None => Nat.eqb n (String.length s)
  end.
Definition str_prefix (n : nat) (s : string) : option string :=
  if is_boundary n s then Some (String.substring 0 n s) else None.

Definition on_session_connected (m : IpcMessage) : option (list effect) :=
  let peer := str_or "remote_peer_id" "?" m in
  short ← str_prefix (Nat.min (String.length peer) 12) peer;
  Some [Println ("[session] peer connected: " +:+ short)].

Definition on_session_sas (m : IpcMessage) : list effect :=
  [Println ("[session] SAS verification code: " +:+ str_or "sas" "?" m);
   Println "          Verify this code matches the other device."].

Definition on_session_ended (m : IpcMessage) : list effect :=
  [Println ("[session] ended: " +:+ str_or "reason" "unknown" m)].

Definition on_session_error (m : IpcMessage) : list effect :=
  [Eprintln ("[session] ERROR: " +:+ str_or "reason" "unknown" m)].

Definition pairing_label (d : Decision) : string :=
  match d with AllowOnce => "accepted" | _ => "denied" end.

Definition on_pairing_request (io0 : io) (m : IpcMessage) : list effect :=
  match pairing_of_value (payload m) with
  | None => []
  | Some req =>
    let decision := match stdin io0 with Ok input => parse_pairing_choice input | Err _ => DenyOnce end in
    [Println ("[pairing] request from " +:+ pr_device_name req +:+ " (" +:+ pr_device_type req +:+ ")")]
    ++ (if str_is_empty (pr_sas req) then [] else [Println ("          SAS: " +:+ pr_sas req)])
    ++ [PrintCapabilities (pr_capabilities req);
        Eprint "          Accept? [y] once  [a] always  [N] no  [d] never: "]
    ++ sent io0 "pairing.decision" (pr_request_id req) decision
         "[localbolt-cli] failed to send pairing decision"
    ++ [Println ("[pairing] " +:+ pairing_label decision)]
  end.

Definition on_transfer_request (io0 : io) (m : IpcMessage) : list effect :=
  match transfer_of_value (payload m) with
  | None => []
  | Some req =>
    let decision :=
      match stdin io0 with
      | Ok input => if String.eqb (to_ascii_lowercase (str_trim input)) "y" then AllowOnce else DenyOnce
      | Err _ => DenyOnce
      end in
    [Println ("[transfer] incoming: " +:+ tr_file_name req +:+ " (" +:+
              format_bytes (tr_file_size req) +:+ ") from " +:+ tr_from req);
     Eprint "           Accept? [y/N]: "]
    ++ sent io0 "transfer.incoming.decision" (tr_request_id req) decision
         "[localbolt-cli] failed to send transfer decision"
    ++ [Println ("[transfer] " +:+
                 (match decision with AllowOnce => "accepted" | _ => "declined" end))]
  end.

Definition on_transfer_started (m : IpcMessage) : list effect :=
  [Println ("[transfer] started: " +:+ str_or "file_name" "?" m +:+ " (" +:+
            format_bytes (u64_or "file_size_bytes" m) +:+ ") [" +:+ str_or "direction" "?" m +:+ "]")].

(** [{pct:>3}] *)
Definition pad3 (s : string) : string :=
  match String.length s with
  | 0%nat => "   " | 1%nat => "  " +:+ s | 2%nat => " " +:+ s | _ => s
  end.

Definition percent (m : IpcMessage) : Z :=
  f64_as_u32 (f64_mul (default (mkF64 0 0) (j_get (payload m) "progress" ≫= j_as_f64)) 100).

Definition on_transfer_progress (m : IpcMessage) : list effect :=
  let pct := percent m in
  Eprint (String carriage_return "[transfer] " +:+ pad3 (show_Z pct) +:+ "% (" +:+
            format_bytes (u64_or "bytes_transferred" m) +:+ " / " +:+
            format_bytes (u64_or "total_bytes" m) +:+ ")")
  :: (if (100 <=? pct)%Z then [Eprintln EmptyString] else []).

Definition on_transfer_complete (m : IpcMessage) : list effect :=
  [Println ("[transfer] complete: " +:+ str_or "file_name" "?" m +:+ " (" +:+
            (if bool_or "verified" m then "verified" else "UNVERIFIED") +:+ ")")].

(** [handle_event]; [None] is a panic. *)
Definition handle_event (io0 : io) (m : IpcMessage) : option (list effect) :=
  let ty := msg_type m in
  if String.eqb ty "version.status" then Some (on_version_status m)
  else if String.eqb ty "daemon.status" then Some (on_daemon_status m)
  else if String.eqb ty "session.connected" then on_session_connected m
  else if String.eqb ty "session.sas" then Some (on_session_sas m)
  else if String.eqb ty "session.ended" then Some (on_session_ended m)
  else if String.eqb ty "session.error" then Some (on_session_error m)
  else if String.eqb ty "pairing.request" then Some (on_pairing_request io0 m)
  else if String.eqb ty "transfer.incoming.request" then Some (on_transfer_request io0 m)
  else if String.eqb ty "transfer.started" then Some (on_transfer_started m)
  else if String.eqb ty "transfer.progress" then Some (on_transfer_progress m)
  else if String.eqb ty "transfer.complete" then Some (on_transfer_complete m)
  else if String.eqb ty "transfer.paused" then Some [Println "[transfer] paused"]
  else if String.eqb ty "transfer.resumed" then Some [Println "[transfer] resumed"]
  else if msg_event m then Some [Println ("[event] " +:+ ty +:+ ": " +:+ j_show (payload m))]
  else Some [].

(** ** The event loop *)

(** One turn of [reader.lines()]: a line, a timeout, another error; with the
    shutdown flag as read at the head of the turn and, after a timeout, again,
    and the user's input should the line ask for it. *)
Record turn := mkTurn {
  t_shutdown : bool;
  t_line : Result string read_error;
  t_shutdown_after : bool;
  t_io : io;
}.

Context (from_str : string -> Result IpcMessage string).

(** How the loop is left: it returns, or a panic takes the client down. *)
Inductive ending := Returned | Panicked.

(** Some effects, then a run. *)
Definition before (es : list effect) (r : list effect * ending) : list effect * ending :=
  (es ++ r.1, r.2).

(** The [for] loop of [event_loop]; the list ends where the stream does. *)
Fixpoint event_lines (turns : list turn) : list effect * ending :=
  match turns with
  | [] => ([], Returned)
  | t :: turns =>
    if t_shutdown t then ([], Returned)
    else match t_line t with
    | Err TimedOut => if t_shutdown_after t then ([], Returned) else event_lines turns
    | Err (ReadFailed e) => ([Eprintln ("[localbolt-cli] IPC read error: " +:+ e)], Returned)
    | Ok line =>
      if str_is_empty (str_trim line) then event_lines turns
      else match from_str line with
      | Err e => before [Eprintln ("[localbolt-cli] parse error: " +:+ e)] (event_lines turns)
      | Ok m =>
        match handle_event (t_io t) m with
        | Some es => before es (event_lines turns)
        | None => ([], Panicked)
        end
      end
    end
  end.

(** [event_loop]: the connection, the clone of the stream for writing, the
    handshake, then the lines. *)
Definition event_loop (connect clone handshake : Result unit string) (turns : list turn) :
    list effect * ending :=
  match connect with
  | Err e => ([Eprintln ("[localbolt-cli] IPC connect failed: " +:+ e)], Returned)
  | Ok _ =>
    match clone with
    | Err e => ([Eprintln ("[localbolt-cli] clone stream for writer: " +:+ e)], Returned)
    | Ok _ =>
      match handshake with
      | Err e => ([Eprintln ("[localbolt-cli] handshake write failed: " +:+ e)], Returned)
      | Ok _ => before [SendHandshake] (event_lines turns)
      end
    end
  end.
End Cli.

Arguments IpcMessage V : clear implicits.
