(* ===== verification/CliCommands.v ===== *)
(** * The commands of the Linux client (native/linux/cli/src/main.rs)

    Path resolution, start, send, stop and status, as functions from what the
    operating system answers to the list of effects.  A polling loop takes its
    answers from functions of the turn, and its bound is its fuel. *)

From S2P Require Import Prelude RStr CMem SignalingFfi DaemonFfi Format Cli.

Open Scope Z_scope.
Local Open Scope stdpp_scope.

(** The global options of [Cli]. *)
Record CliOpts := mkCliOpts {
  daemon_path : option string;
  socket_path : option string;
  data_dir : option string;
}.

(** [resolve_socket_path], [resolve_data_dir], with the platform's defaults. *)
Definition resolve_socket_path (default_ipc_path : string) (cli : CliOpts) : string :=
  default default_ipc_path (socket_path cli).
Definition resolve_data_dir (default_data_dir : string) (cli : CliOpts) : string :=
  default default_data_dir (data_dir cli).

(** The four candidates of [resolve_daemon_path], empty when unknown. *)
Definition cli_candidates (current_exe home : option path) : list string :=
  [default EmptyString ((fun d => path_str (join d ["bolt-daemon"])) <$> (current_exe ≫= parent));
   "/usr/local/bin/bolt-daemon"; "/usr/bin/bolt-daemon";
   default EmptyString ((fun h => path_str (join h [".local"; "bin"; "bolt-daemon"])) <$> home)].

(** The candidate that is found is rendered as text. *)
Definition resolve_daemon_path (exists_ : string -> bool) (current_exe home : option path)
    (cli : CliOpts) : string :=
  match daemon_path cli with
  | Some p => p
  | None =>
    default "bolt-daemon"
      (to_string_lossy <$>
         first_existing (fun c => negb (str_is_empty c) && exists_ c)
           (cli_candidates current_exe home))
  end.

(** ** Stopping *)

(** [for _ in 0..n { sleep(250); if done(i) { return } }]: whether it returned. *)
Fixpoint poll (n i : nat) (done : nat -> bool) : list effect * bool :=
  match n with
  | O => ([], false)
  | S n =>
    if done i then ([Sleep 250], true)
    else let '(es, r) := poll n (S i) done in (Sleep 250 :: es, r)
  end.

(** [terminate_child] on Unix; [exited] is [try_wait] on each turn. *)
Definition terminate_child (pid : Z) (exited : nat -> bool) : list effect :=
  let '(es, stopped) := poll 12 0 exited in
  Terminate pid :: es ++ (if stopped then [] else [ForceKill pid]).

Definition parse_u32 : string -> option Z := parse_uint 4294967295.

Definition stop_pid (pid_path : string) (pid : Z) (probe : nat -> bool) : list effect :=
  let '(es, stopped) := poll 20 0 (fun i => negb (probe i)) in
  [Println ("[localbolt-cli] sending SIGTERM to daemon (PID " +:+ show_Z pid +:+ ")...");
   Terminate pid] ++ es ++
  (if stopped then [Println "[localbolt-cli] daemon stopped"; RemoveFile pid_path]
   else [Eprintln "[localbolt-cli] daemon did not stop gracefully, sending SIGKILL";
         ForceKill pid; RemoveFile pid_path; Println "[localbolt-cli] daemon killed"]).

(** [cmd_stop]: the first probe, the PID file, whether a process is alive, and
    the probes of the wait. *)
Definition cmd_stop (up : bool) (pid_path sock : string) (pid_file : option string)
    (alive : Z -> bool) (probe : nat -> bool) : list effect :=
  if negb up then [Println "[localbolt-cli] daemon not running"]
  else
    let missing :=
      [Eprintln "[localbolt-cli] daemon socket exists but no PID file found";
       Eprintln ("[localbolt-cli] remove stale socket manually: " +:+ sock); Exit 1] in
    match pid_file with
    | None => missing
    | Some pid_str =>
      match parse_u32 (str_trim pid_str) with
      | None => missing
      | Some pid => if alive pid then stop_pid pid_path pid probe else missing
      end
    end.

(** ** Sending *)

(** [cmd_send]: the bytes of the canonical path, whether it is a file, and the fate of each
    step of the IPC attempt and of the fallback. *)
Record send_io := mkSendIo {
  canonical : Result string string;
  is_file : bool;
  ipc_up : bool;
  ipc_connect : Result unit string;
  ipc_clone : Result unit string;
  ipc_handshake : Result unit string;
  ipc_send : Result unit string;
  fs_write : Result unit string;
}.

(** [PathBuf::from(dir).join(name)] *)
Definition push_path (dir name : string) : string :=
  match String.get (String.length dir - 1) dir with
  | None => name
  | Some c => if Ascii.eqb c "/"%char then dir +:+ name else dir +:+ "/" +:+ name
  end.

Definition send_fallback (data_dir abs_path : string) (written : Result unit string) : list effect :=
  let signal_path := push_path data_dir "send_file.signal" in
  Println ("[localbolt-cli] writing signal file: " +:+ signal_path) ::
  match written with
  | Ok _ =>
     [WriteFile signal_path (to_string_lossy abs_path);
      Println "[localbolt-cli] send_file.signal written — daemon will pick up within 250ms"]
  | Err e => [Eprintln ("[localbolt-cli] failed to write signal file: " +:+ e); Exit 1]
  end.

(** The IPC attempt: how it ends the command, or that the fallback follows. *)
Definition send_ipc (abs_path : string) (o : send_io) : list effect * bool :=
  match ipc_connect o with
  | Err e => ([Eprintln ("[localbolt-cli] IPC connect failed: " +:+ e); Exit 1], false)
  | Ok _ =>
    match ipc_clone o with
    | Err e => ([Eprintln ("[localbolt-cli] clone stream: " +:+ e); Exit 1], false)
    | Ok _ =>
      match ipc_handshake o with
      | Err e => ([Eprintln ("[localbolt-cli] handshake failed: " +:+ e); Exit 1], false)
      | Ok _ =>
        match ipc_send o with
        | Ok _ =>
          ([SendHandshake; SendFile (to_string_lossy abs_path); Println "[localbolt-cli] file.send command sent"], false)
        | Err e =>
          ([SendHandshake; Eprintln ("[localbolt-cli] IPC file.send failed: " +:+ e);
            Eprintln "[localbolt-cli] falling back to signal file method"], true)
        end
      end
    end
  end.

Definition cmd_send (data_dir file_path : string) (o : send_io) : list effect :=
  match canonical o with
  | Err e => [Eprintln ("[localbolt-cli] cannot resolve path " +:+ file_path +:+ ": " +:+ e); Exit 1]
  | Ok abs_path =>
    if negb (is_file o) then [Eprintln ("[localbolt-cli] not a file: " +:+ to_string_lossy abs_path); Exit 1]
    else if ipc_up o then
      let '(es, fall_back) := send_ipc abs_path o in
      Println ("[localbolt-cli] sending via IPC: " +:+ to_string_lossy abs_path) ::
      es ++ (if fall_back then send_fallback data_dir abs_path (fs_write o) else [])
    else send_fallback data_dir abs_path (fs_write o)
  end.

(** ** Starting *)

(** How the wait for readiness ends. *)
Inductive waited := WReady | WInterrupted | WTimedOut | WOutOfFuel.

(** The readiness loop: the shutdown flag, the milliseconds elapsed, and the
    probe of each turn. *)
Fixpoint wait_ready (fuel i : nat) (shutdown : nat -> bool) (elapsed : nat -> Z)
    (probe : nat -> bool) : list effect * waited :=
  match fuel with
  | O => ([], WOutOfFuel)
  | S fuel =>
    if shutdown i then ([], WInterrupted)
    else if (10000 <? elapsed i)%Z then ([], WTimedOut)
    else if probe i then ([Sleep 250], WReady)
    else let '(es, r) := wait_ready fuel (S i) shutdown elapsed probe in (Sleep 250 :: es, r)
  end.

(** [ReadinessResult] *)
Inductive readiness :=
| Ready (daemon_version : string) (connected_peers : Z)
| Incompatible (daemon_version : string)
| Failed (reason : string).

Record start_io := mkStartIo {
  already_up : bool;
  mkdir : Result unit string;
  spawned : Result Z (string * bool);   (* the error, and whether it is [NotFound] *)
  w_shutdown : nat -> bool;
  w_elapsed : nat -> Z;
  w_probe : nat -> bool;
  ready : readiness;
  exited_ : nat -> bool;
  watched : list effect * ending;   (* what the event loop does *)
}.

Definition cli_spawn_args (ws_listen sock data_dir policy : string) : list string :=
  ["--mode"; "ws-endpoint"; "--ws-listen"; ws_listen; "--socket-path"; sock;
   "--data-dir"; data_dir; "--pairing-policy"; policy].

Definition report (version : string) (r : readiness) : list effect :=
  match r with
  | Ready v peers =>
    [Println ("[localbolt-cli] daemon ready (version " +:+ v +:+ ", peers: " +:+ show_Z peers +:+ ")")]
  | Incompatible v =>
    [Eprintln ("[localbolt-cli] WARNING: daemon version " +:+ v +:+
               " may be incompatible with CLI " +:+ version)]
  | Failed reason =>
    [Eprintln ("[localbolt-cli] readiness probe failed: " +:+ reason);
     Eprintln "[localbolt-cli] daemon may still be starting — try `localbolt-cli status`"]
  end.

(** What follows the event loop, if it returns. *)
Definition and_then (r : list effect * ending) (k : list effect) : list effect :=
  r.1 ++ match r.2 with Returned => k | Panicked => [] end.

Definition banner (pid : Z) : string :=
  String newline "[localbolt-cli] shutting down daemon (PID " +:+ show_Z pid +:+ ")...".

(** After the spawn: the wait, the report, and the watch or the detachment. *)
Definition start_child (version : string) (watch : bool) (pid : Z) (o : start_io) : list effect :=
  let '(es, w) := wait_ready 42 0 (w_shutdown o) (w_elapsed o) (w_probe o) in
  es ++
  match w with
  | WInterrupted => Println (banner pid) :: terminate_child pid (exited_ o)
  | WTimedOut =>
    Eprintln "[localbolt-cli] daemon did not become ready within 10s"
    :: terminate_child pid (exited_ o) ++ [Exit 1]
  | WReady =>
    report version (ready o) ++
    (if watch then
       Println "[localbolt-cli] watching events (Ctrl+C to stop)..." :: Println "---"
       :: and_then (watched o) (Println (banner pid) :: terminate_child pid (exited_ o))
     else
       [Println ("[localbolt-cli] daemon running in background (PID " +:+ show_Z pid +:+ ")");
        Println "[localbolt-cli] use `localbolt-cli watch` to stream events";
        Println "[localbolt-cli] use `localbolt-cli stop` to shut down"])
  | WOutOfFuel => []
  end.

(** [do_watch]; [watched] is what the event loop does. *)
Definition do_watch (watched : list effect * ending) : list effect :=
  Println "[localbolt-cli] watching events (Ctrl+C to stop)..." :: Println "---" :: watched.1.

(** [cmd_start] *)
Definition cmd_start (version bin sock dir ws_listen policy : string) (watch : bool) (o : start_io) :
    list effect :=
  if already_up o then
    Eprintln ("[localbolt-cli] daemon already running at " +:+ sock)
    :: (if watch then do_watch (watched o) else [])
  else match mkdir o with
  | Err e => [Eprintln ("[localbolt-cli] failed to create data dir " +:+ dir +:+ ": " +:+ e); Exit 1]
  | Ok _ =>
    [Println "[localbolt-cli] starting bolt-daemon..."; Println ("  binary:    " +:+ bin);
     Println ("  ws-listen: " +:+ ws_listen); Println ("  socket:    " +:+ sock);
     Println ("  data-dir:  " +:+ dir); Println ("  policy:    " +:+ policy);
     Spawn bin (cli_spawn_args ws_listen sock dir policy)] ++
    match spawned o with
    | Err (e, not_found) =>
      Eprintln ("[localbolt-cli] failed to start daemon: " +:+ e)
      :: (if not_found then
            [Eprintln ("[localbolt-cli] bolt-daemon not found at: " +:+ bin);
             Eprintln "[localbolt-cli] install bolt-daemon or use --daemon-path"]
          else []) ++ [Exit 1]
    | Ok pid =>
      Println ("[localbolt-cli] daemon started (PID " +:+ show_Z pid +:+ ")")
      :: start_child version watch pid o
    end
  end.

(** [cmd_status] *)
Definition cmd_status (up : bool) (sock : string) (r : readiness) : list effect :=
  if negb up then
    [Println ("[localbolt-cli] daemon not running (no socket at " +:+ sock +:+ ")"); Exit 1]
  else match r with
  | Ready v peers =>
    [Println "[localbolt-cli] daemon ready"; Println ("  version: " +:+ v);
     Println ("  peers:   " +:+ show_Z peers); Println ("  socket:  " +:+ sock)]
  | Incompatible v =>
    [Println ("[localbolt-cli] daemon running but incompatible (version " +:+ v +:+ ")"); Exit 1]
  | Failed reason => [Println ("[localbolt-cli] daemon probe failed: " +:+ reason); Exit 1]
  end.

(** [cmd_watch] *)
Definition cmd_watch (up : bool) (sock : string) (watched : list effect * ending) : list effect :=
  if negb up then
    [Eprintln ("[localbolt-cli] daemon not running (no socket at " +:+ sock +:+ ")"); Exit 1]
  else Println "[localbolt-cli] connecting to daemon IPC..."
       :: and_then watched [Println (String newline "[localbolt-cli] disconnected")].

(** ** Dispatch *)

(** [Commands], with the defaults the parser fills in. *)
Inductive command :=
| Start (ws_listen pairing_policy : string) (watch : bool)
| Status
| Watch
| Send (path : string)
| Stop.

Definition DEFAULT_WS_LISTEN : string := "0.0.0.0:9557".
Definition start_default : command := Start DEFAULT_WS_LISTEN "ask" false.

(** What the operating system and the platform answer while the command runs:
    whether the first probe finds the daemon, and what each command asks. *)
Record cli_io := mkCliIo {
  o_version : string;
  o_default_ipc : string;
  o_default_data : string;
  o_pid_path : string;
  o_exists : string -> bool;
  o_current_exe : option path;
  o_home : option path;
  o_up : bool;
  o_start : start_io;
  o_readiness : readiness;
  o_watched : list effect * ending;
  o_send : send_io;
  o_pid_file : option string;
  o_alive : Z -> bool;
  o_probe : nat -> bool;
}.

(** [main], on the parsed command line. *)
Definition main (cli : CliOpts) (c : command) (o : cli_io) : list effect :=
  let sock := resolve_socket_path (o_default_ipc o) cli in
  let dir := resolve_data_dir (o_default_data o) cli in
  match c with
  | Start ws_listen pairing_policy watch =>
    cmd_start (o_version o) (resolve_daemon_path (o_exists o) (o_current_exe o) (o_home o) cli)
      sock dir ws_listen pairing_policy watch (o_start o)
  | Status => cmd_status (o_up o) sock (o_readiness o)
  | Watch => cmd_watch (o_up o) sock (o_watched o)
  | Send path => cmd_send dir path (o_send o)
  | Stop => cmd_stop (o_up o) (o_pid_path o) sock (o_pid_file o) (o_alive o) (o_probe o)
  end.

(** [write_message]: the text of the message, then the write, then the flush;
    what was handed to the socket, and the answer. *)
Definition write_message (to_ndjson : Result string string) (write_all flush : Result unit string) :
    option string * Result unit string :=
  match to_ndjson with
  | Err e => (None, Err e)
  | Ok line => (Some line, match write_all with Err e => Err e | Ok _ => flush end)
  end.
