(* ===== verification/CliFacts.v ===== *)
(** * Properties of the Linux client

    What it answers the daemon and when, what its loop does with a bad line,
    whom its stop command kills, and that its waits end. *)

From S2P Require Import Prelude RStr Protocol CMem Lines SignalingFfi DaemonFfi Format Cli CliCommands.

Open Scope Z_scope.
Local Open Scope stdpp_scope.

(** ** Decisions *)

Definition choice (input : string) : string := to_ascii_lowercase (str_trim input).

Lemma parse_choice_exact input :
  (parse_pairing_choice input = AllowOnce <-> choice input = "y" \/ choice input = "yes") /\
  (parse_pairing_choice input = AllowAlways <-> choice input = "a" \/ choice input = "always") /\
  (parse_pairing_choice input = DenyAlways <-> choice input = "d" \/ choice input = "never").
Proof.
  unfold parse_pairing_choice. fold (choice input). generalize (choice input). intros s.
  destruct (String.eqb_spec s "y") as [->|]; [by vm_compute; intuition congruence|].
  destruct (String.eqb_spec s "yes") as [->|]; [by vm_compute; intuition congruence|].
  destruct (String.eqb_spec s "a") as [->|]; [by vm_compute; intuition congruence|].
  destruct (String.eqb_spec s "always") as [->|]; [by vm_compute; intuition congruence|].
  destruct (String.eqb_spec s "d") as [->|]; [by vm_compute; intuition congruence|].
  destruct (String.eqb_spec s "never") as [->|]; [by vm_compute; intuition congruence|].
  cbn. intuition congruence.
Qed.

(** The decisions among some effects. *)
Definition decisions (es : list effect) : list (string * string * Decision) :=
  omap (fun e => match e with SendDecision ty id d => Some (ty, id, d) | _ => None end) es.

Lemma decisions_app es es' : decisions (es ++ es') = decisions es ++ decisions es'.
Proof. apply omap_app. Qed.

Section Facts.
Context {V : Type} `{Json V}.
Context (j_as_bool : V -> option bool) (j_as_u64 : V -> option Z) (j_as_f64 : V -> option f64).
Context (j_show : V -> string).
Context (pairing_of_value : V -> option PairingRequest).
Context (transfer_of_value : V -> option TransferRequest).
Implicit Types m : IpcMessage V.

Abbreviation handle := (handle_event j_as_bool j_as_u64 j_as_f64 j_show pairing_of_value transfer_of_value).

Definition user_choice (io0 : io) : Decision :=
  match stdin io0 with Ok input => parse_pairing_choice input | Err _ => DenyOnce end.

Definition user_accepts (io0 : io) : Decision :=
  match stdin io0 with
  | Ok input => if String.eqb (choice input) "y" then AllowOnce else DenyOnce
  | Err _ => DenyOnce
  end.

(** What the client may answer to a message. *)
Definition answers (io0 : io) m : list (string * string * Decision) :=
  if is_err (write io0) then []
  else if String.eqb (msg_type m) "pairing.request" then
    match pairing_of_value (payload m) with
    | Some req => [("pairing.decision", pr_request_id req, user_choice io0)]
    | None => []
    end
  else if String.eqb (msg_type m) "transfer.incoming.request" then
    match transfer_of_value (payload m) with
    | Some req => [("transfer.incoming.decision", tr_request_id req, user_accepts io0)]
    | None => []
    end
  else [].

Lemma pairing_answers io0 m :
  decisions (on_pairing_request pairing_of_value io0 m) =
    if is_err (write io0) then []
    else
      match pairing_of_value (payload m) with
      | Some req => [("pairing.decision", pr_request_id req, user_choice io0)]
      | None => []
      end.
Proof.
  unfold on_pairing_request, sent. destruct (pairing_of_value (payload m)) as [req|];
    [|by destruct (write io0)].
  rewrite !decisions_app. by destruct (str_is_empty (pr_sas req)), (write io0).
Qed.

Lemma transfer_answers io0 m :
  decisions (on_transfer_request transfer_of_value io0 m) =
    if is_err (write io0) then []
    else
      match transfer_of_value (payload m) with
      | Some req => [("transfer.incoming.decision", tr_request_id req, user_accepts io0)]
      | None => []
      end.
Proof.
  unfold on_transfer_request, sent, user_accepts, choice.
  destruct (transfer_of_value (payload m)) as [req|]; [|by destruct (write io0)].
  rewrite !decisions_app. by destruct (write io0).
Qed.

(** C20: the client answers exactly the requests it is asked, with what the user
    typed: one decision, under the request's own id, for a pairing or transfer
    request that decodes, and none for any other message. Access is granted
    only by an explicit [y]/[yes] or [a]/[always]; a read error, an empty line
    or anything else refuses this once; a lasting decision needs [a]/[always]
    or [d]/[never]. *)
Theorem decisions_fail_closed io0 m es :
  handle io0 m = Some es ->
  decisions es = answers io0 m /\
  (forall input, stdin io0 = Ok input ->
    (user_choice io0 = AllowOnce <-> choice input = "y" \/ choice input = "yes") /\
    (user_choice io0 = AllowAlways <-> choice input = "a" \/ choice input = "always") /\
    (user_choice io0 = DenyAlways <-> choice input = "d" \/ choice input = "never")) /\
  (stdin io0 = Err tt -> user_choice io0 = DenyOnce /\ user_accepts io0 = DenyOnce).
Proof.
  intros Hh. split; [|split].
  - unfold answers. unfold handle_event in Hh.
    destruct (String.eqb_spec (msg_type m) "version.status") as [->|].
    { injection Hh as <-. unfold on_version_status. by destruct (bool_or _ _ m), (write io0). }
    destruct (String.eqb_spec (msg_type m) "daemon.status") as [->|].
    { injection Hh as <-. by destruct (write io0). }
    destruct (String.eqb_spec (msg_type m) "session.connected") as [->|].
    { unfold on_session_connected in Hh. destruct (str_prefix _ _); [|done].
      injection Hh as <-. by destruct (write io0). }
    destruct (String.eqb_spec (msg_type m) "session.sas") as [->|].
    { injection Hh as <-. by destruct (write io0). }
    destruct (String.eqb_spec (msg_type m) "session.ended") as [->|].
    { injection Hh as <-. by destruct (write io0). }
    destruct (String.eqb_spec (msg_type m) "session.error") as [->|].
    { injection Hh as <-. by destruct (write io0). }
    destruct (String.eqb_spec (msg_type m) "pairing.request") as [Hty|].
    { injection Hh as <-. rewrite pairing_answers. by destruct (write io0). }
    destruct (String.eqb_spec (msg_type m) "transfer.incoming.request") as [Hty|].
    { injection Hh as <-. rewrite transfer_answers. by destruct (write io0). }
    repeat case_match; simplify_eq; try done;
      unfold on_transfer_progress; by repeat case_match.
  - intros input Hin. unfold user_choice. rewrite Hin. apply parse_choice_exact.
  - intros Hin. unfold user_choice, user_accepts. by rewrite Hin.
Qed.

(** A peer the user chose to accept always is told to the daemon as
    accepted and to the user as denied. *)
Theorem always_reported_denied input m req :
  choice input = "a" \/ choice input = "always" ->
  msg_type m = "pairing.request" -> pairing_of_value (payload m) = Some req ->
  exists es, handle (mkIo (Ok input) (Ok tt)) m = Some es /\
    SendDecision "pairing.decision" (pr_request_id req) AllowAlways ∈ es /\
    Println "[pairing] denied" ∈ es /\ Println "[pairing] accepted" ∉ es.
Proof.
  intros Hin Hty Hreq. destruct (parse_choice_exact input) as (_ & Ha & _).
  apply Ha in Hin. eexists. split; [unfold handle_event; by rewrite Hty|].
  unfold on_pairing_request, sent. rewrite Hreq. cbn [stdin write]. rewrite Hin.
  destruct (str_is_empty (pr_sas req)); cbn [app pairing_label];
    (split; [repeat first [left | right]|]; split; [repeat first [left | right]|]);
    rewrite !not_elem_of_cons; repeat split; try done; apply not_elem_of_nil.
Qed.

(** ** The loop *)

(** Showing a connected session panics, and takes the client down, exactly
    when the twelfth byte of the peer's id falls inside a character; no other
    message can. *)
Theorem handle_panics_iff io0 m :
  handle io0 m = None <->
  msg_type m = "session.connected" /\
  let peer := str_or "remote_peer_id" "?" m in
  is_boundary (Nat.min (String.length peer) 12) peer = false.
Proof.
  unfold handle_event, on_session_connected, str_prefix. cbn zeta.
  destruct (String.eqb_spec (msg_type m) "session.connected") as [->|Hne].
  - cbn. destruct (is_boundary _ _); split; try done; by intros [_ ?].
  - split; [|by intros [? _]]. repeat case_match; done.
Qed.

Context (from_str : string -> Result (IpcMessage V) string).

Abbreviation loop := (event_lines j_as_bool j_as_u64 j_as_f64 j_show pairing_of_value transfer_of_value from_str).

(** The turns of a run nobody interrupts; [user] answers what the line of each
    turn may ask. *)
Definition attended (user : nat -> io) (i : nat) (rs : list (Result string read_error)) : list turn :=
  imap (fun k r => mkTurn false r false (user (i + k)%nat)) rs.

Lemma attended_cons user i r rs :
  attended user i (r :: rs) = mkTurn false r false (user i) :: attended user (S i) rs.
Proof.
  unfold attended. cbn [imap]. rewrite Nat.add_0_r. f_equal. apply imap_ext. intros k x _. cbn.
  by rewrite Nat.add_succ_r.
Qed.

(** What the client does for a line the daemon writes ([None] for a pause long
    enough to time out); [None] when the line ends the loop. *)
Definition line_effects (io0 : io) (d : option string) : option (list effect) :=
  match d with
  | None => Some []
  | Some w =>
    if utf8_valid w then
      if str_is_empty (str_trim (strip_cr w)) then Some []
      else match from_str (strip_cr w) with
      | Err e => Some [Eprintln ("[localbolt-cli] parse error: " +:+ e)]
      | Ok m => handle io0 m
      end
    else None
  end.

Fixpoint handled (user : nat -> io) (i : nat) (ds : list (option string)) : option (list effect) :=
  match ds with
  | [] => Some []
  | d :: ds => es ← line_effects (user i) d; es' ← handled user (S i) ds; Some (es ++ es')
  end.

Lemma before_nil r : before [] r = r.
Proof. by destruct r. Qed.

Lemma before_app es es' r : before (es ++ es') r = before es (before es' r).
Proof. unfold before. cbn. by rewrite app_assoc. Qed.

(** One line that does not end the loop. *)
Lemma loop_line user i d es rs :
  line_effects (user i) d = Some es ->
  loop (attended user i (arrives d :: rs)) = before es (loop (attended user (S i) rs)).
Proof.
  rewrite attended_cons. destruct d as [w|]; cbn [line_effects arrives]; [|intros [= <-]; by rewrite before_nil].
  destruct (utf8_valid w) eqn:Hw; [|done]. rewrite finish_line_ok by done. cbn.
  destruct (str_is_empty (str_trim (strip_cr w))); [intros [= <-]; by rewrite before_nil|].
  destruct (from_str (strip_cr w)) as [m|e]; [intros ->; done|by intros [= <-]].
Qed.

Lemma loop_lines user ds rs : forall i es,
  handled user i ds = Some es ->
  loop (attended user i ((arrives <$> ds) ++ rs)) = before es (loop (attended user (i + length ds) rs)).
Proof.
  induction ds as [|d ds IH]; intros i es; cbn [handled].
  - intros [= <-]. by rewrite before_nil, Nat.add_0_r.
  - destruct (line_effects (user i) d) as [es1|] eqn:Ed; [|done].
    destruct (handled user (S i) ds) as [es2|] eqn:Eds; [|done]. intros [= <-].
    rewrite fmap_cons, <-app_comm_cons. rewrite (loop_line user i d es1), (IH _ es2), before_app by done.
    cbn [length]. by rewrite Nat.add_succ_r.
Qed.

(** The first line that ends the loop. *)
Lemma handled_None user ds : forall i,
  handled user i ds = None ->
  exists ds1 bad ds2 es, ds = ds1 ++ Some bad :: ds2 /\ handled user i ds1 = Some es /\
    line_effects (user (i + length ds1)%nat) (Some bad) = None.
Proof.
  induction ds as [|d ds IH]; intros i; [done|]. cbn [handled].
  destruct (line_effects (user i) d) as [es1|] eqn:Ed; cbn.
  - destruct (handled user (S i) ds) as [es2|] eqn:Eds; [done|]. intros _.
    destruct (IH _ Eds) as (ds1 & bad & ds2 & es & -> & Hes & Hbad).
    exists (d :: ds1), bad, ds2, (es1 ++ es). cbn [handled app]. rewrite Ed. cbn. rewrite Hes.
    split_and!; [done..|]. by rewrite Nat.add_succ_r.
  - intros _. destruct d as [w|]; [|done]. exists [], w, ds, [].
    split_and!; [done..|]. by rewrite Nat.add_0_r.
Qed.

(** C21: what the client does with all the daemon writes.  The daemon writes
    whole lines, with pauses between them that may time the reader out; the user
    asks for no shutdown.  Then every line is handled once and in order, blank
    lines, pauses and lines that do not parse stop nothing, and the client
    returns when the stream ends; unless some line is not UTF-8, which is
    reported and ends the loop, or names a connected session whose peer id has a
    character across its twelfth byte, on which the client panics: then exactly
    the lines before that one were handled. *)
Theorem event_lines_all user ds :
  Forall (fun d => whole d = true) ds ->
  let run := loop (attended user 0 (buf_lines (stream ds) EmptyString)) in
  (exists es, handled user 0 ds = Some es /\ run = (es, Returned)) \/
  (exists ds1 bad ds2 es, ds = ds1 ++ Some bad :: ds2 /\ handled user 0 ds1 = Some es /\
    (utf8_valid bad = false /\
       run = (es ++ [Eprintln ("[localbolt-cli] IPC read error: " +:+ not_utf8)], Returned) \/
     (exists m, utf8_valid bad = true /\ from_str (strip_cr bad) = Ok m /\
       msg_type m = "session.connected" /\
       (let peer := str_or "remote_peer_id" "?" m in
        is_boundary (Nat.min (String.length peer) 12) peer = false) /\
       run = (es, Panicked)))).
Proof.
  intros Hds. cbn zeta. rewrite <-(app_nil_r (stream ds)), buf_lines_stream by done.
  destruct (handled user 0 ds) as [es|] eqn:Hh.
  - left. exists es. split; [done|]. rewrite (loop_lines user ds _ 0 es) by done.
    unfold before. cbn. by rewrite app_nil_r.
  - right. destruct (handled_None user ds 0 Hh) as (ds1 & bad & ds2 & es & -> & Hes & Hbad).
    exists ds1, bad, ds2, es. split_and!; [done..|]. rewrite Nat.add_0_l in Hbad.
    rewrite fmap_app, <-app_assoc, (loop_lines user ds1 _ 0 es) by done.
    rewrite fmap_cons. cbn [app]. rewrite attended_cons. cbn [arrives line_effects] in *.
    destruct (utf8_valid bad) eqn:Hu; [right|left; by rewrite finish_line_err].
    destruct (str_is_empty (str_trim (strip_cr bad))) eqn:Hblank; [done|].
    destruct (from_str (strip_cr bad)) as [m|e] eqn:Hm; [|done]. exists m.
    pose proof Hbad as [Hty Hb]%handle_panics_iff. split_and!; try done.
    rewrite finish_line_ok by done. cbn. rewrite Hblank, Hm, Hbad. unfold before. cbn. by rewrite app_nil_r.
Qed.
End Facts.

(** ** Stopping *)

Lemma poll_false n i done : (poll n i done).2 = false <-> forall k, (k < n)%nat -> done (i + k)%nat = false.
Proof.
  revert i. induction n as [|n IH]; intros i; cbn [poll].
  - split; [intros _ k Hk; lia|by intros _].
  - destruct (done i) eqn:Ed.
    + split; [done|]. intros Hall. specialize (Hall 0%nat ltac:(lia)).
      rewrite Nat.add_0_r in Hall. congruence.
    + specialize (IH (S i)). destruct (poll n (S i) done) as [es r]. cbn in *. rewrite IH. split.
      * intros Hall [|k] Hk; [by rewrite Nat.add_0_r|].
        specialize (Hall k ltac:(lia)). by rewrite Nat.add_succ_r.
      * intros Hall k Hk. specialize (Hall (S k) ltac:(lia)). by rewrite Nat.add_succ_r in Hall.
Qed.

Lemma poll_sleeps n i done e : e ∈ (poll n i done).1 -> e = Sleep 250.
Proof.
  revert i. induction n as [|n IH]; intros i; cbn [poll]; [by intros ?%elem_of_nil|].
  destruct (done i); [by intros ?%list_elem_of_singleton|].
  specialize (IH (S i)). destruct (poll n (S i) done) as [es r]. cbn in *.
  intros [->|He]%elem_of_cons; [done|by apply IH].
Qed.

(** C28: [stop] signals no process but the live one the PID file names, and only
    while the daemon's socket answers; it kills it by force exactly when the
    socket still answers at each of twenty probes after the request to
    terminate. *)
Theorem stop_kills_only up pid_path sock pid_file alive probe pid :
  (Terminate pid ∈ cmd_stop up pid_path sock pid_file alive probe <->
     up = true /\ alive pid = true /\ exists s, pid_file = Some s /\ parse_u32 (str_trim s) = Some pid) /\
  (ForceKill pid ∈ cmd_stop up pid_path sock pid_file alive probe <->
     Terminate pid ∈ cmd_stop up pid_path sock pid_file alive probe /\
     forall k, (k < 20)%nat -> probe k = true).
Proof.
  unfold cmd_stop.
  destruct up; cbn [negb]; [|split; set_solver].
  destruct pid_file as [s|]; [|split; set_solver].
  destruct (parse_u32 (str_trim s)) as [pid'|] eqn:Ep; [|split; [|set_solver]].
  2:{ split; [set_solver|]. intros (_ & _ & s' & [= <-] & ?). congruence. }
  destruct (alive pid') eqn:Ea.
  2:{ split; [|set_solver]. split; [set_solver|]. intros (_ & Hal & s' & [= <-] & Hp). congruence. }
  assert (Hs : forall e, e ∈ (poll 20 0 (fun i => negb (probe i))).1 -> e = Sleep 250)
    by apply poll_sleeps.
  pose proof (poll_false 20 0 (fun i => negb (probe i))) as Hf.
  unfold stop_pid. destruct (poll 20 0 _) as [es stopped]. cbn in Hs, Hf.
  assert (Ht : Terminate pid ∈ [Println ("[localbolt-cli] sending SIGTERM to daemon (PID " +:+ show_Z pid' +:+ ")...");
     Terminate pid'] ++ es ++
    (if stopped then [Println "[localbolt-cli] daemon stopped"; RemoveFile pid_path]
     else [Eprintln "[localbolt-cli] daemon did not stop gracefully, sending SIGKILL";
           ForceKill pid'; RemoveFile pid_path; Println "[localbolt-cli] daemon killed"])
    <-> pid = pid').
  { rewrite !elem_of_app. split.
    - intros [Hp|[Hp|Hp]]; [set_solver|by apply Hs in Hp|destruct stopped; set_solver].
    - intros ->. left. set_solver. }
  split.
  - rewrite Ht. split.
    + intros ->. split; [done|]. split; [done|]. by exists s.
    + intros (_ & _ & s' & [= <-] & Hp). congruence.
  - rewrite Ht, !elem_of_app. split.
    + intros [Hp|[Hp|Hp]]; [set_solver|by apply Hs in Hp|].
      destruct stopped; [set_solver|]. split; [set_solver|].
      intros k Hk. apply negb_false_iff. by apply Hf.
    + intros [-> Hall]. right; right. destruct stopped; [|set_solver].
      assert (true = false); [|done]. apply Hf. intros k Hk. apply negb_false_iff. by apply Hall.
Qed.

(** ** Sending *)

(** The effects that hand the daemon a file. *)
Definition hands_over (e : effect) : bool :=
  match e with SendFile _ | WriteFile _ _ => true | _ => false end.
Definition handed_over (es : list effect) : list effect := List.filter hands_over es.

(** C30: [send] hands the daemon the file exactly once, over the socket or, when
    that is not there or fails at the last step, through the signal file; or it
    exits with an error and hands over nothing.  What it hands over is the text
    of the canonical path, which is the path itself exactly when the path is
    UTF-8; the name of any other file reaches the daemon with U+FFFD in it, and
    the command succeeds all the same. *)
Theorem send_once data_dir file_path o :
  let es := cmd_send data_dir file_path o in
  (Exit 1 ∈ es /\ handed_over es = []) \/
  ((Exit 1 ∉ es) /\ exists p text, canonical o = Ok p /\ is_file o = true /\
     text = to_string_lossy p /\ (text = p <-> utf8_valid p = true) /\
     (handed_over es = [SendFile text] \/
      handed_over es = [WriteFile (push_path data_dir "send_file.signal") text] /\
        (ipc_up o = false \/ is_err (ipc_send o) = true))).
Proof.
  cbn zeta. unfold cmd_send. destruct (canonical o) as [p|e]; [|left; split; [set_solver|done]].
  destruct (is_file o); cbn [negb]; [|left; split; [set_solver|done]].
  pose proof (to_string_lossy_id p) as Hp. unfold send_ipc, send_fallback.
  destruct (ipc_up o).
  - destruct (ipc_connect o); [|left; split; [set_solver|done]].
    destruct (ipc_clone o); [|left; split; [set_solver|done]].
    destruct (ipc_handshake o); [|left; split; [set_solver|done]].
    destruct (ipc_send o).
    { right. split; [set_solver|]. exists p, (to_string_lossy p). split_and!; [apply Hp || done..|by left]. }
    destruct (fs_write o); [right|left; split; [set_solver|done]].
    split; [set_solver|]. exists p, (to_string_lossy p). split_and!; [apply Hp || done..|]. right. split; [done|by right].
  - destruct (fs_write o); [right|left; split; [set_solver|done]].
    split; [set_solver|]. exists p, (to_string_lossy p). split_and!; [apply Hp || done..|]. right. split; [done|by left].
Qed.

(** ** Starting *)

Lemma wait_ready_fuel n i shutdown elapsed probe :
  (forall k, 250 * Z.of_nat k <= elapsed k) -> (42 <= n + i)%nat ->
  (1 <= n)%nat ->
  (wait_ready n i shutdown elapsed probe).2 <> WOutOfFuel.
Proof.
  intros Hel. revert i. induction n as [|n IH]; intros i Hn H1; [lia|]. cbn [wait_ready].
  destruct (shutdown i); [done|]. destruct (Z.ltb_spec 10000 (elapsed i)) as [|Hlt]; [done|].
  destruct (probe i); [done|].
  assert ((wait_ready n (S i) shutdown elapsed probe).2 <> WOutOfFuel) as Hr.
  { apply IH; [lia|]. specialize (Hel i). destruct n; [lia|lia]. }
  by destruct (wait_ready n (S i) shutdown elapsed probe).
Qed.

(** C29: the wait for a started daemon ends: since each turn sleeps a quarter of
    a second, within forty-two turns the daemon answered, the user interrupted,
    or ten seconds passed; and in the last two cases the child is asked to
    terminate, so a failed start leaves no daemon behind. *)
Theorem start_terminates version watch pid o :
  (forall k, 250 * Z.of_nat k <= w_elapsed o k) ->
  (wait_ready 42 0 (w_shutdown o) (w_elapsed o) (w_probe o)).2 <> WOutOfFuel /\
  ((wait_ready 42 0 (w_shutdown o) (w_elapsed o) (w_probe o)).2 <> WReady ->
     Terminate pid ∈ start_child version watch pid o).
Proof.
  intros Hel. assert (Hf : (wait_ready 42 0 (w_shutdown o) (w_elapsed o) (w_probe o)).2 <> WOutOfFuel).
  { by apply wait_ready_fuel; [|lia|lia]. }
  split; [done|]. intros Hr. unfold start_child.
  destruct (wait_ready 42 0 _ _ _) as [es w]. cbn in Hf, Hr.
  unfold terminate_child. destruct (poll 12 0 (exited_ o)) as [ps st].
  destruct w; try done; set_solver.
Qed.

(** ** Lines across a timeout *)

(** A message of the daemon that arrives in two parts with a read timeout
    between them loses its first part: the client handles the second part as if
    it were the line. Without the timeout the line arrives whole. *)
Theorem timeout_drops_partial_line u v rest :
  lacks newline u = true -> lacks newline v = true ->
  buf_lines (bytes u ++ None :: bytes v ++ Some newline :: rest) EmptyString =
    Err TimedOut :: finish_line v :: buf_lines rest EmptyString /\
  buf_lines (bytes u ++ bytes v ++ Some newline :: rest) EmptyString =
    finish_line (u +:+ v) :: buf_lines rest EmptyString.
Proof.
  intros Hu Hv. split.
  - rewrite buf_lines_word by done. cbn [buf_lines]. rewrite buf_lines_word by done.
    cbn [buf_lines]. by rewrite Ascii.eqb_refl.
  - rewrite !buf_lines_word by done. cbn [buf_lines]. by rewrite Ascii.eqb_refl.
Qed.

(** ** Witnesses *)

Section Witnesses.
Import JsonTree.

Definition as_bool (v : json) : option bool := match v with JBool b => Some b | _ => None end.
Definition as_u64 (v : json) : option Z := match v with JNum z => Some z | _ => None end.
Definition as_f64 (v : json) : option f64 := match v with JNum z => Some (mkF64 z 0) | _ => None end.
Definition show_json (v : json) : string := match v with JStr s => s | _ => "{}" end.
Definition to_pairing (v : json) : option PairingRequest :=
  id ← get_str v "request_id"; name ← get_str v "remote_device_name";
  Some (mkPairingRequest id name "phone" EmptyString []).
Definition to_transfer (v : json) : option TransferRequest := None.

Definition ask : IpcMessage json :=
  mkIpcMessage "pairing.request" true
    (JObj [("request_id", JStr "r1"); ("remote_device_name", JStr "Phone")]).

Lemma decisions_fail_closed_witness :
  exists es, handle_event as_bool as_u64 as_f64 show_json to_pairing to_transfer
      (mkIo (Ok "maybe") (Ok tt)) ask = Some es /\
    decisions es = [("pairing.decision", "r1", DenyOnce)].
Proof.
  destruct (handle_event as_bool as_u64 as_f64 show_json to_pairing to_transfer
    (mkIo (Ok "maybe") (Ok tt)) ask) as [es|] eqn:Hh; [|by vm_compute in Hh].
  exists es. split; [done|].
  destruct (decisions_fail_closed as_bool as_u64 as_f64 show_json to_pairing to_transfer
    (mkIo (Ok "maybe") (Ok tt)) ask es Hh) as [-> _]. by vm_compute.
Defined.

Lemma always_reported_denied_witness :
  exists es, handle_event as_bool as_u64 as_f64 show_json to_pairing to_transfer
      (mkIo (Ok "A") (Ok tt)) ask = Some es /\ Println "[pairing] denied" ∈ es.
Proof.
  destruct (always_reported_denied as_bool as_u64 as_f64 show_json to_pairing to_transfer
    "A" ask (mkPairingRequest "r1" "Phone" "phone" EmptyString [])) as (es & Hh & _ & Hd & _);
    [left; by vm_compute|done|by vm_compute|]. by exists es.
Defined.

Definition parse_line (line : string) : Result (IpcMessage json) string :=
  if String.eqb line "paused" then Ok (mkIpcMessage "transfer.paused" true JNull) else Err "expected value".

(** A line that does not parse, a pause, a line, one that is not text, and one
    that is not reached. *)
Definition chatter : list (option string) :=
  [Some "garbage"; None; Some "paused"; Some (String "255" EmptyString); Some "paused"].

Lemma event_lines_all_witness :
  event_lines as_bool as_u64 as_f64 show_json to_pairing to_transfer parse_line
    (attended (fun _ => mkIo (Err tt) (Ok tt)) 0 (buf_lines (stream chatter) EmptyString)) =
  ([Eprintln "[localbolt-cli] parse error: expected value"; Println "[transfer] paused";
    Eprintln "[localbolt-cli] IPC read error: stream did not contain valid UTF-8"], Returned).
Proof.
  assert (Hw : Forall (fun d => whole d = true) chatter) by (repeat constructor).
  destruct (event_lines_all as_bool as_u64 as_f64 show_json to_pairing to_transfer parse_line
    (fun _ => mkIo (Err tt) (Ok tt)) chatter Hw) as [(es & He & _)|(ds1 & bad & ds2 & es & Hds & Hes & Hcase)];
    [by vm_compute in He|].
  unfold chatter in Hds. destruct Hcase as [[Hu ->]|(m & Hu & Hm & Hty & _)].
  - destruct ds1 as [|d1 [|d2 [|d3 [|d4 [|d5 ds1]]]]]; simplify_eq/=;
      by vm_compute in Hu.
  - destruct ds1 as [|d1 [|d2 [|d3 [|d4 [|d5 ds1]]]]]; simplify_eq/=;
      try (by vm_compute in Hu); try (by vm_compute in Hm; simplify_eq); by destruct ds1.
Defined.

Lemma start_terminates_witness :
  Terminate 7 ∈ start_child "0.1.0" false 7
    (mkStartIo false (Ok tt) (Ok 7) (fun _ => false) (fun k => 250 * Z.of_nat k) (fun _ => false)
       (Failed EmptyString) (fun _ => true) ([], Returned)).
Proof.
  apply (start_terminates "0.1.0" false 7); [intros k; cbn; lia|by vm_compute].
Defined.

Lemma timeout_drops_partial_line_witness :
  buf_lines (bytes "{abc:" ++ None :: bytes "1}" ++ Some newline :: []) EmptyString =
    [Err TimedOut; Ok "1}"].
Proof.
  destruct (timeout_drops_partial_line "{abc:" "1}" []) as [-> _]; [by vm_compute..|].
  by vm_compute.
Defined.
End Witnesses.
