(* ===== verification/Gtk.v ===== *)
(** * The GTK client (native/linux/gtk/src/main.rs)

    What the window shows as the daemon's events come in, the two dialogs, and
    the decisions their answers stand for.  A widget is the properties the
    client sets; the toolkit, the bridge and the payload decoders are other
    crates'. *)

From S2P Require Import Prelude RStr Protocol CMem DaemonFfi Format Cli.

Open Scope Z_scope.
Local Open Scope stdpp_scope.

(** [pairing_decision_for_response] *)
Definition pairing_decision_for_response (response : string) : Decision :=
  if String.eqb response "accept" then AllowOnce
  else if String.eqb response "accept_always" then AllowAlways
  else if String.eqb response "decline_always" then DenyAlways
  else DenyOnce.

(** The closure of [show_transfer_dialog]. *)
Definition transfer_decision_for_response (response : string) : Decision :=
  if String.eqb response "accept" then AllowOnce else DenyOnce.

(** An [adw::AlertDialog]: its text, its answers, which one Enter gives and which
    one closing gives; what each answer sends. *)
Record dialog := mkDialog {
  dlg_heading : string;
  dlg_body : string;
  dlg_responses : list (string * string);
  dlg_default : string;
  dlg_close : string;
  dlg_send : string -> string * string * Decision;
}.

Definition nl : string := String "010"%char EmptyString.

(** [show_pairing_dialog] *)
Definition show_pairing_dialog (req : PairingRequest) : dialog :=
  mkDialog "Connection request"
    (if str_is_empty (pr_sas req) then pr_device_name req +:+ " wants to connect."
     else pr_device_name req +:+ " wants to connect." +:+ nl +:+ nl +:+
          "Confirm this code matches on both screens:" +:+ nl +:+ nl +:+ pr_sas req)
    [("decline_always", "Never"); ("decline", "Decline"); ("accept_always", "Always Allow");
     ("accept", "Connect Once")]
    "accept" "decline"
    (fun response => ("pairing.decision", pr_request_id req, pairing_decision_for_response response)).

(** [show_transfer_dialog] *)
Definition show_transfer_dialog (req : TransferRequest) : dialog :=
  mkDialog "Incoming file"
    (tr_from req +:+ " wants to send you:" +:+ nl +:+ nl +:+ tr_file_name req +:+ "  (" +:+
     human_size (tr_file_size req) +:+ ")")
    [("decline", "Decline"); ("accept", "Accept")]
    "accept" "decline"
    (fun response =>
       ("transfer.incoming.decision", tr_request_id req, transfer_decision_for_response response)).

(** The widgets the event loop sets. *)
Record ui := mkUi {
  ui_title : string;
  ui_description : string;
  ui_icon : string;
  ui_fraction : f64;
  ui_text : string;
  ui_progress : bool;
  ui_dialogs : list dialog;
}.

(** The window [build_ui] presents. *)
Definition build_ui : ui :=
  mkUi "Starting…" "Launching the LocalBolt engine" "network-transmit-receive-symbolic"
    (mkF64 0 0) EmptyString false [].

(** [idle] *)
Definition idle (title description : string) (u : ui) : ui :=
  mkUi title description "network-wireless-symbolic" (ui_fraction u) (ui_text u) (ui_progress u)
    (ui_dialogs u).

Definition set_icon (icon : string) (u : ui) : ui :=
  mkUi (ui_title u) (ui_description u) icon (ui_fraction u) (ui_text u) (ui_progress u) (ui_dialogs u).
Definition set_visible (b : bool) (u : ui) : ui :=
  mkUi (ui_title u) (ui_description u) (ui_icon u) (ui_fraction u) (ui_text u) b (ui_dialogs u).
Definition set_fraction (f : f64) (u : ui) : ui :=
  mkUi (ui_title u) (ui_description u) (ui_icon u) f (ui_text u) (ui_progress u) (ui_dialogs u).
Definition present (d : dialog) (u : ui) : ui :=
  mkUi (ui_title u) (ui_description u) (ui_icon u) (ui_fraction u) (ui_text u) (ui_progress u)
    (ui_dialogs u ++ [d]).

(** [f.clamp(0.0, 1.0)] *)
Definition clamp01 (f : f64) : f64 :=
  if (f_man f <? 0)%Z then mkF64 0 0 else if f64_ge f 1 then mkF64 1 0 else f.

(** [dev_daemon_paths], from [CARGO_MANIFEST_DIR]. *)
Definition dev_daemon_paths (manifest_dir : path) : list string :=
  let root := join manifest_dir [".."; ".."; ".."; ".."; "bolt-daemon"; "target"] in
  [path_str (join root ["release"; "bolt-daemon"]); path_str (join root ["debug"; "bolt-daemon"])].

Section Events.
Context {V : Type} `{Json V}.
Context (j_as_f64 : V -> option f64).
Context (pairing_of_value : V -> option PairingRequest).
Context (transfer_of_value : V -> option TransferRequest).

(** [payload[k].as_str()]: the index of a key that is not there is null. *)
Definition index_str (payload : V) (k : string) : option string := j_get payload k ≫= j_as_str.

Definition on_transfer_started (payload : V) (u : ui) : ui :=
  let file := default "file" (index_str payload "file_name") in
  mkUi "Receiving…" file "folder-download-symbolic" (mkF64 0 0) file true (ui_dialogs u).

Definition on_transfer_complete (payload : V) (u : ui) : ui :=
  let file := default "file" (index_str payload "file_name") in
  set_icon "emblem-ok-symbolic"
    (idle "Received" ("Saved " +:+ file +:+ " to your Downloads") (set_visible false u)).

(** The body of the event loop. *)
Definition on_event (name : string) (payload : V) (u : ui) : ui :=
  if String.eqb name "watchdog" then
    if bool_decide (index_str payload "state" = Some "Ready")
    then idle "Ready" "Waiting for a device to connect" u else u
  else if String.eqb name "daemon://pairing-request" then
    match pairing_of_value payload with
    | Some req => present (show_pairing_dialog req) u
    | None => u
    end
  else if String.eqb name "daemon://transfer-request" then
    match transfer_of_value payload with
    | Some req => present (show_transfer_dialog req) u
    | None => u
    end
  else if String.eqb name "daemon://session-connected" then
    idle "Connected" "Secure channel established" u
  else if String.eqb name "daemon://transfer-started" then on_transfer_started payload u
  else if String.eqb name "daemon://transfer-progress" then
    match j_get payload "progress" ≫= j_as_f64 with
    | Some f => set_fraction (clamp01 f) u
    | None => u
    end
  else if String.eqb name "daemon://transfer-complete" then on_transfer_complete payload u
  else if String.eqb name "daemon://transfer-error" || String.eqb name "daemon://session-error" then
    idle "Something went wrong" "The transfer didn't finish" (set_visible false u)
  else u.

(** The event loop, over what the bridge and the watchdog sent. *)
Definition event_loop (events : list (string * V)) : ui :=
  fold_left (fun u e => on_event e.1 e.2 u) events build_ui.

(** ** The callbacks *)

(** What the daemon's bridge and the watchdog report, on their own threads. *)
Inductive report := FromBridge (name : string) (payload : V) | FromWatchdog (state : string).

(** The two callbacks forward it to the main loop, in order. *)
Definition forward (r : report) : string * V :=
  match r with
  | FromBridge name payload => (name, payload)
  | FromWatchdog state => ("watchdog", j_obj [("state", j_str state)])
  end.

Definition window (reports : list report) : ui := event_loop (forward <$> reports).

(** [connect_close_request]: the shutdown flag is set, and the window closes. *)
Definition close_request (shutdown_flag : bool) : bool * bool := (true, true).

(** [send]: what is printed when the bridge refuses the decision. *)
Definition send (msg_type : string) (sent : Result unit string) : list string :=
  match sent with
  | Ok _ => []
  | Err e => ["[localbolt] failed to send " +:+ msg_type +:+ ": " +:+ e]
  end.

(** ** What the window promises *)

(** Whether the last of the events that start or end a transfer starts one. *)
Definition ends_transfer (name : string) : bool :=
  String.eqb name "daemon://transfer-complete" || String.eqb name "daemon://transfer-error"
  || String.eqb name "daemon://session-error".
Fixpoint receiving (names : list string) (before : bool) : bool :=
  match names with
  | [] => before
  | n :: names =>
    receiving names (if String.eqb n "daemon://transfer-started" then true
                     else if ends_transfer n then false else before)
  end.

(** The question an event asks the user, if it asks one. *)
Definition question (e : string * V) : option dialog :=
  if String.eqb e.1 "daemon://pairing-request" then show_pairing_dialog <$> pairing_of_value e.2
  else if String.eqb e.1 "daemon://transfer-request" then show_transfer_dialog <$> transfer_of_value e.2
  else None.

Definition fraction_ok (f : f64) : Prop := 0 <= f_man f /\ (f64_ge f 1 = true -> f = mkF64 1 0).

Lemma clamp01_ok f : fraction_ok (clamp01 f).
Proof.
  unfold clamp01, fraction_ok. destruct (Z.ltb_spec (f_man f) 0); [done|].
  destruct (f64_ge f 1) eqn:Hg; [done|]. by rewrite Hg.
Qed.

(** One event against the three specifications. *)
Lemma on_event_spec name payload u :
  let u' := on_event name payload u in
  ui_progress u' = receiving [name] (ui_progress u) /\
  ui_dialogs u' = ui_dialogs u ++ option_list (question (name, payload)) /\
  (fraction_ok (ui_fraction u) -> fraction_ok (ui_fraction u')).
Proof.
  cbn zeta. unfold on_event, receiving, question, ends_transfer. cbn [fst snd].
  destruct (String.eqb_spec name "watchdog") as [->|_].
  { case_bool_decide; rewrite app_nil_r; by split_and!. }
  destruct (String.eqb_spec name "daemon://pairing-request") as [->|_].
  { destruct (pairing_of_value payload); [by split_and!|by rewrite app_nil_r]. }
  destruct (String.eqb_spec name "daemon://transfer-request") as [->|_].
  { destruct (transfer_of_value payload); [by split_and!|by rewrite app_nil_r]. }
  rewrite app_nil_r.
  destruct (String.eqb_spec name "daemon://session-connected") as [->|_]; [by split_and!|].
  destruct (String.eqb_spec name "daemon://transfer-started") as [->|_]; [by split_and!|].
  destruct (String.eqb_spec name "daemon://transfer-progress") as [->|_].
  { destruct (_ ≫= _); split_and!; try done. intros _. apply clamp01_ok. }
  destruct (String.eqb_spec name "daemon://transfer-complete") as [->|_]; [by split_and!|].
  cbn [orb].
  by destruct (String.eqb name "daemon://transfer-error" || String.eqb name "daemon://session-error").
Qed.

Lemma receiving_cons n names before : receiving (n :: names) before = receiving names (receiving [n] before).
Proof. done. Qed.

Lemma event_loop_spec events u :
  let u' := fold_left (fun u e => on_event e.1 e.2 u) events u in
  ui_progress u' = receiving events.*1 (ui_progress u) /\
  ui_dialogs u' = ui_dialogs u ++ omap question events /\
  (fraction_ok (ui_fraction u) -> fraction_ok (ui_fraction u')).
Proof.
  revert u. induction events as [|[n v] events IH]; intros u; cbn zeta.
  - cbn. by rewrite app_nil_r.
  - destruct (on_event_spec n v u) as (Hp & Hd & Hf).
    destruct (IH (on_event n v u)) as (IHp & IHd & IHf).
    cbn [fold_left fmap list_fmap fst snd]. rewrite receiving_cons, <- Hp. split_and!; [done| |auto].
    rewrite IHd, Hd, <- app_assoc. f_equal. cbn [omap list_omap].
    by destruct (question (n, v)).
Qed.

(** C31: whatever the daemon and the watchdog send, the progress bar is shown
    exactly while the last event that starts or ends a transfer is a start, its
    fraction stays between 0 and 1, and the user is asked one question for each
    request that can be read, in the order they came, and none else. *)
Theorem window_tracks_events events :
  ui_progress (event_loop events) = receiving events.*1 false /\
  fraction_ok (ui_fraction (event_loop events)) /\
  ui_dialogs (event_loop events) = omap question events.
Proof.
  destruct (event_loop_spec events build_ui) as (Hp & Hd & Hf). split_and!; [done| |done].
  by apply Hf.
Qed.

Lemma on_watchdog payload u :
  on_event "watchdog" payload u =
    if bool_decide (index_str payload "state" = Some "Ready")
    then idle "Ready" "Waiting for a device to connect" u else u.
Proof. reflexivity. Qed.

(** A state the watchdog reports survives its way through the payload: the
    window turns to ready exactly on the state [Ready], and any other state
    leaves everything as it was. *)
Theorem watchdog_shown `{!JsonLaws V} reports state :
  window (reports ++ [FromWatchdog state]) =
    if bool_decide (state = "Ready") then idle "Ready" "Waiting for a device to connect" (window reports)
    else window reports.
Proof.
  unfold window, event_loop. rewrite fmap_app, fold_left_app. cbn [fmap list_fmap forward fold_left fst snd].
  rewrite on_watchdog. unfold index_str. rewrite j_get_obj by (by apply NoDup_singleton).
  unfold assoc. rewrite String.eqb_refl. cbn [mbind option_bind]. rewrite j_as_str_str.
  repeat case_bool_decide; congruence.
Qed.
End Events.

(** What closing a dialog or pressing Enter answers, and which decision an
    answer sends. A refusal of one session is what closing gives and what any
    unknown answer gives; Enter allows one session; a decision that the daemon
    remembers is sent only for the button that says so; a transfer is allowed
    only by its button; and every message carries the id of its request. *)
Theorem dialogs_decide req treq response :
  let p := show_pairing_dialog req in let t := show_transfer_dialog treq in
  dlg_send p (dlg_close p) = ("pairing.decision", pr_request_id req, DenyOnce) /\
  dlg_send p (dlg_default p) = ("pairing.decision", pr_request_id req, AllowOnce) /\
  ((dlg_send p response).2 = AllowOnce <-> response = dlg_default p) /\
  ((dlg_send p response).2 = AllowAlways <-> response = "accept_always") /\
  ((dlg_send p response).2 = DenyAlways <-> response = "decline_always") /\
  (forall d, d ∈ [AllowOnce; AllowAlways; DenyOnce; DenyAlways] ->
     exists r, r ∈ (dlg_responses p).*1 /\ (dlg_send p r).2 = d) /\
  dlg_send t (dlg_close t) = ("transfer.incoming.decision", tr_request_id treq, DenyOnce) /\
  ((dlg_send t response).2 = AllowOnce <-> response = dlg_default t) /\
  ((dlg_send t response).2 <> AllowOnce -> (dlg_send t response).2 = DenyOnce) /\
  (dlg_send p response).1 = ("pairing.decision", pr_request_id req) /\
  (dlg_send t response).1 = ("transfer.incoming.decision", tr_request_id treq).
Proof.
  cbn [show_pairing_dialog show_transfer_dialog dlg_send dlg_close dlg_default dlg_responses fst snd fmap list_fmap].
  unfold pairing_decision_for_response, transfer_decision_for_response.
  split_and!.
  1, 2, 7, 10, 11: reflexivity.
  4: { intros d Hd. set_unfold in Hd. destruct Hd as [-> |[-> |[-> |[-> |[]]]]].
       - exists "accept". split; [set_solver|done].
       - exists "accept_always". split; [set_solver|done].
       - exists "decline". split; [set_solver|done].
       - exists "decline_always". split; [set_solver|done]. }
  4, 5: by destruct (String.eqb_spec response "accept").
  all: destruct (String.eqb_spec response "accept") as [->|]; [by split|];
       destruct (String.eqb_spec response "accept_always") as [->|]; [by split|];
       by destruct (String.eqb_spec response "decline_always") as [->|].
Qed.

Lemma dialogs_decide_witness :
  exists r, r ∈ ["decline_always"; "decline"; "accept_always"; "accept"] /\
    pairing_decision_for_response r = DenyAlways.
Proof.
  destruct (dialogs_decide (mkPairingRequest "r1" "Phone" "phone" EmptyString [])
              (mkTransferRequest "r2" "a.txt" 3 "Phone") "accept")
    as (_ & _ & _ & _ & _ & Hd & _).
  apply (Hd DenyAlways). set_solver.
Defined.
