(* ===== verification/NativeTests.v ===== *)
(** * The unit tests of the native clients (native/shared, native/linux)

    The tests of the shared library, the command line client and the GTK client
    whose subject is in this repository, run on the models.  Tests of what other
    crates compute (the peer code generator, the platform's directories, the
    serialised form of a decision) are left out. *)

From S2P Require Import Prelude RStr Protocol Testing CMem SignalingFfi SignalingFacts IpcFfi DaemonFfi.
From S2P Require Import Format Cli CliCommands Gtk.

Open Scope Z_scope.
Local Open Scope stdpp_scope.

(** ** Peers (native/shared/src/signaling.rs) *)

Abbreviation heap_test := (test heap).

(** [make_bolt_peer] of the test module. *)
Definition make_bolt_peer (peer : AppPeer) (h : heap) : ptr * heap :=
  let '(wt_url_ptr, h) := opt_c_string (ap_wt_url peer) h in
  let '(wt_hash_ptr, h) := opt_c_string (ap_wt_cert_hash peer) h in
  let '(peer_code, h) := to_c_string (ap_code peer) h in
  let '(device_name, h) := to_c_string (ap_name peer) h in
  let '(device_type, h) := to_c_string (ap_type peer) h in
  alloc (CellPeer (mkBoltPeer peer_code device_name device_type wt_url_ptr wt_hash_ptr)) h.

(** [&*ptr] *)
Definition deref (p : ptr) : heap_test BoltPeer := fun h =>
  match p with
  | Some a => match h_cells h !! a with Some (CellPeer bp) => Some (bp, h) | _ => None end
  | None => None
  end.

(** [bolt_peer_free(ptr)]: undefined behaviour fails the test. *)
Definition peer_free (p : ptr) : heap_test unit := fun h =>
  match bolt_peer_free p h with Some h => Some (tt, h) | None => None end.

(** [CStr::from_ptr(p).to_str().unwrap()] *)
Definition c_text (p : ptr) : heap_test string := fun h =>
  match read_str p h ≫= to_str with Some s => Some (s, h) | None => None end.

Definition is_null (p : ptr) : bool := negb (is_some p).

Definition bolt_peer_without_wt_has_null_pointers : heap_test unit :=
  let peer := mkAppPeer "BROWSER1" "Chrome" "browser" None None in
  ptr ← call (make_bolt_peer peer);
  p ← deref ptr;
  assert_that (negb (is_null (bp_peer_code p)));;
  assert_that (negb (is_null (bp_device_name p)));;
  assert_that (is_null (bp_wt_url p));;
  assert_that (is_null (bp_wt_cert_hash p));;
  peer_free ptr.

Definition bolt_peer_with_wt_has_valid_pointers : heap_test unit :=
  let peer := mkAppPeer "NATIVE1" "Mac Studio" "desktop" (Some "https://192.168.1.10:9871")
                (Some "abcdef1234567890") in
  ptr ← call (make_bolt_peer peer);
  p ← deref ptr;
  assert_that (negb (is_null (bp_wt_url p)));;
  assert_that (negb (is_null (bp_wt_cert_hash p)));;
  url ← c_text (bp_wt_url p);
  hash ← c_text (bp_wt_cert_hash p);
  assert_eq url "https://192.168.1.10:9871";;
  assert_eq hash "abcdef1234567890";;
  peer_free ptr.

Definition bolt_peer_repeated_construction_is_stable : heap_test unit :=
  let peer := mkAppPeer "REPEAT1" "Test" "browser" None None in
  for_each (range 50) (fun _ =>
    ptr ← call (make_bolt_peer peer);
    p ← deref ptr;
    assert_that (is_null (bp_wt_url p));;
    assert_that (is_null (bp_wt_cert_hash p));;
    peer_free ptr).

Definition with_nul (before after : string) : string := before +:+ String nul after.

Definition bolt_peer_with_nul_in_device_name_yields_null_ptr_no_abort : heap_test unit :=
  let peer := mkAppPeer "GOODCODE" (with_nul "Evil" "Name") "browser" None None in
  ptr ← call (make_bolt_peer peer);
  p ← deref ptr;
  assert_that (is_null (bp_device_name p));;
  assert_that (negb (is_null (bp_peer_code p)));;
  assert_that (negb (is_null (bp_device_type p)));;
  peer_free ptr.

Definition bolt_peer_with_nul_in_peer_code_yields_null_ptr : heap_test unit :=
  let peer := mkAppPeer (with_nul "BAD" "CODE") "Phone" "phone" None None in
  ptr ← call (make_bolt_peer peer);
  p ← deref ptr;
  assert_that (is_null (bp_peer_code p));;
  assert_that (negb (is_null (bp_device_name p)));;
  peer_free ptr.

(** [free_null_is_safe] (native/shared/src/lib.rs) *)
Definition free_null_is_safe : heap_test unit := fun h =>
  match bolt_free_string None h with Some h => Some (tt, h) | None => None end.

Definition peer_tests : list (heap_test unit) :=
  [ bolt_peer_without_wt_has_null_pointers; bolt_peer_with_wt_has_valid_pointers;
    bolt_peer_repeated_construction_is_stable;
    bolt_peer_with_nul_in_device_name_yields_null_ptr_no_abort;
    bolt_peer_with_nul_in_peer_code_yields_null_ptr; free_null_is_safe ].

(** ** The null handle (native/shared/src/ipc.rs) *)

(** The bridge finds no socket. *)
Definition no_socket (path version : string) : Result unit string := Err "No such file or directory".

Definition start_with_bad_path_returns_null : bool :=
  match bolt_ipc_start no_socket (Some "/nonexistent/socket") (Some "0.1.0") with
  | None => true | Some _ => false
  end.

Definition stop_null_is_safe : bool := negb (bolt_ipc_stop None).1.

Definition is_connected_null_returns_zero : bool :=
  forallb (fun connected => bolt_ipc_is_connected None connected =? 0) [true; false].

Definition drain_events_null_returns_null : bool :=
  is_null (bolt_ipc_drain_events None (mkHeap 0 ∅)).1.1.

(** ** The daemon (native/shared/src/daemon.rs) *)

Definition installed_exe : path :=
  mkPath true ["Applications"; "LocalBolt.app"; "Contents"; "MacOS"; "LocalBolt"].

Definition lookup_has_no_stale_desktop_fallback : bool :=
  forallb (fun s => negb (str_contains "Desktop/the9ines.com" s))
    (daemon_candidate_paths (Some installed_exe) None).

Definition lookup_hardcodes_no_absolute_home : bool :=
  forallb (fun s => negb (str_contains "/Users/oberfelder" s))
    (daemon_candidate_paths (Some installed_exe) None).

(** [lookup_tmp]: a scratch directory, by its tag, the process id and a count. *)
Definition lookup_tmp (tag : string) (pid n : Z) : path :=
  mkPath true ["tmp"; "bolt-lookup-" +:+ tag +:+ "-" +:+ show_Z pid +:+ "-" +:+ show_Z n].

(** [touch_exec]: the files there are. *)
Definition touched (files : list path) (s : string) : bool := bool_decide (s ∈ path_str <$> files).

Definition lookup_finds_bundled_sidecar : bool :=
  let root := lookup_tmp "bundle" 4242 0 in
  let macos_dir := join root ["LocalBolt.app"; "Contents"; "MacOS"] in
  let exe := join macos_dir ["LocalBolt"] in
  let sidecar := join macos_dir ["bolt-daemon"] in
  bool_decide (resolve_daemon_binary (touched [exe; sidecar]) (Some exe) None = Some (path_str sidecar)).

Definition lookup_finds_dev_repo_relative_daemon : bool :=
  let root := lookup_tmp "dev" 4242 1 in
  let exe := join root ["bolt-ecosystem"; "localbolt-app"; "native"; "macos"; ".build"; "release"; "LocalBolt"] in
  let daemon := join root ["bolt-ecosystem"; "bolt-daemon"; "target"; "release"; "bolt-daemon"] in
  bool_decide (resolve_daemon_binary (touched [exe; daemon]) (Some exe) None = Some (path_str daemon)).

Definition lookup_explicit_override_wins : bool :=
  let root := lookup_tmp "override" 4242 2 in
  let macos_dir := join root ["LocalBolt.app"; "Contents"; "MacOS"] in
  let exe := join macos_dir ["LocalBolt"] in
  let sidecar := join macos_dir ["bolt-daemon"] in
  let chosen := join root ["custom"; "bolt-daemon"] in
  bool_decide (resolve_daemon_binary (touched [exe; sidecar; chosen]) (Some exe)
    (Some (path_str chosen)) = Some (path_str chosen)).

Definition lookup_returns_none_when_absent : bool :=
  let root := lookup_tmp "absent" 4242 3 in
  let exe := join root ["LocalBolt.app"; "Contents"; "MacOS"; "LocalBolt"] in
  bool_decide (resolve_daemon_binary (touched [exe]) (Some exe) None = None).

Definition spawn_args_use_ask_not_allow : bool :=
  let args := daemon_spawn_args "0.0.0.0:9100" "/tmp/x.sock" "/tmp/data" in
  match position (fun a => String.eqb a "--pairing-policy") args with
  | Some pos => bool_decide (args !! S pos = Some "ask") && negb (bool_decide ("allow" ∈ args))
  | None => false
  end.

(** The platform's default, on one platform. *)
Definition data_dir_is_platform_default_not_tmp : bool :=
  let default_data_dir := "/home/user/.local/share/bolt" in
  let dir := daemon_data_dir default_data_dir in
  negb (starts_with "/tmp/bolt-native-" dir) && String.eqb dir default_data_dir.

(** ** The command line client (native/linux/cli/src/main.rs) *)

Definition chooses (d : Decision) (input : string) : bool := bool_decide (parse_pairing_choice input = d).

Definition pairing_choice_allow_once : bool :=
  all_hold [chooses AllowOnce ("y" +:+ nl); chooses AllowOnce "Y"; chooses AllowOnce "yes"].

Definition pairing_choice_allow_always_is_available : bool :=
  all_hold [chooses AllowAlways ("a" +:+ nl); chooses AllowAlways "A"; chooses AllowAlways "always"].

Definition pairing_choice_deny_always_is_available : bool :=
  all_hold [chooses DenyAlways ("d" +:+ nl); chooses DenyAlways "never"].

Definition pairing_choice_unknown_input_denies_once : bool :=
  forallb (chooses DenyOnce) [""; nl; "n"; "no"; "maybe"; "yolo"; "   "].

Definition format_bytes_units : bool :=
  all_hold
    [ String.eqb (format_bytes 0) "0 B"; String.eqb (format_bytes 512) "512 B";
      String.eqb (format_bytes 1024) "1.0 KB"; String.eqb (format_bytes 1048576) "1.0 MB";
      String.eqb (format_bytes 1073741824) "1.0 GB" ].

(** The command lines of the tests, as parsed. *)
Definition cli_default : CliOpts := mkCliOpts None None None.

Definition resolve_socket_path_default : bool :=
  negb (str_is_empty (resolve_socket_path "/run/user/1000/bolt.sock" cli_default)).

Definition resolve_socket_path_override : bool :=
  String.eqb (resolve_socket_path "/run/user/1000/bolt.sock" (mkCliOpts None (Some "/tmp/custom.sock") None))
    "/tmp/custom.sock".

Definition resolve_data_dir_default : bool :=
  negb (str_is_empty (resolve_data_dir "/home/user/.local/share/bolt" cli_default)).

Definition resolve_data_dir_override : bool :=
  String.eqb (resolve_data_dir "/home/user/.local/share/bolt" (mkCliOpts None None (Some "/tmp/custom-data")))
    "/tmp/custom-data".

(** ** The GTK client (native/linux/gtk/src/main.rs) *)

Definition decides (d : Decision) (response : string) : bool :=
  bool_decide (pairing_decision_for_response response = d).

Definition response_allow_once : bool := decides AllowOnce "accept".
Definition response_allow_always_is_available : bool := decides AllowAlways "accept_always".
Definition response_deny_always_is_available : bool := decides DenyAlways "decline_always".
Definition response_decline_denies_once : bool := decides DenyOnce "decline".
Definition unknown_or_dismissed_response_denies_once : bool :=
  forallb (decides DenyOnce) [""; "close"; "whatever"; "ACCEPT"].

Definition native_tests : list bool :=
  [ start_with_bad_path_returns_null; stop_null_is_safe; is_connected_null_returns_zero;
    drain_events_null_returns_null; lookup_has_no_stale_desktop_fallback;
    lookup_hardcodes_no_absolute_home; lookup_finds_bundled_sidecar;
    lookup_finds_dev_repo_relative_daemon; lookup_explicit_override_wins;
    lookup_returns_none_when_absent; spawn_args_use_ask_not_allow;
    data_dir_is_platform_default_not_tmp; pairing_choice_allow_once;
    pairing_choice_allow_always_is_available; pairing_choice_deny_always_is_available;
    pairing_choice_unknown_input_denies_once; format_bytes_units; resolve_socket_path_default;
    resolve_socket_path_override; resolve_data_dir_default; resolve_data_dir_override;
    response_allow_once; response_allow_always_is_available; response_deny_always_is_available;
    response_decline_denies_once; unknown_or_dismissed_response_denies_once ].

(** The models of the shared library and of the two Linux clients pass the
    repository's own unit tests of them; the tests on peers leave the memory as
    they found it. *)
Example native_tests_pass :
  all_hold native_tests = true /\
  forallb (fun t => passes t (mkHeap 0 ∅)) peer_tests = true /\
  Forall (fun t => forall r, t (mkHeap 0 ∅) = Some r -> h_cells r.2 = ∅) peer_tests.
Proof.
  split; [by vm_compute|]. split; [by vm_compute|].
  repeat constructor; intros [[] h] Ht; vm_compute in Ht; by injection Ht as <-.
Qed.

(** The test helper exercises the path of the export it stands for: a peer read
    by index is the peer the helper makes of the same data. *)
Lemma make_bolt_peer_is_get_peer {V} (st : BoltSignaling V) (index : Z) (peer : AppPeer) (h : heap) :
  bs_peers st !! Z.to_nat index = Some peer ->
  bolt_signaling_get_peer (Some st) index h = make_bolt_peer peer h.
Proof. intros Hp. unfold bolt_signaling_get_peer, make_bolt_peer. by rewrite Hp. Qed.
